(** * FilterX scopes, variables and lazy message references

    A shallow embedding of [lib/filterx/filterx-scope.c] and
    [lib/filterx/expr-message-ref.c]: the sorted variable table of a
    scope with its open-coded binary search, copy-on-write cloning,
    the synchronisation of a scope into a log message, and the
    evaluation, assignment, is-set and unset operations of a message
    reference expression.

    Memory is explicit.  Objects, scopes and log messages live in
    three stores indexed by address; a [FilterXObject *] is an optional
    address ([None] is [NULL]), a [FilterXVariable *] is a scope address
    together with an index into that scope's array. *)

From Stdlib Require Import ZArith List Lia Bool String.
From stdpp Require Import base option list gmap strings.

Local Open Scope Z_scope.

(** ** Machine integers *)

Module CInt.

Definition GUINT_MODULUS : Z := 2 ^ 32.
Definition G_MAXINT : Z := 2 ^ 31 - 1.
Definition G_MININT : Z := - 2 ^ 31.

(** Arithmetic on [guint] is modulo 2^32. *)
Definition to_guint (z : Z) : Z := z mod GUINT_MODULUS.

(** Conversion of an out-of-range [guint] to [gint] keeps the bit
    pattern (two's complement). *)
Definition to_gint (z : Z) : Z :=
  let u := z mod GUINT_MODULUS in
  if u <=? G_MAXINT then u else u - GUINT_MODULUS.

Definition gint_in_range (z : Z) : bool :=
  (G_MININT <=? z) && (z <=? G_MAXINT).

(** Signed overflow is undefined: the checked operations have no
    result then. *)
Definition gint_add (a b : Z) : option Z :=
  if gint_in_range (a + b) then Some (a + b) else None.

Definition gint_sub (a b : Z) : option Z :=
  if gint_in_range (a - b) then Some (a - b) else None.

End CInt.

Import CInt.

(** ** Data *)

(** [NVHandle] is a [guint32]; handles are only compared. *)
Definition NVHandle : Type := Z.

(** The numeric tag of a [LogMessageValueType]. *)
Definition LogMessageValueType : Type := Z.

(** Addresses of cells of the stores. *)
Abbreviation address := positive (only parsing).

(** [struct _FilterXVariable] *)
Record FilterXVariable : Type := mkVariable {
  handle : NVHandle;
  floating : bool;
  assigned : bool;
  value : option address
}.

(** [struct _FilterXScope]; the two arrays are modelled by lists. *)
Record FilterXScope : Type := mkScope {
  ref_cnt : Z;
  variables : list FilterXVariable;
  weak_refs : list address;
  write_protected : bool
}.

(** [g_array_index (a, FilterXVariable, i)]: no element outside the
    array. *)
Definition g_array_index (a : list FilterXVariable) (i : Z) : option FilterXVariable :=
  if 0 <=? i then a !! Z.to_nat i else None.

(** [array->len], a [guint]. *)
Definition g_array_len (a : list FilterXVariable) : Z := Z.of_nat (length a).

(** ** Binary search *)

Inductive lookup_outcome : Type :=
| LookupReturn (found : bool) (v_slot : Z)
| LookupUndefined
| LookupOutOfFuel.

(** The [while (l <= h)] loop of [_lookup_variable]; [v_slot] is
    reported as the index of the element it points to. *)
Fixpoint lookup_loop (fuel : nat) (vars : list FilterXVariable) (h0 : NVHandle)
    (l h : Z) : lookup_outcome :=
  match fuel with
  | O => LookupOutOfFuel
  | S fuel' =>
    if l <=? h then
      match gint_add l h with
      | None => LookupUndefined
      | Some s =>
        let m := Z.shiftr s 1 in
        match g_array_index vars m with
        | None => LookupUndefined
        | Some m_elem =>
          let mv := handle m_elem in
          if mv =? h0 then LookupReturn true m
          else if mv >? h0 then
            match gint_sub m 1 with
            | Some h' => lookup_loop fuel' vars h0 l h'
            | None => LookupUndefined
            end
          else
            match gint_add m 1 with
            | Some l' => lookup_loop fuel' vars h0 l' h
            | None => LookupUndefined
            end
        end
      end
    else LookupReturn false l
  end.

(** [_lookup_variable]: [h = self->variables->len - 1] is computed in
    [guint] and converted to [gint]. *)
Definition _lookup_variable (vars : list FilterXVariable) (h0 : NVHandle) : lookup_outcome :=
  lookup_loop (S (length vars)) vars h0 0 (to_gint (to_guint (g_array_len vars - 1))).

(** ** The stores *)

(** Modelled from the spec: the Value contract.  [FilterXObject] and its
    operations are declared in [filterx/filterx-object.h], which is not
    part of the sources at hand.  A value is reference counted, is of a
    mutable or an immutable variant, carries the modified-in-place flag,
    and marshals to bytes and a type tag, or fails to. *)
Record FilterXObject : Type := mkObject {
  obj_ref_cnt : Z;
  obj_mutable : bool;
  modified_in_place : bool;
  obj_repr : option (string * LogMessageValueType)
}.

(** Modelled from the spec: the Record contract ([logmsg/logmsg.h] is
    not part of the sources at hand).  A message maps handles to typed
    bytes; [nv_calls] logs the mutating calls it has received, oldest
    first. *)
Inductive LogMessageCall : Type :=
| CallSetValue (h : NVHandle) (bytes : string) (t : LogMessageValueType)
| CallUnsetValue (h : NVHandle).

Record LogMessage : Type := mkMessage {
  nv_values : gmap Z (string * LogMessageValueType);
  nv_calls : list LogMessageCall
}.

(** Modelled from the spec: the EvalContext exposes the active scope and
    the active messages ([filterx/filterx-eval.h] is not part of the
    sources at hand). *)
Record FilterXEvalContext : Type := mkContext {
  scope : address;
  msgs : list address
}.

Record World : Type := mkWorld {
  objects : gmap positive FilterXObject;
  scopes : gmap positive FilterXScope;
  messages : gmap positive LogMessage;
  eval_context : FilterXEvalContext
}.

(** A [FilterXVariable *]: the scope whose array holds the element, and
    the element's index. *)
Definition variable_ptr : Type := (address * Z)%type.

(** ** The monad of effects *)

Inductive result (A : Type) : Type :=
| Ok (a : A) (w : World)   (* returned [a] *)
| Abort (w : World)        (* a [g_assert] failed in state [w] *)
| Undefined                (* undefined behaviour *)
| OutOfFuel.
Arguments Ok {A} a w.
Arguments Abort {A} w.
Arguments Undefined {A}.
Arguments OutOfFuel {A}.

Definition M (A : Type) : Type := World -> result A.

#[global] Instance M_ret : MRet M := fun A a w => Ok a w.
#[global] Instance M_bind : MBind M := fun A B f m w =>
  match m w with
  | Ok a w' => f a w'
  | Abort w' => Abort w'
  | Undefined => Undefined
  | OutOfFuel => OutOfFuel
  end.

Definition undefined {A} : M A := fun _ => Undefined.
Definition out_of_fuel {A} : M A := fun _ => OutOfFuel.
Definition abort {A} : M A := fun w => Abort w.
Definition get_world : M World := fun w => Ok w w.
Definition put_world (w : World) : M unit := fun _ => Ok tt w.

(** [g_assert (c)] and [g_assert_not_reached ()] *)
Definition g_assert (c : bool) : M unit := if c then mret tt else abort.
Definition g_assert_not_reached : M unit := abort.

(** A computation with no result is undefined. *)
Definition defined {A} (o : option A) : M A :=
  match o with Some a => mret a | None => undefined end.

Definition with_objects (f : gmap positive FilterXObject -> gmap positive FilterXObject)
    (w : World) : World :=
  mkWorld (f (objects w)) (scopes w) (messages w) (eval_context w).
Definition with_scopes (f : gmap positive FilterXScope -> gmap positive FilterXScope)
    (w : World) : World :=
  mkWorld (objects w) (f (scopes w)) (messages w) (eval_context w).
Definition with_messages (f : gmap positive LogMessage -> gmap positive LogMessage)
    (w : World) : World :=
  mkWorld (objects w) (scopes w) (f (messages w)) (eval_context w).

Definition set_objects f : M unit := fun w => Ok tt (with_objects f w).
Definition set_scopes f : M unit := fun w => Ok tt (with_scopes f w).
Definition set_messages f : M unit := fun w => Ok tt (with_messages f w).

(** Reading through a pointer is undefined unless it points to a live
    cell; writing replaces the cell's content. *)
Definition get_object (a : address) : M FilterXObject :=
  w ← get_world; defined (objects w !! a).
Definition put_object (a : address) (o : FilterXObject) : M unit :=
  _ ← get_object a; set_objects (insert a o).
Definition get_scope (a : address) : M FilterXScope :=
  w ← get_world; defined (scopes w !! a).
Definition put_scope (a : address) (s : FilterXScope) : M unit :=
  _ ← get_scope a; set_scopes (insert a s).
Definition get_message (a : address) : M LogMessage :=
  w ← get_world; defined (messages w !! a).
Definition put_message (a : address) (m : LogMessage) : M unit :=
  _ ← get_message a; set_messages (insert a m).

Definition get_variable (v : variable_ptr) : M FilterXVariable :=
  s ← get_scope v.1; defined (g_array_index (variables s) v.2).

Definition set_variables (s : FilterXScope) (vars : list FilterXVariable) : FilterXScope :=
  mkScope (ref_cnt s) vars (weak_refs s) (write_protected s).

Definition put_variable (v : variable_ptr) (x : FilterXVariable) : M unit :=
  s ← get_scope v.1;
  _ ← defined (g_array_index (variables s) v.2);
  put_scope v.1 (set_variables s (<[Z.to_nat v.2 := x]> (variables s))).

(** Field-wise stores through a [FilterXVariable *]. *)
Definition store_value (v : variable_ptr) (p : option address) : M unit :=
  x ← get_variable v;
  put_variable v (mkVariable (handle x) (floating x) (assigned x) p).
Definition store_assigned (v : variable_ptr) (b : bool) : M unit :=
  x ← get_variable v;
  put_variable v (mkVariable (handle x) (floating x) b (value x)).

(** ** Objects *)

Definition set_obj_ref_cnt (o : FilterXObject) (n : Z) : FilterXObject :=
  mkObject n (obj_mutable o) (modified_in_place o) (obj_repr o).
Definition set_modified_in_place (o : FilterXObject) (b : bool) : FilterXObject :=
  mkObject (obj_ref_cnt o) (obj_mutable o) b (obj_repr o).

(** Modelled from the spec: acquire.  [filterx_object_ref] is missing
    from the sources; it is applied to [NULL] by the scope, which it
    hands back. *)
Definition filterx_object_ref (self : option address) : M (option address) :=
  match self with
  | None => mret None
  | Some a =>
    o ← get_object a;
    put_object a (set_obj_ref_cnt o (obj_ref_cnt o + 1));;
    mret (Some a)
  end.

(** Modelled from the spec: release.  [filterx_object_unref] is missing
    from the sources; the object is freed with its last reference. *)
Definition filterx_object_unref (self : option address) : M unit :=
  match self with
  | None => mret tt
  | Some a =>
    o ← get_object a;
    if obj_ref_cnt o - 1 =? 0
    then set_objects (delete a)
    else put_object a (set_obj_ref_cnt o (obj_ref_cnt o - 1))
  end.

(** Modelled from the spec: clone, a deep copy for mutable variants and
    cheap for immutable ones.  [filterx_object_clone] is missing from the
    sources; the caller's comment says it only clones mutable objects.
    The copy is a fresh object holding one reference, value-equal to the
    original and not yet modified in place; an immutable object is
    shared, with one more reference.  An absent value clones to an
    absent value. *)
Definition filterx_object_clone (self : option address) : M (option address) :=
  match self with
  | None => mret None
  | Some a =>
    o ← get_object a;
    if obj_mutable o then
      w ← get_world;
      let c := fresh (dom (objects w)) in
      set_objects (insert c (mkObject 1 true false (obj_repr o)));;
      mret (Some c)
    else filterx_object_ref (Some a)
  end.

(** Modelled from the spec: marshal to bytes and a type tag.
    [filterx_object_marshal] is missing from the sources; [None] is its
    [FALSE]. *)
Definition filterx_object_marshal (self : address) : M (option (string * LogMessageValueType)) :=
  o ← get_object self; mret (obj_repr o).

(** Modelled from the spec: the record's bytes wrapped as a value.
    [filterx_message_value_new_borrowed] is missing from the sources; the
    new object is immutable, holds one reference and marshals to the
    bytes and type it wraps. *)
Definition filterx_message_value_new_borrowed (repr : string) (t : LogMessageValueType)
    : M address :=
  w ← get_world;
  let a := fresh (dom (objects w)) in
  set_objects (insert a (mkObject 1 false false (Some (repr, t))));;
  mret a.

(** ** Log messages *)

(** Modelled from the spec: get-if-set. *)
Definition log_msg_get_value_if_set_with_type (msg : address) (h : NVHandle)
    : M (option (string * LogMessageValueType)) :=
  m ← get_message msg; mret (nv_values m !! h).

(** Modelled from the spec: is-set. *)
Definition log_msg_is_value_set (msg : address) (h : NVHandle) : M bool :=
  m ← get_message msg; mret (bool_decide (is_Some (nv_values m !! h))).

(** Modelled from the spec: set-with-type. *)
Definition log_msg_set_value_with_type (msg : address) (h : NVHandle) (bytes : string)
    (t : LogMessageValueType) : M unit :=
  m ← get_message msg;
  put_message msg (mkMessage (<[h := (bytes, t)]> (nv_values m))
                             (nv_calls m ++ [CallSetValue h bytes t])).

(** Modelled from the spec: unset. *)
Definition log_msg_unset_value (msg : address) (h : NVHandle) : M unit :=
  m ← get_message msg;
  put_message msg (mkMessage (delete h (nv_values m)) (nv_calls m ++ [CallUnsetValue h])).

(** ** Variables *)

Definition filterx_variable_get_value (v : variable_ptr) : M (option address) :=
  x ← get_variable v;
  filterx_object_ref (value x).

Definition filterx_variable_set_value (v : variable_ptr) (new_value : option address) : M unit :=
  x ← get_variable v;
  filterx_object_unref (value x);;
  r ← filterx_object_ref new_value;
  store_value v r;;
  store_assigned v true.

Definition filterx_variable_unset_value (v : variable_ptr) : M unit :=
  filterx_variable_set_value v None.

Definition filterx_variable_is_set (v : variable_ptr) : M bool :=
  x ← get_variable v;
  mret (bool_decide (value x ≠ None)).

Definition _variable_free (x : FilterXVariable) : M unit :=
  filterx_object_unref (value x).

(** ** Scopes *)

Definition filterx_scope_lookup_variable (self : address) (h0 : NVHandle)
    : M (option variable_ptr) :=
  s ← get_scope self;
  match _lookup_variable (variables s) h0 with
  | LookupReturn true v => mret (Some (self, v))
  | LookupReturn false _ => mret None
  | LookupUndefined => undefined
  | LookupOutOfFuel => out_of_fuel
  end.

(** [sizeof (FilterXVariable)] and the width of [gsize] on LP64. *)
Definition SIZEOF_VARIABLE : Z := 16.
Definition to_gsize (z : Z) : Z := z mod 2 ^ 64.

(** [g_array_insert_val (a, i, v)] for [i <= a->len]. *)
Definition g_array_insert_val (a : list FilterXVariable) (i : Z) (v : FilterXVariable)
    : list FilterXVariable :=
  take (Z.to_nat i) a ++ v :: drop (Z.to_nat i) a.

Definition filterx_scope_register_variable (self : address) (h0 : NVHandle)
    (is_floating : bool) (initial_value : option address) : M variable_ptr :=
  s ← get_scope self;
  match _lookup_variable (variables s) h0 with
  | LookupReturn true v_slot =>
    (* already present *)
    mret (self, v_slot)
  | LookupReturn false v_slot =>
    (* turn v_slot into an index *)
    let v_index := to_gsize (v_slot * SIZEOF_VARIABLE) / SIZEOF_VARIABLE in
    g_assert (v_index <=? g_array_len (variables s));;
    (* the element at v_index is the one v_slot points to *)
    g_assert (to_gsize (v_index * SIZEOF_VARIABLE) =? to_gsize (v_slot * SIZEOF_VARIABLE));;
    r ← filterx_object_ref initial_value;
    let v := mkVariable h0 is_floating false r in
    s' ← get_scope self;
    put_scope self (set_variables s' (g_array_insert_val (variables s') v_index v));;
    mret (self, v_index)
  | LookupUndefined => undefined
  | LookupOutOfFuel => out_of_fuel
  end.

Definition filterx_scope_store_weak_ref (self : address) (object : option address) : M unit :=
  s ← get_scope self;
  g_assert (negb (write_protected s));;
  match object with
  | Some a =>
    _ ← filterx_object_ref (Some a);
    s' ← get_scope self;
    put_scope self (mkScope (ref_cnt s') (variables s') (weak_refs s' ++ [a]) (write_protected s'))
  | None => mret tt
  end.

(** The body of the loop of [filterx_scope_sync_to_message] for index
    [i]. *)
Definition sync_variable (self msg : address) (i : Z) : M unit :=
  let v := (self, i) in
  x ← get_variable v;
  if floating x then mret tt
  else
    match value x with
    | None =>
      (* we need to unset *)
      log_msg_unset_value msg (handle x);;
      store_assigned v false
    | Some a =>
      dirty ← (if assigned x then mret true
               else o ← get_object a; mret (modified_in_place o));
      if dirty : bool then
        r ← filterx_object_marshal a;
        match r with
        | None => g_assert_not_reached
        | Some (bytes, t) =>
          log_msg_set_value_with_type msg (handle x) bytes t;;
          o ← get_object a;
          put_object a (set_modified_in_place o false);;
          store_assigned v false
        end
      else mret tt
    end.

(** [for (gint i = 0; i < self->variables->len; i++)]: the comparison
    is made in [guint]. *)
Fixpoint sync_loop (fuel : nat) (self msg : address) (i : Z) : M unit :=
  match fuel with
  | O => out_of_fuel
  | S fuel' =>
    s ← get_scope self;
    if to_guint i <? g_array_len (variables s) then
      sync_variable self msg i;;
      i' ← defined (gint_add i 1);
      sync_loop fuel' self msg i'
    else mret tt
  end.

Definition filterx_scope_sync_to_message (self msg : address) : M unit :=
  s ← get_scope self;
  sync_loop (S (length (variables s))) self msg 0.

Definition filterx_scope_new : M address :=
  w ← get_world;
  let self := fresh (dom (scopes w)) in
  set_scopes (insert self (mkScope 1 [] [] false));;
  mret self.

(** The body of the loop of [filterx_scope_clone] for index [i]. *)
Definition clone_variable (other self : address) (i : Z) : M unit :=
  x ← get_variable (other, i);
  s ← get_scope self;
  put_scope self (set_variables s (variables s ++ [x]));;
  let v_clone := (self, i) in
  x' ← get_variable (other, i);
  c ← filterx_object_clone (value x');
  store_value v_clone c.

Fixpoint clone_loop (fuel : nat) (other self : address) (i : Z) : M unit :=
  match fuel with
  | O => out_of_fuel
  | S fuel' =>
    s ← get_scope other;
    if to_guint i <? g_array_len (variables s) then
      clone_variable other self i;;
      i' ← defined (gint_add i 1);
      clone_loop fuel' other self i'
    else mret tt
  end.

Definition filterx_scope_clone (other : address) : M address :=
  self ← filterx_scope_new;
  s ← get_scope other;
  clone_loop (S (length (variables s))) other self 0;;
  (* NOTE: we don't clone weak references *)
  mret self.

Definition filterx_scope_write_protect (self : address) : M unit :=
  s ← get_scope self;
  put_scope self (mkScope (ref_cnt s) (variables s) (weak_refs s) true).

(** Releases every element in turn, as the clear and free functions of
    the two arrays do. *)
Fixpoint unref_all (ps : list (option address)) : M unit :=
  match ps with
  | [] => mret tt
  | p :: ps' => filterx_object_unref p;; unref_all ps'
  end.

Definition _free (self : address) : M unit :=
  s ← get_scope self;
  unref_all (value <$> variables s);;
  unref_all (Some <$> weak_refs s);;
  set_scopes (delete self).

Definition filterx_scope_ref (self : address) : M address :=
  s ← get_scope self;
  put_scope self (mkScope (ref_cnt s + 1) (variables s) (weak_refs s) (write_protected s));;
  mret self.

Definition filterx_scope_unref (self : address) : M unit :=
  s ← get_scope self;
  put_scope self (mkScope (ref_cnt s - 1) (variables s) (weak_refs s) (write_protected s));;
  if ref_cnt s - 1 =? 0 then _free self else mret tt.

(** [filterx_scope_make_writable (&p)]: takes the content of the cell
    [pself] points to and returns its content on return, which is also
    the function's result. *)
Definition filterx_scope_make_writable (pself : address) : M address :=
  s ← get_scope pself;
  if write_protected s then
    new ← filterx_scope_clone pself;
    filterx_scope_unref pself;;
    mret new
  else mret pself.

(** ** Message reference expressions *)

(** Modelled from the spec: the accessors of the current evaluation
    context, which expose the active scope and messages. *)
Definition filterx_eval_get_context : M FilterXEvalContext :=
  w ← get_world; mret (eval_context w).
Definition filterx_eval_get_scope : M address :=
  w ← get_world; mret (scope (eval_context w)).

(** [context->msgs[0]] *)
Definition context_msg0 (context : FilterXEvalContext) : M address :=
  defined (msgs context !! 0%nat).

(** [FilterXMessageRefExpr]: the expression is its [handle]. *)
Definition _pull_variable_from_message (self_handle : NVHandle)
    (context : FilterXEvalContext) (msg : address) : M (option address) :=
  r ← log_msg_get_value_if_set_with_type msg self_handle;
  match r with
  | None => mret None
  | Some (repr, t) =>
    msg_ref ← filterx_message_value_new_borrowed repr t;
    _ ← filterx_scope_register_variable (scope context) self_handle false (Some msg_ref);
    mret (Some msg_ref)
  end.

Definition _whiteout_variable (self_handle : NVHandle) (context : FilterXEvalContext) : M unit :=
  _ ← filterx_scope_register_variable (scope context) self_handle false None;
  mret tt.

Definition _eval (self_handle : NVHandle) : M (option address) :=
  context ← filterx_eval_get_context;
  variable ← filterx_scope_lookup_variable (scope context) self_handle;
  match variable with
  | Some v => filterx_variable_get_value v
  | None =>
    msg ← context_msg0 context;
    _pull_variable_from_message self_handle context msg
  end.

Definition _update_repr (self_handle : NVHandle) (new_repr : option address) : M unit :=
  sc ← filterx_eval_get_scope;
  variable ← filterx_scope_lookup_variable sc self_handle;
  g_assert (bool_decide (variable ≠ None));;
  match variable with
  | Some v => filterx_variable_set_value v new_repr
  | None => undefined
  end.

Definition _assign (self_handle : NVHandle) (new_value : option address) : M bool :=
  sc ← filterx_eval_get_scope;
  variable ← filterx_scope_lookup_variable sc self_handle;
  v ← match variable with
      | Some v => mret v
      | None =>
        (* NOTE: we pass NULL as initial_value to make sure the new variable
           is considered changed due to the assignment *)
        filterx_scope_register_variable sc self_handle false None
      end;
  (* this only clones mutable objects *)
  new_value' ← filterx_object_clone new_value;
  filterx_variable_set_value v new_value';;
  filterx_object_unref new_value';;
  mret true.

Definition _isset (self_handle : NVHandle) : M bool :=
  sc ← filterx_eval_get_scope;
  variable ← filterx_scope_lookup_variable sc self_handle;
  match variable with
  | Some v => filterx_variable_is_set v
  | None =>
    context ← filterx_eval_get_context;
    msg ← context_msg0 context;
    log_msg_is_value_set msg self_handle
  end.

Definition _unset (self_handle : NVHandle) : M bool :=
  context ← filterx_eval_get_context;
  variable ← filterx_scope_lookup_variable (scope context) self_handle;
  match variable with
  | Some v =>
    filterx_variable_unset_value v;;
    mret true
  | None =>
    msg ← context_msg0 context;
    set ← log_msg_is_value_set msg self_handle;
    (if set : bool then _whiteout_variable self_handle context else mret tt);;
    mret true
  end.

(** * Specification vocabulary *)

Definition TABLE_MAX : Z := 2 ^ 30.

(** Strictly ascending handles, as a test and as a property of
    positions. *)
Fixpoint ascending_from (lo : Z) (hs : list Z) : bool :=
  match hs with
  | [] => true
  | x :: hs' => (lo <? x) && ascending_from x hs'
  end.

Definition strictly_ascending (hs : list Z) : bool :=
  match hs with
  | [] => true
  | x :: hs' => ascending_from x hs'
  end.

Definition table_sorted (vars : list FilterXVariable) : Prop :=
  forall (i j : nat) vi vj, (i < j)%nat ->
    vars !! i = Some vi -> vars !! j = Some vj -> handle vi < handle vj.

(** What the search establishes: a hit is an element with the handle
    sought; a miss is the position at which the handle has to go. *)
Definition lookup_post (vars : list FilterXVariable) (h0 : NVHandle) (r : lookup_outcome) : Prop :=
  match r with
  | LookupReturn true i => exists v, g_array_index vars i = Some v /\ handle v = h0
  | LookupReturn false i =>
    0 <= i <= g_array_len vars /\
    (forall k v, k < i -> g_array_index vars k = Some v -> handle v < h0) /\
    (forall k v, i <= k -> g_array_index vars k = Some v -> h0 < handle v)
  | _ => False
  end.

(** The store after acquiring, and after releasing, a reference. *)
Definition acquire (p : option address) (objs : gmap positive FilterXObject)
    : gmap positive FilterXObject :=
  match p with
  | None => objs
  | Some a =>
    match objs !! a with
    | Some o => <[a := set_obj_ref_cnt o (obj_ref_cnt o + 1)]> objs
    | None => objs
    end
  end.

Definition release (p : option address) (objs : gmap positive FilterXObject)
    : gmap positive FilterXObject :=
  match p with
  | None => objs
  | Some a =>
    match objs !! a with
    | Some o =>
      if obj_ref_cnt o - 1 =? 0 then delete a objs
      else <[a := set_obj_ref_cnt o (obj_ref_cnt o - 1)]> objs
    | None => objs
    end
  end.

Definition live (w : World) (p : option address) : Prop :=
  match p with
  | None => True
  | Some a => is_Some (objects w !! a)
  end.

(** The world after a variable has been put into the table of [self]. *)
Definition registered (self : address) (s : FilterXScope) (i : Z) (x : FilterXVariable)
    (w : World) : World :=
  with_scopes (insert self (set_variables s (g_array_insert_val (variables s) i x)))
    (with_objects (acquire (value x)) w).

(** * Sample worlds *)

Module Sample.

(** A message with [msg = "hello"] under handle 10 and [tag = "x"]
    under handle 30, both strings (type tag 0). *)
Definition message : LogMessage :=
  mkMessage (<[10 := ("hello"%string, 0)]> (<[30 := ("x"%string, 0)]> ∅)) [].

Definition hello : FilterXObject := mkObject 1 false false (Some ("hello"%string, 0)).
Definition forty_two : FilterXObject := mkObject 1 false false (Some ("42"%string, 4)).
Definition dict : FilterXObject := mkObject 1 true true (Some ("{}"%string, 1)).
Definition opaque : FilterXObject := mkObject 1 false false None.

Definition empty_scope : FilterXScope := mkScope 1 [] [] false.

(** Handle 10 pulled from the message, handle 20 assigned, handle 30
    whited out, handle 40 floating. *)
Definition table : list FilterXVariable :=
  [ mkVariable 10 false false (Some 1%positive);
    mkVariable 20 false true (Some 2%positive);
    mkVariable 30 false true None;
    mkVariable 40 true true (Some 3%positive) ].

Definition busy_scope : FilterXScope := mkScope 1 table [] false.
Definition shared_scope : FilterXScope := mkScope 2 table [] true.

Definition heap : gmap positive FilterXObject :=
  <[1%positive := hello]> (<[2%positive := forty_two]> (<[3%positive := dict]> ∅)).

Definition world_of (s : FilterXScope) : World :=
  mkWorld heap (<[1%positive := s]> ∅) (<[1%positive := message]> ∅)
          (mkContext 1%positive [1%positive]).

End Sample.

(** A sequence of [filterx_scope_register_variable] calls on one scope,
    each given by its handle, floating flag and initial value. *)
Fixpoint register_all (self : address) (calls : list (NVHandle * bool * option address))
    : M unit :=
  match calls with
  | [] => mret tt
  | (h0, fl, init) :: rest =>
    _ ← filterx_scope_register_variable self h0 fl init;
    register_all self rest
  end.

(** The variable a call puts into the table. *)
Definition call_variable (c : NVHandle * bool * option address) : FilterXVariable :=
  mkVariable c.1.1 c.1.2 false c.2.

Module SampleCalls.

(** Three registrations, out of handle order. *)
Definition calls : list (NVHandle * bool * option address) :=
  [ (30, false, Some 1%positive); (10, true, None); (20, false, Some 2%positive) ].

End SampleCalls.

(** The address [filterx_object_clone] returns, and the store it leaves. *)
Definition clone_addr (objs : gmap positive FilterXObject) (p : option address)
    : option address :=
  match p with
  | None => None
  | Some a =>
    match objs !! a with
    | Some o => if obj_mutable o then Some (fresh (dom objs)) else Some a
    | None => None
    end
  end.

Definition clone_store (p : option address) (objs : gmap positive FilterXObject)
    : gmap positive FilterXObject :=
  match p with
  | None => objs
  | Some a =>
    match objs !! a with
    | Some o =>
      if obj_mutable o
      then <[fresh (dom objs) := mkObject 1 true false (obj_repr o)]> objs
      else acquire (Some a) objs
    | None => objs
    end
  end.

(** A pointer the caller holds a reference through. *)
Definition owned (objs : gmap positive FilterXObject) (p : option address) : Prop :=
  match p with
  | None => True
  | Some a => exists o, objs !! a = Some o /\ 1 <= obj_ref_cnt o
  end.

(** The write as the specification words it: the context's scope is
    made writable first and the reference to it replaced, then the
    assignment proceeds as [_assign] does. *)
Definition set_context_scope (p : address) : M unit :=
  fun w => Ok tt (mkWorld (objects w) (scopes w) (messages w)
                    (mkContext p (msgs (eval_context w)))).

Definition assign_as_specified (self_handle : NVHandle) (new_value : option address) : M bool :=
  context ← filterx_eval_get_context;
  p ← filterx_scope_make_writable (scope context);
  set_context_scope p;;
  _assign self_handle new_value.

(** ** Synchronisation, as the specification words it *)

Definition msg_set (m : LogMessage) (h : NVHandle) (bytes : string)
    (t : LogMessageValueType) : LogMessage :=
  mkMessage (<[h := (bytes, t)]> (nv_values m)) (nv_calls m ++ [CallSetValue h bytes t]).

Definition msg_unset (m : LogMessage) (h : NVHandle) : LogMessage :=
  mkMessage (delete h (nv_values m)) (nv_calls m ++ [CallUnsetValue h]).

Definition call_handle (c : LogMessageCall) : NVHandle :=
  match c with
  | CallSetValue h _ _ => h
  | CallUnsetValue h => h
  end.

Inductive sync_outcome : Type :=
| Synced (x' : FilterXVariable) (objs' : gmap positive FilterXObject) (m' : LogMessage)
| MarshalFailed
| WildValue.

(** One variable: skipped if floating; unset in the record, and no
    longer assigned, if its value is absent; marshalled and set in the
    record, the modified-in-place flag and [assigned] cleared, if its
    value is present and it is assigned or modified in place; left alone
    otherwise. *)
Definition sync_variable_spec (x : FilterXVariable) (objs : gmap positive FilterXObject)
    (m : LogMessage) : sync_outcome :=
  if floating x then Synced x objs m
  else
    match value x with
    | None => Synced (mkVariable (handle x) false false None) objs (msg_unset m (handle x))
    | Some a =>
      match objs !! a with
      | None => WildValue
      | Some o =>
        if assigned x || modified_in_place o then
          match obj_repr o with
          | Some (bytes, t) =>
            Synced (mkVariable (handle x) false false (Some a))
                   (<[a := set_modified_in_place o false]> objs)
                   (msg_set m (handle x) bytes t)
          | None => MarshalFailed
          end
        else Synced x objs m
      end
    end.

Inductive table_outcome : Type :=
| TableSynced (vars' : list FilterXVariable) (objs' : gmap positive FilterXObject)
    (m' : LogMessage)
| TableAborted (vars' : list FilterXVariable) (objs' : gmap positive FilterXObject)
    (m' : LogMessage)
| TableWild.

(** The variables in table order; a failed marshal stops the run in the
    state reached. *)
Fixpoint sync_table_spec (vars : list FilterXVariable) (objs : gmap positive FilterXObject)
    (m : LogMessage) : table_outcome :=
  match vars with
  | [] => TableSynced [] objs m
  | x :: rest =>
    match sync_variable_spec x objs m with
    | Synced x' objs' m' =>
      match sync_table_spec rest objs' m' with
      | TableSynced vs o mm => TableSynced (x' :: vs) o mm
      | TableAborted vs o mm => TableAborted (x' :: vs) o mm
      | TableWild => TableWild
      end
    | MarshalFailed => TableAborted (x :: rest) objs m
    | WildValue => TableWild
    end
  end.

(** The world with the table of [self], the object store and the message
    [msg] replaced. *)
Definition sync_world (w : World) (self msg : address) (s : FilterXScope)
    (vars : list FilterXVariable) (objs : gmap positive FilterXObject) (m : LogMessage)
    : World :=
  mkWorld objs (<[self := set_variables s vars]> (scopes w)) (<[msg := m]> (messages w))
          (eval_context w).

Module SampleFailure.

(** Handle 10 assigned a string, handle 20 assigned a value that cannot
    be marshalled. *)
Definition table : list FilterXVariable :=
  [ mkVariable 10 false true (Some 1%positive);
    mkVariable 20 false true (Some 2%positive) ].

Definition failing_scope : FilterXScope := mkScope 1 table [] false.

Definition world : World :=
  mkWorld (<[1%positive := Sample.hello]> (<[2%positive := Sample.opaque]> ∅))
          (<[1%positive := failing_scope]> ∅)
          (<[1%positive := Sample.message]> ∅)
          (mkContext 1%positive [1%positive]).

End SampleFailure.

(** ** Cloning, as a function of the table and the object store *)

(** The table of the clone and the store left by cloning the values in
    table order. *)
Fixpoint clone_table (vars : list FilterXVariable) (objs : gmap positive FilterXObject)
    : list FilterXVariable * gmap positive FilterXObject :=
  match vars with
  | [] => ([], objs)
  | x :: rest =>
    let r := clone_table rest (clone_store (value x) objs) in
    (mkVariable (handle x) (floating x) (assigned x) (clone_addr objs (value x)) :: r.1, r.2)
  end.

(** How many of the pointers [ps] point to [a]. *)
Fixpoint holders (a : address) (ps : list (option address)) : Z :=
  match ps with
  | [] => 0
  | p :: ps' => (if decide (p = Some a) then 1 else 0) + holders a ps'
  end.

(** The store after releasing every pointer of [ps] in turn. *)
Fixpoint release_all (ps : list (option address)) (objs : gmap positive FilterXObject)
    : gmap positive FilterXObject :=
  match ps with
  | [] => objs
  | p :: ps' => release_all ps' (release p objs)
  end.

(** The pointers a scope holds references through: the values of its
    variables and its weak references. *)
Definition scope_refs (s : FilterXScope) : list (option address) :=
  (value <$> variables s) ++ (Some <$> weak_refs s).

(** An object with [n] more references. *)
Definition bump (o : FilterXObject) (n : Z) : FilterXObject :=
  set_obj_ref_cnt o (obj_ref_cnt o + n).

(** Value-equal contents: both absent, or both present with the same
    marshalled form and mutability; the copy of a mutable value is an
    object that did not exist in [objs], held once and not modified in
    place; an immutable value is shared. *)
Definition value_equal (objs objs' : gmap positive FilterXObject)
    (p p' : option address) : Prop :=
  match p, p' with
  | None, None => True
  | Some a, Some a' =>
    exists o o',
      objs !! a = Some o /\ objs' !! a' = Some o' /\
      obj_mutable o' = obj_mutable o /\ obj_repr o' = obj_repr o /\
      if obj_mutable o
      then objs !! a' = None /\ obj_ref_cnt o' = 1 /\ modified_in_place o' = false
      else a' = a /\ modified_in_place o' = modified_in_place o
  | _, _ => False
  end.

(** [x'] is the clone of [x]: same handle and flags, value-equal
    contents. *)
Definition clone_of (objs objs' : gmap positive FilterXObject)
    (x x' : FilterXVariable) : Prop :=
  handle x' = handle x /\ floating x' = floating x /\ assigned x' = assigned x /\
  value_equal objs objs' (value x) (value x').

(** The reference count of the object at [a], none for no object. *)
Definition ref_count (objs : gmap positive FilterXObject) (a : address) : Z :=
  match objs !! a with
  | Some o => obj_ref_cnt o
  | None => 0
  end.

(** A pointer that is [NULL] or points to an object of the store. *)
Definition live_in (objs : gmap positive FilterXObject) (p : option address) : Prop :=
  match p with
  | None => True
  | Some a => is_Some (objs !! a)
  end.

(** Reference counts cover the references a scope holds: every object
    it points to is alive and counts at least as many references as the
    scope has pointers to it.  As a test, and as a property. *)
Definition refs_sound_b (s : FilterXScope) (objs : gmap positive FilterXObject) : bool :=
  forallb (fun p : option address =>
             match p with
             | None => true
             | Some a =>
               match objs !! a with
               | Some o => holders a (scope_refs s) <=? obj_ref_cnt o
               | None => false
               end
             end) (scope_refs s).

Definition refs_sound (s : FilterXScope) (objs : gmap positive FilterXObject) : Prop :=
  forall a, 0 < holders a (scope_refs s) ->
    exists o, objs !! a = Some o /\ holders a (scope_refs s) <= obj_ref_cnt o.

(** The world [filterx_scope_make_writable] leaves for a write-protected
    scope [s] at [p]: the clone at a fresh address, and [s] with one
    reference less, or freed with the last one. *)
Definition writable_world (w : World) (p : address) (s : FilterXScope) : World :=
  let t := clone_table (variables s) (objects w) in
  let p' := fresh (dom (scopes w)) in
  if ref_cnt s - 1 =? 0
  then mkWorld (release_all (scope_refs s) t.2)
               (delete p (<[p' := mkScope 1 t.1 [] false]> (scopes w)))
               (messages w) (eval_context w)
  else mkWorld t.2
               (<[p := mkScope (ref_cnt s - 1) (variables s) (weak_refs s) (write_protected s)]>
                  (<[p' := mkScope 1 t.1 [] false]> (scopes w)))
               (messages w) (eval_context w).

(** ** What a pending assignment or whiteout asks of the message *)

(** A variable is quiet when there is nothing pending on it but,
    possibly, an assignment or a whiteout: it is floating, or has no
    value, or is assigned, or its value is alive and not modified in
    place. *)
Definition quiet (objs : gmap positive FilterXObject) (x : FilterXVariable) : bool :=
  floating x ||
  match value x with
  | None => true
  | Some a =>
    match objs !! a with
    | Some o => assigned x || negb (modified_in_place o)
    | None => false
    end
  end.

Inductive request : Type :=
| Keep
| RequestUnset (h : NVHandle)
| RequestSet (h : NVHandle) (repr : option (string * LogMessageValueType)).

(** The request of a quiet variable, read off its flags and the
    marshalled form of its value. *)
Definition request_of (objs : gmap positive FilterXObject) (x : FilterXVariable) : request :=
  if floating x then Keep
  else
    match value x with
    | None => RequestUnset (handle x)
    | Some a =>
      if assigned x
      then RequestSet (handle x) (match objs !! a with Some o => obj_repr o | None => None end)
      else Keep
    end.

(** Serving requests in order; the flag tells whether a value that
    cannot be marshalled stopped the run. *)
Fixpoint serve (rs : list request) (m : LogMessage) : LogMessage * bool :=
  match rs with
  | [] => (m, false)
  | Keep :: rs' => serve rs' m
  | RequestUnset h :: rs' => serve rs' (msg_unset m h)
  | RequestSet h (Some (bytes, t)) :: rs' => serve rs' (msg_set m h bytes t)
  | RequestSet h None :: _ => (m, true)
  end.

(** The message a synchronisation leaves, and whether it aborted. *)
Definition table_result (r : table_outcome) : option (LogMessage * bool) :=
  match r with
  | TableSynced _ _ mm => Some (mm, false)
  | TableAborted _ _ mm => Some (mm, true)
  | TableWild => None
  end.

Definition sync_result (msg : address) (r : result unit) : option (option LogMessage * bool) :=
  match r with
  | Ok _ w => Some (messages w !! msg, false)
  | Abort w => Some (messages w !! msg, true)
  | _ => None
  end.

(** ** Mutations of a scope and what can be observed of one *)

(** Modelled from the spec: a mutable value changes in place and sets
    its modified-in-place flag.  The value is the one held by the
    variable [v]; an immutable value cannot change. *)
Definition modify_in_place (v : variable_ptr) (repr : option (string * LogMessageValueType))
    : M unit :=
  x ← get_variable v;
  match value x with
  | Some a =>
    o ← get_object a;
    if obj_mutable o then put_object a (mkObject (obj_ref_cnt o) true true repr)
    else undefined
  | None => undefined
  end.

(** The ways a holder of a scope can change it or the values in it. *)
Inductive mutation : Type :=
| MutRegister (h0 : NVHandle) (is_floating : bool) (initial_value : option address)
| MutSetValue (i : Z) (new_value : option address)
| MutUnsetValue (i : Z)
| MutSync (msg : address)
| MutStoreWeakRef (object : option address)
| MutWriteProtect
| MutInPlace (i : Z) (repr : option (string * LogMessageValueType)).

Definition mutate (self : address) (mu : mutation) : M unit :=
  match mu with
  | MutRegister h0 fl init => _ ← filterx_scope_register_variable self h0 fl init; mret tt
  | MutSetValue i new_value => filterx_variable_set_value (self, i) new_value
  | MutUnsetValue i => filterx_variable_unset_value (self, i)
  | MutSync msg => filterx_scope_sync_to_message self msg
  | MutStoreWeakRef object => filterx_scope_store_weak_ref self object
  | MutWriteProtect => filterx_scope_write_protect self
  | MutInPlace i repr => modify_in_place (self, i) repr
  end.

Fixpoint mutate_all (self : address) (mus : list mutation) : M unit :=
  match mus with
  | [] => mret tt
  | mu :: rest => mutate self mu;; mutate_all self rest
  end.

(** How often the variables of a table hold [a]. *)
Definition held (vars : list FilterXVariable) (a : address) : Z :=
  holders a (value <$> vars).

(** A value handed to a scope must not be a mutable object the other
    scope holds: values are cloned before they are stored. *)
Definition no_alias (other : address) (w : World) (p : option address) : Prop :=
  match p with
  | None => True
  | Some a =>
    forall so o, scopes w !! other = Some so -> objects w !! a = Some o ->
      obj_mutable o = true -> held (variables so) a = 0
  end.

Definition mutation_valid (other self : address) (w : World) (mu : mutation) : Prop :=
  match mu with
  | MutRegister _ _ init => no_alias other w init
  | MutSetValue _ new_value => no_alias other w new_value
  | MutSync msg =>
    is_Some (messages w !! msg) /\
    forall s, scopes w !! self = Some s -> g_array_len (variables s) <= G_MAXINT
  | _ => True
  end.

(** Every mutation of a run is valid in the world it is applied to. *)
Fixpoint mutations_valid (other self : address) (w : World) (mus : list mutation) : Prop :=
  match mus with
  | [] => True
  | mu :: rest =>
    mutation_valid other self w mu /\
    forall w1, mutate self mu w = Ok tt w1 -> mutations_valid other self w1 rest
  end.

(** What a value shows: its mutability, its modified-in-place flag and
    its marshalled form; not its address, nor its reference count. *)
Definition value_view (objs : gmap positive FilterXObject) (p : option address)
    : option (option (bool * bool * option (string * LogMessageValueType))) :=
  match p with
  | None => Some None
  | Some a =>
    match objs !! a with
    | Some o => Some (Some (obj_mutable o, modified_in_place o, obj_repr o))
    | None => None
    end
  end.

(** What can be observed of the scope at [p]: the scope itself, and what
    the values of its variables show. *)
Definition scope_view (w : World) (p : address)
    : option (FilterXScope *
              list (option (option (bool * bool * option (string * LogMessageValueType))))) :=
  match scopes w !! p with
  | Some s => Some (s, (fun x => value_view (objects w) (value x)) <$> variables s)
  | None => None
  end.

(** Every object of the store is referenced at least once, and an
    immutable object is never flagged as modified in place.  As a test,
    and as a property. *)
Definition store_ok_b (objs : gmap positive FilterXObject) : bool :=
  forallb (fun ao : positive * FilterXObject =>
             (1 <=? obj_ref_cnt ao.2) &&
             (obj_mutable ao.2 || negb (modified_in_place ao.2))) (map_to_list objs).

Definition store_ok (objs : gmap positive FilterXObject) : Prop :=
  forall a o, objs !! a = Some o ->
    1 <= obj_ref_cnt o /\ (obj_mutable o = false -> modified_in_place o = false).

(** Two scopes that share nothing that one can change under the other:
    reference counts cover the references both hold, and an object both
    hold is immutable. *)
Definition separated (w : World) (q q' : address) : Prop :=
  q <> q' /\
  exists sq sq',
    scopes w !! q = Some sq /\ scopes w !! q' = Some sq' /\
    (forall a, held (variables sq) a + held (variables sq') a <= ref_count (objects w) a) /\
    (forall a o, objects w !! a = Some o ->
       0 < held (variables sq) a -> 0 < held (variables sq') a -> obj_mutable o = false) /\
    store_ok (objects w).

(** One if [p] points to [a], zero otherwise. *)
Definition points_to (p : option address) (a : address) : Z :=
  if decide (p = Some a) then 1 else 0.

(** The store invariant of two holders, given how often each holds an
    object. *)
Definition store_inv (objs : gmap positive FilterXObject) (hq hq' : address -> Z) : Prop :=
  store_ok objs /\
  (forall a, hq a + hq' a <= ref_count objs a) /\
  (forall a o, objs !! a = Some o -> 0 < hq a -> 0 < hq' a -> obj_mutable o = false).

(** The objects held according to [hq] show the same in both stores. *)
Definition same_view (objs objs' : gmap positive FilterXObject) (hq : address -> Z) : Prop :=
  forall a, 0 < hq a -> value_view objs' (Some a) = value_view objs (Some a).

(** ** Evaluations followed by a synchronisation *)

Module Scenario.

(** Reading the field under handle 10, then synchronising. *)
Definition read_only : M unit :=
  _ ← _eval 10;
  sc ← filterx_eval_get_scope;
  filterx_scope_sync_to_message sc 1%positive.

(** Assigning the value at address 2 to the field under handle 20, which
    the message lacks, then synchronising. *)
Definition write_count : M unit :=
  _ ← _assign 20 (Some 2%positive);
  sc ← filterx_eval_get_scope;
  filterx_scope_sync_to_message sc 1%positive.

(** Clearing the field under handle 30, testing whether it is set, then
    synchronising. *)
Definition clear_tag : M bool :=
  _ ← _unset 30;
  set ← _isset 30;
  sc ← filterx_eval_get_scope;
  filterx_scope_sync_to_message sc 1%positive;;
  mret set.

(** The message of a world, and the result returned. *)
Definition message_after {A} (r : result A) : option LogMessage :=
  match r with
  | Ok _ w => messages w !! 1%positive
  | _ => None
  end.

Definition returned {A} (r : result A) : option A :=
  match r with
  | Ok a _ => Some a
  | _ => None
  end.

End Scenario.

(** ** The search as a scan *)

(** How many variables of a table have a handle below [h0], and whether
    one of them has the handle [h0]. *)
Fixpoint rank (vars : list FilterXVariable) (h0 : NVHandle) : Z :=
  match vars with
  | [] => 0
  | x :: rest => (if handle x <? h0 then 1 else 0) + rank rest h0
  end.

Definition bound_in (vars : list FilterXVariable) (h0 : NVHandle) : bool :=
  existsb (fun x => handle x =? h0) vars.

(** ** Scope pointers that may be [NULL] *)

(** [filterx_scope_ref] and [filterx_scope_unref] test their argument:
    [if (self)].  The definitions above are their bodies for a scope; these
    are the functions on a pointer that may be [NULL]. *)
Definition filterx_scope_ref_or_null (self : option address) : M (option address) :=
  match self with
  | Some a => r ← filterx_scope_ref a; mret (Some r)
  | None => mret None
  end.

Definition filterx_scope_unref_or_null (self : option address) : M unit :=
  match self with
  | Some a => filterx_scope_unref a
  | None => mret tt
  end.

(** ** What a synchronisation leaves behind *)

(** The world a run ended in, by returning or by a failed assertion. *)
Definition world_after {A} (r : result A) : option World :=
  match r with
  | Ok _ w => Some w
  | Abort w => Some w
  | _ => None
  end.

(** [objs'] is [objs] with the modified-in-place flag of some objects
    cleared: no object more, none less, none changed otherwise. *)
Definition flags_cleared (objs objs' : gmap positive FilterXObject) : Prop :=
  forall a,
    match objs !! a, objs' !! a with
    | Some o, Some o' => o' = o \/ o' = set_modified_in_place o false
    | None, None => True
    | _, _ => False
    end.

(** [x'] is [x] with, at most, [assigned] cleared. *)
Definition flag_cleared (x x' : FilterXVariable) : Prop :=
  handle x' = handle x /\ floating x' = floating x /\ value x' = value x /\
  (assigned x' = true -> assigned x = true).

(** The handles of the whiteouts of a table, in table order: of the
    variables that are not floating and have no value. *)
Fixpoint whiteouts (vars : list FilterXVariable) : list NVHandle :=
  match vars with
  | [] => []
  | x :: rest =>
    if floating x then whiteouts rest
    else match value x with
         | None => handle x :: whiteouts rest
         | Some _ => whiteouts rest
         end
  end.

(** Nothing is pending on a variable: it is floating, or it is not
    assigned and its value, if it has one, is alive and not modified in
    place. *)
Definition settled (objs : gmap positive FilterXObject) (x : FilterXVariable) : bool :=
  floating x ||
  (negb (assigned x) &&
   match value x with
   | None => true
   | Some a =>
     match objs !! a with
     | Some o => negb (modified_in_place o)
     | None => false
     end
   end).

(** Unsetting handles in turn. *)
Definition unset_all (hs : list NVHandle) (m : LogMessage) : LogMessage :=
  fold_left msg_unset hs m.

(** ** What a computation leaves alone *)

(** Every run of [c] that ends, by returning or by a failed assertion,
    ends in a world related by [R] to the one it started in. *)
Definition preserves {A} (R : World -> World -> Prop) (c : M A) : Prop :=
  forall w w1, world_after (c w) = Some w1 -> R w w1.

(** What a scope is besides its table of variables. *)
Definition header (s : FilterXScope) : Z * list address * bool :=
  (ref_cnt s, weak_refs s, write_protected s).

(** The change is local to the tables of variables and to the values: the
    messages and the evaluation context are the same, no scope has come or
    gone, and every scope has the reference count, the weak references
    and the protection it had. *)
Definition scope_local (w w1 : World) : Prop :=
  messages w1 = messages w /\
  eval_context w1 = eval_context w /\
  forall p, header <$> scopes w1 !! p = header <$> scopes w !! p.

(** The references to the object at [a] that are not held by the table
    of the scope of the evaluation context: those of callers, of other
    scopes, of weak references. *)
Definition outside_refs (w : World) (a : address) : Z :=
  ref_count (objects w) a -
  match scopes w !! scope (eval_context w) with
  | Some s => held (variables s) a
  | None => 0
  end.

Module SampleShared.

(** Handles 10 and 20 hold the same dictionary, which was modified in
    place; neither variable is assigned. *)
Definition table : list FilterXVariable :=
  [ mkVariable 10 false false (Some 3%positive);
    mkVariable 20 false false (Some 3%positive) ].

Definition world : World :=
  mkWorld (<[3%positive := mkObject 2 true true (Some ("{}"%string, 1))]> ∅)
          (<[1%positive := mkScope 1 table [] false]> ∅)
          (<[1%positive := Sample.message]> ∅)
          (mkContext 1%positive [1%positive]).

End SampleShared.

(** ** The clone next to the original *)

(** What a synchronisation does with the variable is decided by its flags
    and by whether it has a value: it is floating, or assigned, or has no
    value.  A pending assignment and a whiteout are of this kind; of the
    other variables the value decides, by its modified-in-place flag. *)
Definition flag_driven (x : FilterXVariable) : bool :=
  floating x || assigned x || bool_decide (value x = None).

(** The message after a call. *)
Definition apply_call (c : LogMessageCall) (m : LogMessage) : LogMessage :=
  match c with
  | CallSetValue h bytes t => msg_set m h bytes t
  | CallUnsetValue h => msg_unset m h
  end.

(** The calls a message has received for the handle [h], oldest first. *)
Definition calls_for (h : NVHandle) (m : LogMessage) : list LogMessageCall :=
  filter (fun c => call_handle c = h) (nv_calls m).

(** [x'] in the store [objs'] follows [x] in the store [objs]: the handle
    and the flags are the same; both have no value, or both have a live
    one, of the same marshalled form and variant.  A mutable value of [x']
    is not flagged as modified in place; an immutable one is the object
    [x] holds, flagged in [objs'] only if it is flagged in [objs]. *)
Definition follows (objs objs' : gmap positive FilterXObject)
    (x x' : FilterXVariable) : Prop :=
  handle x' = handle x /\ floating x' = floating x /\ assigned x' = assigned x /\
  match value x, value x' with
  | None, None => True
  | Some a, Some a' =>
    exists o o',
      objs !! a = Some o /\ objs' !! a' = Some o' /\
      obj_repr o' = obj_repr o /\ obj_mutable o' = obj_mutable o /\
      if obj_mutable o then modified_in_place o' = false
      else a' = a /\ (modified_in_place o' = true -> modified_in_place o = true)
  | _, _ => False
  end.

Module SamplePending.

(** A shared, write-protected scope: handle 10 holds a dictionary that
    was modified in place, handle 20 is assigned, handle 30 is whited
    out. *)
Definition table : list FilterXVariable :=
  [ mkVariable 10 false false (Some 3%positive);
    mkVariable 20 false true (Some 2%positive);
    mkVariable 30 false false None ].

Definition pending_scope : FilterXScope := mkScope 2 table [] true.

Definition world : World := Sample.world_of pending_scope.

End SamplePending.

(** * Properties *)

(** ** Stepping through the monad *)

Lemma bind_Ok {A B} (m : M A) (f : A -> M B) w a w' :
  m w = Ok a w' -> (m ≫= f) w = f a w'.
Proof. intros H. unfold mbind, M_bind. by rewrite H. Qed.

Lemma bind_ret {A B} (a : A) (f : A -> M B) w : ((mret a : M A) ≫= f) w = f a w.
Proof. reflexivity. Qed.

Lemma get_scope_Ok w a s : scopes w !! a = Some s -> get_scope a w = Ok s w.
Proof. intros H. unfold get_scope, get_world, mbind, M_bind. by rewrite H. Qed.

Lemma get_object_Ok w a o : objects w !! a = Some o -> get_object a w = Ok o w.
Proof. intros H. unfold get_object, get_world, mbind, M_bind. by rewrite H. Qed.

Lemma get_message_Ok w a m : messages w !! a = Some m -> get_message a w = Ok m w.
Proof. intros H. unfold get_message, get_world, mbind, M_bind. by rewrite H. Qed.

(** ** The binary search *)

Lemma ascending_from_lookup lo hs :
  ascending_from lo hs = true ->
  (forall (i : nat) x, hs !! i = Some x -> lo < x) /\
  (forall (i j : nat) x y, (i < j)%nat -> hs !! i = Some x -> hs !! j = Some y -> x < y).
Proof.
  revert lo. induction hs as [|a hs IH]; intros lo H; simpl in H.
  - split; intros; by rewrite ?lookup_nil in *.
  - apply andb_true_iff in H as [Hlo Hrest]. apply Z.ltb_lt in Hlo.
    destruct (IH _ Hrest) as [Hall Hpair]. split.
    + intros [|i] x Hx; simpl in Hx.
      * by inversion Hx; subst.
      * specialize (Hall _ _ Hx). lia.
    + intros [|i] [|j] x y Hij Hx Hy; simpl in *; try lia.
      * inversion Hx; subst. eauto.
      * eapply Hpair; [|eassumption..]. lia.
Qed.

Lemma strictly_ascending_sorted vars :
  strictly_ascending (handle <$> vars) = true -> table_sorted vars.
Proof.
  intros H i j vi vj Hij Hi Hj.
  assert (Hi' : (handle <$> vars) !! i = Some (handle vi)) by by rewrite list_lookup_fmap, Hi.
  assert (Hj' : (handle <$> vars) !! j = Some (handle vj)) by by rewrite list_lookup_fmap, Hj.
  destruct (handle <$> vars) as [|a hs]; [by rewrite lookup_nil in Hi'|].
  simpl in H. apply ascending_from_lookup in H as [Hall Hpair].
  destruct i as [|i], j as [|j]; simpl in *; try lia.
  - inversion Hi'; subst. eauto.
  - eapply Hpair; [|eassumption..]. lia.
Qed.

Lemma g_array_index_Some vars i v :
  g_array_index vars i = Some v <-> 0 <= i /\ vars !! Z.to_nat i = Some v.
Proof.
  unfold g_array_index. destruct (Z.leb_spec 0 i); split; try tauto; try discriminate.
  intros [? _]. lia.
Qed.

Lemma g_array_index_of_nat vars (n : nat) : g_array_index vars (Z.of_nat n) = vars !! n.
Proof.
  unfold g_array_index. destruct (Z.leb_spec 0 (Z.of_nat n)); [|lia]. by rewrite Nat2Z.id.
Qed.

Lemma g_array_index_in_range vars i :
  0 <= i < g_array_len vars -> is_Some (g_array_index vars i).
Proof.
  intros [H0 H1]. unfold g_array_index, g_array_len in *.
  destruct (Z.leb_spec 0 i); [|lia]. apply lookup_lt_is_Some. lia.
Qed.

Lemma g_array_index_range vars i v :
  g_array_index vars i = Some v -> 0 <= i < g_array_len vars.
Proof.
  intros [H0 H1]%g_array_index_Some. apply lookup_lt_Some in H1.
  unfold g_array_len. lia.
Qed.

Lemma table_sorted_index vars k1 k2 v1 v2 :
  table_sorted vars -> k1 < k2 ->
  g_array_index vars k1 = Some v1 -> g_array_index vars k2 = Some v2 ->
  handle v1 < handle v2.
Proof.
  intros Hs Hk [H1 E1]%g_array_index_Some [H2 E2]%g_array_index_Some.
  eapply Hs; [|eassumption..]. lia.
Qed.

Lemma gint_add_in_range a b :
  G_MININT <= a + b <= G_MAXINT -> gint_add a b = Some (a + b).
Proof.
  intros H. unfold gint_add, gint_in_range.
  destruct (Z.leb_spec G_MININT (a + b)), (Z.leb_spec (a + b) G_MAXINT); simpl; auto; lia.
Qed.

Lemma gint_sub_in_range a b :
  G_MININT <= a - b <= G_MAXINT -> gint_sub a b = Some (a - b).
Proof.
  intros H. unfold gint_sub, gint_in_range.
  destruct (Z.leb_spec G_MININT (a - b)), (Z.leb_spec (a - b) G_MAXINT); simpl; auto; lia.
Qed.

Lemma lookup_loop_spec vars h0 :
  table_sorted vars -> g_array_len vars <= TABLE_MAX ->
  forall fuel l h,
    0 <= l -> h < g_array_len vars -> l <= h + 1 -> h - l + 1 < Z.of_nat fuel ->
    (forall k v, k < l -> g_array_index vars k = Some v -> handle v < h0) ->
    (forall k v, h < k -> g_array_index vars k = Some v -> h0 < handle v) ->
    lookup_post vars h0 (lookup_loop fuel vars h0 l h).
Proof.
  intros Hsorted Hmax. unfold TABLE_MAX in Hmax.
  induction fuel as [|fuel IH]; intros l h Hl Hh Hlh Hfuel Hlow Hhigh; [lia|].
  simpl. destruct (Z.leb_spec l h) as [Hle|Hgt].
  - assert (Hrange : G_MININT <= l + h <= G_MAXINT) by (unfold G_MININT, G_MAXINT; lia).
    rewrite (gint_add_in_range _ _ Hrange). rewrite Z.shiftr_div_pow2 by lia.
    change (2 ^ 1) with 2. set (m := (l + h) / 2).
    assert (Hm : l <= m <= h) by (subst m; split; [apply Z.div_le_lower_bound|apply Z.div_le_upper_bound]; lia).
    destruct (g_array_index_in_range vars m) as [m_elem Em]; [lia|]. rewrite Em.
    destruct (Z.eqb_spec (handle m_elem) h0) as [Heq|Hne]; [simpl; eauto|].
    destruct (Z.gtb_spec (handle m_elem) h0) as [Hgt|Hngt].
    + rewrite gint_sub_in_range by (unfold G_MININT, G_MAXINT; lia).
      apply IH; try lia; [done|].
      intros k v Hk Ek. destruct (Z.eq_dec k m) as [->|Hkm].
      * rewrite Em in Ek. inversion Ek; subst. lia.
      * assert (handle m_elem < handle v) by (eapply table_sorted_index; [done| |done..]; lia). lia.
    + rewrite gint_add_in_range by (unfold G_MININT, G_MAXINT; lia).
      apply IH; try lia; [|done].
      intros k v Hk Ek. destruct (Z.eq_dec k m) as [->|Hkm].
      * rewrite Em in Ek. inversion Ek; subst. lia.
      * assert (handle v < handle m_elem) by (eapply table_sorted_index; [done| |done..]; lia). lia.
  - simpl. assert (l = h + 1) as -> by lia. split; [lia|]. split; [done|].
    intros k v Hk. apply Hhigh. lia.
Qed.

Lemma to_gint_len_minus_1 vars :
  g_array_len vars <= TABLE_MAX ->
  to_gint (to_guint (g_array_len vars - 1)) = g_array_len vars - 1.
Proof.
  unfold TABLE_MAX, g_array_len, to_gint, to_guint, GUINT_MODULUS, G_MAXINT.
  intros H. rewrite Z.mod_mod by lia.
  destruct vars as [|x vars]; [reflexivity|].
  rewrite Z.mod_small by (simpl length in *; lia).
  destruct (Z.leb_spec (Z.of_nat (length (x :: vars)) - 1) (2 ^ 31 - 1)); [done|].
  simpl length in *. lia.
Qed.

Lemma _lookup_variable_spec vars h0 :
  table_sorted vars -> g_array_len vars <= TABLE_MAX ->
  lookup_post vars h0 (_lookup_variable vars h0).
Proof.
  intros Hs Hmax. unfold _lookup_variable. rewrite to_gint_len_minus_1 by done.
  apply lookup_loop_spec; try done; unfold g_array_len in *; try lia.
  - intros k v Hk [? _]%g_array_index_Some. lia.
  - intros k v Hk [? ?]%g_array_index_range. unfold g_array_len in *. lia.
Qed.

Lemma _lookup_variable_hit vars (i : nat) v :
  table_sorted vars -> g_array_len vars <= TABLE_MAX ->
  vars !! i = Some v ->
  _lookup_variable vars (handle v) = LookupReturn true (Z.of_nat i).
Proof.
  intros Hs Hmax Hi.
  pose proof (_lookup_variable_spec vars (handle v) Hs Hmax) as Hpost.
  assert (Ei : g_array_index vars (Z.of_nat i) = Some v) by by rewrite g_array_index_of_nat.
  destruct (_lookup_variable vars (handle v)) as [[|] j| |]; simpl in Hpost; try done.
  - destruct Hpost as (v' & Ej & Hh). f_equal.
    destruct (Z.lt_trichotomy j (Z.of_nat i)) as [Hlt|[Heq|Hgt]]; [|done|].
    + pose proof (table_sorted_index _ _ _ _ _ Hs Hlt Ej Ei). lia.
    + pose proof (table_sorted_index _ _ _ _ _ Hs Hgt Ei Ej). lia.
  - destruct Hpost as (_ & Hlow & Hhigh).
    destruct (Z.lt_ge_cases (Z.of_nat i) j) as [Hlt|Hge].
    + specialize (Hlow _ _ Hlt Ei). lia.
    + specialize (Hhigh _ _ Hge Ei). lia.
Qed.

Lemma _lookup_variable_miss vars h0 :
  table_sorted vars -> g_array_len vars <= TABLE_MAX ->
  (forall v, v ∈ vars -> handle v <> h0) ->
  exists i : nat,
    _lookup_variable vars h0 = LookupReturn false (Z.of_nat i) /\
    (i <= length vars)%nat /\
    (forall (k : nat) v, (k < i)%nat -> vars !! k = Some v -> handle v < h0) /\
    (forall (k : nat) v, (i <= k)%nat -> vars !! k = Some v -> h0 < handle v).
Proof.
  intros Hs Hmax Hnot.
  pose proof (_lookup_variable_spec vars h0 Hs Hmax) as Hpost.
  destruct (_lookup_variable vars h0) as [[|] j| |]; simpl in Hpost; try done.
  - destruct Hpost as (v & [_ Ej]%g_array_index_Some & Hh).
    exfalso. eapply Hnot; [|done]. eapply list_elem_of_lookup_2. done.
  - destruct Hpost as ([Hj0 Hjlen] & Hlow & Hhigh). exists (Z.to_nat j).
    rewrite Z2Nat.id by done. unfold g_array_len in *. repeat split; [lia| |].
    + intros k v Hk Ek. apply (Hlow (Z.of_nat k)); [lia|]. by rewrite g_array_index_of_nat.
    + intros k v Hk Ek. apply (Hhigh (Z.of_nat k)); [lia|]. by rewrite g_array_index_of_nat.
Qed.

(** Inserting at the position a miss reports keeps the table sorted. *)
Lemma insert_sorted vars (i : nat) x :
  table_sorted vars -> (i <= length vars)%nat ->
  (forall (k : nat) v, (k < i)%nat -> vars !! k = Some v -> handle v < handle x) ->
  (forall (k : nat) v, (i <= k)%nat -> vars !! k = Some v -> handle x < handle v) ->
  table_sorted (g_array_insert_val vars (Z.of_nat i) x).
Proof.
  intros Hs Hi Hlow Hhigh a b va vb Hab Ea Eb.
  unfold g_array_insert_val in *. rewrite Nat2Z.id in *.
  assert (Hlen : length (take i vars) = i) by (rewrite length_take; lia).
  assert (Hget : forall k v, (take i vars ++ x :: drop i vars) !! k = Some v ->
            ((k < i)%nat /\ vars !! k = Some v) \/ (k = i /\ v = x) \/
            ((i < k)%nat /\ vars !! (k - 1)%nat = Some v)).
  { intros k v Hk. destruct (Nat.lt_trichotomy k i) as [Hlt|[->|Hgt]].
    - left. split; [done|]. rewrite lookup_app_l in Hk by lia.
      by rewrite lookup_take_lt in Hk by done.
    - right; left. split; [done|]. rewrite lookup_app_r in Hk by lia.
      rewrite Hlen, Nat.sub_diag in Hk. simpl in Hk. congruence.
    - right; right. split; [done|]. rewrite lookup_app_r in Hk by lia.
      rewrite Hlen in Hk. destruct (k - i)%nat as [|n] eqn:En; [lia|]. simpl in Hk.
      rewrite lookup_drop in Hk. by replace (k - 1)%nat with (i + n)%nat by lia. }
  destruct (Hget _ _ Ea) as [[Ha Ha']|[[-> ->]|[Ha Ha']]],
           (Hget _ _ Eb) as [[Hb Hb']|[[-> ->]|[Hb Hb']]]; try lia.
  - eapply Hs; [|done..]. done.
  - eauto.
  - eapply Hs; [|done..]. lia.
  - eapply Hhigh; [|done]. lia.
  - eapply Hs; [|done..]. lia.
Qed.

(** ** Primitive steps *)

Lemma put_scope_Ok w a s s' :
  scopes w !! a = Some s -> put_scope a s' w = Ok tt (with_scopes (insert a s') w).
Proof. intros H. unfold put_scope. by rewrite (bind_Ok _ _ _ _ _ (get_scope_Ok _ _ _ H)). Qed.

Lemma put_object_Ok w a o o' :
  objects w !! a = Some o -> put_object a o' w = Ok tt (with_objects (insert a o') w).
Proof. intros H. unfold put_object. by rewrite (bind_Ok _ _ _ _ _ (get_object_Ok _ _ _ H)). Qed.

Lemma put_message_Ok w a m m' :
  messages w !! a = Some m -> put_message a m' w = Ok tt (with_messages (insert a m') w).
Proof. intros H. unfold put_message. by rewrite (bind_Ok _ _ _ _ _ (get_message_Ok _ _ _ H)). Qed.

Lemma get_variable_Ok w self s i x :
  scopes w !! self = Some s -> g_array_index (variables s) i = Some x ->
  get_variable (self, i) w = Ok x w.
Proof.
  intros Hs Hx. unfold get_variable. simpl.
  rewrite (bind_Ok _ _ _ _ _ (get_scope_Ok _ _ _ Hs)). by rewrite Hx.
Qed.

Lemma put_variable_Ok w self s i x x' :
  scopes w !! self = Some s -> g_array_index (variables s) i = Some x ->
  put_variable (self, i) x' w =
  Ok tt (with_scopes (insert self (set_variables s (<[Z.to_nat i := x']> (variables s)))) w).
Proof.
  intros Hs Hx. unfold put_variable. simpl.
  rewrite (bind_Ok _ _ _ _ _ (get_scope_Ok _ _ _ Hs)). rewrite Hx. simpl.
  unfold mbind, M_bind, mret, M_ret. by apply (put_scope_Ok _ _ s).
Qed.

Lemma filterx_object_ref_Ok w p :
  live w p -> filterx_object_ref p w = Ok p (with_objects (acquire p) w).
Proof.
  destruct p as [a|]; simpl; [|by destruct w].
  intros [o Ho]. rewrite (bind_Ok _ _ _ _ _ (get_object_Ok _ _ _ Ho)).
  rewrite (bind_Ok _ _ _ _ _ (put_object_Ok _ _ _ _ Ho)).
  unfold with_objects at 2, acquire. by rewrite Ho.
Qed.

Lemma filterx_object_unref_Ok w p :
  live w p -> filterx_object_unref p w = Ok tt (with_objects (release p) w).
Proof.
  destruct p as [a|]; simpl; [|by destruct w].
  intros [o Ho]. rewrite (bind_Ok _ _ _ _ _ (get_object_Ok _ _ _ Ho)).
  unfold with_objects, release. rewrite Ho.
  destruct (obj_ref_cnt o - 1 =? 0); [done|]. by apply (put_object_Ok _ _ o).
Qed.

Lemma filterx_scope_lookup_variable_Ok w self s h0 found v_slot :
  scopes w !! self = Some s ->
  _lookup_variable (variables s) h0 = LookupReturn found v_slot ->
  filterx_scope_lookup_variable self h0 w =
  Ok (if found then Some (self, v_slot) else None) w.
Proof.
  intros Hs Hl. unfold filterx_scope_lookup_variable.
  rewrite (bind_Ok _ _ _ _ _ (get_scope_Ok _ _ _ Hs)). rewrite Hl. by destruct found.
Qed.

(** ** C10: lookup on an empty scope *)

(** C10.  For every handle, looking it up in a scope whose table is empty
    reports no match and does not fault: the upper bound of the search,
    the table length minus one computed in [guint] and converted to
    [gint], is -1, so the loop is never entered; the world is unchanged. *)
Theorem lookup_in_empty_scope (w : World) (self : address) (s : FilterXScope) (h0 : NVHandle) :
  scopes w !! self = Some s ->
  variables s = [] ->
  to_gint (to_guint (g_array_len (variables s) - 1)) = -1 /\
  _lookup_variable (variables s) h0 = LookupReturn false 0 /\
  filterx_scope_lookup_variable self h0 w = Ok None w.
Proof.
  intros Hs Hv. rewrite Hv. split; [reflexivity|]. split; [reflexivity|].
  apply (filterx_scope_lookup_variable_Ok w self s h0 false 0 Hs). by rewrite Hv.
Qed.

Lemma lookup_in_empty_scope_witness :
  to_gint (to_guint (g_array_len (variables Sample.empty_scope) - 1)) = -1 /\
  _lookup_variable (variables Sample.empty_scope) 10 = LookupReturn false 0 /\
  filterx_scope_lookup_variable 1%positive 10 (Sample.world_of Sample.empty_scope) =
    Ok None (Sample.world_of Sample.empty_scope).
Proof.
  apply (lookup_in_empty_scope (Sample.world_of Sample.empty_scope) 1%positive
           Sample.empty_scope 10); reflexivity.
Defined.

(** ** Registering variables *)

Lemma v_index_of_slot (i : nat) :
  Z.of_nat i <= TABLE_MAX ->
  to_gsize (Z.of_nat i * SIZEOF_VARIABLE) / SIZEOF_VARIABLE = Z.of_nat i.
Proof.
  unfold TABLE_MAX, to_gsize, SIZEOF_VARIABLE. intros H.
  rewrite Z.mod_small by lia. by rewrite Z.div_mul.
Qed.

Lemma g_array_insert_val_lookup vars (i : nat) x :
  (i <= length vars)%nat -> g_array_insert_val vars (Z.of_nat i) x !! i = Some x.
Proof.
  intros Hi. unfold g_array_insert_val. rewrite Nat2Z.id.
  rewrite lookup_app_r by (rewrite length_take; lia).
  rewrite length_take. by replace (i - i `min` length vars)%nat with 0%nat by lia.
Qed.

Lemma g_array_insert_val_length vars i x :
  length (g_array_insert_val vars i x) = S (length vars).
Proof.
  unfold g_array_insert_val. rewrite length_app. simpl.
  rewrite length_take, length_drop. lia.
Qed.

Lemma register_present w self s h0 fl init (i : nat) v :
  scopes w !! self = Some s ->
  table_sorted (variables s) -> g_array_len (variables s) <= TABLE_MAX ->
  variables s !! i = Some v -> handle v = h0 ->
  filterx_scope_register_variable self h0 fl init w = Ok (self, Z.of_nat i) w.
Proof.
  intros Hs Hsorted Hmax Hi <-. unfold filterx_scope_register_variable.
  rewrite (bind_Ok _ _ _ _ _ (get_scope_Ok _ _ _ Hs)).
  by rewrite (_lookup_variable_hit _ _ _ Hsorted Hmax Hi).
Qed.

Lemma register_absent w self s h0 fl init :
  scopes w !! self = Some s ->
  table_sorted (variables s) -> g_array_len (variables s) < TABLE_MAX ->
  (forall v, v ∈ variables s -> handle v <> h0) ->
  live w init ->
  exists i : nat,
    (i <= length (variables s))%nat /\
    _lookup_variable (variables s) h0 = LookupReturn false (Z.of_nat i) /\
    filterx_scope_register_variable self h0 fl init w =
      Ok (self, Z.of_nat i) (registered self s (Z.of_nat i) (mkVariable h0 fl false init) w) /\
    table_sorted (g_array_insert_val (variables s) (Z.of_nat i) (mkVariable h0 fl false init)).
Proof.
  intros Hs Hsorted Hmax Hnot Hlive.
  destruct (_lookup_variable_miss (variables s) h0 Hsorted ltac:(lia) Hnot)
    as (i & Hl & Hi & Hlow & Hhigh).
  exists i. split; [done|]. split; [done|]. split; [|by apply insert_sorted].
  unfold filterx_scope_register_variable.
  rewrite (bind_Ok _ _ _ _ _ (get_scope_Ok _ _ _ Hs)). rewrite Hl.
  rewrite v_index_of_slot by (unfold g_array_len in *; lia).
  unfold g_assert, g_array_len.
  destruct (Z.leb_spec (Z.of_nat i) (Z.of_nat (length (variables s)))); [|lia].
  rewrite bind_ret. rewrite Z.eqb_refl. rewrite bind_ret.
  rewrite (bind_Ok _ _ _ _ _ (filterx_object_ref_Ok _ _ Hlive)).
  assert (Hs' : scopes (with_objects (acquire init) w) !! self = Some s) by done.
  rewrite (bind_Ok _ _ _ _ _ (get_scope_Ok _ _ _ Hs')).
  by rewrite (bind_Ok _ _ _ _ _ (put_scope_Ok _ _ _ _ Hs')).
Qed.

Lemma sorted_ascending_from lo hs :
  (forall (i : nat) x, hs !! i = Some x -> lo < x) ->
  (forall (i j : nat) x y, (i < j)%nat -> hs !! i = Some x -> hs !! j = Some y -> x < y) ->
  ascending_from lo hs = true.
Proof.
  revert lo. induction hs as [|a hs IH]; intros lo Hall Hpair; [done|]. simpl.
  apply andb_true_iff. split.
  - apply Z.ltb_lt. by apply (Hall 0%nat).
  - apply IH.
    + intros i x Hx. by apply (Hpair 0%nat (S i)); [lia| |].
    + intros i j x y Hij Hx Hy. by apply (Hpair (S i) (S j)); [lia| |].
Qed.

Lemma sorted_strictly_ascending vars :
  table_sorted vars -> strictly_ascending (handle <$> vars) = true.
Proof.
  intros H. destruct vars as [|a vars]; [done|]. simpl.
  apply sorted_ascending_from.
  - intros i x Hx. rewrite list_lookup_fmap in Hx.
    destruct (vars !! i) as [v|] eqn:Ev; [|done]. inversion Hx; subst.
    by apply (H 0%nat (S i)); [lia| |].
  - intros i j x y Hij Hx Hy. rewrite list_lookup_fmap in Hx, Hy.
    destruct (vars !! i) as [vi|] eqn:Ei; [|done].
    destruct (vars !! j) as [vj|] eqn:Ej; [|done].
    inversion Hx; inversion Hy; subst.
    by apply (H (S i) (S j)); [lia| |].
Qed.

(** ** C6: registering is idempotent *)

(** C6.  Registering a handle that the scope already holds returns the
    existing slot and leaves the whole world as it was: the table, its
    size, the slot's value and flags are untouched and the initial value
    offered is not even referenced.  Registering the same handle twice
    returns the same slot both times, and the second call changes
    nothing. *)
Theorem register_idempotent (w : World) (self : address) (s : FilterXScope)
    (h0 : NVHandle) (fl fl' : bool) (init init' : option address) :
  scopes w !! self = Some s ->
  strictly_ascending (handle <$> variables s) = true ->
  g_array_len (variables s) < TABLE_MAX ->
  (forall (i : nat) v, variables s !! i = Some v -> handle v = h0 ->
     filterx_scope_register_variable self h0 fl init w = Ok (self, Z.of_nat i) w) /\
  (live w init ->
   exists slot w1,
     filterx_scope_register_variable self h0 fl init w = Ok slot w1 /\
     filterx_scope_register_variable self h0 fl' init' w1 = Ok slot w1).
Proof.
  intros Hs Hasc%strictly_ascending_sorted Hmax. split.
  - intros i v Hi Hh. eapply register_present; eauto. lia.
  - intros Hlive. destruct (decide (h0 ∈ handle <$> variables s)) as [Hin|Hnot].
    + apply list_elem_of_fmap in Hin as (v & -> & Hv).
      apply list_elem_of_lookup in Hv as (i & Hi).
      exists (self, Z.of_nat i), w.
      split; eapply register_present; eauto; lia.
    + destruct (register_absent w self s h0 fl init Hs Hasc Hmax) as (i & Hi & _ & Hreg & Hsorted');
        [|done|].
      { intros v Hv Hh. apply Hnot. apply list_elem_of_fmap. eauto. }
      eexists _, _. split; [exact Hreg|].
      eapply register_present.
      * unfold registered. simpl. apply lookup_insert_eq.
      * exact Hsorted'.
      * simpl. unfold g_array_len in *. rewrite g_array_insert_val_length. lia.
      * simpl. by apply g_array_insert_val_lookup.
      * done.
Qed.

Lemma register_idempotent_witness :
  (forall (i : nat) v, Sample.table !! i = Some v -> handle v = 20 ->
     filterx_scope_register_variable 1%positive 20 true (Some 3%positive)
       (Sample.world_of Sample.busy_scope) =
     Ok (1%positive, Z.of_nat i) (Sample.world_of Sample.busy_scope)) /\
  (live (Sample.world_of Sample.busy_scope) (Some 3%positive) ->
   exists slot w1,
     filterx_scope_register_variable 1%positive 20 true (Some 3%positive)
       (Sample.world_of Sample.busy_scope) = Ok slot w1 /\
     filterx_scope_register_variable 1%positive 20 false None w1 = Ok slot w1).
Proof.
  apply (register_idempotent (Sample.world_of Sample.busy_scope) 1%positive
           Sample.busy_scope 20 true false (Some 3%positive) None); reflexivity.
Defined.

(** ** C7: the table stays sorted *)

Lemma elem_of_g_array_insert_val vars (i : nat) x y :
  y ∈ g_array_insert_val vars (Z.of_nat i) x <-> y = x \/ y ∈ vars.
Proof.
  unfold g_array_insert_val. rewrite Nat2Z.id.
  rewrite <- (take_drop i vars) at 3.
  rewrite !elem_of_app, elem_of_cons. tauto.
Qed.

Lemma live_acquire w p q f :
  live w p -> live (with_scopes f (with_objects (acquire q) w)) p.
Proof.
  destruct p as [a|]; [|done]. simpl. intros Ha.
  destruct q as [b|]; [|done]. simpl.
  destruct (objects w !! b) as [o|] eqn:Eb; [|done].
  destruct (decide (b = a)) as [->|Hne].
  - rewrite lookup_insert_eq. eauto.
  - by rewrite lookup_insert_ne.
Qed.

Lemma register_all_spec calls : forall w self s,
  scopes w !! self = Some s ->
  table_sorted (variables s) ->
  g_array_len (variables s) + Z.of_nat (length calls) <= TABLE_MAX ->
  NoDup (calls.*1.*1) ->
  (forall v, v ∈ variables s -> handle v ∉ calls.*1.*1) ->
  Forall (fun c => live w c.2) calls ->
  exists w1 s1,
    register_all self calls w = Ok tt w1 /\
    scopes w1 !! self = Some s1 /\
    table_sorted (variables s1) /\
    length (variables s1) = (length (variables s) + length calls)%nat /\
    (forall x, x ∈ variables s1 <-> x ∈ variables s \/ x ∈ call_variable <$> calls).
Proof.
  induction calls as [|[[h0 fl] init] calls IH]; intros w self s Hs Hsorted Hmax Hnd Hfresh Hlive.
  - exists w, s. split; [done|]. split; [done|]. split; [done|]. split; [simpl; lia|].
    intros x. split; [by left|]. intros [Hx|Hx]; [done|]. by apply elem_of_nil in Hx.
  - simpl in *. apply NoDup_cons in Hnd as [Hh0 Hnd].
    apply Forall_cons in Hlive as [Hinit Hlive]. simpl in Hinit.
    destruct (register_absent w self s h0 fl init Hs Hsorted ltac:(lia)) as
      (i & Hi & _ & Hreg & Hsorted'); [|done|].
    { intros v Hv Hh. apply (Hfresh v Hv). rewrite Hh. by left. }
    rewrite (bind_Ok _ _ _ _ _ Hreg).
    set (x := mkVariable h0 fl false init) in *.
    set (w' := registered self s (Z.of_nat i) x w) in *.
    destruct (IH w' self (set_variables s (g_array_insert_val (variables s) (Z.of_nat i) x)))
      as (w1 & s1 & Hrun & Hs1 & Hsorted1 & Hlen & Hmem).
    + subst w'. unfold registered. simpl. apply lookup_insert_eq.
    + done.
    + simpl. unfold g_array_len in *. rewrite g_array_insert_val_length. lia.
    + done.
    + simpl. intros v [->|Hv]%elem_of_g_array_insert_val; [done|].
      intros Hin. apply (Hfresh v Hv). by right.
    + eapply Forall_impl; [exact Hlive|]. intros c Hc. by apply live_acquire.
    + exists w1, s1. split; [done|]. split; [done|]. split; [done|]. split.
      { rewrite Hlen. simpl. rewrite g_array_insert_val_length. lia. }
      intros y. rewrite Hmem. simpl. rewrite elem_of_g_array_insert_val, elem_of_cons.
      unfold call_variable at 2. simpl. fold x. tauto.
Qed.

(** C7.  Registering distinct handles, in any order, into a scope
    created empty leaves the variable table strictly ascending by handle
    (hence without duplicate handles); looking up a registered handle
    then returns the slot that holds it, with the floating flag and the
    initial value it was registered with, and looking up a handle that
    was never registered returns no match. *)
Theorem register_keeps_table_sorted (w : World)
    (calls : list (NVHandle * bool * option address)) :
  NoDup (calls.*1.*1) ->
  Z.of_nat (length calls) <= TABLE_MAX ->
  Forall (fun c => live w c.2) calls ->
  exists self w1 s1,
    (self ← filterx_scope_new; register_all self calls;; mret self) w = Ok self w1 /\
    scopes w1 !! self = Some s1 /\
    strictly_ascending (handle <$> variables s1) = true /\
    length (variables s1) = length calls /\
    (forall c, c ∈ calls ->
       exists i : nat,
         filterx_scope_lookup_variable self c.1.1 w1 = Ok (Some (self, Z.of_nat i)) w1 /\
         variables s1 !! i = Some (call_variable c)) /\
    (forall h0, h0 ∉ calls.*1.*1 -> filterx_scope_lookup_variable self h0 w1 = Ok None w1).
Proof.
  intros Hnd Hmax Hlive.
  set (self := fresh (dom (scopes w))).
  set (w0 := with_scopes (insert self (mkScope 1 [] [] false)) w).
  assert (Hnew : filterx_scope_new w = Ok self w0) by reflexivity.
  destruct (register_all_spec calls w0 self (mkScope 1 [] [] false)) as
    (w1 & s1 & Hrun & Hs1 & Hsorted & Hlen & Hmem).
  { subst w0. simpl. apply lookup_insert_eq. }
  { intros i j vi vj _ Hi. simpl in Hi. by rewrite lookup_nil in Hi. }
  { unfold g_array_len. simpl. lia. }
  { done. }
  { intros v Hv. by apply elem_of_nil in Hv. }
  { done. }
  simpl in Hlen.
  exists self, w1, s1. split.
  { rewrite (bind_Ok _ _ _ _ _ Hnew). by rewrite (bind_Ok _ _ _ _ _ Hrun). }
  split; [done|]. split; [by apply sorted_strictly_ascending|]. split; [done|].
  assert (Hmax1 : g_array_len (variables s1) <= TABLE_MAX) by (unfold g_array_len; lia).
  split.
  - intros c Hc.
    assert (Hx : call_variable c ∈ variables s1).
    { apply Hmem. right. by apply list_elem_of_fmap_2. }
    apply list_elem_of_lookup in Hx as (i & Hi). exists i. split; [|done].
    pose proof (_lookup_variable_hit _ _ _ Hsorted Hmax1 Hi) as Hhit.
    exact (filterx_scope_lookup_variable_Ok _ _ _ _ true _ Hs1 Hhit).
  - intros h0 Hh0.
    destruct (_lookup_variable_miss (variables s1) h0 Hsorted Hmax1) as (i & Hmiss & _).
    { intros v [Hv|Hv]%Hmem Hh; [by apply elem_of_nil in Hv|].
      apply list_elem_of_fmap in Hv as (c & -> & Hc). apply Hh0.
      apply list_elem_of_fmap. exists c.1. split; [done|]. by apply list_elem_of_fmap_2. }
    exact (filterx_scope_lookup_variable_Ok _ _ _ _ false _ Hs1 Hmiss).
Qed.

Lemma register_keeps_table_sorted_witness :
  exists self w1 s1,
    (self ← filterx_scope_new; register_all self SampleCalls.calls;; mret self)
      (Sample.world_of Sample.empty_scope) = Ok self w1 /\
    scopes w1 !! self = Some s1 /\
    strictly_ascending (handle <$> variables s1) = true /\
    length (variables s1) = length SampleCalls.calls /\
    (forall c, c ∈ SampleCalls.calls ->
       exists i : nat,
         filterx_scope_lookup_variable self c.1.1 w1 = Ok (Some (self, Z.of_nat i)) w1 /\
         variables s1 !! i = Some (call_variable c)) /\
    (forall h0, h0 ∉ SampleCalls.calls.*1.*1 ->
       filterx_scope_lookup_variable self h0 w1 = Ok None w1).
Proof.
  apply (register_keeps_table_sorted (Sample.world_of Sample.empty_scope) SampleCalls.calls).
  - apply (bool_decide_unpack _). reflexivity.
  - vm_compute. discriminate.
  - repeat constructor; simpl; eexists; reflexivity.
Defined.

(** ** Variables *)

Lemma g_array_index_insert vars i x y :
  g_array_index vars i = Some x ->
  g_array_index (<[Z.to_nat i := y]> vars) i = Some y.
Proof.
  intros [H0 Hx]%g_array_index_Some. apply g_array_index_Some. split; [done|].
  apply list_lookup_insert_eq. by eapply lookup_lt_Some.
Qed.

Lemma store_value_Ok w self s i x p :
  scopes w !! self = Some s -> g_array_index (variables s) i = Some x ->
  store_value (self, i) p w =
  Ok tt (with_scopes (insert self (set_variables s
           (<[Z.to_nat i := mkVariable (handle x) (floating x) (assigned x) p]> (variables s)))) w).
Proof.
  intros Hs Hx. unfold store_value.
  rewrite (bind_Ok _ _ _ _ _ (get_variable_Ok _ _ _ _ _ Hs Hx)).
  by apply (put_variable_Ok _ _ _ _ x).
Qed.

Lemma store_assigned_Ok w self s i x b :
  scopes w !! self = Some s -> g_array_index (variables s) i = Some x ->
  store_assigned (self, i) b w =
  Ok tt (with_scopes (insert self (set_variables s
           (<[Z.to_nat i := mkVariable (handle x) (floating x) b (value x)]> (variables s)))) w).
Proof.
  intros Hs Hx. unfold store_assigned.
  rewrite (bind_Ok _ _ _ _ _ (get_variable_Ok _ _ _ _ _ Hs Hx)).
  by apply (put_variable_Ok _ _ _ _ x).
Qed.

Lemma filterx_variable_set_value_Ok w self s i x new :
  scopes w !! self = Some s -> g_array_index (variables s) i = Some x ->
  live w (value x) ->
  live (with_objects (release (value x)) w) new ->
  filterx_variable_set_value (self, i) new w =
  Ok tt (mkWorld (acquire new (release (value x) (objects w)))
           (<[self := set_variables s
                (<[Z.to_nat i := mkVariable (handle x) (floating x) true new]> (variables s))]>
              (scopes w))
           (messages w) (eval_context w)).
Proof.
  intros Hs Hx Hold Hnew. unfold filterx_variable_set_value.
  rewrite (bind_Ok _ _ _ _ _ (get_variable_Ok _ _ _ _ _ Hs Hx)).
  rewrite (bind_Ok _ _ _ _ _ (filterx_object_unref_Ok _ _ Hold)).
  rewrite (bind_Ok _ _ _ _ _ (filterx_object_ref_Ok _ _ Hnew)).
  set (w2 := with_objects (acquire new) (with_objects (release (value x)) w)).
  assert (Hs2 : scopes w2 !! self = Some s) by done.
  rewrite (bind_Ok _ _ _ _ _ (store_value_Ok _ _ _ _ _ new Hs2 Hx)).
  set (x3 := mkVariable (handle x) (floating x) (assigned x) new).
  set (s3 := set_variables s (<[Z.to_nat i := x3]> (variables s))).
  assert (Hs3 : scopes (with_scopes (insert self s3) w2) !! self = Some s3)
    by apply lookup_insert_eq.
  assert (Hx3 : g_array_index (variables s3) i = Some x3)
    by (by eapply g_array_index_insert).
  rewrite (store_assigned_Ok _ _ _ _ _ true Hs3 Hx3).
  f_equal. unfold with_scopes. simpl. f_equal.
  rewrite insert_insert_eq. f_equal. unfold set_variables. simpl.
  by rewrite list_insert_insert_eq.
Qed.

Lemma filterx_variable_get_value_Ok w self s i x :
  scopes w !! self = Some s -> g_array_index (variables s) i = Some x ->
  live w (value x) ->
  filterx_variable_get_value (self, i) w = Ok (value x) (with_objects (acquire (value x)) w).
Proof.
  intros Hs Hx Hlive. unfold filterx_variable_get_value.
  rewrite (bind_Ok _ _ _ _ _ (get_variable_Ok _ _ _ _ _ Hs Hx)).
  by apply filterx_object_ref_Ok.
Qed.

(** ** Log messages *)

Lemma log_msg_is_value_set_Ok w msg m h0 :
  messages w !! msg = Some m ->
  log_msg_is_value_set msg h0 w = Ok (bool_decide (is_Some (nv_values m !! h0))) w.
Proof.
  intros Hm. unfold log_msg_is_value_set.
  by rewrite (bind_Ok _ _ _ _ _ (get_message_Ok _ _ _ Hm)).
Qed.

Lemma log_msg_get_value_if_set_with_type_Ok w msg m h0 :
  messages w !! msg = Some m ->
  log_msg_get_value_if_set_with_type msg h0 w = Ok (nv_values m !! h0) w.
Proof.
  intros Hm. unfold log_msg_get_value_if_set_with_type.
  by rewrite (bind_Ok _ _ _ _ _ (get_message_Ok _ _ _ Hm)).
Qed.

(** ** Looking a handle up in a well-formed table *)

Lemma handle_bound_or_not (vars : list FilterXVariable) (h0 : NVHandle) :
  (exists (i : nat) x, vars !! i = Some x /\ handle x = h0) \/
  (forall x, x ∈ vars -> handle x <> h0).
Proof.
  destruct (decide (h0 ∈ handle <$> vars)) as [Hin|Hnot].
  - left. apply list_elem_of_fmap in Hin as (x & -> & Hx).
    apply list_elem_of_lookup in Hx as (i & Hi). eauto.
  - right. intros x Hx Hh. apply Hnot. apply list_elem_of_fmap. eauto.
Qed.

Lemma lookup_bound w self s (i : nat) x :
  scopes w !! self = Some s ->
  table_sorted (variables s) -> g_array_len (variables s) <= TABLE_MAX ->
  variables s !! i = Some x ->
  filterx_scope_lookup_variable self (handle x) w = Ok (Some (self, Z.of_nat i)) w.
Proof.
  intros Hs Hsorted Hmax Hi.
  exact (filterx_scope_lookup_variable_Ok _ _ _ _ true _ Hs
           (_lookup_variable_hit _ _ _ Hsorted Hmax Hi)).
Qed.

Lemma lookup_unbound w self s h0 :
  scopes w !! self = Some s ->
  table_sorted (variables s) -> g_array_len (variables s) <= TABLE_MAX ->
  (forall x, x ∈ variables s -> handle x <> h0) ->
  filterx_scope_lookup_variable self h0 w = Ok None w.
Proof.
  intros Hs Hsorted Hmax Hnot.
  destruct (_lookup_variable_miss _ _ Hsorted Hmax Hnot) as (i & Hmiss & _).
  exact (filterx_scope_lookup_variable_Ok _ _ _ _ false _ Hs Hmiss).
Qed.

Lemma table_sorted_unique vars (i j : nat) x y :
  table_sorted vars -> vars !! i = Some x -> vars !! j = Some y ->
  handle x = handle y -> i = j.
Proof.
  intros Hs Hi Hj Hh. destruct (Nat.lt_trichotomy i j) as [Hlt|[Heq|Hgt]]; [|done|].
  - pose proof (Hs _ _ _ _ Hlt Hi Hj). lia.
  - pose proof (Hs _ _ _ _ Hgt Hj Hi). lia.
Qed.

Lemma filterx_eval_get_context_Ok w : filterx_eval_get_context w = Ok (eval_context w) w.
Proof. reflexivity. Qed.

Lemma filterx_eval_get_scope_Ok w : filterx_eval_get_scope w = Ok (scope (eval_context w)) w.
Proof. reflexivity. Qed.

(** ** C5: unset *)

(** C5.  Unsetting through a message reference always succeeds and never
    touches the message.  When the scope holds a variable for the handle,
    its value is released and becomes absent and the variable is marked
    assigned; when it holds none and the message has the field, a
    non-floating variable without a value is registered at its sorted
    position (a whiteout); when it holds none and the message lacks the
    field, nothing changes. *)
Theorem unset_records_intent (w : World) (s : FilterXScope) (msg : address)
    (m : LogMessage) (h0 : NVHandle) :
  scopes w !! scope (eval_context w) = Some s ->
  strictly_ascending (handle <$> variables s) = true ->
  g_array_len (variables s) < TABLE_MAX ->
  msgs (eval_context w) !! 0%nat = Some msg ->
  messages w !! msg = Some m ->
  Forall (fun x => live w (value x)) (variables s) ->
  exists w1,
    _unset h0 w = Ok true w1 /\
    messages w1 = messages w /\
    (forall (i : nat) x, variables s !! i = Some x -> handle x = h0 ->
       w1 = mkWorld (release (value x) (objects w))
              (<[scope (eval_context w) := set_variables s
                   (<[i := mkVariable h0 (floating x) true None]> (variables s))]> (scopes w))
              (messages w) (eval_context w)) /\
    ((forall x, x ∈ variables s -> handle x <> h0) -> is_Some (nv_values m !! h0) ->
       exists i : nat,
         w1 = registered (scope (eval_context w)) s (Z.of_nat i)
                (mkVariable h0 false false None) w /\
         g_array_insert_val (variables s) (Z.of_nat i) (mkVariable h0 false false None) !! i
           = Some (mkVariable h0 false false None) /\
         strictly_ascending
           (handle <$> g_array_insert_val (variables s) (Z.of_nat i)
                         (mkVariable h0 false false None)) = true) /\
    ((forall x, x ∈ variables s -> handle x <> h0) -> nv_values m !! h0 = None -> w1 = w).
Proof.
  intros Hs Hsorted%strictly_ascending_sorted Hmax Hmsg Hm Hlive.
  set (self := scope (eval_context w)) in *.
  assert (Hmax' : g_array_len (variables s) <= TABLE_MAX) by lia.
  unfold _unset.
  rewrite (bind_Ok _ _ _ _ _ (filterx_eval_get_context_Ok w)).
  fold self.
  destruct (handle_bound_or_not (variables s) h0) as [(i & x & Hi & Hh)|Hnot].
  - subst h0. rewrite (bind_Ok _ _ _ _ _ (lookup_bound _ _ _ _ _ Hs Hsorted Hmax' Hi)).
    assert (Hx : g_array_index (variables s) (Z.of_nat i) = Some x)
      by by rewrite g_array_index_of_nat.
    assert (Hold : live w (value x)).
    { rewrite Forall_forall in Hlive. apply Hlive. by eapply list_elem_of_lookup_2. }
    unfold filterx_variable_unset_value.
    rewrite (bind_Ok _ _ _ _ _
               (filterx_variable_set_value_Ok _ _ _ _ _ None Hs Hx Hold I)).
    rewrite Nat2Z.id. eexists. split; [reflexivity|]. split; [done|]. split.
    + intros j y Hj Hh.
      assert (j = i) as -> by (eapply table_sorted_unique; eauto).
      rewrite Hi in Hj. by inversion Hj; subst.
    + split; intros Hnot; exfalso; eapply Hnot; eauto; by eapply list_elem_of_lookup_2.
  - rewrite (bind_Ok _ _ _ _ _ (lookup_unbound _ _ _ _ Hs Hsorted Hmax' Hnot)).
    unfold context_msg0. rewrite Hmsg. unfold defined. rewrite bind_ret.
    rewrite (bind_Ok _ _ _ _ _ (log_msg_is_value_set_Ok _ _ _ h0 Hm)).
    destruct (nv_values m !! h0) as [r|] eqn:Ev.
    + rewrite bool_decide_eq_true_2 by eauto.
      destruct (register_absent w self s h0 false None Hs Hsorted Hmax Hnot I)
        as (i & Hi & _ & Hreg & Hsorted').
      assert (Hwhite : _whiteout_variable h0 (eval_context w) w =
                Ok tt (registered self s (Z.of_nat i) (mkVariable h0 false false None) w)).
      { unfold _whiteout_variable. fold self. by rewrite (bind_Ok _ _ _ _ _ Hreg). }
      rewrite (bind_Ok _ _ _ _ _ Hwhite).
      eexists. split; [reflexivity|]. split; [done|]. split.
      { intros j y Hj Hh. exfalso. eapply Hnot; [|done]. by eapply list_elem_of_lookup_2. }
      split; [|done]. intros _ _. exists i. split; [done|].
      split; [by apply g_array_insert_val_lookup|by apply sorted_strictly_ascending].
    + rewrite bool_decide_eq_false_2 by (intros [? ?]; done).
      exists w. split; [reflexivity|]. split; [done|]. split.
      { intros j y Hj Hh. exfalso. eapply Hnot; [|done]. by eapply list_elem_of_lookup_2. }
      split; [|done]. intros _ [? ?]. done.
Qed.

Lemma unset_records_intent_witness :
  exists w1,
    _unset 10 (Sample.world_of Sample.busy_scope) = Ok true w1 /\
    messages w1 = messages (Sample.world_of Sample.busy_scope).
Proof.
  destruct (unset_records_intent (Sample.world_of Sample.busy_scope) Sample.busy_scope
              1%positive Sample.message 10) as (w1 & Hrun & Hmsg & _).
  - reflexivity.
  - reflexivity.
  - reflexivity.
  - reflexivity.
  - reflexivity.
  - repeat constructor; simpl; eexists; reflexivity.
  - exists w1. split; assumption.
Defined.

(** ** C2: evaluation *)

Lemma filterx_message_value_new_borrowed_Ok w repr t :
  let a := fresh (dom (objects w)) in
  objects w !! a = None /\
  filterx_message_value_new_borrowed repr t w =
  Ok a (with_objects (insert a (mkObject 1 false false (Some (repr, t)))) w).
Proof.
  intros a. split; [|reflexivity].
  apply not_elem_of_dom. apply is_fresh.
Qed.

(** C2.  Evaluating a message reference: when the scope holds a variable
    for the handle, the variable's value is returned with one more
    reference, an absent value being returned as absent, and nothing else
    changes; when it holds none and the message lacks the field, absent is
    returned and the world, the scope included, is left as it was; when it
    holds none and the message has the field, a new immutable object
    wrapping the field's bytes and type is returned, after a non-floating,
    unassigned variable holding it was registered at its sorted position. *)
Theorem eval_binds_lazily (w : World) (s : FilterXScope) (msg : address)
    (m : LogMessage) (h0 : NVHandle) :
  scopes w !! scope (eval_context w) = Some s ->
  strictly_ascending (handle <$> variables s) = true ->
  g_array_len (variables s) < TABLE_MAX ->
  msgs (eval_context w) !! 0%nat = Some msg ->
  messages w !! msg = Some m ->
  Forall (fun x => live w (value x)) (variables s) ->
  (forall (i : nat) x, variables s !! i = Some x -> handle x = h0 ->
     _eval h0 w = Ok (value x) (with_objects (acquire (value x)) w)) /\
  ((forall x, x ∈ variables s -> handle x <> h0) -> nv_values m !! h0 = None ->
     _eval h0 w = Ok None w) /\
  (forall repr t,
     (forall x, x ∈ variables s -> handle x <> h0) -> nv_values m !! h0 = Some (repr, t) ->
     exists (a : address) (i : nat),
       objects w !! a = None /\
       _eval h0 w = Ok (Some a)
         (mkWorld (<[a := mkObject 2 false false (Some (repr, t))]> (objects w))
            (<[scope (eval_context w) := set_variables s
                 (g_array_insert_val (variables s) (Z.of_nat i)
                    (mkVariable h0 false false (Some a)))]> (scopes w))
            (messages w) (eval_context w)) /\
       g_array_insert_val (variables s) (Z.of_nat i) (mkVariable h0 false false (Some a)) !! i
         = Some (mkVariable h0 false false (Some a)) /\
       strictly_ascending
         (handle <$> g_array_insert_val (variables s) (Z.of_nat i)
                       (mkVariable h0 false false (Some a))) = true).
Proof.
  intros Hs Hsorted%strictly_ascending_sorted Hmax Hmsg Hm Hlive.
  set (self := scope (eval_context w)) in *.
  assert (Hmax' : g_array_len (variables s) <= TABLE_MAX) by lia.
  assert (Hunbound : (forall x, x ∈ variables s -> handle x <> h0) ->
            _eval h0 w = _pull_variable_from_message h0 (eval_context w) msg w).
  { intros Hnot. unfold _eval.
    rewrite (bind_Ok _ _ _ _ _ (filterx_eval_get_context_Ok w)). fold self.
    rewrite (bind_Ok _ _ _ _ _ (lookup_unbound _ _ _ _ Hs Hsorted Hmax' Hnot)).
    unfold context_msg0. rewrite Hmsg. unfold defined. by rewrite bind_ret. }
  split; [|split].
  - intros i x Hi <-. unfold _eval.
    rewrite (bind_Ok _ _ _ _ _ (filterx_eval_get_context_Ok w)). fold self.
    rewrite (bind_Ok _ _ _ _ _ (lookup_bound _ _ _ _ _ Hs Hsorted Hmax' Hi)).
    apply (filterx_variable_get_value_Ok _ _ s).
    + done.
    + by rewrite g_array_index_of_nat.
    + rewrite Forall_forall in Hlive. apply Hlive. by eapply list_elem_of_lookup_2.
  - intros Hnot Hnone. rewrite (Hunbound Hnot). unfold _pull_variable_from_message.
    rewrite (bind_Ok _ _ _ _ _ (log_msg_get_value_if_set_with_type_Ok _ _ _ h0 Hm)).
    by rewrite Hnone.
  - intros repr t Hnot Hsome. rewrite (Hunbound Hnot). unfold _pull_variable_from_message.
    rewrite (bind_Ok _ _ _ _ _ (log_msg_get_value_if_set_with_type_Ok _ _ _ h0 Hm)).
    rewrite Hsome.
    destruct (filterx_message_value_new_borrowed_Ok w repr t) as [Hfresh Hnew].
    set (a := fresh (dom (objects w))) in *.
    rewrite (bind_Ok _ _ _ _ _ Hnew).
    set (w' := with_objects (insert a (mkObject 1 false false (Some (repr, t)))) w).
    assert (Hs' : scopes w' !! self = Some s) by done.
    assert (Ha : live w' (Some a)) by (simpl; rewrite lookup_insert_eq; eauto).
    destruct (register_absent w' self s h0 false (Some a) Hs' Hsorted Hmax Hnot Ha)
      as (i & Hi & _ & Hreg & Hsorted').
    fold self. rewrite (bind_Ok _ _ _ _ _ Hreg).
    exists a, i. split; [done|]. split; [|split].
    + unfold mret, M_ret. f_equal. unfold registered, with_scopes, with_objects. simpl.
      f_equal. rewrite lookup_insert_eq. by rewrite insert_insert_eq.
    + by apply g_array_insert_val_lookup.
    + by apply sorted_strictly_ascending.
Qed.

Lemma eval_binds_lazily_witness :
  _eval 20 (Sample.world_of Sample.busy_scope) =
    Ok (Some 2%positive)
       (with_objects (acquire (Some 2%positive)) (Sample.world_of Sample.busy_scope)) /\
  _eval 50 (Sample.world_of Sample.busy_scope) = Ok None (Sample.world_of Sample.busy_scope).
Proof.
  destruct (eval_binds_lazily (Sample.world_of Sample.busy_scope) Sample.busy_scope
              1%positive Sample.message 20) as (Hbound & _ & _).
  - reflexivity.
  - reflexivity.
  - reflexivity.
  - reflexivity.
  - reflexivity.
  - repeat constructor; simpl; eexists; reflexivity.
  - split; [exact (Hbound 1%nat _ eq_refl eq_refl)|reflexivity].
Defined.

(** ** Reference counts *)

Lemma set_obj_ref_cnt_id o : set_obj_ref_cnt o (obj_ref_cnt o) = o.
Proof. by destruct o. Qed.

Lemma release_lookup_ne a b objs :
  a <> b -> release (Some a) objs !! b = objs !! b.
Proof.
  intros Hne. simpl. destruct (objs !! a) as [o|]; [|done].
  destruct (obj_ref_cnt o - 1 =? 0).
  - by rewrite lookup_delete_ne.
  - by rewrite lookup_insert_ne.
Qed.

Lemma acquire_lookup_ne a b objs :
  a <> b -> acquire (Some a) objs !! b = objs !! b.
Proof.
  intros Hne. simpl. destruct (objs !! a) as [o|]; [|done]. by rewrite lookup_insert_ne.
Qed.

Lemma acquire_lookup_eq a o objs :
  objs !! a = Some o ->
  acquire (Some a) objs !! a = Some (set_obj_ref_cnt o (obj_ref_cnt o + 1)).
Proof. intros H. simpl. rewrite H. apply lookup_insert_eq. Qed.

Lemma release_acquire a o objs :
  objs !! a = Some o -> obj_ref_cnt o <> 0 ->
  release (Some a) (acquire (Some a) objs) = objs.
Proof.
  intros Ho Hcnt. unfold release. rewrite (acquire_lookup_eq _ _ _ Ho). simpl. rewrite Ho.
  replace (obj_ref_cnt o + 1 - 1) with (obj_ref_cnt o) by lia.
  destruct (Z.eqb_spec (obj_ref_cnt o) 0); [done|].
  rewrite insert_insert_eq. unfold set_obj_ref_cnt. simpl.
  apply insert_id. rewrite Ho. by destruct o.
Qed.

(** A reference besides the one released keeps the object alive. *)
Lemma release_keeps old c oc objs :
  objs !! c = Some oc -> 1 <= obj_ref_cnt oc ->
  (old = Some c -> 2 <= obj_ref_cnt oc) ->
  exists oc', release old objs !! c = Some oc' /\ 1 <= obj_ref_cnt oc' /\
    obj_mutable oc' = obj_mutable oc /\ modified_in_place oc' = modified_in_place oc /\
    obj_repr oc' = obj_repr oc.
Proof.
  intros Hc Hcnt Hold. destruct old as [a|]; [|by exists oc].
  destruct (decide (a = c)) as [->|Hne].
  - specialize (Hold eq_refl). simpl. rewrite Hc.
    destruct (Z.eqb_spec (obj_ref_cnt oc - 1) 0); [lia|].
    rewrite lookup_insert_eq. eexists. split; [done|]. simpl. repeat split; lia.
  - rewrite release_lookup_ne by done. by exists oc.
Qed.

Lemma filterx_object_clone_Ok w p :
  live w p ->
  filterx_object_clone p w = Ok (clone_addr (objects w) p) (with_objects (clone_store p) w).
Proof.
  destruct p as [a|]; [|by destruct w]. intros [o Ho]. unfold filterx_object_clone.
  rewrite (bind_Ok _ _ _ _ _ (get_object_Ok _ _ _ Ho)).
  unfold clone_addr, clone_store, with_objects. rewrite Ho.
  destruct (obj_mutable o); [done|].
  rewrite (filterx_object_ref_Ok w (Some a)) by (simpl; eauto). done.
Qed.

Lemma clone_store_live p a objs :
  is_Some (objs !! a) -> is_Some (clone_store p objs !! a).
Proof.
  intros Ha. destruct p as [n|]; [|done]. simpl.
  destruct (objs !! n) as [o|] eqn:En; [|done]. destruct (obj_mutable o).
  - destruct (decide (fresh (dom objs) = a)) as [<-|Hne].
    + rewrite lookup_insert_eq. eauto.
    + by rewrite lookup_insert_ne.
  - destruct (decide (n = a)) as [<-|Hne].
    + rewrite lookup_insert_eq. eauto.
    + by rewrite lookup_insert_ne.
Qed.

(** The clone is held through at least one reference, and through at
    least two where it shares the address of an object alive before. *)
Lemma clone_store_owned n o objs :
  objs !! n = Some o -> 1 <= obj_ref_cnt o ->
  exists c oc,
    clone_addr objs (Some n) = Some c /\
    clone_store (Some n) objs !! c = Some oc /\
    1 <= obj_ref_cnt oc /\
    obj_mutable oc = obj_mutable o /\ obj_repr oc = obj_repr o /\
    (is_Some (objs !! c) -> 2 <= obj_ref_cnt oc).
Proof.
  intros Hn Hcnt. simpl. rewrite Hn. destruct (obj_mutable o) eqn:Emut.
  - exists (fresh (dom objs)), (mkObject 1 true false (obj_repr o)).
    rewrite lookup_insert_eq. simpl. repeat split; try done.
    intros Hlive%elem_of_dom. by apply is_fresh in Hlive.
  - exists n, (set_obj_ref_cnt o (obj_ref_cnt o + 1)). rewrite Hn.
    rewrite lookup_insert_eq. simpl. repeat split; try done; lia.
Qed.

(** ** C4: assignment *)

Lemma g_array_insert_val_handles vars i x y :
  handle x = handle y ->
  handle <$> g_array_insert_val vars i x = handle <$> g_array_insert_val vars i y.
Proof.
  intros H. unfold g_array_insert_val. rewrite !fmap_app, !fmap_cons. by rewrite H.
Qed.

Lemma owned_live w p : owned (objects w) p -> live w p.
Proof. destruct p as [a|]; [|done]. intros (o & Ho & _). simpl. eauto. Qed.

(** Cloning the new value, storing the clone and dropping the extra
    reference. *)
Lemma assign_store_clone w self s i x new_value :
  scopes w !! self = Some s -> g_array_index (variables s) i = Some x ->
  live w (value x) -> owned (objects w) new_value ->
  (new_value' ← filterx_object_clone new_value;
   filterx_variable_set_value (self, i) new_value';;
   filterx_object_unref new_value';;
   mret true) w =
  Ok true
    (mkWorld (release (value x) (clone_store new_value (objects w)))
       (<[self := set_variables s
            (<[Z.to_nat i := mkVariable (handle x) (floating x) true
                               (clone_addr (objects w) new_value)]> (variables s))]>
          (scopes w))
       (messages w) (eval_context w)).
Proof.
  intros Hs Hx Hold Hnew.
  rewrite (bind_Ok _ _ _ _ _ (filterx_object_clone_Ok _ _ (owned_live _ _ Hnew))).
  set (c := clone_addr (objects w) new_value).
  set (wc := with_objects (clone_store new_value) w).
  assert (Hsc : scopes wc !! self = Some s) by done.
  assert (Holdc : live wc (value x)).
  { destruct (value x) as [a|]; [|done]. by apply clone_store_live. }
  assert (Hc : match c with
               | None => True
               | Some a => exists oc, release (value x) (objects wc) !! a = Some oc /\
                             1 <= obj_ref_cnt oc
               end).
  { subst c. destruct new_value as [n|]; [|done]. destruct Hnew as (o & Hn & Hcnt).
    destruct (clone_store_owned n o (objects w) Hn Hcnt) as (c & oc & -> & Hoc & Hcnt' & _ & _ & Hshared).
    destruct (release_keeps (value x) c oc (objects wc) Hoc Hcnt') as (oc' & ? & ? & _).
    - intros Heq. apply Hshared. rewrite Heq in Hold. exact Hold.
    - eauto. }
  assert (Hlivec : live (with_objects (release (value x)) wc) c).
  { destruct c as [a|]; [|done]. destruct Hc as (oc & Hoc & _). simpl. eauto. }
  rewrite (bind_Ok _ _ _ _ _ (filterx_variable_set_value_Ok _ _ _ _ _ c Hsc Hx Holdc Hlivec)).
  match goal with |- (_ ≫= _) ?w' = _ => set (w2 := w') end.
  assert (Hlive2 : live w2 c).
  { destruct c as [a|]; [|done]. destruct Hc as (oc & Hoc & _).
    unfold live, w2. cbn [objects]. rewrite (acquire_lookup_eq _ _ _ Hoc). eauto. }
  rewrite (bind_Ok _ _ _ _ _ (filterx_object_unref_Ok _ _ Hlive2)).
  unfold mret, M_ret. f_equal. unfold with_objects. subst w2. simpl. f_equal.
  destruct c as [a|]; [|done]. destruct Hc as (oc & Hoc & Hcnt).
  apply (release_acquire a oc); [done|lia].
Qed.

(** C4 does not hold as stated: on a write-protected scope shared by two
    holders, [_assign] returns success having put the new variable into
    that very scope, which is still the context's scope, still
    write-protected and still held twice; a write that makes the scope
    writable first leaves a different world. *)
Lemma assign_skips_make_writable :
  exists w1 s1,
    _assign 50 (Some 2%positive) (Sample.world_of Sample.shared_scope) = Ok true w1 /\
    scope (eval_context w1) = 1%positive /\
    scopes w1 !! 1%positive = Some s1 /\
    write_protected s1 = true /\
    ref_cnt s1 = 2 /\
    variables s1 =
      Sample.table ++ [mkVariable 50 false true (Some 2%positive)] /\
    _assign 50 (Some 2%positive) (Sample.world_of Sample.shared_scope) <>
    assign_as_specified 50 (Some 2%positive) (Sample.world_of Sample.shared_scope).
Proof.
  eexists _, _. split; [vm_compute; reflexivity|].
  split; [reflexivity|]. split; [reflexivity|]. split; [reflexivity|].
  split; [reflexivity|]. split; [reflexivity|].
  vm_compute. discriminate.
Qed.

(** C4, amended.  A write through a message reference works on the
    context's scope as it is, whether write-protected or not: the scope
    stays where it is, with its reference count and protection flag, and
    the context keeps pointing to it.  When the scope holds no variable
    for the handle, a non-floating variable is registered at its sorted
    position first.  The variable then holds a clone of the new value and
    is marked assigned, its previous value is released, the clone is left
    with the one reference the variable owns, and success is reported. *)
Theorem assign_stores_clone_in_place (w : World) (s : FilterXScope) (h0 : NVHandle)
    (new_value : option address) :
  scopes w !! scope (eval_context w) = Some s ->
  strictly_ascending (handle <$> variables s) = true ->
  g_array_len (variables s) < TABLE_MAX ->
  Forall (fun x => live w (value x)) (variables s) ->
  owned (objects w) new_value ->
  (forall (i : nat) x, variables s !! i = Some x -> handle x = h0 ->
     _assign h0 new_value w =
     Ok true
       (mkWorld (release (value x) (clone_store new_value (objects w)))
          (<[scope (eval_context w) := set_variables s
               (<[i := mkVariable h0 (floating x) true (clone_addr (objects w) new_value)]>
                  (variables s))]> (scopes w))
          (messages w) (eval_context w))) /\
  ((forall x, x ∈ variables s -> handle x <> h0) ->
   exists i : nat,
     (i <= length (variables s))%nat /\
     _assign h0 new_value w =
     Ok true
       (mkWorld (clone_store new_value (objects w))
          (<[scope (eval_context w) := set_variables s
               (g_array_insert_val (variables s) (Z.of_nat i)
                  (mkVariable h0 false true (clone_addr (objects w) new_value)))]> (scopes w))
          (messages w) (eval_context w)) /\
     strictly_ascending
       (handle <$> g_array_insert_val (variables s) (Z.of_nat i)
                     (mkVariable h0 false true (clone_addr (objects w) new_value))) = true).
Proof.
  intros Hs Hsorted%strictly_ascending_sorted Hmax Hlive Hnew.
  set (self := scope (eval_context w)) in *.
  assert (Hmax' : g_array_len (variables s) <= TABLE_MAX) by lia.
  split.
  - intros i x Hi <-. unfold _assign.
    rewrite (bind_Ok _ _ _ _ _ (filterx_eval_get_scope_Ok w)). fold self.
    rewrite (bind_Ok _ _ _ _ _ (lookup_bound _ _ _ _ _ Hs Hsorted Hmax' Hi)).
    rewrite bind_ret.
    assert (Hx : g_array_index (variables s) (Z.of_nat i) = Some x)
      by by rewrite g_array_index_of_nat.
    assert (Hold : live w (value x)).
    { rewrite Forall_forall in Hlive. apply Hlive. by eapply list_elem_of_lookup_2. }
    rewrite (assign_store_clone w self s (Z.of_nat i) x new_value Hs Hx Hold Hnew).
    by rewrite Nat2Z.id.
  - intros Hnot. unfold _assign.
    rewrite (bind_Ok _ _ _ _ _ (filterx_eval_get_scope_Ok w)). fold self.
    rewrite (bind_Ok _ _ _ _ _ (lookup_unbound _ _ _ _ Hs Hsorted Hmax' Hnot)).
    destruct (register_absent w self s h0 false None Hs Hsorted Hmax Hnot I)
      as (i & Hi & _ & Hreg & Hsorted').
    rewrite (bind_Ok _ _ _ _ _ Hreg).
    set (x := mkVariable h0 false false None) in *.
    set (s1 := set_variables s (g_array_insert_val (variables s) (Z.of_nat i) x)).
    set (w1 := registered self s (Z.of_nat i) x w).
    assert (Hs1 : scopes w1 !! self = Some s1) by apply lookup_insert_eq.
    assert (Hx1 : g_array_index (variables s1) (Z.of_nat i) = Some x).
    { rewrite g_array_index_of_nat. by apply g_array_insert_val_lookup. }
    assert (Hnew1 : owned (objects w1) new_value) by done.
    rewrite (assign_store_clone w1 self s1 (Z.of_nat i) x new_value Hs1 Hx1 I Hnew1).
    exists i. split; [done|].
    assert (Hins : <[Z.to_nat (Z.of_nat i) :=
                       mkVariable (handle x) (floating x) true (clone_addr (objects w1) new_value)]>
                     (variables s1) =
                   g_array_insert_val (variables s) (Z.of_nat i)
                     (mkVariable h0 false true (clone_addr (objects w) new_value))).
    { subst s1. simpl. unfold g_array_insert_val. rewrite !Nat2Z.id.
      rewrite insert_app_r_alt by (rewrite length_take; lia).
      rewrite length_take. by replace (i - i `min` length (variables s))%nat with 0%nat by lia. }
    split.
    + f_equal. simpl. f_equal. rewrite insert_insert_eq. f_equal.
      unfold set_variables. simpl. f_equal. exact Hins.
    + rewrite (g_array_insert_val_handles _ _ _ x) by done.
      by apply sorted_strictly_ascending.
Qed.

Lemma assign_stores_clone_in_place_witness :
  exists w1 s1,
    _assign 10 (Some 3%positive) (Sample.world_of Sample.shared_scope) = Ok true w1 /\
    eval_context w1 = eval_context (Sample.world_of Sample.shared_scope) /\
    scopes w1 !! 1%positive = Some s1 /\
    variables s1 !! 0%nat = Some (mkVariable 10 false true (Some 4%positive)).
Proof.
  destruct (assign_stores_clone_in_place (Sample.world_of Sample.shared_scope)
              Sample.shared_scope 10 (Some 3%positive)) as (Hbound & _).
  - reflexivity.
  - reflexivity.
  - reflexivity.
  - repeat constructor; simpl; eexists; reflexivity.
  - exists Sample.dict. split; [reflexivity|]. simpl. lia.
  - eexists _, _. split; [exact (Hbound 0%nat _ eq_refl eq_refl)|].
    split; [reflexivity|]. split; reflexivity.
Defined.

(** ** Synchronisation *)

Lemma set_variables_id s : set_variables s (variables s) = s.
Proof. by destruct s. Qed.

Lemma sync_world_id w self msg s m :
  scopes w !! self = Some s -> messages w !! msg = Some m ->
  sync_world w self msg s (variables s) (objects w) m = w.
Proof.
  intros Hs Hm. unfold sync_world. rewrite set_variables_id.
  rewrite (insert_id _ _ _ Hs), (insert_id _ _ _ Hm). by destruct w.
Qed.

Lemma log_msg_unset_value_Ok w msg m h0 :
  messages w !! msg = Some m ->
  log_msg_unset_value msg h0 w = Ok tt (with_messages (insert msg (msg_unset m h0)) w).
Proof.
  intros Hm. unfold log_msg_unset_value.
  rewrite (bind_Ok _ _ _ _ _ (get_message_Ok _ _ _ Hm)).
  by apply (put_message_Ok _ _ m).
Qed.

Lemma log_msg_set_value_with_type_Ok w msg m h0 bytes t :
  messages w !! msg = Some m ->
  log_msg_set_value_with_type msg h0 bytes t w =
  Ok tt (with_messages (insert msg (msg_set m h0 bytes t)) w).
Proof.
  intros Hm. unfold log_msg_set_value_with_type.
  rewrite (bind_Ok _ _ _ _ _ (get_message_Ok _ _ _ Hm)).
  by apply (put_message_Ok _ _ m).
Qed.

Lemma get_object_None w a : objects w !! a = None -> get_object a w = Undefined.
Proof. intros H. unfold get_object, get_world, mbind, M_bind. by rewrite H. Qed.

Lemma bind_Undefined {A B} (m : M A) (f : A -> M B) w :
  m w = Undefined -> (m ≫= f) w = Undefined.
Proof. intros H. unfold mbind, M_bind. by rewrite H. Qed.

Lemma bind_Abort {A B} (m : M A) (f : A -> M B) w w' :
  m w = Abort w' -> (m ≫= f) w = Abort w'.
Proof. intros H. unfold mbind, M_bind. by rewrite H. Qed.

Lemma filterx_object_marshal_Ok w a o :
  objects w !! a = Some o -> filterx_object_marshal a w = Ok (obj_repr o) w.
Proof.
  intros H. unfold filterx_object_marshal.
  by rewrite (bind_Ok _ _ _ _ _ (get_object_Ok _ _ _ H)).
Qed.

Lemma filterx_object_marshal_None w a :
  objects w !! a = None -> filterx_object_marshal a w = Undefined.
Proof.
  intros H. unfold filterx_object_marshal.
  by rewrite (bind_Undefined _ _ _ (get_object_None _ _ H)).
Qed.

(** The loop body does to the world what the specification says of one
    variable. *)
Lemma sync_variable_refines w self msg s m (i : nat) x :
  scopes w !! self = Some s -> messages w !! msg = Some m ->
  variables s !! i = Some x ->
  sync_variable self msg (Z.of_nat i) w =
  match sync_variable_spec x (objects w) m with
  | Synced x' objs' m' =>
    Ok tt (sync_world w self msg s (<[i := x']> (variables s)) objs' m')
  | MarshalFailed => Abort w
  | WildValue => Undefined
  end.
Proof.
  intros Hs Hm Hi.
  assert (Hx : g_array_index (variables s) (Z.of_nat i) = Some x)
    by by rewrite g_array_index_of_nat.
  unfold sync_variable, sync_variable_spec.
  rewrite (bind_Ok _ _ _ _ _ (get_variable_Ok _ _ _ _ _ Hs Hx)).
  destruct (floating x) eqn:Efl.
  { unfold mret, M_ret. f_equal. rewrite list_insert_id by done.
    symmetry. by apply sync_world_id. }
  destruct (value x) as [a|] eqn:Eval.
  2: { rewrite (bind_Ok _ _ _ _ _ (log_msg_unset_value_Ok _ _ _ (handle x) Hm)).
       erewrite store_assigned_Ok; [|exact Hs|exact Hx].
       rewrite Nat2Z.id, Efl, Eval. reflexivity. }
  destruct (objects w !! a) as [o|] eqn:Ea.
  2: { destruct (assigned x).
       - rewrite bind_ret.
         by rewrite (bind_Undefined _ _ _ (filterx_object_marshal_None _ _ Ea)).
       - by rewrite (bind_Undefined _ _ _ (bind_Undefined _ _ _ (get_object_None _ _ Ea))). }
  assert (Hdirty : (if assigned x then mret true
                    else o ← get_object a; mret (modified_in_place o)) w =
                   Ok (assigned x || modified_in_place o) w).
  { destruct (assigned x); [done|]. by rewrite (bind_Ok _ _ _ _ _ (get_object_Ok _ _ _ Ea)). }
  rewrite (bind_Ok _ _ _ _ _ Hdirty).
  destruct (assigned x || modified_in_place o) eqn:Ed.
  2: { unfold mret, M_ret. f_equal. rewrite list_insert_id by done.
       symmetry. by apply sync_world_id. }
  rewrite (bind_Ok _ _ _ _ _ (filterx_object_marshal_Ok _ _ _ Ea)).
  destruct (obj_repr o) as [[bytes t]|] eqn:Erepr; [|done].
  rewrite (bind_Ok _ _ _ _ _ (log_msg_set_value_with_type_Ok _ _ _ (handle x) bytes t Hm)).
  set (w1 := with_messages _ w).
  assert (Ea1 : objects w1 !! a = Some o) by done.
  rewrite (bind_Ok _ _ _ _ _ (get_object_Ok _ _ _ Ea1)).
  rewrite (bind_Ok _ _ _ _ _ (put_object_Ok _ _ _ (set_modified_in_place o false) Ea1)).
  erewrite store_assigned_Ok; [|exact Hs|exact Hx].
  rewrite Nat2Z.id, Efl, Eval. reflexivity.
Qed.

Lemma sync_world_twice w self msg s vars1 objs1 m1 vars2 objs2 m2 :
  sync_world (sync_world w self msg s vars1 objs1 m1) self msg
    (set_variables s vars1) vars2 objs2 m2 =
  sync_world w self msg s vars2 objs2 m2.
Proof.
  unfold sync_world. simpl. by rewrite !insert_insert_eq.
Qed.

Lemma to_guint_small i : 0 <= i <= G_MAXINT -> to_guint i = i.
Proof.
  unfold to_guint, GUINT_MODULUS, G_MAXINT. intros H. apply Z.mod_small. lia.
Qed.

Lemma sync_loop_refines self msg rest : forall done fuel w s m,
  variables s = done ++ rest ->
  scopes w !! self = Some s -> messages w !! msg = Some m ->
  g_array_len (variables s) <= G_MAXINT ->
  (length rest < fuel)%nat ->
  sync_loop fuel self msg (Z.of_nat (length done)) w =
  match sync_table_spec rest (objects w) m with
  | TableSynced vs o mm => Ok tt (sync_world w self msg s (done ++ vs) o mm)
  | TableAborted vs o mm => Abort (sync_world w self msg s (done ++ vs) o mm)
  | TableWild => Undefined
  end.
Proof.
  induction rest as [|x rest IH]; intros done fuel w s m Hvars Hs Hm Hmax Hfuel;
    (destruct fuel as [|fuel]; [simpl in Hfuel; lia|]); simpl sync_loop; simpl sync_table_spec;
    rewrite (bind_Ok _ _ _ _ _ (get_scope_Ok _ _ _ Hs));
    pose proof (f_equal length Hvars) as Hlen; rewrite length_app in Hlen;
    unfold g_array_len in *; rewrite to_guint_small by lia;
    match goal with |- context [?a <? ?b] => destruct (Z.ltb_spec a b) end;
    simpl length in *; try lia.
  - unfold mret, M_ret. f_equal. rewrite app_nil_r in *. rewrite <- Hvars. symmetry.
    by apply sync_world_id.
  - assert (Hi : variables s !! length done = Some x).
    { rewrite Hvars. rewrite lookup_app_r by lia. by rewrite Nat.sub_diag. }
    pose proof (sync_variable_refines w self msg s m (length done) x Hs Hm Hi) as Hstep.
    destruct (sync_variable_spec x (objects w) m) as [x' objs' m'| |].
    + rewrite (bind_Ok _ _ _ _ _ Hstep).
      rewrite gint_add_in_range by (unfold G_MININT, G_MAXINT in *; lia).
      unfold defined. rewrite bind_ret.
      assert (Hins : <[length done := x']> (variables s) = (done ++ [x']) ++ rest).
      { rewrite Hvars. rewrite insert_app_r_alt by lia. rewrite Nat.sub_diag. simpl.
        by rewrite <- app_assoc. }
      rewrite Hins.
      replace (Z.of_nat (length done) + 1) with (Z.of_nat (length (done ++ [x'])))
        by (rewrite length_app; simpl; lia).
      rewrite (IH (done ++ [x']) fuel _ (set_variables s ((done ++ [x']) ++ rest)) m').
      * simpl. destruct (sync_table_spec rest objs' m') as [vs o mm|vs o mm|];
          rewrite ?sync_world_twice, <- ?app_assoc; reflexivity.
      * done.
      * unfold sync_world. simpl. apply lookup_insert_eq.
      * unfold sync_world. simpl. apply lookup_insert_eq.
      * simpl. rewrite !length_app. simpl. lia.
      * lia.
    + rewrite (bind_Abort _ _ _ _ Hstep). f_equal. rewrite <- Hvars. symmetry.
      by apply sync_world_id.
    + by rewrite (bind_Undefined _ _ _ Hstep).
Qed.

Lemma filterx_scope_sync_to_message_refines w self msg s m :
  scopes w !! self = Some s -> messages w !! msg = Some m ->
  g_array_len (variables s) <= G_MAXINT ->
  filterx_scope_sync_to_message self msg w =
  match sync_table_spec (variables s) (objects w) m with
  | TableSynced vs o mm => Ok tt (sync_world w self msg s vs o mm)
  | TableAborted vs o mm => Abort (sync_world w self msg s vs o mm)
  | TableWild => Undefined
  end.
Proof.
  intros Hs Hm Hmax. unfold filterx_scope_sync_to_message.
  rewrite (bind_Ok _ _ _ _ _ (get_scope_Ok _ _ _ Hs)).
  exact (sync_loop_refines self msg (variables s) [] (S (length (variables s))) w s m
           eq_refl Hs Hm Hmax (Nat.lt_succ_diag_r _)).
Qed.

(** ** C1: what synchronisation does *)

(** C1.  [filterx_scope_sync_to_message] treats the variables in table
    order, each as the specification says: a floating variable is
    skipped, with no call on the message; a variable without a value has
    its handle unset in the message and is no longer assigned; a variable
    with a value that is assigned, or whose value is modified in place,
    has the value marshalled and set in the message with its type, after
    which neither flag is set; a non-floating variable with a value that
    is neither assigned nor modified in place causes no call on the
    message and is left as it is. *)
Theorem sync_follows_table_order (w : World) (self msg : address) (s : FilterXScope)
    (m : LogMessage) :
  scopes w !! self = Some s ->
  messages w !! msg = Some m ->
  g_array_len (variables s) <= G_MAXINT ->
  filterx_scope_sync_to_message self msg w =
    match sync_table_spec (variables s) (objects w) m with
    | TableSynced vs o mm => Ok tt (sync_world w self msg s vs o mm)
    | TableAborted vs o mm => Abort (sync_world w self msg s vs o mm)
    | TableWild => Undefined
    end /\
  (forall x objs m0, floating x = true -> sync_variable_spec x objs m0 = Synced x objs m0) /\
  (forall x objs m0, floating x = false -> value x = None ->
     sync_variable_spec x objs m0 =
     Synced (mkVariable (handle x) false false None) objs
            (mkMessage (delete (handle x) (nv_values m0))
                       (nv_calls m0 ++ [CallUnsetValue (handle x)]))) /\
  (forall x objs m0 a o bytes t,
     floating x = false -> value x = Some a -> objs !! a = Some o ->
     assigned x || modified_in_place o = true -> obj_repr o = Some (bytes, t) ->
     sync_variable_spec x objs m0 =
     Synced (mkVariable (handle x) false false (Some a))
            (<[a := mkObject (obj_ref_cnt o) (obj_mutable o) false (obj_repr o)]> objs)
            (mkMessage (<[handle x := (bytes, t)]> (nv_values m0))
                       (nv_calls m0 ++ [CallSetValue (handle x) bytes t]))) /\
  (forall x objs m0 a o,
     floating x = false -> value x = Some a -> objs !! a = Some o ->
     assigned x = false -> modified_in_place o = false ->
     sync_variable_spec x objs m0 = Synced x objs m0).
Proof.
  intros Hs Hm Hmax. split; [by apply filterx_scope_sync_to_message_refines|].
  unfold sync_variable_spec, set_modified_in_place, msg_set, msg_unset. repeat split.
  - intros x objs m0 ->. done.
  - intros x objs m0 -> ->. done.
  - intros x objs m0 a o bytes t -> -> -> -> Hrepr. by rewrite Hrepr.
  - intros x objs m0 a o -> -> -> -> ->. done.
Qed.

Lemma sync_follows_table_order_witness :
  exists w1 m1,
    filterx_scope_sync_to_message 1%positive 1%positive (Sample.world_of Sample.busy_scope)
      = Ok tt w1 /\
    messages w1 !! 1%positive = Some m1 /\
    nv_calls m1 = [CallSetValue 20 "42"%string 4; CallUnsetValue 30] /\
    nv_values m1 !! 10 = Some ("hello"%string, 0) /\
    nv_values m1 !! 20 = Some ("42"%string, 4) /\
    nv_values m1 !! 30 = None.
Proof.
  destruct (sync_follows_table_order (Sample.world_of Sample.busy_scope) 1%positive 1%positive
              Sample.busy_scope Sample.message) as (Hrun & _).
  - reflexivity.
  - reflexivity.
  - vm_compute. discriminate.
  - eexists _, _. split; [exact Hrun|]. vm_compute. repeat split.
Defined.

(** ** C8: a failed marshal aborts *)

Lemma sync_table_spec_app done rest objs m :
  sync_table_spec (done ++ rest) objs m =
  match sync_table_spec done objs m with
  | TableSynced vs o mm =>
    match sync_table_spec rest o mm with
    | TableSynced vs' o' mm' => TableSynced (vs ++ vs') o' mm'
    | TableAborted vs' o' mm' => TableAborted (vs ++ vs') o' mm'
    | TableWild => TableWild
    end
  | TableAborted vs o mm => TableAborted (vs ++ rest) o mm
  | TableWild => TableWild
  end.
Proof.
  revert objs m. induction done as [|x done IH]; intros objs m; simpl.
  - by destruct (sync_table_spec rest objs m).
  - destruct (sync_variable_spec x objs m) as [x' objs' m'| |]; [|done..].
    rewrite IH. destruct (sync_table_spec done objs' m') as [vs o mm|vs o mm|]; [|done..].
    by destruct (sync_table_spec rest o mm).
Qed.

(** The calls a variable causes are calls for its own handle, and it
    leaves the other fields of the message alone. *)
Lemma sync_variable_spec_calls x objs m x' objs' m' :
  sync_variable_spec x objs m = Synced x' objs' m' ->
  exists new,
    nv_calls m' = nv_calls m ++ new /\
    (forall c, c ∈ new -> call_handle c = handle x) /\
    (forall h, h <> handle x -> nv_values m' !! h = nv_values m !! h).
Proof.
  unfold sync_variable_spec. intros H.
  assert (Hnone : exists new, nv_calls m = nv_calls m ++ new /\
            (forall c, c ∈ new -> call_handle c = handle x) /\
            (forall h, h <> handle x -> nv_values m !! h = nv_values m !! h)).
  { exists []. rewrite app_nil_r. split; [done|]. split; [|done].
    intros c Hc. by apply elem_of_nil in Hc. }
  destruct (floating x); [by inversion H; subst|].
  destruct (value x) as [a|].
  - destruct (objs !! a) as [o|]; [|done].
    destruct (assigned x || modified_in_place o); [|by inversion H; subst].
    destruct (obj_repr o) as [[bytes t]|]; [|done]. inversion H; subst.
    exists [CallSetValue (handle x) bytes t]. split; [done|]. split.
    + intros c ->%list_elem_of_singleton. done.
    + intros h Hh. simpl. by rewrite lookup_insert_ne.
  - inversion H; subst. exists [CallUnsetValue (handle x)]. split; [done|]. split.
    + intros c ->%list_elem_of_singleton. done.
    + intros h Hh. simpl. by rewrite lookup_delete_ne.
Qed.

Lemma sync_table_spec_calls vars : forall objs m vs o mm,
  sync_table_spec vars objs m = TableSynced vs o mm ->
  exists new,
    nv_calls mm = nv_calls m ++ new /\
    (forall c, c ∈ new -> call_handle c ∈ handle <$> vars) /\
    (forall h, h ∉ handle <$> vars -> nv_values mm !! h = nv_values m !! h).
Proof.
  induction vars as [|x vars IH]; intros objs m vs o mm H; simpl in H.
  - inversion H; subst. exists []. rewrite app_nil_r. split; [done|]. split; [|done].
    intros c Hc. by apply elem_of_nil in Hc.
  - destruct (sync_variable_spec x objs m) as [x' objs' m'| |] eqn:Ex; [|done..].
    destruct (sync_table_spec vars objs' m') as [vs' o' mm'| |] eqn:Et; [|done..].
    inversion H; subst.
    destruct (sync_variable_spec_calls _ _ _ _ _ _ Ex) as (new1 & Hc1 & Hh1 & Hv1).
    destruct (IH _ _ _ _ _ Et) as (new2 & Hc2 & Hh2 & Hv2).
    exists (new1 ++ new2). split; [by rewrite Hc2, Hc1, app_assoc|]. split.
    + intros c [Hc|Hc]%elem_of_app; rewrite fmap_cons.
      * rewrite (Hh1 c Hc). by left.
      * right. by apply Hh2.
    + intros h Hh. rewrite fmap_cons in Hh. apply not_elem_of_cons in Hh as [Hne Hh].
      rewrite Hv2 by done. by apply Hv1.
Qed.

(** C8.  When the marshalling of a variable's value fails during
    synchronisation, the run aborts in the state the variables before it
    left: the message has received no call for the failing variable's
    field, whose content in the message is what it was, and the failing
    variable and its value are untouched. *)
Theorem sync_aborts_on_marshal_failure (w : World) (self msg : address) (s : FilterXScope)
    (m : LogMessage) (done rest done' : list FilterXVariable) (x : FilterXVariable)
    (objs' : gmap positive FilterXObject) (m' : LogMessage) (a : address)
    (o : FilterXObject) :
  scopes w !! self = Some s ->
  messages w !! msg = Some m ->
  g_array_len (variables s) <= G_MAXINT ->
  strictly_ascending (handle <$> variables s) = true ->
  variables s = done ++ x :: rest ->
  sync_table_spec done (objects w) m = TableSynced done' objs' m' ->
  floating x = false ->
  value x = Some a ->
  objs' !! a = Some o ->
  assigned x || modified_in_place o = true ->
  obj_repr o = None ->
  filterx_scope_sync_to_message self msg w =
    Abort (sync_world w self msg s (done' ++ x :: rest) objs' m') /\
  (exists new, nv_calls m' = nv_calls m ++ new /\
               forall c, c ∈ new -> call_handle c <> handle x) /\
  nv_values m' !! handle x = nv_values m !! handle x.
Proof.
  intros Hs Hm Hmax Hsorted%strictly_ascending_sorted Hvars Hdone Hfl Hval Ha Hdirty Hrepr.
  assert (Hfresh : handle x ∉ handle <$> done).
  { intros (y & Hh & Hy)%list_elem_of_fmap. apply list_elem_of_lookup in Hy as (j & Hj).
    pose proof (lookup_lt_Some _ _ _ Hj) as Hlt.
    assert (handle y < handle x); [|lia].
    apply (Hsorted j (length done)); [done| |]; rewrite Hvars.
    - by rewrite lookup_app_l.
    - rewrite lookup_app_r by lia. by rewrite Nat.sub_diag. }
  destruct (sync_table_spec_calls _ _ _ _ _ _ Hdone) as (new & Hcalls & Hhandles & Hvalues).
  split; [|split].
  - rewrite (filterx_scope_sync_to_message_refines w self msg s m Hs Hm Hmax).
    rewrite Hvars, sync_table_spec_app, Hdone. simpl.
    unfold sync_variable_spec. by rewrite Hfl, Hval, Ha, Hdirty, Hrepr.
  - exists new. split; [done|]. intros c Hc Heq. apply Hfresh. rewrite <- Heq. by apply Hhandles.
  - by apply Hvalues.
Qed.

Lemma sync_aborts_on_marshal_failure_witness :
  exists w1 m1,
    filterx_scope_sync_to_message 1%positive 1%positive SampleFailure.world = Abort w1 /\
    messages w1 !! 1%positive = Some m1 /\
    nv_calls m1 = [CallSetValue 10 "hello"%string 0] /\
    nv_values m1 !! 20 = None.
Proof.
  destruct (sync_aborts_on_marshal_failure SampleFailure.world 1%positive 1%positive
              SampleFailure.failing_scope Sample.message
              [mkVariable 10 false true (Some 1%positive)] []
              [mkVariable 10 false false (Some 1%positive)]
              (mkVariable 20 false true (Some 2%positive))
              (<[1%positive := Sample.hello]> (<[2%positive := Sample.opaque]> ∅))
              (msg_set Sample.message 10 "hello"%string 0)
              2%positive Sample.opaque) as (Hrun & _ & _).
  - reflexivity.
  - reflexivity.
  - vm_compute. discriminate.
  - reflexivity.
  - reflexivity.
  - vm_compute. reflexivity.
  - reflexivity.
  - reflexivity.
  - reflexivity.
  - reflexivity.
  - reflexivity.
  - eexists _, _. split; [exact Hrun|]. vm_compute. repeat split.
Defined.

(** ** Cloning a scope *)

Lemma set_variables_twice s vars1 vars2 :
  set_variables (set_variables s vars1) vars2 = set_variables s vars2.
Proof. done. Qed.

Lemma clone_variable_Ok w other self so ss (i : nat) x :
  other <> self ->
  scopes w !! other = Some so -> scopes w !! self = Some ss ->
  variables so !! i = Some x -> length (variables ss) = i ->
  live w (value x) ->
  clone_variable other self (Z.of_nat i) w =
  Ok tt (mkWorld (clone_store (value x) (objects w))
           (<[self := set_variables ss
                (variables ss ++
                 [mkVariable (handle x) (floating x) (assigned x)
                    (clone_addr (objects w) (value x))])]> (scopes w))
           (messages w) (eval_context w)).
Proof.
  intros Hne Hso Hss Hi Hlen Hlive.
  assert (Hx : g_array_index (variables so) (Z.of_nat i) = Some x)
    by by rewrite g_array_index_of_nat.
  unfold clone_variable.
  rewrite (bind_Ok _ _ _ _ _ (get_variable_Ok _ _ _ _ _ Hso Hx)).
  rewrite (bind_Ok _ _ _ _ _ (get_scope_Ok _ _ _ Hss)).
  rewrite (bind_Ok _ _ _ _ _ (put_scope_Ok _ _ _ _ Hss)).
  set (s1 := set_variables ss (variables ss ++ [x])).
  set (w1 := with_scopes (insert self s1) w).
  assert (Hso1 : scopes w1 !! other = Some so) by (simpl; by rewrite lookup_insert_ne).
  rewrite (bind_Ok _ _ _ _ _ (get_variable_Ok _ _ _ _ _ Hso1 Hx)).
  assert (Hlive1 : live w1 (value x)) by done.
  rewrite (bind_Ok _ _ _ _ _ (filterx_object_clone_Ok _ _ Hlive1)).
  set (w2 := with_objects (clone_store (value x)) w1).
  assert (Hs2 : scopes w2 !! self = Some s1) by apply lookup_insert_eq.
  assert (Hx2 : g_array_index (variables s1) (Z.of_nat i) = Some x).
  { rewrite g_array_index_of_nat. simpl. rewrite lookup_app_r by lia.
    by rewrite Hlen, Nat.sub_diag. }
  rewrite (store_value_Ok _ _ _ _ _ (clone_addr (objects w1) (value x)) Hs2 Hx2).
  f_equal. unfold with_scopes. simpl. f_equal. rewrite insert_insert_eq. f_equal.
  unfold set_variables. simpl. f_equal. rewrite Nat2Z.id.
  rewrite insert_app_r_alt by lia. by rewrite Hlen, Nat.sub_diag.
Qed.

Lemma clone_loop_Ok other self rest : forall done fuel w so ss,
  other <> self ->
  scopes w !! other = Some so -> scopes w !! self = Some ss ->
  variables so = done ++ rest -> length (variables ss) = length done ->
  g_array_len (variables so) <= G_MAXINT ->
  Forall (fun x => live w (value x)) rest ->
  (length rest < fuel)%nat ->
  clone_loop fuel other self (Z.of_nat (length done)) w =
  Ok tt (mkWorld (clone_table rest (objects w)).2
           (<[self := set_variables ss (variables ss ++ (clone_table rest (objects w)).1)]>
              (scopes w))
           (messages w) (eval_context w)).
Proof.
  induction rest as [|x rest IH];
    intros done fuel w so ss Hne Hso Hss Hvars Hlen Hmax Hlive Hfuel;
    (destruct fuel as [|fuel]; [simpl in Hfuel; lia|]); simpl clone_loop;
    rewrite (bind_Ok _ _ _ _ _ (get_scope_Ok _ _ _ Hso));
    pose proof (f_equal length Hvars) as Hl; rewrite length_app in Hl;
    unfold g_array_len in *; rewrite to_guint_small by lia;
    match goal with |- context [?a <? ?b] => destruct (Z.ltb_spec a b) end;
    simpl length in *; try lia.
  - unfold mret, M_ret. f_equal. simpl. rewrite app_nil_r, set_variables_id.
    rewrite (insert_id _ _ _ Hss). by destruct w.
  - apply Forall_cons in Hlive as [Hx Hlive].
    assert (Hi : variables so !! length done = Some x).
    { rewrite Hvars. rewrite lookup_app_r by lia. by rewrite Nat.sub_diag. }
    rewrite (bind_Ok _ _ _ _ _
               (clone_variable_Ok w other self so ss (length done) x Hne Hso Hss Hi Hlen Hx)).
    rewrite gint_add_in_range by (unfold G_MININT, G_MAXINT in *; lia).
    unfold defined. rewrite bind_ret.
    set (x' := mkVariable (handle x) (floating x) (assigned x) (clone_addr (objects w) (value x))).
    replace (Z.of_nat (length done) + 1) with (Z.of_nat (length (done ++ [x])))
      by (rewrite length_app; simpl; lia).
    rewrite (IH (done ++ [x]) fuel _ so (set_variables ss (variables ss ++ [x']))).
    + simpl. f_equal. f_equal. rewrite insert_insert_eq. f_equal.
      unfold set_variables. simpl. by rewrite <- app_assoc.
    + done.
    + simpl. by rewrite lookup_insert_ne.
    + simpl. apply lookup_insert_eq.
    + by rewrite <- app_assoc.
    + simpl. rewrite !length_app. simpl. lia.
    + unfold g_array_len. lia.
    + eapply Forall_impl; [exact Hlive|]. intros y Hy. simpl in Hy.
      destruct (value y) as [a|]; [|done]. simpl. by apply clone_store_live.
    + lia.
Qed.

Lemma filterx_scope_clone_Ok w other so :
  scopes w !! other = Some so ->
  g_array_len (variables so) <= G_MAXINT ->
  Forall (fun x => live w (value x)) (variables so) ->
  let self := fresh (dom (scopes w)) in
  scopes w !! self = None /\
  filterx_scope_clone other w =
  Ok self (mkWorld (clone_table (variables so) (objects w)).2
             (<[self := mkScope 1 (clone_table (variables so) (objects w)).1 [] false]>
                (scopes w))
             (messages w) (eval_context w)).
Proof.
  intros Hso Hmax Hlive self.
  assert (Hfresh : scopes w !! self = None) by (apply not_elem_of_dom, is_fresh).
  split; [done|].
  assert (Hne : other <> self) by (intros ->; congruence).
  unfold filterx_scope_clone.
  assert (Hnew : filterx_scope_new w =
            Ok self (with_scopes (insert self (mkScope 1 [] [] false)) w)) by reflexivity.
  rewrite (bind_Ok _ _ _ _ _ Hnew).
  set (w0 := with_scopes (insert self (mkScope 1 [] [] false)) w).
  assert (Hso0 : scopes w0 !! other = Some so) by (simpl; by rewrite lookup_insert_ne).
  assert (Hss0 : scopes w0 !! self = Some (mkScope 1 [] [] false)) by apply lookup_insert_eq.
  rewrite (bind_Ok _ _ _ _ _ (get_scope_Ok _ _ _ Hso0)).
  rewrite (bind_Ok _ _ _ _ _
             (clone_loop_Ok other self (variables so) [] (S (length (variables so))) w0 so
                (mkScope 1 [] [] false) Hne Hso0 Hss0 eq_refl eq_refl Hmax Hlive
                (Nat.lt_succ_diag_r _))).
  unfold mret, M_ret. f_equal. simpl. f_equal. by rewrite insert_insert_eq.
Qed.

Lemma bump_0 o : bump o 0 = o.
Proof. unfold bump. rewrite Z.add_0_r. apply set_obj_ref_cnt_id. Qed.

Lemma bump_bump o n k : bump (bump o n) k = bump o (n + k).
Proof. unfold bump, set_obj_ref_cnt. simpl. f_equal. lia. Qed.

(** Cloning a value leaves every object that was there as it was, but
    for one more reference to an immutable object cloned. *)
Lemma clone_store_lookup p objs a o :
  objs !! a = Some o ->
  clone_store p objs !! a =
  Some (bump o (if obj_mutable o then 0 else if decide (p = Some a) then 1 else 0)).
Proof.
  intros Ha. destruct p as [n|]; simpl.
  2: { rewrite Ha. destruct (obj_mutable o); by rewrite bump_0. }
  destruct (objs !! n) as [on|] eqn:En.
  2: { rewrite Ha. destruct (decide (Some n = Some a)) as [[= ->]|_]; [congruence|].
       destruct (obj_mutable o); by rewrite bump_0. }
  destruct (obj_mutable on) eqn:Emut.
  - assert (Hne : fresh (dom objs) <> a).
    { intros <-. apply (is_fresh (dom objs)). apply elem_of_dom. eauto. }
    rewrite lookup_insert_ne by done. rewrite Ha.
    destruct (decide (Some n = Some a)) as [[= ->]|_].
    + rewrite Ha in En. inversion En; subst. rewrite Emut. by rewrite bump_0.
    + destruct (obj_mutable o); by rewrite bump_0.
  - destruct (decide (Some n = Some a)) as [[= ->]|Hne].
    + rewrite Ha in En. inversion En; subst. rewrite Emut.
      by rewrite lookup_insert_eq.
    + rewrite lookup_insert_ne by congruence. rewrite Ha.
      destruct (obj_mutable o); by rewrite bump_0.
Qed.

Lemma clone_store_None p objs a :
  clone_store p objs !! a = None -> objs !! a = None.
Proof.
  intros H. destruct (objs !! a) as [o|] eqn:Ea; [|done].
  by rewrite (clone_store_lookup _ _ _ _ Ea) in H.
Qed.

Lemma holders_nonneg a ps : 0 <= holders a ps.
Proof. induction ps as [|p ps IH]; simpl; [lia|]. destruct (decide _); lia. Qed.

Lemma holders_app a ps qs : holders a (ps ++ qs) = holders a ps + holders a qs.
Proof. induction ps as [|p ps IH]; simpl; [lia|]. rewrite IH. lia. Qed.

Lemma holders_pos_elem a ps : 0 < holders a ps <-> Some a ∈ ps.
Proof.
  induction ps as [|p ps IH]; simpl.
  - split; [lia|]. by intros ?%elem_of_nil.
  - rewrite elem_of_cons. pose proof (holders_nonneg a ps).
    destruct (decide (p = Some a)) as [->|Hne]; [split; [by left|lia]|].
    rewrite <- IH. split; [intros; right; lia|]. intros [?|?]; [congruence|lia].
Qed.

(** The store after cloning a table: the objects that were there, with
    one more reference to an immutable object for each variable holding
    it. *)
Lemma clone_table_lookup vars : forall objs a o,
  objs !! a = Some o ->
  (clone_table vars objs).2 !! a =
  Some (bump o (if obj_mutable o then 0 else holders a (value <$> vars))).
Proof.
  induction vars as [|x vars IH]; intros objs a o Ha; simpl.
  - rewrite Ha. destruct (obj_mutable o); by rewrite bump_0.
  - rewrite (IH _ a _ (clone_store_lookup (value x) objs a o Ha)).
    rewrite bump_bump. unfold bump at 1. simpl.
    destruct (obj_mutable o); [done|]. done.
Qed.

Lemma value_equal_through_clone q objs final p p' :
  live_in objs p ->
  value_equal (clone_store q objs) final p p' ->
  value_equal objs final p p'.
Proof.
  destruct p as [b|], p' as [b'|]; try done. simpl.
  intros [ob Hb] (o1 & o' & H1 & H' & Hmut & Hrepr & Hkind).
  rewrite (clone_store_lookup q objs b ob Hb) in H1. inversion H1; subst o1. clear H1.
  exists ob, o'. split; [done|]. split; [done|]. simpl in *.
  split; [done|]. split; [done|].
  destruct (obj_mutable ob); [|done].
  destruct Hkind as (Hnone & ? & ?). split; [|done]. by eapply clone_store_None.
Qed.

Lemma Forall2_impl_Forall {A B} (P Q : A -> B -> Prop) (R : A -> Prop) l k :
  Forall R l -> Forall2 P l k -> (forall x y, R x -> P x y -> Q x y) -> Forall2 Q l k.
Proof.
  intros HR HP Himpl. induction HP as [|x y l k Hxy HP IH]; [constructor|].
  apply Forall_cons in HR as [Hx HR]. constructor; eauto.
Qed.

Lemma clone_table_clone_of vars : forall objs,
  Forall (fun x => live_in objs (value x)) vars ->
  Forall2 (clone_of objs (clone_table vars objs).2) vars (clone_table vars objs).1.
Proof.
  induction vars as [|x vars IH]; intros objs Hlive; simpl; [constructor|].
  apply Forall_cons in Hlive as [Hx Hlive]. constructor.
  - repeat split; try done. simpl.
    destruct (value x) as [a|] eqn:Ev; simpl; [|done].
    destruct Hx as [o Ha]. rewrite Ha.
    destruct (obj_mutable o) eqn:Emut.
    + set (c := fresh (dom objs)).
      assert (Hc : objs !! c = None) by (apply not_elem_of_dom, is_fresh).
      exists o, (mkObject 1 true false (obj_repr o)). split; [done|]. split.
      * erewrite clone_table_lookup; [|apply lookup_insert_eq]. simpl. by rewrite bump_0.
      * rewrite Emut. done.
    + exists o, (bump o (holders a (value <$> vars) + 1)).
      split; [done|]. split.
      * erewrite clone_table_lookup; [|apply lookup_insert_eq]. simpl. rewrite Emut.
        f_equal. unfold bump, set_obj_ref_cnt. simpl. f_equal. lia.
      * rewrite Emut. done.
  - eapply (Forall2_impl_Forall _ _ _ _ _ Hlive).
    + apply IH. eapply Forall_impl; [exact Hlive|]. intros y Hy. simpl in Hy.
      destruct (value y) as [b|]; [|done]. simpl in *. by apply clone_store_live.
    + intros y y' Hy (? & ? & ? & Hval). repeat split; try done.
      by eapply value_equal_through_clone.
Qed.

(** ** Releasing a scope *)

Lemma refs_sound_b_sound s objs : refs_sound_b s objs = true -> refs_sound s objs.
Proof.
  unfold refs_sound_b, refs_sound. rewrite forallb_forall. intros H a Ha.
  apply holders_pos_elem in Ha. apply list_elem_of_In in Ha. specialize (H _ Ha). simpl in H.
  destruct (objs !! a) as [o|]; [|done]. exists o. split; [done|]. by apply Z.leb_le.
Qed.

Lemma release_all_app ps qs objs :
  release_all (ps ++ qs) objs = release_all qs (release_all ps objs).
Proof. revert objs. induction ps as [|p ps IH]; intros objs; simpl; [done|]. apply IH. Qed.

Lemma release_all_lookup ps : forall objs a o,
  objs !! a = Some o -> holders a ps < obj_ref_cnt o ->
  release_all ps objs !! a = Some (bump o (- holders a ps)).
Proof.
  induction ps as [|p ps IH]; intros objs a o Ha Hcnt; simpl in *.
  - by rewrite Ha, bump_0.
  - pose proof (holders_nonneg a ps).
    destruct (decide (p = Some a)) as [->|Hne].
    + rewrite (IH (release (Some a) objs) a (bump o (-1))).
      * rewrite bump_bump. do 2 f_equal. lia.
      * simpl. rewrite Ha. destruct (Z.eqb_spec (obj_ref_cnt o - 1) 0); [lia|].
        rewrite lookup_insert_eq. reflexivity.
      * simpl. lia.
    + rewrite (IH (release p objs) a o).
      * done.
      * destruct p as [b|]; [|done]. rewrite release_lookup_ne by congruence. done.
      * lia.
Qed.

Lemma unref_all_Ok ps : forall w,
  (forall a, 0 < holders a ps ->
     exists o, objects w !! a = Some o /\ holders a ps <= obj_ref_cnt o) ->
  unref_all ps w = Ok tt (with_objects (release_all ps) w).
Proof.
  induction ps as [|p ps IH]; intros w Hsound; simpl; [by destruct w|].
  assert (Hlive : live w p).
  { destruct p as [b|]; [|done]. destruct (Hsound b) as (o & Ho & _).
    - simpl. rewrite decide_True by done. pose proof (holders_nonneg b ps). lia.
    - simpl. eauto. }
  rewrite (bind_Ok _ _ _ _ _ (filterx_object_unref_Ok _ _ Hlive)).
  rewrite IH; [done|].
  intros a Ha. destruct (Hsound a) as (o & Ho & Hcnt).
  { simpl. destruct (decide _); lia. }
  simpl in Hcnt. cbn [objects with_objects].
  destruct (decide (p = Some a)) as [->|Hne].
  - simpl. rewrite Ho. destruct (Z.eqb_spec (obj_ref_cnt o - 1) 0); [lia|].
    rewrite lookup_insert_eq. eexists. split; [done|]. simpl. lia.
  - exists o. split; [|lia]. destruct p as [b|]; [|done].
    rewrite release_lookup_ne by congruence. done.
Qed.

Lemma _free_Ok w self s :
  scopes w !! self = Some s -> refs_sound s (objects w) ->
  _free self w =
  Ok tt (mkWorld (release_all (scope_refs s) (objects w)) (delete self (scopes w))
           (messages w) (eval_context w)).
Proof.
  intros Hs Hsound. unfold _free.
  rewrite (bind_Ok _ _ _ _ _ (get_scope_Ok _ _ _ Hs)).
  unfold refs_sound, scope_refs in Hsound.
  assert (H1 : forall a, 0 < holders a (value <$> variables s) ->
            exists o, objects w !! a = Some o /\
                      holders a (value <$> variables s) <= obj_ref_cnt o).
  { intros a Ha. pose proof (holders_nonneg a (Some <$> weak_refs s)).
    destruct (Hsound a) as (o & Ho & Hcnt); rewrite ?holders_app in *; [lia|].
    exists o. split; [done|]. lia. }
  rewrite (bind_Ok _ _ _ _ _ (unref_all_Ok (value <$> variables s) w H1)).
  set (w1 := with_objects (release_all (value <$> variables s)) w).
  assert (H2 : forall a, 0 < holders a (Some <$> weak_refs s) ->
            exists o, objects w1 !! a = Some o /\
                      holders a (Some <$> weak_refs s) <= obj_ref_cnt o).
  { intros a Ha. pose proof (holders_nonneg a (value <$> variables s)).
    destruct (Hsound a) as (o & Ho & Hcnt); rewrite ?holders_app in *; [lia|].
    subst w1. cbn [objects with_objects].
    rewrite (release_all_lookup _ _ _ _ Ho) by lia.
    eexists. split; [done|]. simpl. lia. }
  rewrite (bind_Ok _ _ _ _ _ (unref_all_Ok (Some <$> weak_refs s) w1 H2)).
  unfold set_scopes, with_scopes, with_objects, scope_refs. simpl.
  by rewrite release_all_app.
Qed.

(** ** Making a scope writable *)

Lemma refs_sound_live s objs x :
  refs_sound s objs -> x ∈ variables s -> live_in objs (value x).
Proof.
  intros Hsound Hx. destruct (value x) as [a|] eqn:Ev; [|done].
  destruct (Hsound a) as (o & Ho & _); [|simpl; eauto].
  apply holders_pos_elem. unfold scope_refs. apply elem_of_app. left.
  rewrite <- Ev. by apply list_elem_of_fmap_2.
Qed.

Lemma refs_sound_clone_table s vars objs :
  refs_sound s objs -> refs_sound s (clone_table vars objs).2.
Proof.
  intros Hsound a Ha. destruct (Hsound a Ha) as (o & Ho & Hcnt).
  rewrite (clone_table_lookup vars objs a o Ho). eexists. split; [done|].
  simpl. pose proof (holders_nonneg a (value <$> vars)). destruct (obj_mutable o); lia.
Qed.

Lemma filterx_scope_unref_Ok w p s :
  scopes w !! p = Some s -> refs_sound s (objects w) ->
  filterx_scope_unref p w =
  Ok tt (if ref_cnt s - 1 =? 0
         then mkWorld (release_all (scope_refs s) (objects w)) (delete p (scopes w))
                      (messages w) (eval_context w)
         else with_scopes
                (insert p (mkScope (ref_cnt s - 1) (variables s) (weak_refs s)
                                   (write_protected s))) w).
Proof.
  intros Hs Hsound. unfold filterx_scope_unref.
  rewrite (bind_Ok _ _ _ _ _ (get_scope_Ok _ _ _ Hs)).
  set (s2 := mkScope (ref_cnt s - 1) (variables s) (weak_refs s) (write_protected s)).
  rewrite (bind_Ok _ _ _ _ _ (put_scope_Ok _ _ _ s2 Hs)).
  destruct (ref_cnt s - 1 =? 0); [|done].
  set (w2 := with_scopes (insert p s2) w).
  assert (Hs2 : scopes w2 !! p = Some s2) by apply lookup_insert_eq.
  rewrite (_free_Ok w2 p s2 Hs2 Hsound). f_equal. simpl. by rewrite delete_insert_eq.
Qed.

Lemma filterx_scope_make_writable_Ok w p s :
  scopes w !! p = Some s ->
  g_array_len (variables s) <= G_MAXINT ->
  refs_sound s (objects w) ->
  filterx_scope_make_writable p w =
  if write_protected s then Ok (fresh (dom (scopes w))) (writable_world w p s) else Ok p w.
Proof.
  intros Hs Hmax Hsound. unfold filterx_scope_make_writable.
  rewrite (bind_Ok _ _ _ _ _ (get_scope_Ok _ _ _ Hs)).
  destruct (write_protected s) eqn:Ewp; [|done].
  assert (Hlive : Forall (fun x => live w (value x)) (variables s)).
  { apply Forall_forall. intros x Hx. by apply (refs_sound_live s). }
  destruct (filterx_scope_clone_Ok w p s Hs Hmax Hlive) as [Hfresh Hclone].
  set (p' := fresh (dom (scopes w))) in *.
  set (t := clone_table (variables s) (objects w)) in *.
  assert (Hne : p <> p') by (intros Heq; rewrite Heq in Hs; congruence).
  rewrite (bind_Ok _ _ _ _ _ Hclone).
  set (w1 := mkWorld t.2 (<[p' := mkScope 1 t.1 [] false]> (scopes w)) (messages w)
               (eval_context w)).
  assert (Hs1 : scopes w1 !! p = Some s) by (simpl; by rewrite lookup_insert_ne).
  assert (Hsound1 : refs_sound s (objects w1)).
  { apply (refs_sound_clone_table s (variables s) (objects w) Hsound). }
  rewrite (bind_Ok _ _ _ _ _ (filterx_scope_unref_Ok w1 p s Hs1 Hsound1)).
  unfold writable_world. fold p' t.
  destruct (ref_cnt s - 1 =? 0); done.
Qed.

Lemma scope_refs_live s objs a :
  refs_sound s objs -> 0 < holders a (scope_refs s) -> is_Some (objs !! a).
Proof. intros Hsound Ha. destruct (Hsound a Ha) as (o & Ho & _). eauto. Qed.

Lemma writable_world_clone w p s :
  scopes w !! p = Some s ->
  scopes (writable_world w p s) !! fresh (dom (scopes w)) =
  Some (mkScope 1 (clone_table (variables s) (objects w)).1 [] false).
Proof.
  intros Hs. assert (Hfresh : scopes w !! fresh (dom (scopes w)) = None)
    by (apply not_elem_of_dom, is_fresh).
  assert (Hne : p <> fresh (dom (scopes w))).
  { intros Heq. rewrite <- Heq in Hfresh. rewrite Hs in Hfresh. discriminate. }
  unfold writable_world. destruct (ref_cnt s - 1 =? 0); simpl.
  - rewrite lookup_delete_ne by done. apply lookup_insert_eq.
  - rewrite lookup_insert_ne by done. apply lookup_insert_eq.
Qed.

Lemma writable_world_original w p s :
  scopes (writable_world w p s) !! p =
  if ref_cnt s - 1 =? 0 then None
  else Some (mkScope (ref_cnt s - 1) (variables s) (weak_refs s) (write_protected s)).
Proof.
  unfold writable_world. destruct (ref_cnt s - 1 =? 0); simpl.
  - apply lookup_delete_eq.
  - apply lookup_insert_eq.
Qed.

(** The clone's variables are clones of the original's, in the world
    left, whether the original was freed or not. *)
Lemma writable_world_clone_of w p s :
  refs_sound s (objects w) ->
  Forall2 (clone_of (objects w) (objects (writable_world w p s)))
    (variables s) (clone_table (variables s) (objects w)).1.
Proof.
  intros Hsound.
  assert (Hlive : Forall (fun x => live_in (objects w) (value x)) (variables s)).
  { apply Forall_forall. intros x Hx. by apply (refs_sound_live s). }
  pose proof (clone_table_clone_of (variables s) (objects w) Hlive) as Hclone.
  unfold writable_world. destruct (ref_cnt s - 1 =? 0); simpl; [|done].
  assert (Hin : Forall (fun x => x ∈ variables s) (variables s))
    by (apply Forall_forall; auto).
  eapply (Forall2_impl_Forall _ _ _ _ _ Hin Hclone).
  intros x x' Hx (Hh & Hf & Ha & Hval). repeat split; try done.
  destruct (value x) as [a|] eqn:Ev, (value x') as [a'|]; try done. simpl in *.
  destruct Hval as (o & o' & Ho & Ho' & Hmut & Hrepr & Hkind).
  assert (Hheld : 0 < holders a (value <$> variables s)).
  { apply holders_pos_elem. rewrite <- Ev. by apply list_elem_of_fmap_2. }
  destruct (obj_mutable o) eqn:Emut.
  - destruct Hkind as (Hnone & Hcnt & Hmip).
    assert (Hfree : holders a' (scope_refs s) = 0).
    { pose proof (holders_nonneg a' (scope_refs s)).
      destruct (Z.eq_dec (holders a' (scope_refs s)) 0) as [|Hne]; [done|].
      destruct (scope_refs_live s (objects w) a' Hsound) as [? ?]; [lia|congruence]. }
    exists o, o'. split; [done|]. split.
    { rewrite (release_all_lookup _ _ _ _ Ho') by lia. by rewrite Hfree, bump_0. }
    rewrite Emut. done.
  - destruct Hkind as (-> & Hmip).
    destruct (Hsound a) as (o0 & Ho0 & Hcnt).
    { unfold scope_refs. rewrite holders_app.
      pose proof (holders_nonneg a (Some <$> weak_refs s)). lia. }
    rewrite Ho in Ho0. inversion Ho0; subst o0.
    rewrite (clone_table_lookup _ _ _ _ Ho) in Ho'. rewrite Emut in Ho'.
    inversion Ho'; subst o'. unfold scope_refs in Hcnt. rewrite holders_app in Hcnt.
    eexists o, _. split; [done|]. split.
    { apply release_all_lookup; [exact (clone_table_lookup _ _ _ _ Ho)|].
      rewrite Emut. simpl. unfold scope_refs. rewrite holders_app. lia. }
    rewrite Emut. done.
Qed.

(** ** Scenarios *)

(** A field that is only read is not written back: the message is what
    it was and has received no call. *)
Example scenario_read_only :
  Scenario.message_after (Scenario.read_only (Sample.world_of Sample.empty_scope)) =
  Some Sample.message.
Proof. vm_compute. reflexivity. Qed.

(** A field assigned to is written with the type of the value. *)
Example scenario_write_count :
  Scenario.message_after (Scenario.write_count (Sample.world_of Sample.empty_scope)) =
  Some (msg_set Sample.message 20 "42"%string 4).
Proof. vm_compute. reflexivity. Qed.

(** A field cleared is not set any more at once, and is removed from the
    message by the synchronisation. *)
Example scenario_clear_tag :
  Scenario.returned (Scenario.clear_tag (Sample.world_of Sample.empty_scope)) = Some false /\
  Scenario.message_after (Scenario.clear_tag (Sample.world_of Sample.empty_scope)) =
  Some (msg_unset Sample.message 30).
Proof. split; vm_compute; reflexivity. Qed.

(** ** C9: the clone synchronises like the original *)

(** Clearing the modified-in-place flag of an object keeps variables
    quiet and their requests the same. *)
Lemma quiet_clear objs a o y :
  objs !! a = Some o ->
  quiet objs y = true ->
  quiet (<[a := set_modified_in_place o false]> objs) y = true /\
  request_of (<[a := set_modified_in_place o false]> objs) y = request_of objs y.
Proof.
  intros Ha. unfold quiet, request_of. destruct (floating y); [done|]. simpl.
  destruct (value y) as [b|]; [|done].
  destruct (decide (a = b)) as [->|Hne].
  - rewrite lookup_insert_eq, Ha. simpl. intros _. split; [by rewrite orb_true_r|done].
  - by rewrite lookup_insert_ne.
Qed.

Lemma sync_variable_quiet x objs m :
  quiet objs x = true ->
  match request_of objs x with
  | Keep => sync_variable_spec x objs m = Synced x objs m
  | RequestUnset h =>
    exists x', sync_variable_spec x objs m = Synced x' objs (msg_unset m h)
  | RequestSet h (Some (bytes, t)) =>
    exists x' a o, objs !! a = Some o /\
      sync_variable_spec x objs m =
      Synced x' (<[a := set_modified_in_place o false]> objs) (msg_set m h bytes t)
  | RequestSet h None => sync_variable_spec x objs m = MarshalFailed
  end.
Proof.
  unfold sync_variable_spec, quiet, request_of.
  destruct (floating x); [done|]. simpl.
  destruct (value x) as [a|]; [|eauto].
  destruct (objs !! a) as [o|] eqn:Ea; [|done].
  destruct (assigned x); simpl.
  - intros _. destruct (obj_repr o) as [[bytes t]|]; [|done]. eauto.
  - intros ->%negb_true_iff. done.
Qed.

Lemma sync_table_quiet vars : forall objs m,
  forallb (quiet objs) vars = true ->
  table_result (sync_table_spec vars objs m) = Some (serve (request_of objs <$> vars) m).
Proof.
  induction vars as [|x vars IH]; intros objs m Hq; [done|].
  simpl in Hq. apply andb_true_iff in Hq as [Hx Hq].
  pose proof (sync_variable_quiet x objs m Hx) as Hstep.
  rewrite fmap_cons. simpl sync_table_spec.
  destruct (request_of objs x) as [|h|h [[bytes t]|]]; simpl serve.
  - rewrite Hstep, <- (IH objs m Hq). by destruct (sync_table_spec vars objs m).
  - destruct Hstep as (x' & ->). rewrite <- (IH objs _ Hq).
    by destruct (sync_table_spec vars objs _).
  - destruct Hstep as (x' & a & o & Ea & ->).
    assert (Hq' : forallb (quiet (<[a := set_modified_in_place o false]> objs)) vars = true).
    { apply forallb_forall. intros y Hy. rewrite forallb_forall in Hq.
      by apply (quiet_clear objs a o y Ea), Hq. }
    assert (Hreq : request_of (<[a := set_modified_in_place o false]> objs) <$> vars =
                   request_of objs <$> vars).
    { apply list_fmap_ext. intros i y Hy. rewrite forallb_forall in Hq.
      apply (quiet_clear objs a o y Ea), Hq. apply list_elem_of_In.
      by eapply list_elem_of_lookup_2. }
    rewrite <- Hreq, <- (IH _ _ Hq').
    by destruct (sync_table_spec vars _ _).
  - by rewrite Hstep.
Qed.

(** A clone of a quiet variable is quiet and asks the same. *)
Lemma clone_of_quiet objs objs' x x' :
  clone_of objs objs' x x' -> quiet objs x = true ->
  quiet objs' x' = true /\ request_of objs' x' = request_of objs x.
Proof.
  intros (Hh & Hf & Ha & Hval). unfold quiet, request_of. rewrite Hh, Hf, Ha.
  destruct (floating x); [done|]. simpl.
  destruct (value x) as [a|], (value x') as [a'|]; try done. simpl in Hval.
  destruct Hval as (o & o' & Ho & Ho' & Hmut & Hrepr & Hkind). rewrite Ho, Ho'.
  destruct (assigned x); simpl; [by rewrite Hrepr|].
  destruct (obj_mutable o).
  - destruct Hkind as (_ & _ & ->). done.
  - destruct Hkind as (_ & ->). done.
Qed.

Lemma clone_table_quiet objs objs' vars vars' :
  Forall2 (clone_of objs objs') vars vars' ->
  forallb (quiet objs) vars = true ->
  forallb (quiet objs') vars' = true /\
  request_of objs' <$> vars' = request_of objs <$> vars.
Proof.
  induction 1 as [|x x' vars vars' Hx _ IH]; intros Hq; [done|].
  simpl in Hq. apply andb_true_iff in Hq as [Hqx Hq].
  destruct (clone_of_quiet _ _ _ _ Hx Hqx) as [Hqx' Hreq].
  destruct (IH Hq) as [Hq' Hreqs]. split.
  - simpl. by rewrite Hqx', Hq'.
  - rewrite !fmap_cons. by rewrite Hreq, Hreqs.
Qed.

Lemma sync_result_refines w self msg s m :
  scopes w !! self = Some s -> messages w !! msg = Some m ->
  g_array_len (variables s) <= G_MAXINT ->
  sync_result msg (filterx_scope_sync_to_message self msg w) =
  (fun r => (Some r.1, r.2)) <$> table_result (sync_table_spec (variables s) (objects w) m).
Proof.
  intros Hs Hm Hmax.
  rewrite (filterx_scope_sync_to_message_refines w self msg s m Hs Hm Hmax).
  destruct (sync_table_spec (variables s) (objects w) m) as [vs o mm|vs o mm|]; simpl;
    by rewrite ?lookup_insert_eq.
Qed.

(** Flags are cleared in both stores, and none of an immutable object in
    the first while it stays set in the second: [follows] is kept. *)
Lemma follows_update (objs objs' n n' : gmap positive FilterXObject) y y' :
  (forall b ob, objs !! b = Some ob ->
     exists ob1, n !! b = Some ob1 /\ obj_repr ob1 = obj_repr ob /\
       obj_mutable ob1 = obj_mutable ob /\
       (modified_in_place ob1 = modified_in_place ob \/ modified_in_place ob1 = false)) ->
  (forall b ob, objs' !! b = Some ob ->
     exists ob1, n' !! b = Some ob1 /\ obj_repr ob1 = obj_repr ob /\
       obj_mutable ob1 = obj_mutable ob /\
       (modified_in_place ob1 = modified_in_place ob \/ modified_in_place ob1 = false)) ->
  (forall b ob ob1 ob1',
     objs !! b = Some ob -> obj_mutable ob = false -> modified_in_place ob = true ->
     n !! b = Some ob1 -> modified_in_place ob1 = false ->
     n' !! b = Some ob1' -> modified_in_place ob1' = false) ->
  follows objs objs' y y' -> follows n n' y y'.
Proof.
  intros H1 H2 H3 (Hh & Hf & Ha & Hv). split; [done|]. split; [done|]. split; [done|].
  destruct (value y) as [a|], (value y') as [a'|]; try done.
  destruct Hv as (o & o' & Ho & Ho' & Hr & Hm & Hk).
  destruct (H1 _ _ Ho) as (o1 & Ho1 & Hr1 & Hm1 & Hf1).
  destruct (H2 _ _ Ho') as (o1' & Ho1' & Hr1' & Hm1' & Hf1').
  exists o1, o1'. split; [done|]. split; [done|]. split; [congruence|]. split; [congruence|].
  rewrite Hm1. destruct (obj_mutable o) eqn:Emut.
  - destruct Hf1' as [->| ->]; done.
  - destruct Hk as [-> Hflag]. split; [done|]. intros Ht.
    destruct Hf1' as [Heq|Hfalse]; [|congruence].
    assert (Hold : modified_in_place o = true) by (apply Hflag; congruence).
    destruct Hf1 as [Heq1|Hfalse1]; [congruence|].
    pose proof (H3 a o o1 o1' Ho Emut Hold Ho1 Hfalse1 Ho1'). congruence.
Qed.

Lemma clear_lookup (objs : gmap positive FilterXObject) a o b ob :
  objs !! a = Some o -> objs !! b = Some ob ->
  exists ob1, <[a := set_modified_in_place o false]> objs !! b = Some ob1 /\
    obj_repr ob1 = obj_repr ob /\ obj_mutable ob1 = obj_mutable ob /\
    (modified_in_place ob1 = modified_in_place ob \/ modified_in_place ob1 = false).
Proof.
  intros Ha Hb. destruct (decide (b = a)) as [->|Hne].
  - rewrite lookup_insert_eq. assert (ob = o) as -> by congruence. eexists. split; [done|]. auto.
  - rewrite lookup_insert_ne by done. eauto 10.
Qed.

Lemma kept_lookup (objs : gmap positive FilterXObject) b ob :
  objs !! b = Some ob ->
  exists ob1, objs !! b = Some ob1 /\
    obj_repr ob1 = obj_repr ob /\ obj_mutable ob1 = obj_mutable ob /\
    (modified_in_place ob1 = modified_in_place ob \/ modified_in_place ob1 = false).
Proof. eauto 10. Qed.

(** A flag that went from set to clear was cleared at [a]. *)
Lemma cleared_at (objs : gmap positive FilterXObject) a o b ob ob1 :
  objs !! b = Some ob -> modified_in_place ob = true ->
  <[a := set_modified_in_place o false]> objs !! b = Some ob1 ->
  modified_in_place ob1 = false -> b = a.
Proof.
  intros Hb Hflag Hb1 Hfalse. destruct (decide (b = a)) as [|Hne]; [done|].
  rewrite lookup_insert_ne in Hb1 by done. congruence.
Qed.

(** One variable of the original and the one following it: when the
    original's is synchronised, so is the other; both make the same call,
    or none, or the original alone makes one, for a value modified in
    place of a variable that is not assigned. *)
Lemma sync_variable_follows objs objs' x x' m m' x1 o1 m1 :
  follows objs objs' x x' ->
  sync_variable_spec x objs m = Synced x1 o1 m1 ->
  exists x1' o1' m1',
    sync_variable_spec x' objs' m' = Synced x1' o1' m1' /\
    (forall y y', follows objs objs' y y' -> follows o1 o1' y y') /\
    ((m1 = m /\ m1' = m') \/
     (exists c, call_handle c = handle x /\ m1 = apply_call c m /\ m1' = apply_call c m') \/
     (exists c, call_handle c = handle x /\ flag_driven x = false /\
                m1 = apply_call c m /\ m1' = m')).
Proof.
  intros (Hh & Hf & Ha & Hv) Hstep. unfold sync_variable_spec in *. rewrite Hh, Hf, Ha.
  destruct (floating x) eqn:Efl.
  { inversion Hstep; subst. eexists _, _, _. split; [done|]. split; [done|]. by left. }
  destruct (value x) as [a|] eqn:Ev, (value x') as [a'|] eqn:Ev'; try done.
  2: { inversion Hstep; subst. eexists _, _, _. split; [done|]. split; [done|].
       right; left. by exists (CallUnsetValue (handle x)). }
  destruct Hv as (o & o' & Ho & Ho' & Hr & Hm & Hk). rewrite Ho in Hstep. rewrite Ho'.
  assert (Hboth : forall bytes t, obj_repr o = Some (bytes, t) ->
            forall y y', follows objs objs' y y' ->
              follows (<[a := set_modified_in_place o false]> objs)
                      (<[a' := set_modified_in_place o' false]> objs') y y').
  { intros bytes t _ y y'. apply follows_update.
    - intros b ob Hb. by apply clear_lookup.
    - intros b ob Hb. by apply clear_lookup.
    - intros b ob ob1 ob1' Hb Himm Hflag Hb1 Hfalse Hb1'.
      assert (b = a) as -> by exact (cleared_at objs a o b ob ob1 Hb Hflag Hb1 Hfalse).
      assert (ob = o) as -> by congruence. rewrite Himm in Hk. destruct Hk as [-> _].
      rewrite lookup_insert_eq in Hb1'. by inversion Hb1'. }
  destruct (assigned x) eqn:Eas; simpl in *.
  - rewrite Hr. destruct (obj_repr o) as [[bytes t]|] eqn:Er; [|done]. inversion Hstep; subst.
    eexists _, _, _. split; [done|]. split; [by eapply Hboth|].
    right; left. by exists (CallSetValue (handle x) bytes t).
  - destruct (modified_in_place o) eqn:Emip.
    + destruct (obj_repr o) as [[bytes t]|] eqn:Er; [|done]. inversion Hstep; subst.
      destruct (modified_in_place o') eqn:Emip'.
      * rewrite Hr. eexists _, _, _. split; [done|]. split; [by eapply Hboth|].
        right; left. by exists (CallSetValue (handle x) bytes t).
      * eexists _, _, _. split; [done|]. split.
        -- intros y y'. apply follows_update.
           ++ intros b ob Hb. by apply clear_lookup.
           ++ intros b ob Hb. by apply kept_lookup.
           ++ intros b ob ob1 ob1' Hb Himm Hflag Hb1 Hfalse Hb1'.
              assert (b = a) as -> by exact (cleared_at objs a o b ob ob1 Hb Hflag Hb1 Hfalse).
              assert (ob = o) as -> by congruence. rewrite Himm in Hk. destruct Hk as [-> _].
              congruence.
        -- right; right. exists (CallSetValue (handle x) bytes t).
           split; [done|]. split; [|done].
           unfold flag_driven. rewrite Efl, Eas, Ev. done.
    + inversion Hstep; subst.
      assert (Emip' : modified_in_place o' = false).
      { destruct (obj_mutable o); [done|]. destruct Hk as [_ Hflag].
        destruct (modified_in_place o'); [|done]. by specialize (Hflag eq_refl). }
      rewrite Emip'. eexists _, _, _. split; [done|]. split; [done|]. by left.
Qed.

Lemma calls_for_apply h c m :
  calls_for h (apply_call c m) =
  calls_for h m ++ (if decide (call_handle c = h) then [c] else []).
Proof.
  unfold calls_for. destruct c; simpl; rewrite filter_app; f_equal;
    rewrite filter_cons, filter_nil; simpl; by destruct (decide _).
Qed.

Lemma values_apply_ne h c m :
  call_handle c <> h -> nv_values (apply_call c m) !! h = nv_values m !! h.
Proof.
  intros Hne. destruct c; simpl in *.
  - by rewrite lookup_insert_ne.
  - by rewrite lookup_delete_ne.
Qed.

Lemma values_apply_eq c m m' :
  nv_values (apply_call c m) !! call_handle c = nv_values (apply_call c m') !! call_handle c.
Proof.
  destruct c; simpl.
  - by rewrite !lookup_insert_eq.
  - by rewrite !lookup_delete_eq.
Qed.

(** A table of the original and one following it: when the run over the
    original's completes, so does the run over the other, and for a handle
    that only flag-driven variables have, both make the same calls and
    leave the same field. *)
Lemma sync_table_follows vars : forall vars' objs objs' m m' vs o mm,
  Forall2 (follows objs objs') vars vars' ->
  sync_table_spec vars objs m = TableSynced vs o mm ->
  exists vs' o' mm',
    sync_table_spec vars' objs' m' = TableSynced vs' o' mm' /\
    forall h, (forall x, x ∈ vars -> handle x = h -> flag_driven x = true) ->
      (calls_for h m' = calls_for h m -> calls_for h mm' = calls_for h mm) /\
      (nv_values m' !! h = nv_values m !! h -> nv_values mm' !! h = nv_values mm !! h).
Proof.
  induction vars as [|x rest IH]; intros vars' objs objs' m m' vs o mm Hf Hrun.
  - inversion Hf; subst. simpl in *. inversion Hrun; subst. eexists _, _, _. by split.
  - inversion Hf as [|? x' ? rest' Hx Hrest]; subst. simpl in Hrun.
    destruct (sync_variable_spec x objs m) as [x1 o1 m1| |] eqn:Ex; [|done|done].
    destruct (sync_table_spec rest o1 m1) as [vs1 o2 m2| |] eqn:Erest; [|done|done].
    inversion Hrun; subst.
    destruct (sync_variable_follows _ _ _ _ m m' _ _ _ Hx Ex)
      as (x1' & o1' & m1' & Ex' & Hkeep & Hmsg).
    assert (Hrest' : Forall2 (follows o1 o1') rest rest').
    { eapply Forall2_impl; [exact Hrest|]. intros y y'. apply Hkeep. }
    destruct (IH rest' o1 o1' m1 m1' _ _ _ Hrest' Erest) as (vs' & o' & mm' & Erun' & Hproj).
    eexists _, _, _. split; [simpl; by rewrite Ex', Erun'|].
    intros h Hh. destruct (Hproj h) as [Hc Hv].
    { intros y Hy. apply Hh. by right. }
    specialize (Hh x ltac:(left)).
    destruct Hmsg as [[-> ->]|[(c & Hch & -> & ->)|(c & Hch & Hfd & -> & ->)]].
    + done.
    + split; intros H0.
      * apply Hc. rewrite !calls_for_apply. by rewrite H0.
      * apply Hv. destruct (decide (call_handle c = h)) as [<-|Hne].
        -- apply values_apply_eq.
        -- by rewrite !values_apply_ne.
    + assert (Hne : call_handle c <> h).
      { intros Heq. rewrite Hch in Heq. specialize (Hh Heq). congruence. }
      split; intros H0.
      * apply Hc. rewrite calls_for_apply. rewrite decide_False by done.
        by rewrite app_nil_r.
      * apply Hv. by rewrite values_apply_ne.
Qed.

(** Synchronising a variable changes no representation in the store. *)
Lemma sync_variable_spec_repr x objs m x1 o1 m1 :
  sync_variable_spec x objs m = Synced x1 o1 m1 ->
  forall b ob1, o1 !! b = Some ob1 ->
    exists ob, objs !! b = Some ob /\ obj_repr ob = obj_repr ob1.
Proof.
  unfold sync_variable_spec. intros Hstep b ob1 Hb.
  destruct (floating x); [inversion Hstep; subst; eauto|].
  destruct (value x) as [a|]; [|inversion Hstep; subst; eauto].
  destruct (objs !! a) as [o|] eqn:Ho; [|done].
  destruct (assigned x || modified_in_place o); [|inversion Hstep; subst; eauto].
  destruct (obj_repr o) as [[bytes t]|]; [|done]. inversion Hstep; subst.
  destruct (decide (b = a)) as [->|Hne].
  - rewrite lookup_insert_eq in Hb. inversion Hb; subst. eauto.
  - rewrite lookup_insert_ne in Hb by done. eauto.
Qed.

(** The same for a run that stops on a failed marshal, when only
    flag-driven variables hold a value that cannot be marshalled: the run
    over the following table stops as well. *)
Lemma sync_table_follows_abort vars : forall vars' objs objs' m m' vs o mm,
  Forall2 (follows objs objs') vars vars' ->
  (forall x a ob, x ∈ vars -> flag_driven x = false -> value x = Some a ->
     objs !! a = Some ob -> obj_repr ob <> None) ->
  sync_table_spec vars objs m = TableAborted vs o mm ->
  exists vs' o' mm',
    sync_table_spec vars' objs' m' = TableAborted vs' o' mm' /\
    forall h, (forall x, x ∈ vars -> handle x = h -> flag_driven x = true) ->
      (calls_for h m' = calls_for h m -> calls_for h mm' = calls_for h mm) /\
      (nv_values m' !! h = nv_values m !! h -> nv_values mm' !! h = nv_values mm !! h).
Proof.
  induction vars as [|x rest IH]; intros vars' objs objs' m m' vs o mm Hf Hrepr Hrun.
  - done.
  - inversion Hf as [|? x' ? rest' Hx Hrest]; subst. simpl in Hrun.
    destruct (sync_variable_spec x objs m) as [x1 o1 m1| |] eqn:Ex; [| |done].
    + destruct (sync_table_spec rest o1 m1) as [vs1 o2 m2|vs1 o2 m2|] eqn:Erest; [done| |done].
      inversion Hrun; subst.
      destruct (sync_variable_follows _ _ _ _ m m' _ _ _ Hx Ex)
        as (x1' & o1' & m1' & Ex' & Hkeep & Hmsg).
      assert (Hrest' : Forall2 (follows o1 o1') rest rest').
      { eapply Forall2_impl; [exact Hrest|]. intros y y'. apply Hkeep. }
      assert (Hrepr' : forall y a ob, y ∈ rest -> flag_driven y = false -> value y = Some a ->
                o1 !! a = Some ob -> obj_repr ob <> None).
      { intros y a ob Hy Hfd Hv Hob.
        destruct (sync_variable_spec_repr _ _ _ _ _ _ Ex a ob Hob) as (ob0 & Hob0 & <-).
        eapply (Hrepr y a ob0); [by right|done..]. }
      destruct (IH rest' o1 o1' m1 m1' _ _ _ Hrest' Hrepr' Erest)
        as (vs' & o' & mm' & Erun' & Hproj).
      eexists _, _, _. split; [simpl; by rewrite Ex', Erun'|].
      intros h Hh. destruct (Hproj h) as [Hc Hv].
      { intros y Hy. apply Hh. by right. }
      specialize (Hh x ltac:(left)).
      destruct Hmsg as [[-> ->]|[(c & Hch & -> & ->)|(c & Hch & Hfd & -> & ->)]].
      * done.
      * split; intros H0.
        -- apply Hc. rewrite !calls_for_apply. by rewrite H0.
        -- apply Hv. destruct (decide (call_handle c = h)) as [<-|Hne].
           ++ apply values_apply_eq.
           ++ by rewrite !values_apply_ne.
      * assert (Hne : call_handle c <> h).
        { intros Heq. rewrite Hch in Heq. specialize (Hh Heq). congruence. }
        split; intros H0.
        -- apply Hc. rewrite calls_for_apply. rewrite decide_False by done.
           by rewrite app_nil_r.
        -- apply Hv. by rewrite values_apply_ne.
    + inversion Hrun; subst. clear Hrun IH.
      specialize (Hrepr x). destruct Hx as (Hh & Hfl & Ha & Hv).
      exists (x' :: rest'), objs', m'. split; [|done].
      simpl. unfold sync_variable_spec in *. rewrite Hfl, Ha.
      destruct (floating x) eqn:Efl; [done|].
      destruct (value x) as [a|] eqn:Ev, (value x') as [a'|] eqn:Ev'; try done.
      destruct Hv as (ob & ob' & Hob & Hob' & Hr & _). rewrite Hob in Ex. rewrite Hob', Hr.
      destruct (assigned x) eqn:Eas.
      * simpl in *. by destruct (obj_repr ob) as [[bytes t]|].
      * exfalso. simpl in Ex. destruct (modified_in_place ob); [|done].
        destruct (obj_repr ob) as [[bytes t]|] eqn:Er; [done|].
        apply (Hrepr a ob); [by left| |done..].
        unfold flag_driven. by rewrite Efl, Eas, Ev.
Qed.

Lemma clone_of_follows objs objs' x x' : clone_of objs objs' x x' -> follows objs objs' x x'.
Proof.
  intros (Hh & Hf & Ha & Hval). split; [done|]. split; [done|]. split; [done|].
  unfold value_equal in Hval. destruct (value x) as [a|], (value x') as [a'|]; try done.
  destruct Hval as (o & o' & Ho & Ho' & Hmut & Hrepr & Hkind).
  exists o, o'. split; [done|]. split; [done|]. split; [done|]. split; [done|].
  destruct (obj_mutable o).
  - by destruct Hkind as (_ & _ & ?).
  - destruct Hkind as [-> Hflag]. split; [done|]. congruence.
Qed.

(** A flag-driven variable alone: the body of the loop leaves the message
    the same, and fails the same, for it and for the one following it. *)
Lemma sync_variable_flag_driven objs objs' x x' m :
  follows objs objs' x x' -> flag_driven x = true ->
  match sync_variable_spec x objs m, sync_variable_spec x' objs' m with
  | Synced _ _ m1, Synced _ _ m1' => m1' = m1
  | MarshalFailed, MarshalFailed => True
  | _, _ => False
  end.
Proof.
  intros (Hh & Hf & Ha & Hv) Hfd. unfold sync_variable_spec, flag_driven in *.
  rewrite Hh, Hf, Ha. destruct (floating x); [done|].
  destruct (value x) as [a|], (value x') as [a'|]; try done.
  destruct Hv as (o & o' & Ho & Ho' & Hr & _). rewrite Ho, Ho', Hr.
  destruct (assigned x); [|done]. simpl. by destruct (obj_repr o) as [[bytes t]|].
Qed.

(** C9.  The clone [filterx_scope_make_writable] makes of a
    write-protected scope is another scope, at an address no scope had,
    and has, position by position, the handle, the floating and the
    assigned flag of the original's variables, and a value exactly where
    the original has one.  A variable whose synchronisation its flags
    decide, a pending assignment or a whiteout among them, drives in the
    clone what it drives in the original.  The body of the loop leaves
    the message the same, or fails the same on a value that cannot be
    marshalled, for it in the clone as in the original.  When the
    synchronisation of the original completes, that of the clone
    completes, with the same calls for its handle and the same field
    under it, whatever else is pending.  When the synchronisation of the
    original stops on a value that cannot be marshalled, and only
    flag-driven variables hold such a value, that of the clone stops as
    well, with the same calls and the same field.  When nothing but
    assignments and whiteouts is pending in the original, the two
    synchronisations leave the message, and end, the same: the requests
    are served in table order. *)
Theorem clone_syncs_like_original (w : World) (p msg : address) (s : FilterXScope)
    (m : LogMessage) :
  scopes w !! p = Some s ->
  write_protected s = true ->
  g_array_len (variables s) <= G_MAXINT ->
  refs_sound_b s (objects w) = true ->
  messages w !! msg = Some m ->
  exists p' w' s',
    filterx_scope_make_writable p w = Ok p' w' /\
    p' <> p /\ scopes w !! p' = None /\
    scopes w' !! p' = Some s' /\
    messages w' !! msg = Some m /\
    Forall2 (fun x x' => handle x' = handle x /\ floating x' = floating x /\
                         assigned x' = assigned x /\ (value x' = None <-> value x = None))
            (variables s) (variables s') /\
    (forall (i : nat) x, variables s !! i = Some x -> flag_driven x = true ->
       sync_result msg (sync_variable p' msg (Z.of_nat i) w') =
       sync_result msg (sync_variable p msg (Z.of_nat i) w)) /\
    (forall w1, filterx_scope_sync_to_message p msg w = Ok tt w1 ->
       exists w1' m1 m1',
         filterx_scope_sync_to_message p' msg w' = Ok tt w1' /\
         messages w1 !! msg = Some m1 /\ messages w1' !! msg = Some m1' /\
         forall h, (forall x, x ∈ variables s -> handle x = h -> flag_driven x = true) ->
           calls_for h m1' = calls_for h m1 /\ nv_values m1' !! h = nv_values m1 !! h) /\
    (forall w1, filterx_scope_sync_to_message p msg w = Abort w1 ->
       (forall x a o, x ∈ variables s -> flag_driven x = false -> value x = Some a ->
          objects w !! a = Some o -> obj_repr o <> None) ->
       exists w1' m1 m1',
         filterx_scope_sync_to_message p' msg w' = Abort w1' /\
         messages w1 !! msg = Some m1 /\ messages w1' !! msg = Some m1' /\
         forall h, (forall x, x ∈ variables s -> handle x = h -> flag_driven x = true) ->
           calls_for h m1' = calls_for h m1 /\ nv_values m1' !! h = nv_values m1 !! h) /\
    (forallb (quiet (objects w)) (variables s) = true ->
     sync_result msg (filterx_scope_sync_to_message p' msg w') =
       sync_result msg (filterx_scope_sync_to_message p msg w) /\
     sync_result msg (filterx_scope_sync_to_message p msg w) =
       Some (Some (serve (request_of (objects w) <$> variables s) m).1,
             (serve (request_of (objects w) <$> variables s) m).2)).
Proof.
  intros Hs Hwp Hmax Hsound%refs_sound_b_sound Hm.
  pose proof (filterx_scope_make_writable_Ok w p s Hs Hmax Hsound) as Hmw.
  rewrite Hwp in Hmw.
  set (p' := fresh (dom (scopes w))) in *. set (w' := writable_world w p s) in *.
  set (t := clone_table (variables s) (objects w)).
  pose proof (writable_world_clone w p s Hs) as Hs'. fold p' w' t in Hs'.
  pose proof (writable_world_clone_of w p s Hsound) as Hclone. fold w' t in Hclone.
  assert (Hfresh : scopes w !! p' = None) by apply not_elem_of_dom, is_fresh.
  assert (Hm' : messages w' !! msg = Some m).
  { subst w'. unfold writable_world. by destruct (ref_cnt s - 1 =? 0). }
  assert (Hmax' : g_array_len (variables (mkScope 1 t.1 [] false)) <= G_MAXINT).
  { unfold g_array_len in *. simpl. by rewrite <- (Forall2_length _ _ _ Hclone). }
  assert (Hfollows : Forall2 (follows (objects w) (objects w')) (variables s) t.1).
  { eapply Forall2_impl; [exact Hclone|]. apply clone_of_follows. }
  exists p', w', (mkScope 1 t.1 [] false).
  split; [done|]. split; [congruence|]. split; [done|]. split; [done|]. split; [done|].
  split; [|split; [|split; [|split]]].
  - eapply Forall2_impl; [exact Hclone|]. intros x x' (Hh & Hf & Ha & Hval).
    repeat split; try done; intros Hnone; rewrite Hnone in Hval;
      [by destruct (value x)|by destruct (value x')].
  - intros i x Hi Hfd.
    destruct (Forall2_lookup_l _ _ _ _ _ Hfollows Hi) as (x' & Hi' & Hx).
    rewrite (sync_variable_refines w p msg s m i x Hs Hm Hi).
    rewrite (sync_variable_refines w' p' msg _ m i x' Hs' Hm' Hi').
    pose proof (sync_variable_flag_driven _ _ _ _ m Hx Hfd) as Hstep.
    destruct (sync_variable_spec x (objects w) m) as [x1 o1 m1| |],
      (sync_variable_spec x' (objects w') m) as [x1' o1' m1'| |]; try done.
    + subst m1'. simpl. by rewrite !lookup_insert_eq.
    + simpl. by rewrite Hm, Hm'.
  - intros w1 Hrun.
    rewrite (filterx_scope_sync_to_message_refines w p msg s m Hs Hm Hmax) in Hrun.
    destruct (sync_table_spec (variables s) (objects w) m) as [vs o mm| |] eqn:Etable;
      [|done|done].
    inversion Hrun; subst w1. clear Hrun.
    destruct (sync_table_follows _ _ _ _ m m _ _ _ Hfollows Etable)
      as (vs' & o' & mm' & Etable' & Hproj).
    eexists _, mm, mm'. split; [|split; [apply lookup_insert_eq|split]].
    + rewrite (filterx_scope_sync_to_message_refines w' p' msg _ m Hs' Hm' Hmax').
      simpl variables. by rewrite Etable'.
    + apply lookup_insert_eq.
    + intros h Hh. destruct (Hproj h Hh) as [Hc Hv]. split; [by apply Hc|by apply Hv].
  - intros w1 Hrun Hrepr.
    rewrite (filterx_scope_sync_to_message_refines w p msg s m Hs Hm Hmax) in Hrun.
    destruct (sync_table_spec (variables s) (objects w) m) as [vs o mm|vs o mm|] eqn:Etable;
      [done| |done].
    inversion Hrun; subst w1. clear Hrun.
    destruct (sync_table_follows_abort _ _ _ _ m m _ _ _ Hfollows Hrepr Etable)
      as (vs' & o' & mm' & Etable' & Hproj).
    eexists _, mm, mm'. split; [|split; [apply lookup_insert_eq|split]].
    + rewrite (filterx_scope_sync_to_message_refines w' p' msg _ m Hs' Hm' Hmax').
      simpl variables. by rewrite Etable'.
    + apply lookup_insert_eq.
    + intros h Hh. destruct (Hproj h Hh) as [Hc Hv]. split; [by apply Hc|by apply Hv].
  - intros Hq.
    destruct (clone_table_quiet _ _ _ _ Hclone Hq) as [Hq' Hreq].
    assert (Horig : sync_result msg (filterx_scope_sync_to_message p msg w) =
              Some (Some (serve (request_of (objects w) <$> variables s) m).1,
                    (serve (request_of (objects w) <$> variables s) m).2)).
    { rewrite (sync_result_refines w p msg s m Hs Hm Hmax).
      by rewrite (sync_table_quiet _ _ _ Hq). }
    split; [|done]. rewrite Horig.
    rewrite (sync_result_refines w' p' msg _ m Hs' Hm' Hmax'). simpl variables.
    rewrite (sync_table_quiet _ _ _ Hq'). by rewrite Hreq.
Qed.

Lemma clone_syncs_like_original_witness :
  exists p' w' w1 w1' m1 m1',
    filterx_scope_make_writable 1%positive SamplePending.world = Ok p' w' /\
    p' <> 1%positive /\
    filterx_scope_sync_to_message 1%positive 1%positive SamplePending.world = Ok tt w1 /\
    filterx_scope_sync_to_message p' 1%positive w' = Ok tt w1' /\
    messages w1 !! 1%positive = Some m1 /\ messages w1' !! 1%positive = Some m1' /\
    calls_for 20 m1' = calls_for 20 m1 /\ nv_values m1' !! 20 = nv_values m1 !! 20 /\
    calls_for 30 m1' = calls_for 30 m1 /\ nv_values m1' !! 30 = nv_values m1 !! 30.
Proof.
  destruct (clone_syncs_like_original SamplePending.world 1%positive 1%positive
              SamplePending.pending_scope Sample.message)
    as (p' & w' & s' & Hmw & Hne & _ & _ & _ & _ & _ & Hrun & _ & _).
  - reflexivity.
  - reflexivity.
  - vm_compute. discriminate.
  - reflexivity.
  - reflexivity.
  - assert (Horig : exists w1,
              filterx_scope_sync_to_message 1%positive 1%positive SamplePending.world = Ok tt w1)
      by (eexists; vm_compute; reflexivity).
    destruct Horig as [w1 Horig].
    destruct (Hrun w1 Horig) as (w1' & m1 & m1' & Hrun' & Hm1 & Hm1' & Hsame).
    assert (Hdriven : forall h, h = 20 \/ h = 30 ->
              forall x, x ∈ SamplePending.table -> handle x = h -> flag_driven x = true).
    { intros h Hh x Hx Hhx. apply list_elem_of_In in Hx. simpl in Hx.
      destruct Hx as [<-|[<-|[<-|[]]]]; simpl in Hhx; [|reflexivity|reflexivity].
      destruct Hh; subst; discriminate. }
    destruct (Hsame 20 (Hdriven 20 (or_introl eq_refl))) as [Hc20 Hv20].
    destruct (Hsame 30 (Hdriven 30 (or_intror eq_refl))) as [Hc30 Hv30].
    exists p', w', w1, w1', m1, m1'. repeat (split; [assumption|]). assumption.
Defined.

(** ** C3: steps of the object store under two holders *)

Lemma store_ok_b_sound objs : store_ok_b objs = true -> store_ok objs.
Proof.
  unfold store_ok_b, store_ok. rewrite forallb_forall. intros H a o Ha.
  assert (Hin : In (a, o) (map_to_list objs)).
  { apply list_elem_of_In. by apply elem_of_map_to_list. }
  specialize (H _ Hin). simpl in H. apply andb_true_iff in H as [Hcnt Hclean].
  apply Z.leb_le in Hcnt. split; [done|]. intros Hmut. rewrite Hmut in Hclean.
  simpl in Hclean. by apply negb_true_iff in Hclean.
Qed.

Lemma ref_count_live objs a : 0 < ref_count objs a -> is_Some (objs !! a).
Proof. unfold ref_count. destruct (objs !! a); [eauto|lia]. Qed.

Lemma ref_count_acquire objs p b :
  live_in objs p ->
  ref_count (acquire p objs) b = ref_count objs b + points_to p b.
Proof.
  unfold points_to. destruct p as [a|]; simpl.
  2: { intros _. repeat case_decide; try done; lia. }
  intros [o Ho]. rewrite Ho. unfold ref_count.
  destruct (decide (Some a = Some b)) as [[= ->]|Hne].
  - rewrite lookup_insert_eq, Ho. done.
  - rewrite lookup_insert_ne by congruence. lia.
Qed.

Lemma ref_count_release objs p b :
  live_in objs p ->
  ref_count (release p objs) b = ref_count objs b - points_to p b.
Proof.
  unfold points_to. destruct p as [a|]; simpl.
  2: { intros _. repeat case_decide; try done; lia. }
  intros [o Ho]. rewrite Ho. unfold ref_count.
  destruct (decide (Some a = Some b)) as [[= ->]|Hne].
  - rewrite Ho. destruct (Z.eqb_spec (obj_ref_cnt o - 1) 0).
    + rewrite lookup_delete_eq. lia.
    + rewrite lookup_insert_eq. done.
  - destruct (obj_ref_cnt o - 1 =? 0).
    + rewrite lookup_delete_ne by congruence. lia.
    + rewrite lookup_insert_ne by congruence. lia.
Qed.

Lemma acquire_lookup objs p b o' :
  acquire p objs !! b = Some o' ->
  exists o, objs !! b = Some o /\ obj_mutable o' = obj_mutable o /\
    modified_in_place o' = modified_in_place o /\ obj_repr o' = obj_repr o /\
    obj_ref_cnt o <= obj_ref_cnt o'.
Proof.
  destruct p as [a|]; simpl; [|intros H; exists o'; repeat split; try done; lia].
  destruct (objs !! a) as [o|] eqn:Ea; [|intros H; exists o'; repeat split; try done; lia].
  destruct (decide (a = b)) as [->|Hne].
  - rewrite lookup_insert_eq. intros [= <-]. exists o. simpl. repeat split; try done; lia.
  - rewrite lookup_insert_ne by done. intros H. exists o'. repeat split; try done; lia.
Qed.

Lemma release_lookup objs p b o' :
  release p objs !! b = Some o' ->
  exists o, objs !! b = Some o /\ obj_mutable o' = obj_mutable o /\
    modified_in_place o' = modified_in_place o /\ obj_repr o' = obj_repr o /\
    (obj_ref_cnt o' = obj_ref_cnt o \/ (p = Some b /\ obj_ref_cnt o' = obj_ref_cnt o - 1 /\
                                         obj_ref_cnt o' <> 0)).
Proof.
  destruct p as [a|]; simpl; [|intros H; exists o'; repeat split; try done; lia].
  destruct (objs !! a) as [o|] eqn:Ea; [|intros H; exists o'; repeat split; try done; lia].
  destruct (Z.eqb_spec (obj_ref_cnt o - 1) 0).
  - destruct (decide (a = b)) as [->|Hne].
    + by rewrite lookup_delete_eq.
    + rewrite lookup_delete_ne by done. intros H. exists o'. repeat split; try done; lia.
  - destruct (decide (a = b)) as [->|Hne].
    + rewrite lookup_insert_eq. intros [= <-]. exists o. simpl. repeat split; try done.
      right. repeat split; try done.
    + rewrite lookup_insert_ne by done. intros H. exists o'. repeat split; try done; lia.
Qed.

Lemma points_to_cases p a : points_to p a = 0 \/ (points_to p a = 1 /\ p = Some a).
Proof. unfold points_to. destruct (decide (p = Some a)); auto. Qed.

Lemma store_inv_live objs hq hq' a :
  store_inv objs hq hq' -> 0 < hq a + hq' a -> is_Some (objs !! a).
Proof. intros (_ & Hrc & _) Ha. apply ref_count_live. specialize (Hrc a). lia. Qed.

Lemma same_view_refl objs hq : same_view objs objs hq.
Proof. by intros a _. Qed.

Lemma same_view_trans objs1 objs2 objs3 hq :
  same_view objs1 objs2 hq -> same_view objs2 objs3 hq -> same_view objs1 objs3 hq.
Proof. intros H12 H23 a Ha. by rewrite (H23 a Ha), (H12 a Ha). Qed.

Lemma store_inv_ext objs hq h1 h2 :
  (forall a, h1 a = h2 a) -> store_inv objs hq h1 -> store_inv objs hq h2.
Proof.
  intros Hext (Hok & Hrc & Hsh). split; [done|]. split.
  - intros a. rewrite <- Hext. apply Hrc.
  - intros a o Ho Hq H2. rewrite <- Hext in H2. eauto.
Qed.

Lemma value_view_acquire objs p a :
  value_view (acquire p objs) (Some a) = value_view objs (Some a).
Proof.
  destruct p as [b|]; simpl; [|done].
  destruct (objs !! b) as [ob|] eqn:Eb; [|done].
  destruct (decide (b = a)) as [->|Hne].
  - by rewrite lookup_insert_eq, Eb.
  - by rewrite lookup_insert_ne.
Qed.

Lemma value_view_release objs p a :
  (p = Some a -> 1 < ref_count objs a) ->
  value_view (release p objs) (Some a) = value_view objs (Some a).
Proof.
  destruct p as [b|]; simpl; [|done]. intros Hcnt.
  destruct (objs !! b) as [ob|] eqn:Eb; [|done].
  destruct (decide (b = a)) as [->|Hne].
  - specialize (Hcnt eq_refl). unfold ref_count in Hcnt. rewrite Eb in Hcnt.
    destruct (Z.eqb_spec (obj_ref_cnt ob - 1) 0); [lia|].
    by rewrite lookup_insert_eq, Eb.
  - destruct (obj_ref_cnt ob - 1 =? 0).
    + by rewrite lookup_delete_ne.
    + by rewrite lookup_insert_ne.
Qed.

(** Taking one more reference, for a further pointer of the second
    holder. *)
Lemma store_inv_acquire objs hq hq' p :
  live_in objs p ->
  store_inv objs hq hq' ->
  (forall a o, p = Some a -> objs !! a = Some o -> 0 < hq a -> obj_mutable o = false) ->
  store_inv (acquire p objs) hq (fun a => hq' a + points_to p a) /\
  same_view objs (acquire p objs) hq.
Proof.
  intros Hlive (Hok & Hrc & Hsh) Hnew. split; [split; [|split]|].
  - intros a o' (o & Ho & Hmut & Hmip & _ & Hcnt)%acquire_lookup.
    destruct (Hok a o Ho) as [? Hclean]. split; [lia|]. rewrite Hmut, Hmip. done.
  - intros a. rewrite (ref_count_acquire _ _ _ Hlive). specialize (Hrc a). lia.
  - intros a o' (o & Ho & Hmut & _)%acquire_lookup Hqa Hqa'. rewrite Hmut.
    destruct (points_to_cases p a) as [H0|[_ ->]].
    + apply (Hsh a o Ho Hqa). lia.
    + by apply (Hnew a o).
  - intros a Ha. apply value_view_acquire.
Qed.

(** Taking one more reference that is not a pointer of either holder. *)
Lemma store_inv_acquire_extra objs hq hq' p :
  live_in objs p ->
  store_inv objs hq hq' ->
  store_inv (acquire p objs) hq hq' /\ same_view objs (acquire p objs) hq.
Proof.
  intros Hlive (Hok & Hrc & Hsh). split; [split; [|split]|].
  - intros a o' (o & Ho & Hmut & Hmip & _ & Hcnt)%acquire_lookup.
    destruct (Hok a o Ho) as [? Hclean]. split; [lia|]. rewrite Hmut, Hmip. done.
  - intros a. rewrite (ref_count_acquire _ _ _ Hlive). specialize (Hrc a).
    destruct (points_to_cases p a) as [->|[-> _]]; lia.
  - intros a o' (o & Ho & Hmut & _)%acquire_lookup Hqa Hqa'. rewrite Hmut. eauto.
  - intros a Ha. apply value_view_acquire.
Qed.

(** Dropping the reference of a pointer of the second holder. *)
Lemma store_inv_release objs hq hq' p :
  (forall a, 0 <= hq a) ->
  store_inv objs hq hq' ->
  (forall a, p = Some a -> 0 < hq' a) ->
  live_in objs p /\
  store_inv (release p objs) hq (fun a => hq' a - points_to p a) /\
  same_view objs (release p objs) hq.
Proof.
  intros Hq0 (Hok & Hrc & Hsh) Hheld.
  assert (Hlive : live_in objs p).
  { destruct p as [a|]; [|done]. simpl. apply ref_count_live.
    specialize (Hrc a). specialize (Hheld a eq_refl). specialize (Hq0 a). lia. }
  split; [done|]. split; [split; [|split]|].
  - intros a o' (o & Ho & Hmut & Hmip & _ & Hcnt)%release_lookup.
    destruct (Hok a o Ho) as [? Hclean]. split; [|by rewrite Hmut, Hmip]. lia.
  - intros a. rewrite (ref_count_release _ _ _ Hlive). specialize (Hrc a). lia.
  - intros a o' (o & Ho & Hmut & _)%release_lookup Hqa Hqa'. rewrite Hmut.
    apply (Hsh a o Ho Hqa). destruct (points_to_cases p a) as [H0|[H1 _]]; lia.
  - intros a Ha. apply value_view_release. intros ->.
    specialize (Hrc a). specialize (Hheld a eq_refl). lia.
Qed.

(** Changing the flags or the content of an object the second holder
    points to, its mutability and its references being kept: nothing
    shows to the first holder unless the object is shared, immutable and
    the change is the clearing of a flag that was not set. *)
Lemma store_inv_update objs hq hq' a o o' :
  objs !! a = Some o ->
  0 < hq' a ->
  obj_ref_cnt o' = obj_ref_cnt o ->
  obj_mutable o' = obj_mutable o ->
  (obj_mutable o = false -> modified_in_place o' = false /\ obj_repr o' = obj_repr o) ->
  store_inv objs hq hq' ->
  store_inv (<[a := o']> objs) hq hq' /\ same_view objs (<[a := o']> objs) hq.
Proof.
  intros Ha Hheld Hcnt Hmut Himm (Hok & Hrc & Hsh). split; [split; [|split]|].
  - intros b ob. destruct (decide (a = b)) as [<-|Hne].
    + rewrite lookup_insert_eq. intros [= <-]. destruct (Hok a o Ha) as [? Hclean].
      split; [lia|]. rewrite Hmut. intros Hf. by apply Himm.
    + rewrite lookup_insert_ne by done. apply Hok.
  - intros b. specialize (Hrc b). unfold ref_count in *.
    destruct (decide (a = b)) as [<-|Hne].
    + rewrite lookup_insert_eq. rewrite Ha in Hrc. lia.
    + by rewrite lookup_insert_ne.
  - intros b ob. destruct (decide (a = b)) as [<-|Hne].
    + rewrite lookup_insert_eq. intros [= <-] Hq Hq'. rewrite Hmut. eauto.
    + rewrite lookup_insert_ne by done. eauto.
  - intros b Hb. simpl. destruct (decide (a = b)) as [<-|Hne].
    + rewrite lookup_insert_eq, Ha.
      assert (Himmut : obj_mutable o = false) by eauto.
      destruct (Himm Himmut) as [-> ->]. destruct (Hok a o Ha) as [_ Hclean].
      by rewrite Hmut, (Hclean Himmut).
    + by rewrite lookup_insert_ne.
Qed.

(** ** C3: counting references held by a table *)

Lemma held_nonneg vars a : 0 <= held vars a.
Proof. apply holders_nonneg. Qed.

Lemma held_pos vars a : 0 < held vars a <-> exists x, x ∈ vars /\ value x = Some a.
Proof.
  unfold held. rewrite holders_pos_elem. rewrite list_elem_of_fmap. split.
  - intros (x & Hx & Hin). eauto.
  - intros (x & Hin & Hx). eauto.
Qed.

Lemma held_app vars1 vars2 a : held (vars1 ++ vars2) a = held vars1 a + held vars2 a.
Proof. unfold held. by rewrite fmap_app, holders_app. Qed.

Lemma held_cons x vars a : held (x :: vars) a = points_to (value x) a + held vars a.
Proof. reflexivity. Qed.

Lemma held_insert_val vars i x a :
  held (g_array_insert_val vars i x) a = held vars a + points_to (value x) a.
Proof.
  unfold g_array_insert_val. rewrite held_app, held_cons.
  rewrite <- (take_drop (Z.to_nat i) vars) at 3. rewrite held_app. lia.
Qed.

Lemma held_list_insert vars (i : nat) x x' a :
  vars !! i = Some x ->
  held (<[i := x']> vars) a = held vars a - points_to (value x) a + points_to (value x') a.
Proof.
  intros Hi. pose proof (lookup_lt_Some _ _ _ Hi) as Hlt.
  rewrite <- (take_drop_middle vars i x Hi) at 2.
  rewrite <- (take_drop_middle vars i x Hi) at 1.
  rewrite insert_app_r_alt by (rewrite length_take; lia).
  rewrite length_take. replace (i - i `min` length vars)%nat with 0%nat by lia. simpl.
  rewrite !held_app, !held_cons. lia.
Qed.

Lemma held_same_values vars vars' a :
  value <$> vars' = value <$> vars -> held vars' a = held vars a.
Proof. unfold held. by intros ->. Qed.

(** ** C3: what synchronisation does to the store *)

Lemma sync_variable_store x objs m x' objs' m' :
  sync_variable_spec x objs m = Synced x' objs' m' ->
  value x' = value x /\
  (objs' = objs \/
   exists a o, value x = Some a /\ objs !! a = Some o /\
               objs' = <[a := set_modified_in_place o false]> objs).
Proof.
  unfold sync_variable_spec. destruct (floating x); [intros [= <- <- <-]; auto|].
  destruct (value x) as [a|] eqn:Ev; [|intros [= <- <- <-]; auto].
  destruct (objs !! a) as [o|] eqn:Ea; [|done].
  destruct (assigned x || modified_in_place o); [|intros [= <- <- <-]; auto].
  destruct (obj_repr o) as [[bytes t]|]; [|done]. intros [= <- <- <-].
  split; [done|]. right. eauto.
Qed.

Lemma sync_table_store vars : forall objs m vs o mm hq hq',
  sync_table_spec vars objs m = TableSynced vs o mm ->
  (forall x a, x ∈ vars -> value x = Some a -> 0 < hq' a) ->
  store_inv objs hq hq' ->
  store_inv o hq hq' /\ same_view objs o hq /\ value <$> vs = value <$> vars.
Proof.
  induction vars as [|x vars IH]; intros objs m vs o mm hq hq' Hrun Hheld Hinv; simpl in Hrun.
  - inversion Hrun; subst. split; [done|]. split; [apply same_view_refl|done].
  - destruct (sync_variable_spec x objs m) as [x' objs' m'| |] eqn:Ex; [|done..].
    destruct (sync_table_spec vars objs' m') as [vs' o' mm'| |] eqn:Et; [|done..].
    inversion Hrun; subst. clear Hrun.
    destruct (sync_variable_store _ _ _ _ _ _ Ex) as [Hval Hstore].
    assert (Hstep : store_inv objs' hq hq' /\ same_view objs objs' hq).
    { destruct Hstore as [->|(a & oa & Hv & Ha & ->)]; [split; [done|apply same_view_refl]|].
      apply (store_inv_update objs hq hq' a oa); try done.
      apply (Hheld x a); [by left|done]. }
    destruct Hstep as [Hinv' Hview'].
    destruct (IH objs' m' vs' o mm hq hq' Et) as (Hinv'' & Hview'' & Hvals); [|done|].
    { intros y b Hy. apply Hheld. by right. }
    split; [done|]. split; [by eapply same_view_trans|].
    rewrite !fmap_cons. by rewrite Hval, Hvals.
Qed.

(** ** C3: running a computation backwards *)

Lemma bind_inv {A B} (m : M A) (f : A -> M B) w b w'' :
  (m ≫= f) w = Ok b w'' -> exists a w', m w = Ok a w' /\ f a w' = Ok b w''.
Proof. unfold mbind, M_bind. destruct (m w) as [a w'| | |]; [eauto|done..]. Qed.

Lemma get_scope_inv a w s w' :
  get_scope a w = Ok s w' -> w' = w /\ scopes w !! a = Some s.
Proof.
  unfold get_scope, get_world, defined, mbind, M_bind.
  destruct (scopes w !! a); [|done]. by intros [= <- <-].
Qed.

Lemma get_object_inv a w o w' :
  get_object a w = Ok o w' -> w' = w /\ objects w !! a = Some o.
Proof.
  unfold get_object, get_world, defined, mbind, M_bind.
  destruct (objects w !! a); [|done]. by intros [= <- <-].
Qed.

Lemma put_scope_inv a s w w' :
  put_scope a s w = Ok tt w' -> w' = with_scopes (insert a s) w.
Proof.
  unfold put_scope. intros (s0 & w0 & [-> _]%get_scope_inv & H)%bind_inv.
  by inversion H.
Qed.

Lemma put_object_inv a o w w' :
  put_object a o w = Ok tt w' -> w' = with_objects (insert a o) w.
Proof.
  unfold put_object. intros (o0 & w0 & [-> _]%get_object_inv & H)%bind_inv.
  by inversion H.
Qed.

Lemma get_variable_inv self i w x w' :
  get_variable (self, i) w = Ok x w' ->
  w' = w /\ exists s, scopes w !! self = Some s /\ g_array_index (variables s) i = Some x.
Proof.
  unfold get_variable. simpl. intros (s & w0 & [-> Hs]%get_scope_inv & H)%bind_inv.
  unfold defined in H. destruct (g_array_index (variables s) i) eqn:E; [|done].
  inversion H; subst. eauto.
Qed.

Lemma filterx_object_ref_inv p w r w' :
  filterx_object_ref p w = Ok r w' -> live w p /\ r = p /\ w' = with_objects (acquire p) w.
Proof.
  intros H. assert (Hlive : live w p).
  { destruct p as [a|]; [|done]. simpl in *.
    apply bind_inv in H as (o & w0 & [-> Ho]%get_object_inv & _). eauto. }
  rewrite (filterx_object_ref_Ok _ _ Hlive) in H. inversion H; subst. done.
Qed.

Lemma filterx_object_unref_inv p w w' :
  filterx_object_unref p w = Ok tt w' -> live w p /\ w' = with_objects (release p) w.
Proof.
  intros H. assert (Hlive : live w p).
  { destruct p as [a|]; [|done]. simpl in *.
    apply bind_inv in H as (o & w0 & [-> Ho]%get_object_inv & _). eauto. }
  rewrite (filterx_object_unref_Ok _ _ Hlive) in H. inversion H; subst. done.
Qed.

Lemma filterx_variable_set_value_inv w self s i new_value w' :
  scopes w !! self = Some s ->
  filterx_variable_set_value (self, i) new_value w = Ok tt w' ->
  exists x,
    g_array_index (variables s) i = Some x /\
    live w (value x) /\
    live (with_objects (release (value x)) w) new_value /\
    w' = mkWorld (acquire new_value (release (value x) (objects w)))
           (<[self := set_variables s
                (<[Z.to_nat i := mkVariable (handle x) (floating x) true new_value]>
                   (variables s))]> (scopes w))
           (messages w) (eval_context w).
Proof.
  intros Hs H. pose proof H as H0. unfold filterx_variable_set_value in H.
  apply bind_inv in H as (x & w0 & [-> (s0 & Hs0 & Hx)]%get_variable_inv & H).
  rewrite Hs in Hs0. inversion Hs0; subst s0.
  apply bind_inv in H as ([] & w1 & [Hold ->]%filterx_object_unref_inv & H).
  apply bind_inv in H as (r & w2 & (Hnew & _ & _)%filterx_object_ref_inv & _).
  exists x. split; [done|]. split; [done|]. split; [done|].
  rewrite (filterx_variable_set_value_Ok w self s i x new_value Hs Hx Hold Hnew) in H0.
  by inversion H0.
Qed.

(** ** C3: a mutation of one scope does not show in the other *)

Lemma separated_sym w q q' : separated w q q' -> separated w q' q.
Proof.
  intros (Hne & sq & sq' & Hq & Hq' & Hrc & Hsh & Hok).
  split; [done|]. exists sq', sq. split; [done|]. split; [done|]. split; [|split; [|done]].
  - intros a. specialize (Hrc a). lia.
  - intros a o Ho H1 H2. eauto.
Qed.

Lemma separated_store_inv w q q' sq sq' :
  separated w q q' -> scopes w !! q = Some sq -> scopes w !! q' = Some sq' ->
  store_inv (objects w) (held (variables sq)) (held (variables sq')).
Proof.
  intros (_ & sq0 & sq0' & Hq & Hq' & Hrc & Hsh & Hok) Hsq Hsq'.
  rewrite Hq in Hsq. rewrite Hq' in Hsq'. inversion Hsq; inversion Hsq'; subst.
  split; [done|]. by split.
Qed.

(** The second scope has changed into [sq''] and the store with it; the
    first scope is where it was, and the store invariant holds again. *)
Lemma separated_step w w'' q q' sq sq'' :
  q <> q' ->
  scopes w !! q = Some sq ->
  scopes w'' !! q = Some sq ->
  scopes w'' !! q' = Some sq'' ->
  store_inv (objects w'') (held (variables sq)) (held (variables sq'')) ->
  same_view (objects w) (objects w'') (held (variables sq)) ->
  separated w'' q q' /\ scope_view w'' q = scope_view w q.
Proof.
  intros Hne Hq Hq2 Hq2' (Hok & Hrc & Hsh) Hview. split.
  - split; [done|]. exists sq, sq''. split; [done|]. split; [done|]. by split.
  - unfold scope_view. rewrite Hq, Hq2. do 2 f_equal.
    apply list_fmap_ext. intros i x Hx.
    destruct (value x) as [a|] eqn:Ev; [|done]. apply Hview.
    apply held_pos. exists x. split; [by eapply list_elem_of_lookup_2|done].
Qed.

Lemma no_alias_immutable w other so p a o :
  no_alias other w p -> scopes w !! other = Some so ->
  p = Some a -> objects w !! a = Some o -> 0 < held (variables so) a ->
  obj_mutable o = false.
Proof.
  intros Hna Hso -> Ho Hheld. simpl in Hna.
  destruct (obj_mutable o) eqn:Emut; [|done].
  specialize (Hna so o Hso Ho Emut). lia.
Qed.

Lemma mutate_set_value_kept w w'' q q' i new_value :
  separated w q q' -> no_alias q w new_value ->
  filterx_variable_set_value (q', i) new_value w = Ok tt w'' ->
  separated w'' q q' /\ scope_view w'' q = scope_view w q.
Proof.
  intros Hsep Hna Hrun. pose proof Hsep as (Hne & sq & sq' & Hq & Hq' & _).
  pose proof (separated_store_inv w q q' sq sq' Hsep Hq Hq') as Hinv.
  destruct (filterx_variable_set_value_inv w q' sq' i new_value w'' Hq' Hrun)
    as (x & Hx & Hold & Hnew & ->).
  apply g_array_index_Some in Hx as [Hi Hx].
  destruct (store_inv_release (objects w) (held (variables sq)) (held (variables sq'))
              (value x)) as (_ & Hinv1 & Hview1); [apply held_nonneg|done| |].
  { intros a Ha. apply held_pos. exists x. split; [by eapply list_elem_of_lookup_2|done]. }
  destruct (store_inv_acquire (release (value x) (objects w)) (held (variables sq))
              (fun a => held (variables sq') a - points_to (value x) a) new_value)
    as (Hinv2 & Hview2); [done|done| |].
  { intros a o1 -> (o & Ho & Hmut & _)%release_lookup Hheld. rewrite Hmut.
    by eapply (no_alias_immutable w q sq (Some a)). }
  eapply (separated_step w _ q q' sq); try done.
  - simpl. by rewrite lookup_insert_ne.
  - simpl. apply lookup_insert_eq.
  - simpl. eapply store_inv_ext; [|exact Hinv2]. intros a. simpl.
    by rewrite (held_list_insert _ _ x _ a Hx).
  - simpl. by eapply same_view_trans.
Qed.

Lemma g_assert_inv c w w' : g_assert c w = Ok tt w' -> w' = w.
Proof. unfold g_assert. destruct c; [by intros [= <-]|done]. Qed.

Lemma mutate_register_kept w w'' q q' h0 fl init r :
  separated w q q' -> no_alias q w init ->
  filterx_scope_register_variable q' h0 fl init w = Ok r w'' ->
  separated w'' q q' /\ scope_view w'' q = scope_view w q.
Proof.
  intros Hsep Hna Hrun. pose proof Hsep as (Hne & sq & sq' & Hq & Hq' & _).
  pose proof (separated_store_inv w q q' sq sq' Hsep Hq Hq') as Hinv.
  unfold filterx_scope_register_variable in Hrun.
  rewrite (bind_Ok _ _ _ _ _ (get_scope_Ok _ _ _ Hq')) in Hrun.
  destruct (_lookup_variable (variables sq') h0) as [[|] v_slot| |]; [| |done..].
  { inversion Hrun; subst. done. }
  apply bind_inv in Hrun as ([] & w1 & ->%g_assert_inv & Hrun).
  apply bind_inv in Hrun as ([] & w1 & ->%g_assert_inv & Hrun).
  apply bind_inv in Hrun as (r1 & w2 & (Hlive & -> & ->)%filterx_object_ref_inv & Hrun).
  apply bind_inv in Hrun as (s2 & w3 & [-> Hs2]%get_scope_inv & Hrun).
  simpl in Hs2. rewrite Hq' in Hs2. inversion Hs2; subst s2.
  apply bind_inv in Hrun as ([] & w4 & ->%put_scope_inv & Hrun).
  inversion Hrun; subst. clear Hrun.
  destruct (store_inv_acquire (objects w) (held (variables sq)) (held (variables sq')) init)
    as (Hinv2 & Hview2); [done|done| |].
  { intros a o -> Ho Hheld. by eapply (no_alias_immutable w q sq (Some a)). }
  eapply (separated_step w _ q q' sq); try done.
  - simpl. by rewrite lookup_insert_ne.
  - simpl. apply lookup_insert_eq.
  - simpl. eapply store_inv_ext; [|exact Hinv2]. intros a. simpl.
    by rewrite held_insert_val.
Qed.

Lemma mutate_sync_kept w w'' q q' msg :
  separated w q q' ->
  is_Some (messages w !! msg) ->
  (forall s, scopes w !! q' = Some s -> g_array_len (variables s) <= G_MAXINT) ->
  filterx_scope_sync_to_message q' msg w = Ok tt w'' ->
  separated w'' q q' /\ scope_view w'' q = scope_view w q.
Proof.
  intros Hsep [m Hm] Hmax Hrun. pose proof Hsep as (Hne & sq & sq' & Hq & Hq' & _).
  pose proof (separated_store_inv w q q' sq sq' Hsep Hq Hq') as Hinv.
  rewrite (filterx_scope_sync_to_message_refines w q' msg sq' m Hq' Hm (Hmax _ Hq')) in Hrun.
  destruct (sync_table_spec (variables sq') (objects w) m) as [vs o mm| |] eqn:Et; [|done..].
  inversion Hrun; subst. clear Hrun.
  destruct (sync_table_store _ _ _ _ _ _ (held (variables sq)) (held (variables sq')) Et)
    as (Hinv2 & Hview2 & Hvals); [|done|].
  { intros x a Hx Ha. apply held_pos. eauto. }
  eapply (separated_step w _ q q' sq (set_variables sq' vs)); [done|done|..].
  - simpl. by rewrite lookup_insert_ne.
  - simpl. apply lookup_insert_eq.
  - simpl. eapply store_inv_ext; [|exact Hinv2]. intros a. simpl.
    symmetry. by apply held_same_values.
  - done.
Qed.

Lemma mutate_store_weak_ref_kept w w'' q q' object :
  separated w q q' ->
  filterx_scope_store_weak_ref q' object w = Ok tt w'' ->
  separated w'' q q' /\ scope_view w'' q = scope_view w q.
Proof.
  intros Hsep Hrun. pose proof Hsep as (Hne & sq & sq' & Hq & Hq' & _).
  pose proof (separated_store_inv w q q' sq sq' Hsep Hq Hq') as Hinv.
  unfold filterx_scope_store_weak_ref in Hrun.
  rewrite (bind_Ok _ _ _ _ _ (get_scope_Ok _ _ _ Hq')) in Hrun.
  apply bind_inv in Hrun as ([] & w1 & ->%g_assert_inv & Hrun).
  destruct object as [a|]; [|by inversion Hrun; subst].
  apply bind_inv in Hrun as (r1 & w2 & (Hlive & -> & ->)%filterx_object_ref_inv & Hrun).
  apply bind_inv in Hrun as (s2 & w3 & [-> Hs2]%get_scope_inv & Hrun).
  simpl in Hs2. rewrite Hq' in Hs2. inversion Hs2; subst s2.
  apply put_scope_inv in Hrun as ->.
  destruct (store_inv_acquire_extra (objects w) (held (variables sq)) (held (variables sq'))
              (Some a)) as (Hinv2 & Hview2); [done|done|].
  eapply (separated_step w _ q q' sq
            (mkScope (ref_cnt sq') (variables sq') (weak_refs sq' ++ [a])
                     (write_protected sq'))); [done|done|..].
  - simpl. by rewrite lookup_insert_ne.
  - simpl. apply lookup_insert_eq.
  - done.
  - done.
Qed.

Lemma mutate_write_protect_kept w w'' q q' :
  separated w q q' ->
  filterx_scope_write_protect q' w = Ok tt w'' ->
  separated w'' q q' /\ scope_view w'' q = scope_view w q.
Proof.
  intros Hsep Hrun. pose proof Hsep as (Hne & sq & sq' & Hq & Hq' & _).
  pose proof (separated_store_inv w q q' sq sq' Hsep Hq Hq') as Hinv.
  unfold filterx_scope_write_protect in Hrun.
  rewrite (bind_Ok _ _ _ _ _ (get_scope_Ok _ _ _ Hq')) in Hrun.
  apply put_scope_inv in Hrun as ->.
  eapply (separated_step w _ q q' sq
            (mkScope (ref_cnt sq') (variables sq') (weak_refs sq') true)); [done|done|..].
  - simpl. by rewrite lookup_insert_ne.
  - simpl. apply lookup_insert_eq.
  - done.
  - apply same_view_refl.
Qed.

Lemma mutate_in_place_kept w w'' q q' i repr :
  separated w q q' ->
  modify_in_place (q', i) repr w = Ok tt w'' ->
  separated w'' q q' /\ scope_view w'' q = scope_view w q.
Proof.
  intros Hsep Hrun. pose proof Hsep as (Hne & sq & sq' & Hq & Hq' & _).
  pose proof (separated_store_inv w q q' sq sq' Hsep Hq Hq') as Hinv.
  unfold modify_in_place in Hrun.
  apply bind_inv in Hrun as (x & w0 & [-> (s0 & Hs0 & Hx)]%get_variable_inv & Hrun).
  rewrite Hq' in Hs0. inversion Hs0; subst s0.
  apply g_array_index_Some in Hx as [Hi Hx].
  destruct (value x) as [a|] eqn:Ev; [|done].
  apply bind_inv in Hrun as (o & w1 & [-> Ho]%get_object_inv & Hrun).
  destruct (obj_mutable o) eqn:Emut; [|done].
  apply put_object_inv in Hrun as ->.
  destruct (store_inv_update (objects w) (held (variables sq)) (held (variables sq')) a o
              (mkObject (obj_ref_cnt o) true true repr)) as (Hinv2 & Hview2); try done.
  { apply held_pos. exists x. split; [by eapply list_elem_of_lookup_2|done]. }
  { intros Hf. congruence. }
  by eapply (separated_step w _ q q' sq sq').
Qed.

(** One valid mutation of the second scope leaves the two scopes
    separated and the first as it showed. *)
Lemma mutate_kept w w'' q q' mu :
  separated w q q' -> mutation_valid q q' w mu ->
  mutate q' mu w = Ok tt w'' ->
  separated w'' q q' /\ scope_view w'' q = scope_view w q.
Proof.
  intros Hsep Hvalid Hrun. destruct mu; simpl in *.
  - apply bind_inv in Hrun as (r & w1 & Hreg & Hret). inversion Hret; subst.
    by eapply mutate_register_kept.
  - by eapply mutate_set_value_kept.
  - by eapply (mutate_set_value_kept w w'' q q' i None).
  - destruct Hvalid. by eapply mutate_sync_kept.
  - by eapply mutate_store_weak_ref_kept.
  - by eapply mutate_write_protect_kept.
  - by eapply mutate_in_place_kept.
Qed.

(** Any run of valid mutations of the second scope leaves the first as
    it showed. *)
Lemma mutate_all_kept mus : forall w w'' q q',
  separated w q q' -> mutations_valid q q' w mus ->
  mutate_all q' mus w = Ok tt w'' ->
  separated w'' q q' /\ scope_view w'' q = scope_view w q.
Proof.
  induction mus as [|mu mus IH]; intros w w'' q q' Hsep Hvalid Hrun; simpl in *.
  - inversion Hrun; subst. done.
  - destruct Hvalid as [Hmu Hrest].
    apply bind_inv in Hrun as ([] & w1 & Hstep & Hrun).
    destruct (mutate_kept w w1 q q' mu Hsep Hmu Hstep) as [Hsep1 Hview1].
    destruct (IH w1 w'' q q' Hsep1 (Hrest w1 Hstep) Hrun) as [Hsep2 Hview2].
    split; [done|]. by rewrite Hview2.
Qed.

(** ** C3: the clone and the original are separated *)

Lemma clone_store_ok p objs : store_ok objs -> store_ok (clone_store p objs).
Proof.
  intros Hok. destruct p as [n|]; [|done]. simpl.
  destruct (objs !! n) as [on|] eqn:En; [|done].
  destruct (obj_mutable on) eqn:Emut.
  - intros a o. destruct (decide (fresh (dom objs) = a)) as [<-|Hne].
    + rewrite lookup_insert_eq. intros [= <-]. simpl. split; [lia|done].
    + rewrite lookup_insert_ne by done. apply Hok.
  - intros a o. destruct (decide (n = a)) as [<-|Hne].
    + rewrite lookup_insert_eq. intros [= <-]. destruct (Hok n on En) as [? ?].
      simpl. split; [lia|done].
    + rewrite lookup_insert_ne by done. apply Hok.
Qed.

Lemma clone_table_ok vars : forall objs,
  store_ok objs -> store_ok (clone_table vars objs).2.
Proof.
  induction vars as [|x vars IH]; intros objs Hok; simpl; [done|].
  apply IH. by apply clone_store_ok.
Qed.

Lemma clone_store_ref_count p objs a :
  live_in objs p ->
  ref_count (clone_store p objs) a = ref_count objs a + points_to (clone_addr objs p) a.
Proof.
  unfold points_to. destruct p as [n|]; simpl.
  2: { intros _. repeat case_decide; try done; lia. }
  intros [on Hn]. rewrite Hn. destruct (obj_mutable on).
  - assert (Hc : objs !! fresh (dom objs) = None) by (apply not_elem_of_dom, is_fresh).
    unfold ref_count. case_decide as Hd.
    + inversion Hd; subst. by rewrite lookup_insert_eq, Hc.
    + rewrite lookup_insert_ne by congruence. lia.
  - unfold ref_count. case_decide as Hd.
    + inversion Hd; subst. by rewrite lookup_insert_eq, Hn.
    + rewrite lookup_insert_ne by congruence. lia.
Qed.

(** The references the clone's table holds are exactly those the
    cloning added. *)
Lemma clone_table_held vars : forall objs a,
  Forall (fun x => live_in objs (value x)) vars ->
  held (clone_table vars objs).1 a =
  ref_count (clone_table vars objs).2 a - ref_count objs a.
Proof.
  induction vars as [|x vars IH]; intros objs a Hlive; simpl.
  - unfold held. simpl. lia.
  - apply Forall_cons in Hlive as [Hx Hlive]. rewrite held_cons. simpl.
    rewrite IH.
    + rewrite (clone_store_ref_count _ _ _ Hx). lia.
    + eapply Forall_impl; [exact Hlive|]. intros y Hy. simpl in Hy.
      destruct (value y) as [b|]; [|done]. simpl in *. by apply clone_store_live.
Qed.

Lemma refs_sound_held s objs a :
  refs_sound s objs -> store_ok objs -> held (variables s) a <= ref_count objs a.
Proof.
  intros Hsound Hok. pose proof (held_nonneg (variables s) a) as H0.
  pose proof (holders_nonneg a (Some <$> weak_refs s)) as H1.
  destruct (Z.eq_dec (held (variables s) a) 0) as [Hz|Hnz].
  - rewrite Hz. unfold ref_count. destruct (objs !! a) as [o|] eqn:Ea; [|lia].
    destruct (Hok a o Ea). lia.
  - destruct (Hsound a) as (o & Ho & Hcnt).
    + unfold scope_refs. rewrite holders_app. unfold held in *. lia.
    + unfold ref_count. rewrite Ho. unfold scope_refs in Hcnt.
      rewrite holders_app in Hcnt. unfold held. lia.
Qed.

Lemma writable_world_separated w p s :
  scopes w !! p = Some s ->
  refs_sound s (objects w) -> store_ok (objects w) ->
  ref_cnt s - 1 <> 0 ->
  separated (writable_world w p s) p (fresh (dom (scopes w))).
Proof.
  intros Hs Hsound Hok Hshared.
  assert (Hfresh : scopes w !! fresh (dom (scopes w)) = None)
    by (apply not_elem_of_dom, is_fresh).
  assert (Hne : p <> fresh (dom (scopes w))).
  { intros Heq. rewrite <- Heq in Hfresh. rewrite Hs in Hfresh. discriminate. }
  assert (Hlive : Forall (fun x => live_in (objects w) (value x)) (variables s)).
  { apply Forall_forall. intros x Hx. by apply (refs_sound_live s). }
  pose proof (writable_world_clone_of w p s Hsound) as Hclone.
  pose proof (writable_world_clone w p s Hs) as Hs'.
  pose proof (writable_world_original w p s) as Hso.
  unfold writable_world in *.
  destruct (Z.eqb_spec (ref_cnt s - 1) 0) as [|_]; [done|]. simpl in *.
  set (t := clone_table (variables s) (objects w)) in *.
  split; [done|]. eexists _, _. split; [exact Hso|]. split; [exact Hs'|]. simpl.
  split; [|split].
  - intros a. subst t. rewrite (clone_table_held _ _ _ Hlive).
    pose proof (refs_sound_held s (objects w) a Hsound Hok). lia.
  - intros a o'' Ho'' Hheld (x' & Hx' & Hv')%held_pos.
    apply list_elem_of_lookup in Hx' as (i & Hi).
    destruct (Forall2_lookup_r _ _ _ _ _ Hclone Hi) as (x & Hxi & (_ & _ & _ & Hval)).
    rewrite Hv' in Hval. destruct (value x) as [b|]; [|done]. simpl in Hval.
    destruct Hval as (o & o' & Ho & Ho' & Hmut & _ & Hkind).
    rewrite Ho'' in Ho'. inversion Ho'; subst o'. rewrite Hmut.
    destruct (obj_mutable o); [|done]. destruct Hkind as (Hnone & _).
    pose proof (refs_sound_held s (objects w) a Hsound Hok) as Hrc.
    unfold ref_count in Hrc. rewrite Hnone in Hrc. lia.
  - by apply clone_table_ok.
Qed.

Lemma clone_table_value_view vars objs p :
  live_in objs p ->
  value_view (clone_table vars objs).2 p = value_view objs p.
Proof.
  destruct p as [a|]; [|done]. intros [o Ho]. simpl.
  by rewrite (clone_table_lookup vars objs a o Ho), Ho.
Qed.

(** C3.  Making an unprotected scope writable returns it and changes
    nothing.  Making a write-protected scope writable returns a scope at
    a fresh address, held once, unprotected and without weak references,
    whose variables are, position by position, clones of the original's:
    same handle and flags, value-equal contents, every mutable value
    copied into a new object and every immutable value shared.  The old
    reference is released: the original has one reference less, or is
    freed with its last.  Where the original lives on, its values show
    what they showed, and no run of mutations of the clone shows in the
    original, nor any run of mutations of the original in the clone, as
    long as no value handed to one is a mutable object of the other. *)
Theorem make_writable_gives_independent_clone (w : World) (p : address) (s : FilterXScope) :
  scopes w !! p = Some s ->
  g_array_len (variables s) <= G_MAXINT ->
  refs_sound_b s (objects w) = true ->
  store_ok_b (objects w) = true ->
  (write_protected s = false -> filterx_scope_make_writable p w = Ok p w) /\
  (write_protected s = true ->
   exists p' w' s',
     filterx_scope_make_writable p w = Ok p' w' /\
     scopes w !! p' = None /\
     scopes w' !! p' = Some s' /\
     ref_cnt s' = 1 /\ write_protected s' = false /\ weak_refs s' = [] /\
     Forall2 (clone_of (objects w) (objects w')) (variables s) (variables s') /\
     scopes w' !! p =
       (if ref_cnt s - 1 =? 0 then None
        else Some (mkScope (ref_cnt s - 1) (variables s) (weak_refs s) (write_protected s))) /\
     (ref_cnt s - 1 <> 0 ->
      (forall x, x ∈ variables s ->
         value_view (objects w') (value x) = value_view (objects w) (value x)) /\
      (forall mus w'',
         mutations_valid p p' w' mus -> mutate_all p' mus w' = Ok tt w'' ->
         scope_view w'' p = scope_view w' p) /\
      (forall mus w'',
         mutations_valid p' p w' mus -> mutate_all p mus w' = Ok tt w'' ->
         scope_view w'' p' = scope_view w' p'))).
Proof.
  intros Hs Hmax Hsound%refs_sound_b_sound Hok%store_ok_b_sound.
  pose proof (filterx_scope_make_writable_Ok w p s Hs Hmax Hsound) as Hmw.
  split; intros Hwp; rewrite Hwp in Hmw; [done|].
  set (p' := fresh (dom (scopes w))) in *. set (w' := writable_world w p s) in *.
  exists p', w', (mkScope 1 (clone_table (variables s) (objects w)).1 [] false).
  split; [done|]. split; [apply not_elem_of_dom, is_fresh|].
  split; [by apply writable_world_clone|]. do 3 (split; [done|]).
  split; [by apply writable_world_clone_of|].
  split; [apply writable_world_original|].
  intros Hshared.
  pose proof (writable_world_separated w p s Hs Hsound Hok Hshared) as Hsep. fold p' w' in Hsep.
  split; [|split].
  - intros x Hx. subst w'. unfold writable_world.
    destruct (Z.eqb_spec (ref_cnt s - 1) 0); [done|]. simpl.
    apply clone_table_value_view. by apply (refs_sound_live s).
  - intros mus w'' Hvalid Hrun. by apply (mutate_all_kept mus w' w'' p p').
  - intros mus w'' Hvalid Hrun.
    by apply (mutate_all_kept mus w' w'' p' p (separated_sym _ _ _ Hsep)).
Qed.

Lemma make_writable_gives_independent_clone_witness :
  exists p' w' s',
    filterx_scope_make_writable 1%positive (Sample.world_of Sample.shared_scope) = Ok p' w' /\
    scopes w' !! p' = Some s' /\
    ref_cnt s' = 1 /\ write_protected s' = false /\ weak_refs s' = [] /\
    forall mus w'',
      mutations_valid 1%positive p' w' mus -> mutate_all p' mus w' = Ok tt w'' ->
      scope_view w'' 1%positive = scope_view w' 1%positive.
Proof.
  destruct (make_writable_gives_independent_clone (Sample.world_of Sample.shared_scope)
              1%positive Sample.shared_scope) as (_ & Hprot).
  - reflexivity.
  - vm_compute. discriminate.
  - reflexivity.
  - reflexivity.
  - destruct (Hprot eq_refl) as (p' & w' & s' & Hmw & _ & Hs' & Hcnt & Hwp & Hweak & _ & _ & Hframe).
    exists p', w', s'. repeat (split; [assumption|]).
    apply Hframe. vm_compute. discriminate.
Defined.

(** * Further properties of the code *)

(** ** The binary search *)

Lemma rank_nonneg vars h0 : 0 <= rank vars h0.
Proof. induction vars as [|x vars IH]; simpl; [lia|]. destruct (handle x <? h0); lia. Qed.

(** Below the position [i] every handle is smaller than [h0], from [i]
    on none is: [i] is the rank of [h0]. *)
Lemma rank_split vars h0 : forall i : nat,
  (i <= length vars)%nat ->
  (forall (k : nat) v, (k < i)%nat -> vars !! k = Some v -> handle v < h0) ->
  (forall (k : nat) v, (i <= k)%nat -> vars !! k = Some v -> h0 <= handle v) ->
  rank vars h0 = Z.of_nat i.
Proof.
  induction vars as [|x vars IH]; intros i Hi Hlow Hhigh; simpl in *.
  - by replace i with 0%nat by lia.
  - destruct i as [|i].
    + pose proof (Hhigh 0%nat x ltac:(lia) eq_refl) as Hx.
      destruct (Z.ltb_spec (handle x) h0); [lia|].
      rewrite (IH 0%nat); [lia|lia| |].
      * intros k v Hk. lia.
      * intros k v _ Hv. apply (Hhigh (S k)); [lia|done].
    + pose proof (Hlow 0%nat x ltac:(lia) eq_refl) as Hx.
      destruct (Z.ltb_spec (handle x) h0); [|lia].
      rewrite (IH i); [lia|lia| |].
      * intros k v Hk Hv. apply (Hlow (S k)); [lia|done].
      * intros k v Hk Hv. apply (Hhigh (S k)); [lia|done].
Qed.

Lemma bound_in_true vars h0 : bound_in vars h0 = true <-> exists x, x ∈ vars /\ handle x = h0.
Proof.
  unfold bound_in. rewrite existsb_exists. split.
  - intros (x & Hx%list_elem_of_In & Hh%Z.eqb_eq). eauto.
  - intros (x & Hx%list_elem_of_In & Hh%Z.eqb_eq). eauto.
Qed.

(** X1.  On a table with strictly ascending handles of up to 2^30
    variables the binary search of [_lookup_variable] computes what a scan
    of the table computes: it reports a hit exactly when some variable has
    the handle sought, and the position it reports, on a hit as on a miss,
    is the number of variables with a smaller handle. *)
Theorem lookup_refines_scan (vars : list FilterXVariable) (h0 : NVHandle) :
  strictly_ascending (handle <$> vars) = true ->
  g_array_len vars <= TABLE_MAX ->
  _lookup_variable vars h0 = LookupReturn (bound_in vars h0) (rank vars h0).
Proof.
  intros Hsorted%strictly_ascending_sorted Hmax.
  pose proof (_lookup_variable_spec vars h0 Hsorted Hmax) as Hpost.
  destruct (_lookup_variable vars h0) as [[|] j| |]; simpl in Hpost; try done.
  - destruct Hpost as (v & Ej & Hh).
    pose proof (g_array_index_range _ _ _ Ej) as Hj.
    assert (Hb : bound_in vars h0 = true).
    { apply bound_in_true. exists v. split; [|done].
      apply g_array_index_Some in Ej as [_ Ej]. by eapply list_elem_of_lookup_2. }
    rewrite Hb. f_equal. rewrite (rank_split vars h0 (Z.to_nat j)).
    + lia.
    + unfold g_array_len in Hj. lia.
    + intros k x Hk Hx. subst h0.
      eapply (table_sorted_index vars (Z.of_nat k) j); [done|lia| |done].
      by rewrite g_array_index_of_nat.
    + intros k x Hk Hx. subst h0.
      destruct (decide (Z.of_nat k = j)) as [<-|Hne].
      * rewrite g_array_index_of_nat in Ej. rewrite Ej in Hx. inversion Hx. lia.
      * assert (handle v < handle x); [|lia].
        eapply (table_sorted_index vars j (Z.of_nat k)); [done|lia|done|].
        by rewrite g_array_index_of_nat.
  - destruct Hpost as ([Hj0 Hjlen] & Hlow & Hhigh).
    assert (Hb : bound_in vars h0 = false).
    { apply not_true_iff_false. intros (x & Hx & Hh)%bound_in_true.
      apply list_elem_of_lookup in Hx as (k & Hk).
      rewrite <- g_array_index_of_nat in Hk.
      destruct (Z.lt_ge_cases (Z.of_nat k) j) as [Hlt|Hge].
      - specialize (Hlow _ _ Hlt Hk). lia.
      - specialize (Hhigh _ _ Hge Hk). lia. }
    rewrite Hb. f_equal. rewrite (rank_split vars h0 (Z.to_nat j)).
    + lia.
    + unfold g_array_len in Hjlen. lia.
    + intros k x Hk Hx. apply (Hlow (Z.of_nat k)); [lia|]. by rewrite g_array_index_of_nat.
    + intros k x Hk Hx. apply Z.lt_le_incl.
      apply (Hhigh (Z.of_nat k)); [lia|]. by rewrite g_array_index_of_nat.
Qed.

Lemma lookup_refines_scan_witness :
  _lookup_variable Sample.table 30 = LookupReturn true 2 /\
  _lookup_variable Sample.table 25 = LookupReturn false 2.
Proof.
  split.
  - apply (lookup_refines_scan Sample.table 30); [reflexivity|vm_compute; discriminate].
  - apply (lookup_refines_scan Sample.table 25); [reflexivity|vm_compute; discriminate].
Defined.

(** The loop on any table: sorted or not, it stays inside the array and
    inside [gint]. *)
Lemma lookup_loop_safe vars h0 :
  g_array_len vars <= TABLE_MAX ->
  forall fuel l h,
    0 <= l -> h < g_array_len vars -> l <= h + 1 -> h - l + 1 < Z.of_nat fuel ->
    exists found i,
      lookup_loop fuel vars h0 l h = LookupReturn found i /\
      l <= i <= h + 1 /\
      (found = true -> exists v, g_array_index vars i = Some v /\ handle v = h0).
Proof.
  intros Hmax. unfold TABLE_MAX in Hmax.
  induction fuel as [|fuel IH]; intros l h Hl Hh Hlh Hfuel; [lia|].
  simpl. destruct (Z.leb_spec l h) as [Hle|Hgt].
  - assert (Hrange : G_MININT <= l + h <= G_MAXINT) by (unfold G_MININT, G_MAXINT; lia).
    rewrite (gint_add_in_range _ _ Hrange). rewrite Z.shiftr_div_pow2 by lia.
    change (2 ^ 1) with 2. set (m := (l + h) / 2).
    assert (Hm : l <= m <= h)
      by (subst m; split; [apply Z.div_le_lower_bound|apply Z.div_le_upper_bound]; lia).
    destruct (g_array_index_in_range vars m) as [m_elem Em]; [lia|]. rewrite Em.
    destruct (Z.eqb_spec (handle m_elem) h0) as [Heq|Hne].
    { exists true, m. split; [done|]. split; [lia|]. eauto. }
    destruct (Z.gtb_spec (handle m_elem) h0) as [Hgt|Hngt].
    + rewrite gint_sub_in_range by (unfold G_MININT, G_MAXINT; lia).
      destruct (IH l (m - 1)) as (found & i & Hrun & Hi & Hhit); try lia.
      exists found, i. split; [done|]. split; [lia|done].
    + rewrite gint_add_in_range by (unfold G_MININT, G_MAXINT; lia).
      destruct (IH (m + 1) h) as (found & i & Hrun & Hi & Hhit); try lia.
      exists found, i. split; [done|]. split; [lia|done].
  - exists false, l. split; [done|]. split; [lia|done].
Qed.

(** X2.  Whatever the order of its handles, on a table of up to 2^30
    variables [_lookup_variable] returns: no index leaves the array, no
    [gint] overflows and the loop ends.  The position reported lies between
    0 and the length of the table, and a hit is genuine: the variable at
    the position reported has the handle sought. *)
Theorem lookup_never_faults (vars : list FilterXVariable) (h0 : NVHandle) :
  g_array_len vars <= TABLE_MAX ->
  exists found i,
    _lookup_variable vars h0 = LookupReturn found i /\
    0 <= i <= g_array_len vars /\
    (found = true -> exists v, g_array_index vars i = Some v /\ handle v = h0).
Proof.
  intros Hmax. unfold _lookup_variable. rewrite to_gint_len_minus_1 by done.
  destruct (lookup_loop_safe vars h0 Hmax (S (length vars)) 0 (g_array_len vars - 1))
    as (found & i & Hrun & Hi & Hhit); unfold g_array_len in *; try lia.
  exists found, i. split; [done|]. split; [lia|done].
Qed.

Lemma lookup_never_faults_witness :
  exists found i,
    _lookup_variable (rev Sample.table) 40 = LookupReturn found i /\
    0 <= i <= g_array_len (rev Sample.table) /\
    (found = true ->
     exists v, g_array_index (rev Sample.table) i = Some v /\ handle v = 40).
Proof.
  apply (lookup_never_faults (rev Sample.table) 40). vm_compute. discriminate.
Defined.

(** More fuel does not change the result of a run that ended. *)
Lemma lookup_loop_fuel_mono vars h0 : forall fuel fuel' l h,
  (fuel <= fuel')%nat ->
  lookup_loop fuel vars h0 l h <> LookupOutOfFuel ->
  lookup_loop fuel' vars h0 l h = lookup_loop fuel vars h0 l h.
Proof.
  induction fuel as [|fuel IH]; intros fuel' l h Hle Hrun; [done|].
  destruct fuel' as [|fuel']; [lia|]. simpl in *.
  destruct (l <=? h); [|done].
  destruct (gint_add l h) as [s|]; [|done].
  destruct (g_array_index vars (s ≫ 1)) as [m_elem|]; [|done].
  destruct (handle m_elem =? h0); [done|].
  destruct (handle m_elem >? h0).
  - destruct (gint_sub (s ≫ 1) 1); [|done]. apply IH; [lia|done].
  - destruct (gint_add (s ≫ 1) 1); [|done]. apply IH; [lia|done].
Qed.

(** A range of fewer than [2 ^ k] elements is searched in [k] rounds. *)
Lemma lookup_loop_halves vars h0 :
  g_array_len vars <= TABLE_MAX ->
  forall (k : nat) l h,
    0 <= l -> h < g_array_len vars -> l <= h + 1 -> h - l + 1 < 2 ^ Z.of_nat k ->
    lookup_loop (S k) vars h0 l h <> LookupOutOfFuel.
Proof.
  intros Hmax. unfold TABLE_MAX in Hmax.
  induction k as [|k IH]; intros l h Hl Hh Hlh Hsize.
  - simpl in *. destruct (Z.leb_spec l h); [lia|done].
  - rewrite Nat2Z.inj_succ, Z.pow_succ_r in Hsize by lia.
    cbn [lookup_loop]. destruct (Z.leb_spec l h) as [Hle|Hgt]; [|done].
    assert (Hrange : G_MININT <= l + h <= G_MAXINT) by (unfold G_MININT, G_MAXINT; lia).
    rewrite (gint_add_in_range _ _ Hrange). rewrite Z.shiftr_div_pow2 by lia.
    change (2 ^ 1) with 2. set (m := (l + h) / 2).
    assert (Hm : l <= m <= h)
      by (subst m; split; [apply Z.div_le_lower_bound|apply Z.div_le_upper_bound]; lia).
    assert (Hm2 : 2 * m <= l + h < 2 * m + 2).
    { subst m. pose proof (Z.div_mod (l + h) 2 ltac:(lia)).
      pose proof (Z.mod_pos_bound (l + h) 2 ltac:(lia)). lia. }
    destruct (g_array_index_in_range vars m) as [m_elem Em]; [lia|]. rewrite Em.
    destruct (handle m_elem =? h0); [done|].
    destruct (handle m_elem >? h0).
    + rewrite gint_sub_in_range by (unfold G_MININT, G_MAXINT; lia).
      apply IH; lia.
    + rewrite gint_add_in_range by (unfold G_MININT, G_MAXINT; lia).
      apply IH; lia.
Qed.

(** X3.  The search is logarithmic: on a table of up to 2^30 variables,
    sorted or not, the loop of [_lookup_variable] tests its condition at
    most [log2 len + 2] times, that is, it probes at most [log2 len + 1]
    elements; running the loop with that bound gives the result of the
    search. *)
Theorem lookup_is_logarithmic (vars : list FilterXVariable) (h0 : NVHandle) :
  g_array_len vars <= TABLE_MAX ->
  lookup_loop (S (S (Z.to_nat (Z.log2 (g_array_len vars))))) vars h0 0
    (to_gint (to_guint (g_array_len vars - 1))) = _lookup_variable vars h0 /\
  _lookup_variable vars h0 <> LookupOutOfFuel.
Proof.
  intros Hmax. unfold _lookup_variable. rewrite to_gint_len_minus_1 by done.
  set (len := g_array_len vars) in *.
  assert (Hlen0 : 0 <= len) by (subst len; unfold g_array_len; lia).
  assert (Hshort : lookup_loop (S (S (Z.to_nat (Z.log2 len)))) vars h0 0 (len - 1)
                   <> LookupOutOfFuel).
  { apply lookup_loop_halves; [done|lia|subst len; lia|lia|].
    rewrite Nat2Z.inj_succ, Z2Nat.id by apply Z.log2_nonneg.
    destruct (Z.eq_dec len 0) as [->|Hne]; [done|].
    pose proof (Z.log2_spec len ltac:(lia)). lia. }
  assert (Hfull : lookup_loop (S (length vars)) vars h0 0 (len - 1) <> LookupOutOfFuel).
  { destruct (lookup_loop_safe vars h0 Hmax (S (length vars)) 0 (len - 1))
      as (found & i & Hrun & _); subst len; unfold g_array_len in *; try lia.
    by rewrite Hrun. }
  split; [|done].
  destruct (Nat.le_ge_cases (S (S (Z.to_nat (Z.log2 len)))) (S (length vars))) as [Hle|Hge].
  - symmetry. by apply lookup_loop_fuel_mono.
  - by apply lookup_loop_fuel_mono.
Qed.

Lemma lookup_is_logarithmic_witness :
  lookup_loop 4 Sample.table 40 0 3 = _lookup_variable Sample.table 40 /\
  _lookup_variable Sample.table 40 <> LookupOutOfFuel.
Proof.
  apply (lookup_is_logarithmic Sample.table 40). vm_compute. discriminate.
Defined.

(** ** Message references on a well-formed context *)

Lemma table_sorted_update vars (i : nat) x x' :
  table_sorted vars -> vars !! i = Some x -> handle x' = handle x ->
  table_sorted (<[i := x']> vars).
Proof.
  intros Hs Hi Hh a b va vb Hab Ha Hb.
  assert (Hget : forall k v, <[i := x']> vars !! k = Some v ->
            exists v0, vars !! k = Some v0 /\ handle v0 = handle v).
  { intros k v Hk. destruct (decide (k = i)) as [->|Hne].
    - rewrite list_lookup_insert_eq in Hk by (by eapply lookup_lt_Some).
      inversion Hk; subst. eauto.
    - rewrite list_lookup_insert_ne in Hk by done. eauto. }
  destruct (Hget _ _ Ha) as (va0 & Ha0 & <-).
  destruct (Hget _ _ Hb) as (vb0 & Hb0 & <-).
  by eapply Hs.
Qed.

Section MessageReference.

Variables (w : World) (s : FilterXScope) (msg : address) (m : LogMessage).
Hypothesis Hs : scopes w !! scope (eval_context w) = Some s.
Hypothesis Hsorted : table_sorted (variables s).
Hypothesis Hmax : g_array_len (variables s) <= TABLE_MAX.
Hypothesis Hmsg : msgs (eval_context w) !! 0%nat = Some msg.
Hypothesis Hm : messages w !! msg = Some m.

Lemma eval_bound (i : nat) x :
  variables s !! i = Some x -> live w (value x) ->
  _eval (handle x) w = Ok (value x) (with_objects (acquire (value x)) w).
Proof.
  intros Hi Hlive. unfold _eval.
  rewrite (bind_Ok _ _ _ _ _ (filterx_eval_get_context_Ok w)).
  rewrite (bind_Ok _ _ _ _ _ (lookup_bound _ _ _ _ _ Hs Hsorted Hmax Hi)).
  apply (filterx_variable_get_value_Ok _ _ s); [done| |done].
  by rewrite g_array_index_of_nat.
Qed.

Lemma eval_unbound h0 :
  (forall x, x ∈ variables s -> handle x <> h0) ->
  _eval h0 w = _pull_variable_from_message h0 (eval_context w) msg w.
Proof.
  intros Hnot. unfold _eval.
  rewrite (bind_Ok _ _ _ _ _ (filterx_eval_get_context_Ok w)).
  rewrite (bind_Ok _ _ _ _ _ (lookup_unbound _ _ _ _ Hs Hsorted Hmax Hnot)).
  unfold context_msg0. rewrite Hmsg. unfold defined. by rewrite bind_ret.
Qed.

Lemma eval_missing h0 :
  (forall x, x ∈ variables s -> handle x <> h0) -> nv_values m !! h0 = None ->
  _eval h0 w = Ok None w.
Proof.
  intros Hnot Hnone. rewrite (eval_unbound _ Hnot). unfold _pull_variable_from_message.
  rewrite (bind_Ok _ _ _ _ _ (log_msg_get_value_if_set_with_type_Ok _ _ _ h0 Hm)).
  by rewrite Hnone.
Qed.

Lemma eval_pull h0 repr t :
  g_array_len (variables s) < TABLE_MAX ->
  (forall x, x ∈ variables s -> handle x <> h0) -> nv_values m !! h0 = Some (repr, t) ->
  exists i : nat,
    (i <= length (variables s))%nat /\
    _eval h0 w = Ok (Some (fresh (dom (objects w))))
      (mkWorld (<[fresh (dom (objects w)) := mkObject 2 false false (Some (repr, t))]>
                  (objects w))
         (<[scope (eval_context w) := set_variables s
              (g_array_insert_val (variables s) (Z.of_nat i)
                 (mkVariable h0 false false (Some (fresh (dom (objects w))))))]> (scopes w))
         (messages w) (eval_context w)) /\
    table_sorted (g_array_insert_val (variables s) (Z.of_nat i)
                    (mkVariable h0 false false (Some (fresh (dom (objects w)))))).
Proof.
  intros Hlt Hnot Hsome. rewrite (eval_unbound _ Hnot). unfold _pull_variable_from_message.
  rewrite (bind_Ok _ _ _ _ _ (log_msg_get_value_if_set_with_type_Ok _ _ _ h0 Hm)).
  rewrite Hsome.
  destruct (filterx_message_value_new_borrowed_Ok w repr t) as [Hfresh Hnew].
  set (a := fresh (dom (objects w))) in *.
  rewrite (bind_Ok _ _ _ _ _ Hnew).
  set (w' := with_objects (insert a (mkObject 1 false false (Some (repr, t)))) w).
  assert (Hs' : scopes w' !! scope (eval_context w) = Some s) by done.
  assert (Ha : live w' (Some a)) by (simpl; rewrite lookup_insert_eq; eauto).
  destruct (register_absent w' _ s h0 false (Some a) Hs' Hsorted Hlt Hnot Ha)
    as (i & Hi & _ & Hreg & Hsorted').
  change (scope (eval_context w')) with (scope (eval_context w)).
  rewrite (bind_Ok _ _ _ _ _ Hreg).
  exists i. split; [done|]. split; [|done].
  unfold mret, M_ret. f_equal. unfold registered, with_scopes, with_objects. simpl.
  f_equal. rewrite lookup_insert_eq. by rewrite insert_insert_eq.
Qed.

Lemma isset_bound (i : nat) x :
  variables s !! i = Some x ->
  _isset (handle x) w = Ok (bool_decide (value x <> None)) w.
Proof.
  intros Hi. unfold _isset.
  rewrite (bind_Ok _ _ _ _ _ (filterx_eval_get_scope_Ok w)).
  rewrite (bind_Ok _ _ _ _ _ (lookup_bound _ _ _ _ _ Hs Hsorted Hmax Hi)).
  unfold filterx_variable_is_set.
  assert (Hx : g_array_index (variables s) (Z.of_nat i) = Some x)
    by by rewrite g_array_index_of_nat.
  by rewrite (bind_Ok _ _ _ _ _ (get_variable_Ok _ _ _ _ _ Hs Hx)).
Qed.

Lemma isset_unbound h0 :
  (forall x, x ∈ variables s -> handle x <> h0) ->
  _isset h0 w = Ok (bool_decide (is_Some (nv_values m !! h0))) w.
Proof.
  intros Hnot. unfold _isset.
  rewrite (bind_Ok _ _ _ _ _ (filterx_eval_get_scope_Ok w)).
  rewrite (bind_Ok _ _ _ _ _ (lookup_unbound _ _ _ _ Hs Hsorted Hmax Hnot)).
  rewrite (bind_Ok _ _ _ _ _ (filterx_eval_get_context_Ok w)).
  unfold context_msg0. rewrite Hmsg. unfold defined. rewrite bind_ret.
  by apply log_msg_is_value_set_Ok.
Qed.

Lemma unset_bound (i : nat) x :
  variables s !! i = Some x -> live w (value x) ->
  _unset (handle x) w =
  Ok true (mkWorld (release (value x) (objects w))
             (<[scope (eval_context w) := set_variables s
                  (<[i := mkVariable (handle x) (floating x) true None]> (variables s))]>
                (scopes w))
             (messages w) (eval_context w)).
Proof.
  intros Hi Hold. unfold _unset.
  rewrite (bind_Ok _ _ _ _ _ (filterx_eval_get_context_Ok w)).
  rewrite (bind_Ok _ _ _ _ _ (lookup_bound _ _ _ _ _ Hs Hsorted Hmax Hi)).
  assert (Hx : g_array_index (variables s) (Z.of_nat i) = Some x)
    by by rewrite g_array_index_of_nat.
  unfold filterx_variable_unset_value.
  rewrite (bind_Ok _ _ _ _ _ (filterx_variable_set_value_Ok _ _ _ _ _ None Hs Hx Hold I)).
  by rewrite Nat2Z.id.
Qed.

Lemma unset_whiteout h0 :
  g_array_len (variables s) < TABLE_MAX ->
  (forall x, x ∈ variables s -> handle x <> h0) -> is_Some (nv_values m !! h0) ->
  exists i : nat,
    (i <= length (variables s))%nat /\
    _unset h0 w =
    Ok true (registered (scope (eval_context w)) s (Z.of_nat i)
               (mkVariable h0 false false None) w) /\
    table_sorted (g_array_insert_val (variables s) (Z.of_nat i)
                    (mkVariable h0 false false None)).
Proof.
  intros Hlt Hnot Hset. unfold _unset.
  rewrite (bind_Ok _ _ _ _ _ (filterx_eval_get_context_Ok w)).
  rewrite (bind_Ok _ _ _ _ _ (lookup_unbound _ _ _ _ Hs Hsorted Hmax Hnot)).
  unfold context_msg0. rewrite Hmsg. unfold defined. rewrite bind_ret.
  rewrite (bind_Ok _ _ _ _ _ (log_msg_is_value_set_Ok _ _ _ h0 Hm)).
  rewrite bool_decide_eq_true_2 by done.
  destruct (register_absent w _ s h0 false None Hs Hsorted Hlt Hnot I)
    as (i & Hi & _ & Hreg & Hsorted').
  assert (Hwhite : _whiteout_variable h0 (eval_context w) w =
            Ok tt (registered (scope (eval_context w)) s (Z.of_nat i)
                     (mkVariable h0 false false None) w)).
  { unfold _whiteout_variable. by rewrite (bind_Ok _ _ _ _ _ Hreg). }
  rewrite (bind_Ok _ _ _ _ _ Hwhite). eauto.
Qed.

Lemma unset_nothing h0 :
  (forall x, x ∈ variables s -> handle x <> h0) -> nv_values m !! h0 = None ->
  _unset h0 w = Ok true w.
Proof.
  intros Hnot Hnone. unfold _unset.
  rewrite (bind_Ok _ _ _ _ _ (filterx_eval_get_context_Ok w)).
  rewrite (bind_Ok _ _ _ _ _ (lookup_unbound _ _ _ _ Hs Hsorted Hmax Hnot)).
  unfold context_msg0. rewrite Hmsg. unfold defined. rewrite bind_ret.
  rewrite (bind_Ok _ _ _ _ _ (log_msg_is_value_set_Ok _ _ _ h0 Hm)).
  rewrite Hnone. by rewrite bool_decide_eq_false_2 by (intros [? ?]; done).
Qed.

Lemma assign_bound (i : nat) x new_value :
  variables s !! i = Some x -> live w (value x) -> owned (objects w) new_value ->
  _assign (handle x) new_value w =
  Ok true
    (mkWorld (release (value x) (clone_store new_value (objects w)))
       (<[scope (eval_context w) := set_variables s
            (<[i := mkVariable (handle x) (floating x) true
                      (clone_addr (objects w) new_value)]> (variables s))]> (scopes w))
       (messages w) (eval_context w)).
Proof.
  intros Hi Hold Hnew. unfold _assign.
  rewrite (bind_Ok _ _ _ _ _ (filterx_eval_get_scope_Ok w)).
  rewrite (bind_Ok _ _ _ _ _ (lookup_bound _ _ _ _ _ Hs Hsorted Hmax Hi)).
  rewrite bind_ret.
  assert (Hx : g_array_index (variables s) (Z.of_nat i) = Some x)
    by by rewrite g_array_index_of_nat.
  rewrite (assign_store_clone w _ s (Z.of_nat i) x new_value Hs Hx Hold Hnew).
  by rewrite Nat2Z.id.
Qed.

Lemma assign_unbound h0 new_value :
  g_array_len (variables s) < TABLE_MAX ->
  (forall x, x ∈ variables s -> handle x <> h0) -> owned (objects w) new_value ->
  exists i : nat,
    (i <= length (variables s))%nat /\
    _assign h0 new_value w =
    Ok true
      (mkWorld (clone_store new_value (objects w))
         (<[scope (eval_context w) := set_variables s
              (g_array_insert_val (variables s) (Z.of_nat i)
                 (mkVariable h0 false true (clone_addr (objects w) new_value)))]> (scopes w))
         (messages w) (eval_context w)) /\
    table_sorted (g_array_insert_val (variables s) (Z.of_nat i)
                    (mkVariable h0 false true (clone_addr (objects w) new_value))).
Proof.
  intros Hlt Hnot Hnew. unfold _assign.
  set (self := scope (eval_context w)) in *.
  rewrite (bind_Ok _ _ _ _ _ (filterx_eval_get_scope_Ok w)). fold self.
  rewrite (bind_Ok _ _ _ _ _ (lookup_unbound _ _ _ _ Hs Hsorted Hmax Hnot)).
  destruct (register_absent w self s h0 false None Hs Hsorted Hlt Hnot I)
    as (i & Hi & _ & Hreg & Hsorted').
  rewrite (bind_Ok _ _ _ _ _ Hreg).
  set (x := mkVariable h0 false false None) in *.
  set (s1 := set_variables s (g_array_insert_val (variables s) (Z.of_nat i) x)).
  set (w1 := registered self s (Z.of_nat i) x w).
  assert (Hs1 : scopes w1 !! self = Some s1) by apply lookup_insert_eq.
  assert (Hx1 : g_array_index (variables s1) (Z.of_nat i) = Some x).
  { rewrite g_array_index_of_nat. by apply g_array_insert_val_lookup. }
  assert (Hnew1 : owned (objects w1) new_value) by done.
  rewrite (assign_store_clone w1 self s1 (Z.of_nat i) x new_value Hs1 Hx1 I Hnew1).
  exists i. split; [done|].
  assert (Hins : <[Z.to_nat (Z.of_nat i) :=
                     mkVariable (handle x) (floating x) true (clone_addr (objects w1) new_value)]>
                   (variables s1) =
                 g_array_insert_val (variables s) (Z.of_nat i)
                   (mkVariable h0 false true (clone_addr (objects w) new_value))).
  { subst s1. simpl. unfold g_array_insert_val. rewrite !Nat2Z.id.
    rewrite insert_app_r_alt by (rewrite length_take; lia).
    rewrite length_take. by replace (i - i `min` length (variables s))%nat with 0%nat by lia. }
  split.
  - f_equal. simpl. f_equal. rewrite insert_insert_eq. f_equal.
    unfold set_variables. simpl. f_equal. exact Hins.
  - intros a b va vb Hab Ha Hb.
    assert (Hget : forall k v,
              g_array_insert_val (variables s) (Z.of_nat i)
                (mkVariable h0 false true (clone_addr (objects w) new_value)) !! k = Some v ->
              exists v0, g_array_insert_val (variables s) (Z.of_nat i) x !! k = Some v0 /\
                         handle v0 = handle v).
    { intros k v Hk.
      assert (Hh : (handle <$> g_array_insert_val (variables s) (Z.of_nat i) x) !! k =
                   Some (handle v)).
      { rewrite (g_array_insert_val_handles _ _ x
                   (mkVariable h0 false true (clone_addr (objects w) new_value))) by done.
        rewrite list_lookup_fmap. by rewrite Hk. }
      rewrite list_lookup_fmap in Hh.
      destruct (g_array_insert_val (variables s) (Z.of_nat i) x !! k) as [v0|]; [|done].
      inversion Hh. eauto. }
    destruct (Hget _ _ Ha) as (va0 & Ha0 & <-).
    destruct (Hget _ _ Hb) as (vb0 & Hb0 & <-).
    by eapply Hsorted'.
Qed.

Lemma update_repr_bound (i : nat) x new_repr :
  variables s !! i = Some x -> live w (value x) ->
  live (with_objects (release (value x)) w) new_repr ->
  _update_repr (handle x) new_repr w =
  Ok tt (mkWorld (acquire new_repr (release (value x) (objects w)))
           (<[scope (eval_context w) := set_variables s
                (<[i := mkVariable (handle x) (floating x) true new_repr]> (variables s))]>
              (scopes w))
           (messages w) (eval_context w)).
Proof.
  intros Hi Hold Hnew. unfold _update_repr.
  rewrite (bind_Ok _ _ _ _ _ (filterx_eval_get_scope_Ok w)).
  rewrite (bind_Ok _ _ _ _ _ (lookup_bound _ _ _ _ _ Hs Hsorted Hmax Hi)).
  unfold g_assert. rewrite bool_decide_eq_true_2 by done. rewrite bind_ret.
  assert (Hx : g_array_index (variables s) (Z.of_nat i) = Some x)
    by by rewrite g_array_index_of_nat.
  rewrite (filterx_variable_set_value_Ok _ _ _ _ _ new_repr Hs Hx Hold Hnew).
  by rewrite Nat2Z.id.
Qed.

Lemma update_repr_unbound h0 new_repr :
  (forall x, x ∈ variables s -> handle x <> h0) ->
  _update_repr h0 new_repr w = Abort w.
Proof.
  intros Hnot. unfold _update_repr.
  rewrite (bind_Ok _ _ _ _ _ (filterx_eval_get_scope_Ok w)).
  rewrite (bind_Ok _ _ _ _ _ (lookup_unbound _ _ _ _ Hs Hsorted Hmax Hnot)).
  unfold g_assert. by rewrite bool_decide_eq_false_2 by (intros H; by apply H).
Qed.

End MessageReference.

Lemma with_objects_acquire_None w : with_objects (acquire None) w = w.
Proof. by destruct w. Qed.

Lemma live_after_acquire w p q : live w p -> live (with_objects (acquire q) w) p.
Proof.
  destruct p as [a|]; [|done]. simpl. intros [o Ho].
  destruct q as [b|]; [|eauto]. simpl.
  destruct (objects w !! b) as [ob|] eqn:Eb; [|eauto].
  destruct (decide (b = a)) as [->|Hne].
  - rewrite lookup_insert_eq. eauto.
  - rewrite lookup_insert_ne by done. eauto.
Qed.

Lemma live_lookup w vars (i : nat) x :
  Forall (fun x => live w (value x)) vars -> vars !! i = Some x -> live w (value x).
Proof.
  intros Hlive Hi. rewrite Forall_forall in Hlive. apply Hlive.
  by eapply list_elem_of_lookup_2.
Qed.

(** X4.  [_isset] answers what [_eval] would find, without the effects of
    [_eval]: it returns TRUE exactly when [_eval] in the same state returns
    a value rather than NULL, whether the handle is bound in the scope or
    only present in, or absent from, the message; and it leaves the scope,
    the values and the message untouched. *)
Theorem isset_agrees_with_eval (w : World) (s : FilterXScope) (msg : address)
    (m : LogMessage) (h0 : NVHandle) :
  scopes w !! scope (eval_context w) = Some s ->
  strictly_ascending (handle <$> variables s) = true ->
  g_array_len (variables s) < TABLE_MAX ->
  msgs (eval_context w) !! 0%nat = Some msg ->
  messages w !! msg = Some m ->
  Forall (fun x => live w (value x)) (variables s) ->
  exists r w1,
    _eval h0 w = Ok r w1 /\
    _isset h0 w = Ok (bool_decide (r <> None)) w.
Proof.
  intros Hs Hsorted%strictly_ascending_sorted Hlt Hmsg Hm Hlive.
  assert (Hmax : g_array_len (variables s) <= TABLE_MAX) by lia.
  destruct (handle_bound_or_not (variables s) h0) as [(i & x & Hi & <-)|Hnot].
  - exists (value x), (with_objects (acquire (value x)) w). split.
    + apply (eval_bound w s Hs Hsorted Hmax i x Hi). by eapply live_lookup.
    + by apply (isset_bound w s Hs Hsorted Hmax i x).
  - rewrite (isset_unbound w s msg m Hs Hsorted Hmax Hmsg Hm h0 Hnot).
    destruct (nv_values m !! h0) as [[repr t]|] eqn:Ev.
    + destruct (eval_pull w s msg m Hs Hsorted Hmax Hmsg Hm h0 repr t Hlt Hnot Ev)
        as (i & _ & Hrun & _).
      eexists _, _. split; [exact Hrun|].
      by rewrite !bool_decide_eq_true_2 by eauto.
    + exists None, w. split; [by eapply eval_missing|].
      rewrite !bool_decide_eq_false_2; [done|by intros H; apply H|by intros [? ?]].
Qed.

Lemma isset_agrees_with_eval_witness :
  exists r w1,
    _eval 30 (Sample.world_of Sample.busy_scope) = Ok r w1 /\
    _isset 30 (Sample.world_of Sample.busy_scope) =
      Ok (bool_decide (r <> None)) (Sample.world_of Sample.busy_scope).
Proof.
  apply (isset_agrees_with_eval (Sample.world_of Sample.busy_scope) Sample.busy_scope
           1%positive Sample.message 30).
  - reflexivity.
  - reflexivity.
  - reflexivity.
  - reflexivity.
  - reflexivity.
  - repeat constructor; simpl; eexists; reflexivity.
Defined.

(** X5.  After [_unset] the field is unset for the rest of the
    evaluation, though the message still has it: [_unset] returns TRUE,
    and in the state it leaves [_isset] returns FALSE and [_eval] returns
    NULL, both without changing that state.  This holds whether the handle
    was bound in the scope, only present in the message, or in neither. *)
Theorem unset_then_isset (w : World) (s : FilterXScope) (msg : address)
    (m : LogMessage) (h0 : NVHandle) :
  scopes w !! scope (eval_context w) = Some s ->
  strictly_ascending (handle <$> variables s) = true ->
  g_array_len (variables s) < TABLE_MAX ->
  msgs (eval_context w) !! 0%nat = Some msg ->
  messages w !! msg = Some m ->
  Forall (fun x => live w (value x)) (variables s) ->
  exists w1,
    _unset h0 w = Ok true w1 /\
    _isset h0 w1 = Ok false w1 /\
    _eval h0 w1 = Ok None w1 /\
    messages w1 !! msg = Some m.
Proof.
  intros Hs Hsorted%strictly_ascending_sorted Hlt Hmsg Hm Hlive.
  assert (Hmax : g_array_len (variables s) <= TABLE_MAX) by lia.
  set (self := scope (eval_context w)) in *.
  destruct (handle_bound_or_not (variables s) h0) as [(i & x & Hi & <-)|Hnot].
  - eexists. split.
    { apply (unset_bound w s Hs Hsorted Hmax i x Hi). by eapply live_lookup. }
    set (x' := mkVariable (handle x) (floating x) true None).
    set (s1 := set_variables s (<[i := x']> (variables s))).
    set (w1 := mkWorld _ _ _ _).
    assert (Hs1 : scopes w1 !! scope (eval_context w1) = Some s1) by apply lookup_insert_eq.
    assert (Hsorted1 : table_sorted (variables s1)) by by eapply table_sorted_update.
    assert (Hmax1 : g_array_len (variables s1) <= TABLE_MAX).
    { unfold g_array_len in *. simpl. by rewrite length_insert. }
    assert (Hi1 : variables s1 !! i = Some x').
    { simpl. apply list_lookup_insert_eq. by eapply lookup_lt_Some. }
    split; [|split; [|done]].
    + exact (isset_bound w1 s1 Hs1 Hsorted1 Hmax1 i x' Hi1).
    + exact (eval_bound w1 s1 Hs1 Hsorted1 Hmax1 i x' Hi1 I).
  - destruct (nv_values m !! h0) as [r|] eqn:Ev.
    + destruct (unset_whiteout w s msg m Hs Hsorted Hmax Hmsg Hm h0 Hlt Hnot ltac:(eauto))
        as (i & Hi & Hrun & Hsorted1).
      eexists. split; [exact Hrun|].
      set (x' := mkVariable h0 false false None) in *.
      set (s1 := set_variables s (g_array_insert_val (variables s) (Z.of_nat i) x')).
      set (w1 := registered _ _ _ _ _).
      assert (Hs1 : scopes w1 !! scope (eval_context w1) = Some s1) by apply lookup_insert_eq.
      assert (Hmax1 : g_array_len (variables s1) <= TABLE_MAX).
      { unfold g_array_len in *. simpl. rewrite g_array_insert_val_length. lia. }
      assert (Hi1 : variables s1 !! i = Some x') by by apply g_array_insert_val_lookup.
      split; [|split; [|done]].
      * exact (isset_bound w1 s1 Hs1 Hsorted1 Hmax1 i x' Hi1).
      * exact (eval_bound w1 s1 Hs1 Hsorted1 Hmax1 i x' Hi1 I).
    + exists w. split; [by eapply unset_nothing|]. split; [|split; [|done]].
      * rewrite (isset_unbound w s msg m Hs Hsorted Hmax Hmsg Hm h0 Hnot). rewrite Ev.
        by rewrite bool_decide_eq_false_2 by (by intros [? ?]).
      * by eapply eval_missing.
Qed.

Lemma unset_then_isset_witness :
  exists w1,
    _unset 10 (Sample.world_of Sample.empty_scope) = Ok true w1 /\
    _isset 10 w1 = Ok false w1 /\
    _eval 10 w1 = Ok None w1 /\
    messages w1 !! 1%positive = Some Sample.message.
Proof.
  apply (unset_then_isset (Sample.world_of Sample.empty_scope) Sample.empty_scope
           1%positive Sample.message 10).
  - reflexivity.
  - reflexivity.
  - reflexivity.
  - reflexivity.
  - reflexivity.
  - constructor.
Defined.

(** X6.  A value assigned through a message reference is read back
    through it: after [_assign] of a value the caller holds, [_isset]
    returns TRUE and [_eval] returns an object that marshals like the value
    assigned and is of the same variant.  For an immutable value it is the
    very object assigned; for a mutable one it is a copy made by the
    assignment, an object that did not exist before. *)
Theorem assign_then_eval (w : World) (s : FilterXScope) (h0 : NVHandle)
    (n : address) (o : FilterXObject) :
  scopes w !! scope (eval_context w) = Some s ->
  strictly_ascending (handle <$> variables s) = true ->
  g_array_len (variables s) < TABLE_MAX ->
  Forall (fun x => live w (value x)) (variables s) ->
  objects w !! n = Some o ->
  1 <= obj_ref_cnt o ->
  exists w1 c oc w2,
    _assign h0 (Some n) w = Ok true w1 /\
    _isset h0 w1 = Ok true w1 /\
    _eval h0 w1 = Ok (Some c) w2 /\
    objects w2 !! c = Some oc /\
    obj_repr oc = obj_repr o /\ obj_mutable oc = obj_mutable o /\
    (if obj_mutable o then objects w !! c = None else c = n).
Proof.
  intros Hs Hsorted%strictly_ascending_sorted Hlt Hlive Hn Hcnt.
  assert (Hmax : g_array_len (variables s) <= TABLE_MAX) by lia.
  assert (Hown : owned (objects w) (Some n)) by (simpl; eauto).
  destruct (clone_store_owned n o (objects w) Hn Hcnt)
    as (c & oc & Hc & Hoc & Hcnt' & Hmut & Hrepr & Hshared).
  assert (Hwhich : if obj_mutable o then objects w !! c = None else c = n).
  { simpl in Hc. rewrite Hn in Hc. destruct (obj_mutable o); inversion Hc; subst; [|done].
    apply not_elem_of_dom, is_fresh. }
  assert (Hread : forall w1 s1 (i : nat) oc',
            scopes w1 !! scope (eval_context w1) = Some s1 ->
            table_sorted (variables s1) -> g_array_len (variables s1) <= TABLE_MAX ->
            (exists fl, variables s1 !! i = Some (mkVariable h0 fl true (Some c))) ->
            objects w1 !! c = Some oc' ->
            obj_repr oc' = obj_repr oc -> obj_mutable oc' = obj_mutable oc ->
            exists oc'' w2,
              _isset h0 w1 = Ok true w1 /\ _eval h0 w1 = Ok (Some c) w2 /\
              objects w2 !! c = Some oc'' /\
              obj_repr oc'' = obj_repr o /\ obj_mutable oc'' = obj_mutable o).
  { intros w1 s1 i oc' Hs1 Hsorted1 Hmax1 (fl & Hi1) Hoc' Hrepr' Hmut'.
    eexists _, _. split; [|split; [|split; [|split]]].
    - exact (isset_bound w1 s1 Hs1 Hsorted1 Hmax1 i _ Hi1).
    - apply (eval_bound w1 s1 Hs1 Hsorted1 Hmax1 i _ Hi1). simpl. eauto.
    - simpl. rewrite Hoc'. apply lookup_insert_eq.
    - simpl. congruence.
    - simpl. congruence. }
  set (self := scope (eval_context w)) in *.
  destruct (handle_bound_or_not (variables s) h0) as [(i & x & Hi & <-)|Hnot].
  - pose proof (live_lookup _ _ _ _ Hlive Hi) as Hold.
    pose proof (assign_bound w s Hs Hsorted Hmax i x (Some n) Hi Hold Hown) as Hrun.
    rewrite Hc in Hrun.
    destruct (release_keeps (value x) c oc (clone_store (Some n) (objects w)) Hoc Hcnt')
      as (oc' & Hoc' & _ & Hmut' & _ & Hrepr').
    { intros Hx. apply Hshared. rewrite Hx in Hold. exact Hold. }
    match type of Hrun with _ = Ok true ?ww => set (w1 := ww) in * end.
    destruct (Hread w1 (set_variables s
                (<[i := mkVariable (handle x) (floating x) true (Some c)]> (variables s)))
                i oc') as (oc'' & w2 & Hisset & Heval & Hoc'' & Hr & Hm).
    + apply lookup_insert_eq.
    + by eapply table_sorted_update.
    + unfold g_array_len in *. simpl. by rewrite length_insert.
    + exists (floating x). simpl. apply list_lookup_insert_eq. by eapply lookup_lt_Some.
    + done.
    + done.
    + done.
    + exists w1, c, oc'', w2. done.
  - destruct (assign_unbound w s Hs Hsorted Hmax h0 (Some n) Hlt Hnot Hown)
      as (i & Hi & Hrun & Hsorted1).
    rewrite Hc in Hrun, Hsorted1.
    match type of Hrun with _ = Ok true ?ww => set (w1 := ww) in * end.
    destruct (Hread w1 (set_variables s
                (g_array_insert_val (variables s) (Z.of_nat i)
                   (mkVariable h0 false true (Some c)))) i oc)
      as (oc'' & w2 & Hisset & Heval & Hoc'' & Hr & Hm).
    + apply lookup_insert_eq.
    + done.
    + unfold g_array_len in *. simpl. rewrite g_array_insert_val_length. lia.
    + exists false. simpl. by apply g_array_insert_val_lookup.
    + done.
    + done.
    + done.
    + exists w1, c, oc'', w2. done.
Qed.

Lemma assign_then_eval_witness :
  exists w1 c oc w2,
    _assign 20 (Some 3%positive) (Sample.world_of Sample.busy_scope) = Ok true w1 /\
    _isset 20 w1 = Ok true w1 /\
    _eval 20 w1 = Ok (Some c) w2 /\
    objects w2 !! c = Some oc /\
    obj_repr oc = obj_repr Sample.dict /\ obj_mutable oc = obj_mutable Sample.dict /\
    (if obj_mutable Sample.dict
     then objects (Sample.world_of Sample.busy_scope) !! c = None else c = 3%positive).
Proof.
  apply (assign_then_eval (Sample.world_of Sample.busy_scope) Sample.busy_scope 20
           3%positive Sample.dict).
  - reflexivity.
  - reflexivity.
  - reflexivity.
  - repeat constructor; simpl; eexists; reflexivity.
  - reflexivity.
  - simpl. lia.
Defined.

(** X7.  The lazy pull happens once: whatever a first [_eval] returned,
    a value of the scope, a value just pulled from the message or NULL, a
    second [_eval] in the state the first one left returns the same
    pointer and does nothing but take one more reference on it; the table
    of the scope and the message stay as the first evaluation left them. *)
Theorem eval_twice (w : World) (s : FilterXScope) (msg : address)
    (m : LogMessage) (h0 : NVHandle) :
  scopes w !! scope (eval_context w) = Some s ->
  strictly_ascending (handle <$> variables s) = true ->
  g_array_len (variables s) < TABLE_MAX ->
  msgs (eval_context w) !! 0%nat = Some msg ->
  messages w !! msg = Some m ->
  Forall (fun x => live w (value x)) (variables s) ->
  exists r w1,
    _eval h0 w = Ok r w1 /\
    _eval h0 w1 = Ok r (with_objects (acquire r) w1).
Proof.
  intros Hs Hsorted%strictly_ascending_sorted Hlt Hmsg Hm Hlive.
  assert (Hmax : g_array_len (variables s) <= TABLE_MAX) by lia.
  destruct (handle_bound_or_not (variables s) h0) as [(i & x & Hi & <-)|Hnot].
  - pose proof (live_lookup _ _ _ _ Hlive Hi) as Hold.
    exists (value x), (with_objects (acquire (value x)) w). split.
    + by apply (eval_bound w s Hs Hsorted Hmax i x Hi).
    + apply (eval_bound (with_objects (acquire (value x)) w) s Hs Hsorted Hmax i x Hi).
      by apply live_after_acquire.
  - destruct (nv_values m !! h0) as [[repr t]|] eqn:Ev.
    + destruct (eval_pull w s msg m Hs Hsorted Hmax Hmsg Hm h0 repr t Hlt Hnot Ev)
        as (i & Hi & Hrun & Hsorted1).
      eexists _, _. split; [exact Hrun|].
      set (a := fresh (dom (objects w))) in *.
      set (x' := mkVariable h0 false false (Some a)) in *.
      set (s1 := set_variables s (g_array_insert_val (variables s) (Z.of_nat i) x')).
      set (w1 := mkWorld _ _ _ _).
      apply (eval_bound w1 s1 ltac:(apply lookup_insert_eq) Hsorted1) with (i := i) (x := x').
      * unfold g_array_len in *. simpl. rewrite g_array_insert_val_length. lia.
      * by apply g_array_insert_val_lookup.
      * simpl. rewrite lookup_insert_eq. eauto.
    + exists None, w. rewrite with_objects_acquire_None.
      split; by eapply eval_missing.
Qed.

Lemma eval_twice_witness :
  exists r w1,
    _eval 10 (Sample.world_of Sample.empty_scope) = Ok r w1 /\
    _eval 10 w1 = Ok r (with_objects (acquire r) w1).
Proof.
  apply (eval_twice (Sample.world_of Sample.empty_scope) Sample.empty_scope
           1%positive Sample.message 10).
  - reflexivity.
  - reflexivity.
  - reflexivity.
  - reflexivity.
  - reflexivity.
  - constructor.
Defined.

(** X8.  [_update_repr] needs a variable: when the scope has none for the
    handle its assertion fails, in the state the call found; it does not
    register one, as [_assign] does.  When the scope has one, the new
    representation is stored into it as it is, not cloned: the variable
    is marked assigned, the value it held is released and the new one
    acquired, and the message is left alone. *)
Theorem update_repr_needs_variable (w : World) (s : FilterXScope) (h0 : NVHandle)
    (new_repr : option address) :
  scopes w !! scope (eval_context w) = Some s ->
  strictly_ascending (handle <$> variables s) = true ->
  g_array_len (variables s) <= TABLE_MAX ->
  ((forall x, x ∈ variables s -> handle x <> h0) ->
   _update_repr h0 new_repr w = Abort w) /\
  (forall (i : nat) x,
     variables s !! i = Some x -> handle x = h0 ->
     live w (value x) -> live (with_objects (release (value x)) w) new_repr ->
     exists w1 s1,
       _update_repr h0 new_repr w = Ok tt w1 /\
       scopes w1 !! scope (eval_context w1) = Some s1 /\
       variables s1 = <[i := mkVariable h0 (floating x) true new_repr]> (variables s) /\
       objects w1 = acquire new_repr (release (value x) (objects w)) /\
       messages w1 = messages w).
Proof.
  intros Hs Hsorted%strictly_ascending_sorted Hmax. split.
  - intros Hnot. by apply (update_repr_unbound w s).
  - intros i x Hi <- Hold Hnew.
    eexists _, _. split; [by apply (update_repr_bound w s Hs Hsorted Hmax i x)|].
    split; [apply lookup_insert_eq|]. done.
Qed.

Lemma update_repr_needs_variable_witness :
  _update_repr 50 (Some 2%positive) (Sample.world_of Sample.busy_scope) =
    Abort (Sample.world_of Sample.busy_scope) /\
  exists w1 s1,
    _update_repr 30 (Some 2%positive) (Sample.world_of Sample.busy_scope) = Ok tt w1 /\
    scopes w1 !! scope (eval_context w1) = Some s1 /\
    variables s1 !! 2%nat = Some (mkVariable 30 false true (Some 2%positive)).
Proof.
  destruct (update_repr_needs_variable (Sample.world_of Sample.busy_scope) Sample.busy_scope
              50 (Some 2%positive)) as (Hunbound & _).
  - reflexivity.
  - reflexivity.
  - vm_compute. discriminate.
  - split; [|by vm_compute; eauto]. apply Hunbound.
    intros x Hx Hh. apply list_elem_of_In in Hx. simpl in Hx.
    destruct Hx as [<-|[<-|[<-|[<-|[]]]]]; discriminate.
Defined.

(** ** The life of a scope *)

Lemma filterx_scope_ref_Ok w self s :
  scopes w !! self = Some s ->
  filterx_scope_ref self w =
  Ok self (with_scopes (insert self (mkScope (ref_cnt s + 1) (variables s) (weak_refs s)
                                       (write_protected s))) w).
Proof.
  intros Hs. unfold filterx_scope_ref.
  rewrite (bind_Ok _ _ _ _ _ (get_scope_Ok _ _ _ Hs)).
  by rewrite (bind_Ok _ _ _ _ _ (put_scope_Ok _ _ s _ Hs)).
Qed.

Lemma with_scopes_insert_id w self s :
  scopes w !! self = Some s -> with_scopes (insert self s) w = w.
Proof. intros Hs. unfold with_scopes. rewrite (insert_id _ _ _ Hs). by destruct w. Qed.

(** X9.  Taking a reference on a scope and giving it back leaves the
    world as it was: for a scope at least one reference is held on,
    [filterx_scope_ref] followed by [filterx_scope_unref] of the pointer it
    returned frees nothing and restores the count; for [NULL] both do
    nothing. *)
Theorem scope_ref_then_unref (w : World) (self : option address) :
  (forall a, self = Some a ->
     exists s, scopes w !! a = Some s /\ 0 < ref_cnt s < G_MAXINT) ->
  (p ← filterx_scope_ref_or_null self; filterx_scope_unref_or_null p) w = Ok tt w /\
  exists w1, filterx_scope_ref_or_null self w = Ok self w1.
Proof.
  intros Hlive. destruct self as [a|]; [|by eauto].
  destruct (Hlive a eq_refl) as (s & Hs & Hcnt).
  assert (Href : filterx_scope_ref_or_null (Some a) w =
            Ok (Some a) (with_scopes (insert a (mkScope (ref_cnt s + 1) (variables s)
                                                 (weak_refs s) (write_protected s))) w)).
  { unfold filterx_scope_ref_or_null.
    by rewrite (bind_Ok _ _ _ _ _ (filterx_scope_ref_Ok _ _ _ Hs)). }
  split; [|eauto].
  rewrite (bind_Ok _ _ _ _ _ Href). simpl. unfold filterx_scope_unref.
  set (s1 := mkScope (ref_cnt s + 1) (variables s) (weak_refs s) (write_protected s)).
  set (w1 := with_scopes (insert a s1) w).
  assert (Hs1 : scopes w1 !! a = Some s1) by apply lookup_insert_eq.
  rewrite (bind_Ok _ _ _ _ _ (get_scope_Ok _ _ _ Hs1)).
  rewrite (bind_Ok _ _ _ _ _ (put_scope_Ok _ _ s1 _ Hs1)).
  simpl. replace (ref_cnt s + 1 - 1) with (ref_cnt s) by lia.
  destruct (Z.eqb_spec (ref_cnt s) 0); [lia|].
  unfold mret, M_ret. f_equal. subst w1. unfold with_scopes. simpl.
  rewrite insert_insert_eq.
  replace (mkScope (ref_cnt s) (variables s) (weak_refs s) (write_protected s)) with s
    by by destruct s.
  rewrite (insert_id _ _ _ Hs). by destruct w.
Qed.

Lemma scope_ref_then_unref_witness :
  (p ← filterx_scope_ref_or_null (Some 1%positive); filterx_scope_unref_or_null p)
    (Sample.world_of Sample.shared_scope) = Ok tt (Sample.world_of Sample.shared_scope) /\
  exists w1,
    filterx_scope_ref_or_null (Some 1%positive) (Sample.world_of Sample.shared_scope) =
    Ok (Some 1%positive) w1.
Proof.
  apply (scope_ref_then_unref (Sample.world_of Sample.shared_scope) (Some 1%positive)).
  intros a Ha. inversion Ha; subst. exists Sample.shared_scope.
  split; [reflexivity|]. vm_compute. split; reflexivity.
Defined.

Lemma release_all_None ps : forall objs a,
  objs !! a = None -> release_all ps objs !! a = None.
Proof.
  induction ps as [|p ps IH]; intros objs a Ha; simpl; [done|]. apply IH.
  destruct p as [b|]; [|done]. simpl.
  destruct (objs !! b) as [ob|] eqn:Eb; [|done].
  assert (b <> a) by congruence.
  destruct (obj_ref_cnt ob - 1 =? 0).
  - by rewrite lookup_delete_ne.
  - by rewrite lookup_insert_ne.
Qed.

(** Pointers covered by the reference counts stay covered when the first
    of them is released. *)
Lemma covered_release p ps objs :
  (forall a, 0 < holders a (p :: ps) ->
     exists o, objs !! a = Some o /\ holders a (p :: ps) <= obj_ref_cnt o) ->
  live_in objs p /\
  forall a, 0 < holders a ps ->
    exists o, release p objs !! a = Some o /\ holders a ps <= obj_ref_cnt o.
Proof.
  intros Hsound. split.
  - destruct p as [b|]; [|done]. destruct (Hsound b) as (o & Ho & _).
    + simpl. rewrite decide_True by done. pose proof (holders_nonneg b ps). lia.
    + simpl. eauto.
  - intros a Ha. destruct (Hsound a) as (o & Ho & Hcnt).
    { simpl. destruct (decide _); lia. }
    simpl in Hcnt. destruct (decide (p = Some a)) as [->|Hne].
    + simpl. rewrite Ho. destruct (Z.eqb_spec (obj_ref_cnt o - 1) 0); [lia|].
      rewrite lookup_insert_eq. eexists. split; [done|]. simpl. lia.
    + exists o. split; [|lia]. destruct p as [b|]; [|done].
      rewrite release_lookup_ne by congruence. done.
Qed.

Lemma release_all_count ps : forall objs,
  (forall a, 0 < holders a ps ->
     exists o, objs !! a = Some o /\ holders a ps <= obj_ref_cnt o) ->
  forall a, ref_count (release_all ps objs) a = ref_count objs a - holders a ps.
Proof.
  induction ps as [|p ps IH]; intros objs Hsound a; simpl; [lia|].
  destruct (covered_release p ps objs Hsound) as [Hlive Hrest].
  rewrite (IH _ Hrest). rewrite (ref_count_release _ _ _ Hlive). unfold points_to. lia.
Qed.

Lemma release_all_freed ps : forall objs a o,
  (forall a, 0 < holders a ps ->
     exists o, objs !! a = Some o /\ holders a ps <= obj_ref_cnt o) ->
  objs !! a = Some o -> 0 < holders a ps -> obj_ref_cnt o = holders a ps ->
  release_all ps objs !! a = None.
Proof.
  induction ps as [|p ps IH]; intros objs a o Hsound Ha Hpos Hcnt; simpl in *; [lia|].
  destruct (covered_release p ps objs Hsound) as [Hlive Hrest].
  pose proof (holders_nonneg a ps) as Hnn.
  destruct (decide (p = Some a)) as [->|Hne].
  - simpl. rewrite Ha. destruct (Z.eqb_spec (obj_ref_cnt o - 1) 0) as [Hz|Hnz].
    + apply release_all_None. apply lookup_delete_eq.
    + apply (IH _ a (set_obj_ref_cnt o (obj_ref_cnt o - 1))).
      * intros b Hb. specialize (Hrest b Hb). simpl in Hrest. rewrite Ha in Hrest.
        destruct (Z.eqb_spec (obj_ref_cnt o - 1) 0); [lia|]. exact Hrest.
      * apply lookup_insert_eq.
      * lia.
      * simpl. lia.
  - apply (IH _ a o); [done| |lia|lia].
    destruct p as [b|]; [|done]. rewrite release_lookup_ne by congruence. done.
Qed.

(** X10.  [filterx_scope_unref] gives back what the scope holds, once:
    with a reference left, only the count of the scope goes down; with the
    last reference, the scope is freed and every object loses as many
    references as the scope had pointers to it, through the values of its
    variables and through its weak references, so that an object only the
    scope referred to is freed with it.  The message is left alone. *)
Theorem unref_releases_what_the_scope_holds (w : World) (self : address)
    (s : FilterXScope) :
  scopes w !! self = Some s ->
  refs_sound_b s (objects w) = true ->
  exists w1,
    filterx_scope_unref self w = Ok tt w1 /\
    messages w1 = messages w /\
    if ref_cnt s =? 1 then
      scopes w1 = delete self (scopes w) /\
      (forall a, ref_count (objects w1) a =
                 ref_count (objects w) a - holders a (scope_refs s)) /\
      (forall a, 0 < holders a (scope_refs s) ->
         ref_count (objects w) a = holders a (scope_refs s) -> objects w1 !! a = None)
    else
      scopes w1 = <[self := mkScope (ref_cnt s - 1) (variables s) (weak_refs s)
                              (write_protected s)]> (scopes w) /\
      objects w1 = objects w.
Proof.
  intros Hs Hsound%refs_sound_b_sound.
  rewrite (filterx_scope_unref_Ok w self s Hs Hsound).
  destruct (Z.eqb_spec (ref_cnt s) 1) as [H1|Hn1].
  - destruct (Z.eqb_spec (ref_cnt s - 1) 0); [|lia].
    eexists. split; [done|]. split; [done|]. simpl. split; [done|]. split.
    + by apply release_all_count.
    + intros a Hpos Hcnt. destruct (Hsound a Hpos) as (o & Ho & _).
      apply (release_all_freed _ _ a o); [done|done|done|].
      unfold ref_count in Hcnt. by rewrite Ho in Hcnt.
  - destruct (Z.eqb_spec (ref_cnt s - 1) 0); [lia|].
    eexists. split; [done|]. done.
Qed.

Lemma unref_releases_what_the_scope_holds_witness :
  exists w1,
    filterx_scope_unref 1%positive (Sample.world_of Sample.busy_scope) = Ok tt w1 /\
    scopes w1 !! 1%positive = None /\
    objects w1 !! 2%positive = None.
Proof.
  destruct (unref_releases_what_the_scope_holds (Sample.world_of Sample.busy_scope)
              1%positive Sample.busy_scope) as (w1 & Hrun & _ & Hscopes & _ & Hfreed).
  - reflexivity.
  - reflexivity.
  - exists w1. split; [exact Hrun|]. split.
    + rewrite Hscopes. reflexivity.
    + apply Hfreed; [vm_compute; reflexivity|reflexivity].
Defined.

(** X11.  [filterx_scope_new] returns a scope at an address no scope had:
    it is held once, is not write-protected, has no variable, so that
    every lookup in it misses, and has no weak reference; all other
    scopes, the values and the message are as before.  Releasing it right
    away frees it and the world is again what it was. *)
Theorem scope_new_then_unref (w : World) :
  exists self w1,
    filterx_scope_new w = Ok self w1 /\
    scopes w !! self = None /\
    w1 = with_scopes (insert self (mkScope 1 [] [] false)) w /\
    (forall h0, filterx_scope_lookup_variable self h0 w1 = Ok None w1) /\
    filterx_scope_unref self w1 = Ok tt w.
Proof.
  set (self := fresh (dom (scopes w))).
  assert (Hfresh : scopes w !! self = None) by apply not_elem_of_dom, is_fresh.
  exists self, (with_scopes (insert self (mkScope 1 [] [] false)) w).
  split; [done|]. split; [done|]. split; [done|].
  set (w1 := with_scopes _ w).
  assert (Hs1 : scopes w1 !! self = Some (mkScope 1 [] [] false)) by apply lookup_insert_eq.
  split.
  - intros h0. exact (filterx_scope_lookup_variable_Ok w1 self _ h0 false 0 Hs1 eq_refl).
  - rewrite (filterx_scope_unref_Ok w1 self _ Hs1).
    + simpl. f_equal. rewrite delete_insert_eq. rewrite delete_id by done. by destruct w.
    + intros a Ha. simpl in Ha. lia.
Qed.

Lemma filterx_scope_write_protect_Ok w self s :
  scopes w !! self = Some s ->
  filterx_scope_write_protect self w =
  Ok tt (with_scopes (insert self (mkScope (ref_cnt s) (variables s) (weak_refs s) true)) w).
Proof.
  intros Hs. unfold filterx_scope_write_protect.
  rewrite (bind_Ok _ _ _ _ _ (get_scope_Ok _ _ _ Hs)).
  by rewrite (put_scope_Ok _ _ s _ Hs).
Qed.

Lemma store_weak_ref_protected w self s object :
  scopes w !! self = Some s -> write_protected s = true ->
  filterx_scope_store_weak_ref self object w = Abort w.
Proof.
  intros Hs Hwp. unfold filterx_scope_store_weak_ref.
  rewrite (bind_Ok _ _ _ _ _ (get_scope_Ok _ _ _ Hs)). by rewrite Hwp.
Qed.

(** X12.  Weak references are only taken by a scope that may be written
    to: on a write-protected scope the assertion of
    [filterx_scope_store_weak_ref] fails, whatever the object, and so it
    does right after [filterx_scope_write_protect]; on a writable scope
    [NULL] is ignored, and an object is appended to the weak references
    after one reference on it was taken, the variables of the scope
    staying as they are. *)
Theorem store_weak_ref_needs_writable (w : World) (self : address) (s : FilterXScope)
    (object : option address) :
  scopes w !! self = Some s ->
  (write_protected s = true -> filterx_scope_store_weak_ref self object w = Abort w) /\
  (exists w1,
     (filterx_scope_write_protect self;; filterx_scope_store_weak_ref self object) w =
     Abort w1) /\
  (write_protected s = false -> object = None ->
   filterx_scope_store_weak_ref self object w = Ok tt w) /\
  (forall a o, write_protected s = false -> object = Some a -> objects w !! a = Some o ->
     filterx_scope_store_weak_ref self object w =
     Ok tt (mkWorld (<[a := set_obj_ref_cnt o (obj_ref_cnt o + 1)]> (objects w))
              (<[self := mkScope (ref_cnt s) (variables s) (weak_refs s ++ [a]) false]>
                 (scopes w))
              (messages w) (eval_context w))).
Proof.
  intros Hs. split; [|split; [|split]].
  - intros Hwp. by apply (store_weak_ref_protected w self s).
  - eexists. rewrite (bind_Ok _ _ _ _ _ (filterx_scope_write_protect_Ok _ _ _ Hs)).
    eapply store_weak_ref_protected; [apply lookup_insert_eq|done].
  - intros Hwp ->. unfold filterx_scope_store_weak_ref.
    rewrite (bind_Ok _ _ _ _ _ (get_scope_Ok _ _ _ Hs)). by rewrite Hwp.
  - intros a o Hwp -> Ha. unfold filterx_scope_store_weak_ref.
    rewrite (bind_Ok _ _ _ _ _ (get_scope_Ok _ _ _ Hs)). rewrite Hwp. simpl.
    rewrite bind_ret.
    assert (Hlive : live w (Some a)) by (simpl; eauto).
    rewrite (bind_Ok _ _ _ _ _ (filterx_object_ref_Ok _ _ Hlive)).
    assert (Hs' : scopes (with_objects (acquire (Some a)) w) !! self = Some s) by done.
    rewrite (bind_Ok _ _ _ _ _ (get_scope_Ok _ _ _ Hs')).
    rewrite (put_scope_Ok _ _ s _ Hs').
    unfold with_scopes, with_objects. simpl. by rewrite Ha, Hwp.
Qed.

Lemma store_weak_ref_needs_writable_witness :
  filterx_scope_store_weak_ref 1%positive (Some 3%positive)
    (Sample.world_of Sample.shared_scope) = Abort (Sample.world_of Sample.shared_scope) /\
  exists w1 s1 o1,
    filterx_scope_store_weak_ref 1%positive (Some 3%positive)
      (Sample.world_of Sample.busy_scope) = Ok tt w1 /\
    scopes w1 !! 1%positive = Some s1 /\ weak_refs s1 = [3%positive] /\
    objects w1 !! 3%positive = Some o1 /\ obj_ref_cnt o1 = 2.
Proof.
  split.
  - destruct (store_weak_ref_needs_writable (Sample.world_of Sample.shared_scope) 1%positive
                Sample.shared_scope (Some 3%positive)) as (Habort & _).
    + reflexivity.
    + apply Habort. reflexivity.
  - destruct (store_weak_ref_needs_writable (Sample.world_of Sample.busy_scope) 1%positive
                Sample.busy_scope (Some 3%positive)) as (_ & _ & _ & Hstore).
    + reflexivity.
    + eexists _, _, _. split; [apply (Hstore 3%positive Sample.dict); reflexivity|].
      split; [reflexivity|]. split; [reflexivity|]. split; reflexivity.
Defined.

Lemma clone_table_handles vars : forall objs,
  handle <$> (clone_table vars objs).1 = handle <$> vars.
Proof.
  induction vars as [|x vars IH]; intros objs; simpl; [done|]. by rewrite IH.
Qed.

(** X13.  [filterx_scope_write_protect] sets the flag and nothing else,
    and setting it again changes nothing; from then on
    [filterx_scope_make_writable] never hands out the protected scope: it
    returns a scope at an address no scope had, held once, not
    write-protected, with the same handles in the same order. *)
Theorem write_protect_then_make_writable (w : World) (p : address) (s : FilterXScope) :
  scopes w !! p = Some s ->
  g_array_len (variables s) <= G_MAXINT ->
  refs_sound_b s (objects w) = true ->
  exists w1 p' w2 s',
    filterx_scope_write_protect p w = Ok tt w1 /\
    w1 = with_scopes (insert p (mkScope (ref_cnt s) (variables s) (weak_refs s) true)) w /\
    filterx_scope_write_protect p w1 = Ok tt w1 /\
    filterx_scope_make_writable p w1 = Ok p' w2 /\
    p' <> p /\ scopes w !! p' = None /\
    scopes w2 !! p' = Some s' /\
    ref_cnt s' = 1 /\ write_protected s' = false /\
    handle <$> variables s' = handle <$> variables s.
Proof.
  intros Hs Hmax Hsound%refs_sound_b_sound.
  set (s1 := mkScope (ref_cnt s) (variables s) (weak_refs s) true).
  set (w1 := with_scopes (insert p s1) w).
  assert (Hs1 : scopes w1 !! p = Some s1) by apply lookup_insert_eq.
  assert (Hdom : dom (scopes w1) = dom (scopes w)).
  { subst w1. simpl. apply set_eq. intros q. rewrite dom_insert, elem_of_union, elem_of_singleton.
    split; [intros [->|?]; [by apply elem_of_dom|done]|by right]. }
  exists w1, (fresh (dom (scopes w1))), (writable_world w1 p s1),
    (mkScope 1 (clone_table (variables s1) (objects w1)).1 [] false).
  split; [by apply filterx_scope_write_protect_Ok|]. split; [done|]. split.
  { rewrite (filterx_scope_write_protect_Ok w1 p s1 Hs1). f_equal.
    by apply with_scopes_insert_id. }
  split; [by rewrite (filterx_scope_make_writable_Ok w1 p s1 Hs1 Hmax Hsound)|].
  assert (Hfresh : scopes w1 !! fresh (dom (scopes w1)) = None)
    by apply not_elem_of_dom, is_fresh.
  split; [intros Heq; rewrite Heq in Hfresh; by rewrite Hs1 in Hfresh|].
  split; [rewrite Hdom; apply not_elem_of_dom, is_fresh|].
  split; [by apply writable_world_clone|].
  split; [done|]. split; [done|]. simpl. apply clone_table_handles.
Qed.

Lemma write_protect_then_make_writable_witness :
  exists w1 p' w2 s',
    filterx_scope_write_protect 1%positive (Sample.world_of Sample.busy_scope) = Ok tt w1 /\
    filterx_scope_make_writable 1%positive w1 = Ok p' w2 /\
    p' <> 1%positive /\
    scopes w2 !! p' = Some s' /\
    write_protected s' = false /\
    handle <$> variables s' = [10; 20; 30; 40].
Proof.
  destruct (write_protect_then_make_writable (Sample.world_of Sample.busy_scope) 1%positive
              Sample.busy_scope)
    as (w1 & p' & w2 & s' & Hwp & _ & _ & Hmw & Hne & _ & Hs' & _ & Hflag & Hh).
  - reflexivity.
  - vm_compute. discriminate.
  - reflexivity.
  - exists w1, p', w2, s'. repeat (split; [assumption|]). exact Hh.
Defined.

(** X14.  [filterx_scope_make_writable] is idempotent: the scope it
    returns is writable, so that making it writable again returns the same
    scope and changes nothing. *)
Theorem make_writable_twice (w : World) (p : address) (s : FilterXScope) :
  scopes w !! p = Some s ->
  g_array_len (variables s) <= G_MAXINT ->
  refs_sound_b s (objects w) = true ->
  exists p' w',
    filterx_scope_make_writable p w = Ok p' w' /\
    filterx_scope_make_writable p' w' = Ok p' w'.
Proof.
  intros Hs Hmax Hsound%refs_sound_b_sound.
  pose proof (filterx_scope_make_writable_Ok w p s Hs Hmax Hsound) as Hmw.
  destruct (write_protected s) eqn:Hwp.
  - eexists _, _. split; [exact Hmw|].
    unfold filterx_scope_make_writable.
    by rewrite (bind_Ok _ _ _ _ _ (get_scope_Ok _ _ _ (writable_world_clone w p s Hs))).
  - exists p, w. split; [done|].
    unfold filterx_scope_make_writable.
    rewrite (bind_Ok _ _ _ _ _ (get_scope_Ok _ _ _ Hs)). by rewrite Hwp.
Qed.

Lemma make_writable_twice_witness :
  exists p' w',
    filterx_scope_make_writable 1%positive (Sample.world_of Sample.shared_scope) = Ok p' w' /\
    filterx_scope_make_writable p' w' = Ok p' w'.
Proof.
  apply (make_writable_twice (Sample.world_of Sample.shared_scope) 1%positive
           Sample.shared_scope).
  - reflexivity.
  - vm_compute. discriminate.
  - reflexivity.
Defined.

(** ** What a synchronisation changes *)

Lemma flags_cleared_refl objs : flags_cleared objs objs.
Proof. intros a. destruct (objs !! a); eauto. Qed.

Lemma flags_cleared_trans objs1 objs2 objs3 :
  flags_cleared objs1 objs2 -> flags_cleared objs2 objs3 -> flags_cleared objs1 objs3.
Proof.
  intros H12 H23 a. specialize (H12 a). specialize (H23 a).
  destruct (objs1 !! a) as [o1|], (objs2 !! a) as [o2|], (objs3 !! a) as [o3|]; try done.
  destruct H12 as [->| ->], H23 as [->| ->]; eauto.
Qed.

Lemma flags_cleared_insert objs a o :
  objs !! a = Some o -> flags_cleared objs (<[a := set_modified_in_place o false]> objs).
Proof.
  intros Ha b. destruct (decide (b = a)) as [->|Hne].
  - rewrite Ha, lookup_insert_eq. eauto.
  - rewrite lookup_insert_ne by done. destruct (objs !! b); eauto.
Qed.

Lemma sync_variable_frame x objs m x' objs' m' :
  sync_variable_spec x objs m = Synced x' objs' m' ->
  flag_cleared x x' /\ flags_cleared objs objs' /\ settled objs' x' = true.
Proof.
  unfold sync_variable_spec, flag_cleared, settled. intros H.
  destruct (floating x) eqn:Efl.
  { inversion H; subst. rewrite Efl. split; [done|]. split; [apply flags_cleared_refl|done]. }
  destruct (value x) as [a|] eqn:Ev.
  - destruct (objs !! a) as [o|] eqn:Ea; [|done].
    destruct (assigned x) eqn:Eas; simpl in H.
    + destruct (obj_repr o) as [[bytes t]|]; [|done]. inversion H; subst. simpl.
      split; [done|]. split; [by apply flags_cleared_insert|].
      by rewrite lookup_insert_eq.
    + destruct (modified_in_place o) eqn:Emip.
      * destruct (obj_repr o) as [[bytes t]|]; [|done]. inversion H; subst. simpl.
        split; [done|]. split; [by apply flags_cleared_insert|].
        by rewrite lookup_insert_eq.
      * inversion H; subst. rewrite Efl, Ev, Eas, Ea, Emip.
        split; [done|]. split; [apply flags_cleared_refl|done].
  - inversion H; subst. simpl. split; [done|]. split; [apply flags_cleared_refl|done].
Qed.

Lemma settled_flags_cleared objs objs' y :
  flags_cleared objs objs' -> settled objs y = true -> settled objs' y = true.
Proof.
  unfold settled. intros Hfc H. destruct (floating y); [done|]. simpl in *.
  destruct (assigned y); [done|]. simpl in *.
  destruct (value y) as [a|]; [|done]. specialize (Hfc a).
  destruct (objs !! a) as [o|]; [|done]. destruct (objs' !! a) as [o'|]; [|done].
  by destruct Hfc as [->| ->].
Qed.

(** A run of the table, completed or stopped by a value that cannot be
    marshalled, clears flags and does nothing else to the table and to
    the values. *)
Lemma sync_table_frame vars : forall objs m,
  match sync_table_spec vars objs m with
  | TableSynced vs o mm => Forall2 flag_cleared vars vs /\ flags_cleared objs o /\
                           Forall (fun x => settled o x = true) vs
  | TableAborted vs o mm => Forall2 flag_cleared vars vs /\ flags_cleared objs o
  | TableWild => True
  end.
Proof.
  assert (Hrefl : forall l, Forall2 flag_cleared l l).
  { intros l. apply Forall2_same_length_lookup. split; [done|].
    intros i x y Hx Hy. rewrite Hx in Hy. inversion Hy; subst. by unfold flag_cleared. }
  induction vars as [|x rest IH]; intros objs m; simpl.
  { split; [constructor|]. split; [apply flags_cleared_refl|constructor]. }
  destruct (sync_variable_spec x objs m) as [x' objs' m'| |] eqn:Ex; [| |done].
  - destruct (sync_variable_frame _ _ _ _ _ _ Ex) as (Hx & Hfc & Hset).
    specialize (IH objs' m').
    destruct (sync_table_spec rest objs' m') as [vs o mm|vs o mm|]; [| |done].
    + destruct IH as (Hvs & Hfc' & Hsettled).
      split; [by constructor|]. split; [by eapply flags_cleared_trans|].
      constructor; [|done]. by eapply settled_flags_cleared.
    + destruct IH as (Hvs & Hfc').
      split; [by constructor|]. by eapply flags_cleared_trans.
  - split; [apply Hrefl|apply flags_cleared_refl].
Qed.

(** X15.  A synchronisation, completed or stopped by a value that cannot
    be marshalled, never runs out of the table and changes flags only: the
    scope keeps its reference count, its weak references and its
    protection, every variable its handle, its floating flag and its
    value pointer, [assigned] being cleared at most; no object is created
    or freed and none changes but for a cleared modified-in-place flag;
    other scopes, other messages and the evaluation context are as
    before. *)
Theorem sync_changes_flags_only (w : World) (self msg : address) (s : FilterXScope)
    (m : LogMessage) :
  scopes w !! self = Some s ->
  messages w !! msg = Some m ->
  g_array_len (variables s) <= G_MAXINT ->
  filterx_scope_sync_to_message self msg w <> OutOfFuel /\
  forall w1,
    world_after (filterx_scope_sync_to_message self msg w) = Some w1 ->
    (exists s1,
       scopes w1 !! self = Some s1 /\
       ref_cnt s1 = ref_cnt s /\ weak_refs s1 = weak_refs s /\
       write_protected s1 = write_protected s /\
       Forall2 flag_cleared (variables s) (variables s1)) /\
    flags_cleared (objects w) (objects w1) /\
    (forall q, q <> self -> scopes w1 !! q = scopes w !! q) /\
    (forall q, q <> msg -> messages w1 !! q = messages w !! q) /\
    eval_context w1 = eval_context w.
Proof.
  intros Hs Hm Hmax.
  rewrite (filterx_scope_sync_to_message_refines w self msg s m Hs Hm Hmax).
  pose proof (sync_table_frame (variables s) (objects w) m) as Hframe.
  destruct (sync_table_spec (variables s) (objects w) m) as [vs o mm|vs o mm|];
    (split; [done|]); intros w1 Hw1; simpl in Hw1; [| |done].
  - inversion Hw1; subst w1. destruct Hframe as (Hvs & Hfc & _).
    split; [|split; [done|]].
    + eexists. split; [apply lookup_insert_eq|]. done.
    + split; [|split; [|done]]; intros q Hq; simpl; by rewrite lookup_insert_ne.
  - inversion Hw1; subst w1. destruct Hframe as (Hvs & Hfc).
    split; [|split; [done|]].
    + eexists. split; [apply lookup_insert_eq|]. done.
    + split; [|split; [|done]]; intros q Hq; simpl; by rewrite lookup_insert_ne.
Qed.

Lemma sync_changes_flags_only_witness :
  exists w1 s1 o3,
    filterx_scope_sync_to_message 1%positive 1%positive (Sample.world_of Sample.busy_scope)
      = Ok tt w1 /\
    scopes w1 !! 1%positive = Some s1 /\
    Forall2 flag_cleared Sample.table (variables s1) /\
    flags_cleared Sample.heap (objects w1) /\
    objects w1 !! 3%positive = Some o3 /\ modified_in_place o3 = true.
Proof.
  destruct (sync_changes_flags_only (Sample.world_of Sample.busy_scope) 1%positive 1%positive
              Sample.busy_scope Sample.message) as (_ & Hframe).
  - reflexivity.
  - reflexivity.
  - vm_compute. discriminate.
  - destruct (Hframe _ eq_refl) as ((s1 & Hs1 & _ & _ & _ & Hvars) & Hobjs & _).
    eexists _, s1, _. split; [reflexivity|]. split; [exact Hs1|].
    split; [exact Hvars|]. split; [exact Hobjs|]. split; reflexivity.
Defined.

Lemma sync_variable_settled x objs m :
  settled objs x = true ->
  sync_variable_spec x objs m =
  Synced x objs (if floating x then m
                 else match value x with None => msg_unset m (handle x) | Some _ => m end).
Proof.
  unfold settled, sync_variable_spec. intros H.
  destruct x as [h fl asg v]. simpl in *. destruct fl; [done|]. simpl in H.
  destruct asg; [done|]. simpl in H. destruct v as [a|]; [|done].
  destruct (objs !! a) as [o|]; [|done]. by destruct (modified_in_place o).
Qed.

Lemma sync_table_settled vars : forall objs m,
  Forall (fun x => settled objs x = true) vars ->
  sync_table_spec vars objs m = TableSynced vars objs (unset_all (whiteouts vars) m).
Proof.
  induction vars as [|x rest IH]; intros objs m Hall; simpl; [done|].
  inversion Hall as [|? ? Hx Hrest]; subst.
  rewrite (sync_variable_settled _ _ _ Hx). rewrite (IH _ _ Hrest).
  destruct (floating x); [done|]. by destruct (value x).
Qed.

Lemma whiteouts_flag_cleared vars vs :
  Forall2 flag_cleared vars vs -> whiteouts vs = whiteouts vars.
Proof.
  induction 1 as [|x x' vars vs (Hh & Hfl & Hv & _) _ IH]; simpl; [done|].
  by rewrite Hh, Hfl, Hv, IH.
Qed.

Lemma unset_all_unset hs : forall m,
  (forall h, h ∈ hs -> nv_values m !! h = None) ->
  unset_all hs m = mkMessage (nv_values m) (nv_calls m ++ (CallUnsetValue <$> hs)).
Proof.
  unfold unset_all.
  induction hs as [|h hs IH]; intros m Hnone; simpl.
  - rewrite app_nil_r. by destruct m.
  - rewrite IH.
    + simpl. rewrite delete_id by (apply Hnone; left). by rewrite <- app_assoc.
    + intros h' Hh'. simpl. rewrite delete_id by (apply Hnone; left).
      apply Hnone. by right.
Qed.

Lemma whiteouts_handles vars h : h ∈ whiteouts vars -> h ∈ handle <$> vars.
Proof.
  induction vars as [|x rest IH]; simpl; [done|]. intros Hh.
  destruct (floating x); [right; auto|].
  destruct (value x); [right; auto|].
  apply elem_of_cons in Hh as [->|Hh]; [left|right; auto].
Qed.

(** After a completed run over a table without duplicate handles, the
    message has no value under the handle of a whiteout. *)
Lemma sync_table_whiteouts vars : forall objs m vs o mm,
  NoDup (handle <$> vars) ->
  sync_table_spec vars objs m = TableSynced vs o mm ->
  forall h, h ∈ whiteouts vars -> nv_values mm !! h = None.
Proof.
  induction vars as [|x rest IH]; intros objs m vs o mm Hnd Hrun h Hh; simpl in *;
    [by inversion Hh|].
  apply NoDup_cons in Hnd as [Hx Hnd].
  destruct (sync_variable_spec x objs m) as [x' objs' m'| |] eqn:Ex; [|done|done].
  destruct (sync_table_spec rest objs' m') as [vs' o' mm'| |] eqn:Erest; [|done|done].
  inversion Hrun; subst.
  assert (Hrec : h ∈ whiteouts rest -> nv_values mm !! h = None) by by eapply IH.
  destruct (floating x) eqn:Efl; [by apply Hrec|].
  destruct (value x) as [a|] eqn:Ev; [by apply Hrec|].
  apply elem_of_cons in Hh as [->|Hh]; [|by apply Hrec].
  destruct (sync_table_spec_calls _ _ _ _ _ _ Erest) as (new & _ & _ & Hkeep).
  rewrite (Hkeep _ Hx).
  unfold sync_variable_spec in Ex. rewrite Efl, Ev in Ex. inversion Ex; subst.
  simpl. apply lookup_delete_eq.
Qed.

Lemma table_sorted_NoDup vars : table_sorted vars -> NoDup (handle <$> vars).
Proof.
  intros Hs. apply NoDup_alt. intros i j h Hi Hj.
  rewrite list_lookup_fmap in Hi, Hj.
  destruct (vars !! i) as [x|] eqn:Ei; [|done].
  destruct (vars !! j) as [y|] eqn:Ej; [|done].
  simpl in *. eapply table_sorted_unique; [done..|]. congruence.
Qed.

(** X16.  A completed synchronisation leaves nothing to do but the
    whiteouts: synchronising again, to the same message and with nothing
    done in between, completes as well, changes neither the scope nor a
    value nor the fields of the message, and calls the message again for
    the whiteouts only, unsetting each once more, in table order. *)
Theorem sync_is_idempotent (w : World) (self msg : address) (s : FilterXScope)
    (m : LogMessage) (w1 : World) :
  scopes w !! self = Some s ->
  messages w !! msg = Some m ->
  strictly_ascending (handle <$> variables s) = true ->
  g_array_len (variables s) <= G_MAXINT ->
  filterx_scope_sync_to_message self msg w = Ok tt w1 ->
  exists m1,
    messages w1 !! msg = Some m1 /\
    filterx_scope_sync_to_message self msg w1 =
    Ok tt (with_messages
             (insert msg (mkMessage (nv_values m1)
                            (nv_calls m1 ++ (CallUnsetValue <$> whiteouts (variables s)))))
             w1).
Proof.
  intros Hs Hm Hsorted%strictly_ascending_sorted Hmax Hrun.
  rewrite (filterx_scope_sync_to_message_refines w self msg s m Hs Hm Hmax) in Hrun.
  pose proof (sync_table_frame (variables s) (objects w) m) as Hframe.
  destruct (sync_table_spec (variables s) (objects w) m) as [vs o mm| |] eqn:Etable;
    [|done|done].
  inversion Hrun; subst w1. clear Hrun. destruct Hframe as (Hvs & _ & Hsettled).
  exists mm. split; [apply lookup_insert_eq|].
  set (w1 := sync_world w self msg s vs o mm).
  assert (Hs1 : scopes w1 !! self = Some (set_variables s vs)) by apply lookup_insert_eq.
  assert (Hm1 : messages w1 !! msg = Some mm) by apply lookup_insert_eq.
  assert (Hmax1 : g_array_len (variables (set_variables s vs)) <= G_MAXINT).
  { unfold g_array_len in *. simpl. by rewrite <- (Forall2_length _ _ _ Hvs). }
  rewrite (filterx_scope_sync_to_message_refines w1 self msg _ mm Hs1 Hm1 Hmax1).
  change (objects w1) with o. change (variables (set_variables s vs)) with vs.
  rewrite (sync_table_settled vs o mm Hsettled).
  rewrite (whiteouts_flag_cleared _ _ Hvs).
  rewrite unset_all_unset.
  - f_equal. unfold sync_world, with_messages. simpl. f_equal.
    rewrite insert_insert_eq. by rewrite set_variables_twice.
  - eapply sync_table_whiteouts; [|exact Etable]. by apply table_sorted_NoDup.
Qed.

Lemma sync_is_idempotent_witness :
  exists w1 m1,
    filterx_scope_sync_to_message 1%positive 1%positive (Sample.world_of Sample.busy_scope)
      = Ok tt w1 /\
    messages w1 !! 1%positive = Some m1 /\
    filterx_scope_sync_to_message 1%positive 1%positive w1 =
    Ok tt (with_messages
             (insert 1%positive (mkMessage (nv_values m1) (nv_calls m1 ++ [CallUnsetValue 30])))
             w1).
Proof.
  destruct (sync_is_idempotent (Sample.world_of Sample.busy_scope) 1%positive 1%positive
              Sample.busy_scope Sample.message _ eq_refl eq_refl eq_refl
              ltac:(vm_compute; discriminate) eq_refl) as (m1 & Hm1 & Hrun).
  eexists _, m1. split; [reflexivity|]. split; [exact Hm1|exact Hrun].
Defined.

(** ** Registration and the other variables *)

Lemma g_array_insert_val_lookup_lt vars (i j : nat) x :
  (j < i)%nat -> (i <= length vars)%nat ->
  g_array_insert_val vars (Z.of_nat i) x !! j = vars !! j.
Proof.
  intros Hj Hi. unfold g_array_insert_val. rewrite Nat2Z.id.
  rewrite lookup_app_l by (rewrite length_take; lia).
  by rewrite lookup_take_lt.
Qed.

Lemma g_array_insert_val_lookup_ge vars (i j : nat) x :
  (i <= j)%nat -> (i <= length vars)%nat ->
  g_array_insert_val vars (Z.of_nat i) x !! S j = vars !! j.
Proof.
  intros Hj Hi. unfold g_array_insert_val. rewrite Nat2Z.id.
  rewrite lookup_app_r by (rewrite length_take; lia).
  rewrite length_take. replace (S j - i `min` length vars)%nat with (S (j - i)) by lia.
  simpl. rewrite lookup_drop. f_equal. lia.
Qed.

(** X17.  Registering a handle disturbs no other binding.  The handle
    registered is found afterwards at the slot returned.  Every variable
    the scope had under another handle is still found under its handle,
    unchanged; it sits at the index it had when the handle registered was
    already bound or is the greater one, and one index higher when a new
    variable was inserted below it, so that pointers to such variables are
    stale after a registration.  A handle that was not bound, other than
    the one registered, is still not bound. *)
Theorem register_keeps_other_bindings (w : World) (self : address) (s : FilterXScope)
    (h0 : NVHandle) (fl : bool) (init : option address) :
  scopes w !! self = Some s ->
  strictly_ascending (handle <$> variables s) = true ->
  g_array_len (variables s) < TABLE_MAX ->
  live w init ->
  exists slot w1 s1,
    filterx_scope_register_variable self h0 fl init w = Ok slot w1 /\
    scopes w1 !! self = Some s1 /\
    filterx_scope_lookup_variable self h0 w1 = Ok (Some slot) w1 /\
    (forall (j : nat) x, variables s !! j = Some x -> handle x <> h0 ->
       let j' := if bound_in (variables s) h0 || (handle x <? h0) then j else S j in
       filterx_scope_lookup_variable self (handle x) w1 = Ok (Some (self, Z.of_nat j')) w1 /\
       variables s1 !! j' = Some x) /\
    (forall h', h' <> h0 -> (forall x, x ∈ variables s -> handle x <> h') ->
       filterx_scope_lookup_variable self h' w1 = Ok None w1).
Proof.
  intros Hs Hsorted%strictly_ascending_sorted Hlt Hlive.
  assert (Hmax : g_array_len (variables s) <= TABLE_MAX) by lia.
  destruct (handle_bound_or_not (variables s) h0) as [(i & v & Hi & Hh)|Hnot].
  - exists (self, Z.of_nat i), w, s.
    assert (Hb : bound_in (variables s) h0 = true).
    { apply bound_in_true. exists v. split; [by eapply list_elem_of_lookup_2|done]. }
    split; [by eapply register_present|]. split; [done|]. split; [|split].
    + subst h0. by eapply lookup_bound.
    + intros j x Hj Hne. rewrite Hb. simpl. split; [by eapply lookup_bound|done].
    + intros h' _ Hnot'. by eapply lookup_unbound.
  - destruct (register_absent w self s h0 fl init Hs Hsorted Hlt Hnot Hlive)
      as (i & Hi & Hmiss & Hreg & Hsorted1).
    pose proof (_lookup_variable_spec (variables s) h0 Hsorted Hmax) as Hpost.
    rewrite Hmiss in Hpost. simpl in Hpost. destruct Hpost as (_ & Hlow & Hhigh).
    set (v := mkVariable h0 fl false init) in *.
    set (s1 := set_variables s (g_array_insert_val (variables s) (Z.of_nat i) v)).
    set (w1 := registered self s (Z.of_nat i) v w) in *.
    assert (Hs1 : scopes w1 !! self = Some s1) by apply lookup_insert_eq.
    assert (Hmax1 : g_array_len (variables s1) <= TABLE_MAX).
    { unfold g_array_len in *. simpl. rewrite g_array_insert_val_length. lia. }
    assert (Hb : bound_in (variables s) h0 = false).
    { apply not_true_iff_false. intros (x & Hx & Hhx)%bound_in_true. by eapply Hnot. }
    exists (self, Z.of_nat i), w1, s1.
    split; [done|]. split; [done|]. split; [|split].
    + apply (lookup_bound w1 self s1 i v Hs1 Hsorted1 Hmax1).
      by apply g_array_insert_val_lookup.
    + intros j x Hj Hne. cbv zeta. rewrite Hb. cbn [orb].
      set (j' := if handle x <? h0 then j else S j).
      assert (Hj' : variables s1 !! j' = Some x).
      { subst j'. simpl.
        assert (Ej : g_array_index (variables s) (Z.of_nat j) = Some x)
          by by rewrite g_array_index_of_nat.
        destruct (Z.ltb_spec (handle x) h0) as [Hsmall|Hbig].
        - rewrite g_array_insert_val_lookup_lt; [done| |done].
          destruct (Nat.lt_ge_cases j i) as [|Hge]; [done|].
          assert (h0 < handle x) by (apply (Hhigh (Z.of_nat j)); [lia|done]). lia.
        - rewrite g_array_insert_val_lookup_ge; [done| |done].
          destruct (Nat.lt_ge_cases j i) as [Hl|]; [|done].
          assert (handle x < h0) by (apply (Hlow (Z.of_nat j)); [lia|done]). lia. }
      split; [|done]. by apply (lookup_bound w1 self s1 j' x).
    + intros h' Hne Hnot'. apply (lookup_unbound w1 self s1 h' Hs1 Hsorted1 Hmax1).
      intros x Hx. simpl in Hx. apply elem_of_g_array_insert_val in Hx as [->|Hx]; [done|].
      by apply Hnot'.
Qed.

Lemma register_keeps_other_bindings_witness :
  exists slot w1 s1,
    filterx_scope_register_variable 1%positive 25 false None
      (Sample.world_of Sample.busy_scope) = Ok slot w1 /\
    scopes w1 !! 1%positive = Some s1 /\
    filterx_scope_lookup_variable 1%positive 25 w1 = Ok (Some slot) w1 /\
    filterx_scope_lookup_variable 1%positive 30 w1 = Ok (Some (1%positive, 3)) w1 /\
    variables s1 !! 3%nat = Some (mkVariable 30 false true None).
Proof.
  destruct (register_keeps_other_bindings (Sample.world_of Sample.busy_scope) 1%positive
              Sample.busy_scope 25 false None)
    as (slot & w1 & s1 & Hreg & Hs1 & Hfound & Hkeep & _).
  - reflexivity.
  - reflexivity.
  - reflexivity.
  - exact I.
  - exists slot, w1, s1. split; [exact Hreg|]. split; [exact Hs1|]. split; [exact Hfound|].
    exact (Hkeep 2%nat (mkVariable 30 false true None) eq_refl ltac:(discriminate)).
Defined.

(** ** What message references leave alone *)

Section Preserves.

Context (R : World -> World -> Prop).
Hypothesis R_refl : forall w, R w w.
Hypothesis R_trans : forall w1 w2 w3, R w1 w2 -> R w2 w3 -> R w1 w3.

Lemma preserves_ret {A} (a : A) : preserves R (mret a : M A).
Proof. intros w w1 H. inversion H; subst. apply R_refl. Qed.

Lemma preserves_bind {A B} (c : M A) (f : A -> M B) :
  preserves R c -> (forall a, preserves R (f a)) -> preserves R (c ≫= f).
Proof.
  intros Hc Hf w w1. unfold mbind, M_bind. specialize (Hc w).
  destruct (c w) as [a w'|w'| |]; simpl; intros H; try done.
  - eapply R_trans; [by apply Hc|]. by eapply Hf.
  - by apply Hc.
Qed.

Lemma preserves_get_world : preserves R get_world.
Proof. intros w w1 H. inversion H; subst. apply R_refl. Qed.

Lemma preserves_abort {A} : preserves R (abort : M A).
Proof. intros w w1 H. inversion H; subst. apply R_refl. Qed.

Lemma preserves_undefined {A} : preserves R (undefined : M A).
Proof. by intros w w1 H. Qed.

Lemma preserves_out_of_fuel {A} : preserves R (out_of_fuel : M A).
Proof. by intros w w1 H. Qed.

Lemma preserves_defined {A} (o : option A) : preserves R (defined o).
Proof. destruct o; [apply preserves_ret|apply preserves_undefined]. Qed.

Lemma preserves_g_assert c : preserves R (g_assert c).
Proof. destruct c; [apply preserves_ret|apply preserves_abort]. Qed.

End Preserves.

Lemma scope_local_refl w : scope_local w w.
Proof. by unfold scope_local. Qed.

Lemma scope_local_trans w1 w2 w3 : scope_local w1 w2 -> scope_local w2 w3 -> scope_local w1 w3.
Proof.
  intros (Hm & Hc & Hh) (Hm' & Hc' & Hh'). unfold scope_local.
  split; [congruence|]. split; [congruence|]. intros p. by rewrite Hh', Hh.
Qed.

Lemma scope_local_set_objects f : preserves scope_local (set_objects f).
Proof. intros w w1 H. inversion H; subst. by unfold scope_local. Qed.

(** Writing back a scope just read, with its table changed at most. *)
Lemma scope_local_set_scope a s s' w :
  scopes w !! a = Some s -> header s' = header s ->
  scope_local w (with_scopes (insert a s') w).
Proof.
  intros Hs Hh. unfold scope_local. split; [done|]. split; [done|]. intros p. simpl.
  destruct (decide (p = a)) as [->|Hne].
  - rewrite lookup_insert_eq, Hs. simpl. by rewrite Hh.
  - by rewrite lookup_insert_ne.
Qed.

Create HintDb preserves.

#[local] Hint Resolve scope_local_refl scope_local_trans : preserves.
#[local] Hint Resolve scope_local_set_objects : preserves.
#[local] Hint Extern 1 (preserves scope_local (mret _)) => apply preserves_ret : preserves.
#[local] Hint Extern 1 (preserves scope_local get_world) => apply preserves_get_world : preserves.
#[local] Hint Extern 1 (preserves scope_local abort) => apply preserves_abort : preserves.
#[local] Hint Extern 1 (preserves scope_local g_assert_not_reached) =>
  apply preserves_abort : preserves.
#[local] Hint Extern 1 (preserves scope_local undefined) => apply preserves_undefined : preserves.
#[local] Hint Extern 1 (preserves scope_local out_of_fuel) =>
  apply preserves_out_of_fuel : preserves.
#[local] Hint Extern 1 (preserves scope_local (defined _)) => apply preserves_defined : preserves.
#[local] Hint Extern 1 (preserves scope_local (g_assert _)) => apply preserves_g_assert : preserves.

(** Runs through binds, branches and the computations known to keep the
    change local. *)
Ltac scope_local :=
  repeat first
    [ progress intros
    | solve [eauto with preserves]
    | apply (preserves_bind scope_local scope_local_trans)
    | match goal with
      | |- preserves _ (match ?x with _ => _ end) => destruct x
      end ].

Lemma scope_local_get_object a : preserves scope_local (get_object a).
Proof. unfold get_object. scope_local. Qed.

Lemma scope_local_get_scope a : preserves scope_local (get_scope a).
Proof. unfold get_scope. scope_local. Qed.

Lemma scope_local_get_message a : preserves scope_local (get_message a).
Proof. unfold get_message. scope_local. Qed.

#[local] Hint Resolve scope_local_get_object scope_local_get_scope scope_local_get_message
  : preserves.

Lemma scope_local_put_object a o : preserves scope_local (put_object a o).
Proof. unfold put_object. scope_local. Qed.

Lemma scope_local_get_variable v : preserves scope_local (get_variable v).
Proof. unfold get_variable. scope_local. Qed.

(** A scope read and written back, with its table changed at most, then
    the rest of the computation. *)
Lemma scope_local_get_put {B} a (k : FilterXScope -> FilterXScope) (rest : FilterXScope -> M B) :
  (forall s, header (k s) = header s) ->
  (forall s, preserves scope_local (rest s)) ->
  preserves scope_local (s ← get_scope a; put_scope a (k s);; rest s).
Proof.
  intros Hk Hrest w w1.
  unfold put_scope, get_scope, get_world, defined, set_scopes, mbind, M_bind, mret, M_ret.
  simpl. destruct (scopes w !! a) as [s|] eqn:Es; simpl; [|done].
  rewrite Es. simpl. intros H.
  eapply scope_local_trans; [by eapply (scope_local_set_scope a s (k s))|].
  by eapply Hrest.
Qed.

Lemma scope_local_put_variable v x : preserves scope_local (put_variable v x).
Proof.
  intros w w1.
  unfold put_variable, put_scope, get_scope, get_world, defined, set_scopes, mbind, M_bind,
    mret, M_ret.
  simpl. destruct (scopes w !! v.1) as [s|] eqn:Es; simpl; [|done].
  destruct (g_array_index (variables s) v.2); simpl; [|done].
  rewrite Es. simpl. intros H. inversion H; subst.
  by eapply scope_local_set_scope.
Qed.

#[local] Hint Resolve scope_local_put_object scope_local_get_variable scope_local_put_variable
  : preserves.

Lemma scope_local_store_value v p : preserves scope_local (store_value v p).
Proof. unfold store_value. scope_local. Qed.

Lemma scope_local_store_assigned v b : preserves scope_local (store_assigned v b).
Proof. unfold store_assigned. scope_local. Qed.

Lemma scope_local_object_ref p : preserves scope_local (filterx_object_ref p).
Proof. unfold filterx_object_ref. scope_local. Qed.

Lemma scope_local_object_unref p : preserves scope_local (filterx_object_unref p).
Proof. unfold filterx_object_unref. scope_local. Qed.

#[local] Hint Resolve scope_local_store_value scope_local_store_assigned scope_local_object_ref
  scope_local_object_unref : preserves.

Lemma scope_local_object_clone p : preserves scope_local (filterx_object_clone p).
Proof. unfold filterx_object_clone. scope_local. Qed.

Lemma scope_local_new_borrowed repr t :
  preserves scope_local (filterx_message_value_new_borrowed repr t).
Proof. unfold filterx_message_value_new_borrowed. scope_local. Qed.

Lemma scope_local_get_value_if_set msg h0 :
  preserves scope_local (log_msg_get_value_if_set_with_type msg h0).
Proof. unfold log_msg_get_value_if_set_with_type. scope_local. Qed.

Lemma scope_local_is_value_set msg h0 : preserves scope_local (log_msg_is_value_set msg h0).
Proof. unfold log_msg_is_value_set. scope_local. Qed.

Lemma scope_local_variable_get_value v : preserves scope_local (filterx_variable_get_value v).
Proof. unfold filterx_variable_get_value. scope_local. Qed.

Lemma scope_local_variable_set_value v p :
  preserves scope_local (filterx_variable_set_value v p).
Proof. unfold filterx_variable_set_value. scope_local. Qed.

Lemma scope_local_variable_is_set v : preserves scope_local (filterx_variable_is_set v).
Proof. unfold filterx_variable_is_set. scope_local. Qed.

Lemma scope_local_lookup_variable self h0 :
  preserves scope_local (filterx_scope_lookup_variable self h0).
Proof. unfold filterx_scope_lookup_variable. scope_local. Qed.

Lemma scope_local_register_variable self h0 fl init :
  preserves scope_local (filterx_scope_register_variable self h0 fl init).
Proof.
  unfold filterx_scope_register_variable.
  apply (preserves_bind scope_local scope_local_trans); [scope_local|]. intros s.
  destruct (_lookup_variable (variables s) h0) as [[|] v_slot| |]; [scope_local| |scope_local..].
  do 3 (apply (preserves_bind scope_local scope_local_trans); [scope_local|]; intros ?).
  apply (scope_local_get_put self
           (fun s' => set_variables s' (g_array_insert_val (variables s') _ _))
           (fun _ => mret _)); [done|scope_local].
Qed.

#[local] Hint Resolve scope_local_object_clone scope_local_new_borrowed
  scope_local_get_value_if_set scope_local_is_value_set scope_local_variable_get_value
  scope_local_variable_set_value scope_local_variable_is_set scope_local_lookup_variable
  scope_local_register_variable : preserves.

(** X18.  Message references write to the scope and to nothing else.  In
    any state whatsoever, and whether it returns or stops at a failed
    assertion, none of [_eval], [_assign], [_isset], [_unset] and
    [_update_repr] changes a message or the evaluation context, creates or
    frees a scope, or changes the reference count, the weak references or
    the write protection of a scope: what they change are tables of
    variables and values. *)
Theorem message_reference_is_scope_local (h0 : NVHandle) (v : option address) :
  preserves scope_local (_eval h0) /\
  preserves scope_local (_assign h0 v) /\
  preserves scope_local (_isset h0) /\
  preserves scope_local (_unset h0) /\
  preserves scope_local (_update_repr h0 v).
Proof.
  unfold _eval, _assign, _isset, _unset, _update_repr, _pull_variable_from_message,
    _whiteout_variable, filterx_variable_unset_value, filterx_eval_get_context,
    filterx_eval_get_scope, context_msg0.
  split; [|split; [|split; [|split]]]; scope_local.
Qed.

Lemma message_reference_is_scope_local_witness :
  exists w1,
    world_after (_assign 50 (Some 2%positive) (Sample.world_of Sample.shared_scope)) = Some w1 /\
    scope_local (Sample.world_of Sample.shared_scope) w1.
Proof.
  destruct (message_reference_is_scope_local 50 (Some 2%positive)) as (_ & Hassign & _).
  eexists. split; [reflexivity|]. apply Hassign. reflexivity.
Defined.

(** ** Reference counts under message references *)

Lemma live_live_in w p : live w p <-> live_in (objects w) p.
Proof. by destruct p. Qed.

Lemma points_to_None a : points_to None a = 0.
Proof. unfold points_to. by rewrite decide_False. Qed.

Lemma outside_refs_world objs scs msgs ctx s vars a :
  outside_refs (mkWorld objs (<[scope ctx := set_variables s vars]> scs) msgs ctx) a =
  ref_count objs a - held vars a.
Proof. unfold outside_refs. simpl. by rewrite lookup_insert_eq. Qed.

(** X19.  Message references keep the reference counts in balance.  Count
    for every object the references that are not held by the table of the
    context's scope.  [_eval] adds one to the count of the object it
    returns, the reference the caller receives, and changes no other
    count, also when it pulls the value from the message; [_assign] and
    [_unset] change no count at all: the caller of [_assign] keeps the
    reference it holds on the value assigned, the table holds one on what
    it stores and has given back the one on what it held. *)
Theorem message_reference_balances_references (w : World) (s : FilterXScope)
    (msg : address) (m : LogMessage) (h0 : NVHandle) (new_value : option address) :
  scopes w !! scope (eval_context w) = Some s ->
  strictly_ascending (handle <$> variables s) = true ->
  g_array_len (variables s) < TABLE_MAX ->
  msgs (eval_context w) !! 0%nat = Some msg ->
  messages w !! msg = Some m ->
  Forall (fun x => live w (value x)) (variables s) ->
  owned (objects w) new_value ->
  (exists r w1,
     _eval h0 w = Ok r w1 /\
     forall a, outside_refs w1 a = outside_refs w a + points_to r a) /\
  (exists w1,
     _assign h0 new_value w = Ok true w1 /\
     forall a, outside_refs w1 a = outside_refs w a) /\
  (exists w1,
     _unset h0 w = Ok true w1 /\
     forall a, outside_refs w1 a = outside_refs w a).
Proof.
  intros Hs Hsorted%strictly_ascending_sorted Hlt Hmsg Hm Hlive Hown.
  assert (Hmax : g_array_len (variables s) <= TABLE_MAX) by lia.
  assert (Hout : forall a, outside_refs w a = ref_count (objects w) a - held (variables s) a).
  { intros a. unfold outside_refs. by rewrite Hs. }
  assert (Hnew : live_in (objects w) new_value) by by apply live_live_in, owned_live.
  destruct (handle_bound_or_not (variables s) h0) as [(i & x & Hi & <-)|Hnot].
  - pose proof (live_lookup _ _ _ _ Hlive Hi) as Hold.
    assert (Hold' : live_in (objects w) (value x)) by by apply live_live_in.
    split; [|split].
    + eexists _, _. split; [by apply (eval_bound w s Hs Hsorted Hmax i x Hi)|].
      intros a. rewrite Hout. unfold outside_refs. simpl. rewrite Hs.
      rewrite ref_count_acquire by done. lia.
    + eexists. split; [by apply (assign_bound w s Hs Hsorted Hmax i x new_value Hi)|].
      intros a. rewrite Hout, outside_refs_world.
      rewrite ref_count_release.
      * rewrite clone_store_ref_count by done.
        rewrite (held_list_insert _ _ x) by done. simpl. lia.
      * destruct (value x) as [b|]; [|done]. simpl in *. by apply clone_store_live.
    + eexists. split; [by apply (unset_bound w s Hs Hsorted Hmax i x Hi)|].
      intros a. rewrite Hout, outside_refs_world.
      rewrite ref_count_release by done.
      rewrite (held_list_insert _ _ x) by done. simpl. rewrite points_to_None. lia.
  - split; [|split].
    + destruct (nv_values m !! h0) as [[repr t]|] eqn:Ev.
      * destruct (eval_pull w s msg m Hs Hsorted Hmax Hmsg Hm h0 repr t Hlt Hnot Ev)
          as (i & Hi & Hrun & _).
        eexists _, _. split; [exact Hrun|].
        intros a. rewrite Hout, outside_refs_world. rewrite held_insert_val. simpl.
        assert (Hfresh : objects w !! fresh (dom (objects w)) = None)
          by apply not_elem_of_dom, is_fresh.
        unfold ref_count, points_to.
        destruct (decide (a = fresh (dom (objects w)))) as [->|Hne].
        -- rewrite lookup_insert_eq, Hfresh, decide_True by done. simpl. lia.
        -- rewrite lookup_insert_ne by done. rewrite decide_False by congruence. lia.
      * exists None, w. split; [by eapply eval_missing|].
        intros a. rewrite points_to_None. lia.
    + destruct (assign_unbound w s Hs Hsorted Hmax h0 new_value Hlt Hnot Hown)
        as (i & Hi & Hrun & _).
      eexists. split; [exact Hrun|].
      intros a. rewrite Hout, outside_refs_world. rewrite held_insert_val. simpl.
      rewrite clone_store_ref_count by done. lia.
    + destruct (nv_values m !! h0) as [r|] eqn:Ev.
      * destruct (unset_whiteout w s msg m Hs Hsorted Hmax Hmsg Hm h0 Hlt Hnot ltac:(eauto))
          as (i & Hi & Hrun & _).
        eexists. split; [exact Hrun|].
        intros a. rewrite Hout. unfold registered, with_scopes, with_objects. simpl.
        rewrite outside_refs_world. rewrite held_insert_val. simpl.
        rewrite points_to_None. lia.
      * exists w. split; [by eapply unset_nothing|]. done.
Qed.

Lemma message_reference_balances_references_witness :
  (exists r w1,
     _eval 20 (Sample.world_of Sample.busy_scope) = Ok r w1 /\
     forall a, outside_refs w1 a =
               outside_refs (Sample.world_of Sample.busy_scope) a + points_to r a) /\
  (exists w1,
     _assign 20 (Some 3%positive) (Sample.world_of Sample.busy_scope) = Ok true w1 /\
     forall a, outside_refs w1 a = outside_refs (Sample.world_of Sample.busy_scope) a) /\
  (exists w1,
     _unset 20 (Sample.world_of Sample.busy_scope) = Ok true w1 /\
     forall a, outside_refs w1 a = outside_refs (Sample.world_of Sample.busy_scope) a).
Proof.
  apply (message_reference_balances_references (Sample.world_of Sample.busy_scope)
           Sample.busy_scope 1%positive Sample.message 20 (Some 3%positive)).
  - reflexivity.
  - reflexivity.
  - reflexivity.
  - reflexivity.
  - reflexivity.
  - repeat constructor; simpl; eexists; reflexivity.
  - exists Sample.dict. split; [reflexivity|]. simpl. lia.
Defined.

(** ** The accessors of a variable *)

(** X20.  The accessors of a variable agree with each other, on any table
    and for any slot of it.  Getting the value and releasing what was got
    leaves the world as it was.  After [filterx_variable_set_value] the
    getter returns the pointer that was set, with one more reference, and
    [filterx_variable_is_set] tells whether that pointer is not NULL, so
    that it returns FALSE after [filterx_variable_unset_value]. *)
Theorem variable_accessors_round_trip (w : World) (self : address) (s : FilterXScope)
    (i : Z) (x : FilterXVariable) (p : option address) :
  scopes w !! self = Some s ->
  g_array_index (variables s) i = Some x ->
  (forall a, value x = Some a -> 0 < ref_count (objects w) a) ->
  live (with_objects (release (value x)) w) p ->
  (r ← filterx_variable_get_value (self, i); filterx_object_unref r) w = Ok tt w /\
  (exists w1,
     filterx_variable_set_value (self, i) p w = Ok tt w1 /\
     filterx_variable_get_value (self, i) w1 = Ok p (with_objects (acquire p) w1) /\
     filterx_variable_is_set (self, i) w1 = Ok (bool_decide (p <> None)) w1) /\
  (exists w1,
     filterx_variable_unset_value (self, i) w = Ok tt w1 /\
     filterx_variable_is_set (self, i) w1 = Ok false w1).
Proof.
  intros Hs Hx Hcnt Hnew.
  assert (Hold : live w (value x)).
  { destruct (value x) as [a|] eqn:Ev; [|done]. simpl. apply ref_count_live. by apply Hcnt. }
  assert (Hset : forall q, live (with_objects (release (value x)) w) q ->
            exists w1,
              filterx_variable_set_value (self, i) q w = Ok tt w1 /\
              filterx_variable_get_value (self, i) w1 = Ok q (with_objects (acquire q) w1) /\
              filterx_variable_is_set (self, i) w1 = Ok (bool_decide (q <> None)) w1).
  { intros q Hq. eexists. split; [by apply (filterx_variable_set_value_Ok w self s i x q)|].
    set (x' := mkVariable (handle x) (floating x) true q).
    set (s1 := set_variables s (<[Z.to_nat i := x']> (variables s))).
    set (w1 := mkWorld _ _ _ _).
    assert (Hs1 : scopes w1 !! self = Some s1) by apply lookup_insert_eq.
    assert (Hx1 : g_array_index (variables s1) i = Some x') by by eapply g_array_index_insert.
    split.
    - apply (filterx_variable_get_value_Ok w1 self s1 i x' Hs1 Hx1).
      exact (live_after_acquire (with_objects (release (value x)) w) q q Hq).
    - unfold filterx_variable_is_set.
      by rewrite (bind_Ok _ _ _ _ _ (get_variable_Ok _ _ _ _ _ Hs1 Hx1)). }
  split; [|split].
  - rewrite (bind_Ok _ _ _ _ _ (filterx_variable_get_value_Ok _ _ _ _ _ Hs Hx Hold)).
    rewrite filterx_object_unref_Ok by by apply live_after_acquire.
    f_equal. unfold with_objects. simpl.
    destruct (value x) as [a|] eqn:Ev; [|by destruct w].
    destruct Hold as [o Ho]. specialize (Hcnt a eq_refl). unfold ref_count in Hcnt.
    rewrite Ho in Hcnt. rewrite (release_acquire a o) by (done || lia). by destruct w.
  - by apply Hset.
  - destruct (Hset None I) as (w1 & Hrun & _ & Hisset). exists w1. split; [done|].
    rewrite Hisset. by rewrite bool_decide_eq_false_2 by (by intros H).
Qed.

Lemma variable_accessors_round_trip_witness :
  (r ← filterx_variable_get_value (1%positive, 1); filterx_object_unref r)
    (Sample.world_of Sample.busy_scope) = Ok tt (Sample.world_of Sample.busy_scope) /\
  (exists w1,
     filterx_variable_set_value (1%positive, 1) (Some 3%positive)
       (Sample.world_of Sample.busy_scope) = Ok tt w1 /\
     filterx_variable_get_value (1%positive, 1) w1 =
       Ok (Some 3%positive) (with_objects (acquire (Some 3%positive)) w1) /\
     filterx_variable_is_set (1%positive, 1) w1 =
       Ok (bool_decide (Some 3%positive <> None)) w1) /\
  (exists w1,
     filterx_variable_unset_value (1%positive, 1) (Sample.world_of Sample.busy_scope) =
       Ok tt w1 /\
     filterx_variable_is_set (1%positive, 1) w1 = Ok false w1).
Proof.
  apply (variable_accessors_round_trip (Sample.world_of Sample.busy_scope) 1%positive
           Sample.busy_scope 1 (mkVariable 20 false true (Some 2%positive)) (Some 3%positive)).
  - reflexivity.
  - reflexivity.
  - intros a Ha. inversion Ha; subst. reflexivity.
  - simpl. eexists. reflexivity.
Defined.

(** ** From a message reference to the message *)

Lemma whiteouts_app l1 l2 : whiteouts (l1 ++ l2) = whiteouts l1 ++ whiteouts l2.
Proof.
  induction l1 as [|x l1 IH]; simpl; [done|].
  destruct (floating x); [done|]. destruct (value x); [done|]. by rewrite IH.
Qed.

Lemma whiteouts_nil_split vars (i : nat) :
  whiteouts vars = [] -> whiteouts (take i vars) = [] /\ whiteouts (drop i vars) = [].
Proof.
  intros H. rewrite <- (take_drop i vars), whiteouts_app in H.
  by apply app_eq_nil in H.
Qed.

Lemma whiteouts_cons_nil x rest : whiteouts (x :: rest) = [] -> whiteouts rest = [].
Proof. simpl. destruct (floating x); [done|]. by destruct (value x). Qed.

Lemma sync_table_noop vars objs m :
  Forall (fun y => settled objs y = true) vars -> whiteouts vars = [] ->
  sync_table_spec vars objs m = TableSynced vars objs m.
Proof. intros Hall Hw. rewrite (sync_table_settled _ _ _ Hall). by rewrite Hw. Qed.

Lemma sync_table_one pre x post objs m x' objs' m' :
  Forall (fun y => settled objs y = true) pre -> whiteouts pre = [] ->
  Forall (fun y => settled objs y = true) post -> whiteouts post = [] ->
  sync_variable_spec x objs m = Synced x' objs' m' ->
  sync_table_spec (pre ++ x :: post) objs m = TableSynced (pre ++ x' :: post) objs' m'.
Proof.
  intros Hpre Hwpre Hpost Hwpost Hx.
  rewrite sync_table_spec_app. rewrite (sync_table_noop _ _ _ Hpre Hwpre). simpl. rewrite Hx.
  destruct (sync_variable_frame _ _ _ _ _ _ Hx) as (_ & Hfc & _).
  rewrite sync_table_noop; [done| |done].
  eapply Forall_impl; [exact Hpost|]. intros y Hy. by eapply settled_flags_cleared.
Qed.

Lemma sync_nothing_pending w self msg s m :
  scopes w !! self = Some s -> messages w !! msg = Some m ->
  g_array_len (variables s) <= G_MAXINT ->
  Forall (fun y => settled (objects w) y = true) (variables s) ->
  whiteouts (variables s) = [] ->
  filterx_scope_sync_to_message self msg w = Ok tt w.
Proof.
  intros Hs Hm Hmax Hall Hw.
  rewrite (filterx_scope_sync_to_message_refines w self msg s m Hs Hm Hmax).
  rewrite (sync_table_noop _ _ _ Hall Hw). f_equal. by apply sync_world_id.
Qed.

Lemma sync_one_pending w self msg s m pre x post x' objs' m' :
  scopes w !! self = Some s -> messages w !! msg = Some m ->
  g_array_len (variables s) <= G_MAXINT ->
  variables s = pre ++ x :: post ->
  Forall (fun y => settled (objects w) y = true) pre -> whiteouts pre = [] ->
  Forall (fun y => settled (objects w) y = true) post -> whiteouts post = [] ->
  sync_variable_spec x (objects w) m = Synced x' objs' m' ->
  filterx_scope_sync_to_message self msg w =
  Ok tt (sync_world w self msg s (pre ++ x' :: post) objs' m').
Proof.
  intros Hs Hm Hmax Hvars Hpre Hwpre Hpost Hwpost Hx.
  rewrite (filterx_scope_sync_to_message_refines w self msg s m Hs Hm Hmax).
  rewrite Hvars. by rewrite (sync_table_one _ _ _ _ _ _ _ _ Hpre Hwpre Hpost Hwpost Hx).
Qed.

(** Whether nothing is pending on a variable depends on the store only
    through the modified-in-place flag of its value. *)
Lemma settled_same_flag objs objs' y :
  (forall a o, value y = Some a -> objs !! a = Some o ->
     exists o', objs' !! a = Some o' /\ modified_in_place o' = modified_in_place o) ->
  settled objs y = true -> settled objs' y = true.
Proof.
  unfold settled. intros Hsame H. destruct (floating y); [done|]. simpl in *.
  destruct (assigned y); [done|]. simpl in *.
  destruct (value y) as [a|]; [|done].
  destruct (objs !! a) as [o|] eqn:Ea; [|done].
  destruct (Hsame a o eq_refl Ea) as (o' & -> & ->). done.
Qed.

Lemma settled_acquire objs p y : settled objs y = true -> settled (acquire p objs) y = true.
Proof.
  apply settled_same_flag. intros a o _ Ha.
  destruct p as [b|]; [|eauto]. destruct (decide (b = a)) as [->|Hne].
  - rewrite (acquire_lookup_eq _ _ _ Ha). eauto.
  - rewrite acquire_lookup_ne by done. eauto.
Qed.

Lemma settled_clone_store objs p y :
  settled objs y = true -> settled (clone_store p objs) y = true.
Proof.
  apply settled_same_flag. intros a o _ Ha.
  rewrite (clone_store_lookup p objs a o Ha). eauto.
Qed.

Lemma settled_release objs p y :
  (forall a o, p = Some a -> value y = Some a -> objs !! a = Some o -> 2 <= obj_ref_cnt o) ->
  settled objs y = true -> settled (release p objs) y = true.
Proof.
  intros Hshared. apply settled_same_flag. intros a o Hy Ha.
  destruct p as [b|]; [|eauto]. destruct (decide (b = a)) as [->|Hne].
  - specialize (Hshared a o eq_refl Hy Ha). simpl. rewrite Ha.
    destruct (Z.eqb_spec (obj_ref_cnt o - 1) 0); [lia|].
    rewrite lookup_insert_eq. eauto.
  - rewrite release_lookup_ne by done. eauto.
Qed.

Lemma settled_fresh objs a o y :
  objs !! a = None -> settled objs y = true -> settled (<[a := o]> objs) y = true.
Proof.
  intros Hfresh. apply settled_same_flag. intros b ob _ Hb.
  rewrite lookup_insert_ne by congruence. eauto.
Qed.

(** An object held by the variable at [i] and by another variable of the
    table counts two references at least. *)
Lemma held_twice s objs (i : nat) x y a o :
  refs_sound s objs -> variables s !! i = Some x ->
  y ∈ take i (variables s) ++ drop (S i) (variables s) ->
  value x = Some a -> value y = Some a -> objs !! a = Some o ->
  2 <= obj_ref_cnt o.
Proof.
  intros Hsound Hi Hy Hx Hya Ha.
  assert (Hheld : 2 <= held (variables s) a).
  { rewrite <- (take_drop_middle _ _ _ Hi). rewrite held_app, held_cons.
    unfold points_to. rewrite decide_True by done.
    assert (0 < held (take i (variables s) ++ drop (S i) (variables s)) a)
      by (apply held_pos; eauto).
    rewrite held_app in *. lia. }
  pose proof (holders_nonneg a (Some <$> weak_refs s)).
  destruct (Hsound a) as (o' & Ho' & Hcnt).
  - unfold scope_refs. rewrite holders_app. unfold held in Hheld. lia.
  - rewrite Ha in Ho'. inversion Ho'; subst.
    unfold scope_refs in Hcnt. rewrite holders_app in Hcnt. unfold held in Hheld. lia.
Qed.

Lemma settled_others_split vars (i : nat) objs :
  Forall (fun y => settled objs y = true) vars ->
  Forall (fun y => settled objs y = true) (take i vars) /\
  Forall (fun y => settled objs y = true) (drop i vars).
Proof. intros H. split; [by apply Forall_take|by apply Forall_drop]. Qed.

Lemma forallb_settled objs vars :
  forallb (settled objs) vars = true -> Forall (fun y => settled objs y = true) vars.
Proof.
  rewrite forallb_forall. intros H. apply Forall_forall. intros y Hy.
  apply H. by apply list_elem_of_In.
Qed.

Lemma refs_sound_all_live w s :
  refs_sound s (objects w) -> Forall (fun x => live w (value x)) (variables s).
Proof.
  intros Hsound. apply Forall_forall. intros x Hx.
  apply live_live_in. by apply (refs_sound_live s).
Qed.

Lemma table_max_gint vars : g_array_len vars <= TABLE_MAX -> g_array_len vars <= G_MAXINT.
Proof. unfold TABLE_MAX, G_MAXINT. lia. Qed.

(** X21.  Reading does not write.  In a scope on which nothing is
    pending (no variable assigned, no value modified in place, no
    whiteout), [_eval] leaves nothing to synchronise, also when it pulled
    the value from the message and registered a variable for it: the
    synchronisation that follows completes without a call to the message,
    and changes nothing at all. *)
Theorem eval_then_sync_leaves_message (w : World) (s : FilterXScope) (msg : address)
    (m : LogMessage) (h0 : NVHandle) :
  scopes w !! scope (eval_context w) = Some s ->
  strictly_ascending (handle <$> variables s) = true ->
  g_array_len (variables s) < TABLE_MAX ->
  msgs (eval_context w) !! 0%nat = Some msg ->
  messages w !! msg = Some m ->
  refs_sound_b s (objects w) = true ->
  forallb (settled (objects w)) (variables s) = true ->
  whiteouts (variables s) = [] ->
  exists r w1,
    _eval h0 w = Ok r w1 /\
    filterx_scope_sync_to_message (scope (eval_context w1)) msg w1 = Ok tt w1.
Proof.
  intros Hs Hsorted%strictly_ascending_sorted Hlt Hmsg Hm Hsound%refs_sound_b_sound
    Hsettled%forallb_settled Hwhite.
  assert (Hmax : g_array_len (variables s) <= TABLE_MAX) by lia.
  pose proof (refs_sound_all_live w s Hsound) as Hlive.
  destruct (handle_bound_or_not (variables s) h0) as [(i & x & Hi & <-)|Hnot].
  - eexists _, _. split.
    { apply (eval_bound w s Hs Hsorted Hmax i x Hi). by eapply live_lookup. }
    apply (sync_nothing_pending _ _ msg s m); [done|done|by apply table_max_gint| |done].
    eapply Forall_impl; [exact Hsettled|]. intros y Hy. by apply settled_acquire.
  - destruct (nv_values m !! h0) as [[repr t]|] eqn:Ev.
    + destruct (eval_pull w s msg m Hs Hsorted Hmax Hmsg Hm h0 repr t Hlt Hnot Ev)
        as (i & Hi & Hrun & _).
      eexists _, _. split; [exact Hrun|].
      set (a := fresh (dom (objects w))) in *.
      assert (Hfresh : objects w !! a = None) by apply not_elem_of_dom, is_fresh.
      destruct (settled_others_split _ i _ Hsettled) as [Hpre Hpost].
      destruct (whiteouts_nil_split _ i Hwhite) as [Hwpre Hwpost].
      eapply (sync_nothing_pending _ _ msg _ m); [apply lookup_insert_eq|done| | |].
      * apply table_max_gint. unfold g_array_len in *. simpl.
        rewrite g_array_insert_val_length. lia.
      * simpl. unfold g_array_insert_val. rewrite Nat2Z.id.
        apply Forall_app. split; [|constructor].
        -- eapply Forall_impl; [exact Hpre|]. intros y Hy. by apply settled_fresh.
        -- unfold settled. simpl. by rewrite lookup_insert_eq.
        -- eapply Forall_impl; [exact Hpost|]. intros y Hy. by apply settled_fresh.
      * simpl. unfold g_array_insert_val. rewrite Nat2Z.id.
        rewrite whiteouts_app. simpl. by rewrite Hwpre, Hwpost.
    + exists None, w. split; [by eapply eval_missing|].
      by apply (sync_nothing_pending _ _ msg s m); [| |apply table_max_gint| |].
Qed.

Lemma eval_then_sync_leaves_message_witness :
  exists r w1,
    _eval 10 (Sample.world_of Sample.empty_scope) = Ok r w1 /\
    filterx_scope_sync_to_message (scope (eval_context w1)) 1%positive w1 = Ok tt w1.
Proof.
  apply (eval_then_sync_leaves_message (Sample.world_of Sample.empty_scope)
           Sample.empty_scope 1%positive Sample.message 10); reflexivity.
Defined.

(** X22.  A write reaches the message with the next synchronisation, and
    nothing else does.  In a scope on which nothing is pending, after
    [_assign] of a value that marshals to [bytes] of type [t], through a
    handle that is not bound to a floating variable, the synchronisation
    completes and leaves the message as one call setting the handle to
    [bytes] and [t] makes it. *)
Theorem assign_then_sync_writes_message (w : World) (s : FilterXScope) (msg : address)
    (m : LogMessage) (h0 : NVHandle) (n : address) (o : FilterXObject) (bytes : string)
    (t : LogMessageValueType) :
  scopes w !! scope (eval_context w) = Some s ->
  strictly_ascending (handle <$> variables s) = true ->
  g_array_len (variables s) < TABLE_MAX ->
  messages w !! msg = Some m ->
  refs_sound_b s (objects w) = true ->
  forallb (settled (objects w)) (variables s) = true ->
  whiteouts (variables s) = [] ->
  (forall x, x ∈ variables s -> handle x = h0 -> floating x = false) ->
  objects w !! n = Some o ->
  1 <= obj_ref_cnt o ->
  obj_repr o = Some (bytes, t) ->
  exists w1 w2,
    _assign h0 (Some n) w = Ok true w1 /\
    filterx_scope_sync_to_message (scope (eval_context w1)) msg w1 = Ok tt w2 /\
    messages w2 !! msg = Some (msg_set m h0 bytes t).
Proof.
  intros Hs Hsorted%strictly_ascending_sorted Hlt Hm Hsound%refs_sound_b_sound
    Hsettled%forallb_settled Hwhite Hfl Hn Hcnt Hrepr.
  assert (Hmax : g_array_len (variables s) <= TABLE_MAX) by lia.
  pose proof (refs_sound_all_live w s Hsound) as Hlive.
  assert (Hown : owned (objects w) (Some n)) by (simpl; eauto).
  destruct (clone_store_owned n o (objects w) Hn Hcnt)
    as (c & oc & Hc & Hoc & Hcnt' & _ & Hrepr' & Hshared).
  set (self := scope (eval_context w)) in *.
  destruct (handle_bound_or_not (variables s) h0) as [(i & x & Hi & <-)|Hnot].
  - pose proof (live_lookup _ _ _ _ Hlive Hi) as Hold.
    pose proof (Hfl x ltac:(by eapply list_elem_of_lookup_2) eq_refl) as Hxfl.
    pose proof (assign_bound w s Hs Hsorted Hmax i x (Some n) Hi Hold Hown) as Hrun.
    rewrite Hc, Hxfl in Hrun.
    destruct (release_keeps (value x) c oc (clone_store (Some n) (objects w)) Hoc Hcnt')
      as (oc' & Hoc' & _ & _ & _ & Hrepr'').
    { intros Hx. apply Hshared. rewrite Hx in Hold. exact Hold. }
    eexists _, _. split; [exact Hrun|].
    set (objs' := release (value x) (clone_store (Some n) (objects w))) in *.
    set (x' := mkVariable (handle x) false true (Some c)).
    destruct (settled_others_split _ i _ Hsettled) as [Hpre _].
    destruct (settled_others_split _ (S i) _ Hsettled) as [_ Hpost].
    destruct (whiteouts_nil_split _ i Hwhite) as [Hwpre _].
    destruct (whiteouts_nil_split _ (S i) Hwhite) as [_ Hwpost].
    assert (Hkeep : forall y, y ∈ take i (variables s) ++ drop (S i) (variables s) ->
              settled (objects w) y = true -> settled objs' y = true).
    { intros y Hy Hsy. apply settled_release; [|by apply settled_clone_store].
      intros a o1 Hxa Hya Ho1.
      assert (is_Some (objects w !! a)) as [oa Hoa] by (rewrite Hxa in Hold; exact Hold).
      pose proof (held_twice s (objects w) i x y a oa Hsound Hi Hy Hxa Hya Hoa) as H2.
      rewrite (clone_store_lookup _ _ _ _ Hoa) in Ho1. inversion Ho1; subst o1. simpl.
      destruct (obj_mutable oa); [lia|]. destruct (decide _); lia. }
    erewrite (sync_one_pending _ self msg _ m (take i (variables s)) x'
                (drop (S i) (variables s))).
    + split; [reflexivity|]. apply lookup_insert_eq.
    + apply lookup_insert_eq.
    + done.
    + apply table_max_gint. unfold g_array_len in *. simpl. by rewrite length_insert.
    + simpl. apply insert_take_drop. by eapply lookup_lt_Some.
    + apply Forall_forall. intros y Hy. apply Hkeep; [apply elem_of_app; by left|].
      rewrite Forall_forall in Hpre. by apply Hpre.
    + done.
    + apply Forall_forall. intros y Hy. apply Hkeep; [apply elem_of_app; by right|].
      rewrite Forall_forall in Hpost. by apply Hpost.
    + done.
    + unfold sync_variable_spec. simpl. change (objects _) with objs'.
      rewrite Hoc'. simpl. rewrite Hrepr'', Hrepr', Hrepr. reflexivity.
  - destruct (assign_unbound w s Hs Hsorted Hmax h0 (Some n) Hlt Hnot Hown)
      as (i & Hi & Hrun & _).
    rewrite Hc in Hrun.
    eexists _, _. split; [exact Hrun|].
    set (x' := mkVariable h0 false true (Some c)).
    destruct (settled_others_split _ i _ Hsettled) as [Hpre Hpost].
    destruct (whiteouts_nil_split _ i Hwhite) as [Hwpre Hwpost].
    erewrite (sync_one_pending _ self msg _ m (take i (variables s)) x'
                (drop i (variables s))).
    + split; [reflexivity|]. apply lookup_insert_eq.
    + apply lookup_insert_eq.
    + done.
    + apply table_max_gint. unfold g_array_len in *. simpl.
      rewrite g_array_insert_val_length. lia.
    + simpl. unfold g_array_insert_val. by rewrite Nat2Z.id.
    + eapply Forall_impl; [exact Hpre|]. intros y Hy. by apply settled_clone_store.
    + done.
    + eapply Forall_impl; [exact Hpost|]. intros y Hy. by apply settled_clone_store.
    + done.
    + unfold sync_variable_spec, x'. cbn [floating value assigned handle objects].
      rewrite Hoc. cbn [orb]. rewrite Hrepr', Hrepr. reflexivity.
Qed.

Lemma assign_then_sync_writes_message_witness :
  exists w1 w2,
    _assign 20 (Some 2%positive) (Sample.world_of Sample.empty_scope) = Ok true w1 /\
    filterx_scope_sync_to_message (scope (eval_context w1)) 1%positive w1 = Ok tt w2 /\
    messages w2 !! 1%positive = Some (msg_set Sample.message 20 "42"%string 4).
Proof.
  apply (assign_then_sync_writes_message (Sample.world_of Sample.empty_scope)
           Sample.empty_scope 1%positive Sample.message 20 2%positive Sample.forty_two).
  - reflexivity.
  - reflexivity.
  - reflexivity.
  - reflexivity.
  - reflexivity.
  - reflexivity.
  - reflexivity.
  - intros x Hx. inversion Hx.
  - reflexivity.
  - simpl. lia.
  - reflexivity.
Defined.

(** X23.  An unset reaches the message with the next synchronisation.
    In a scope on which nothing is pending, after [_unset] through a
    handle that is not bound to a floating variable, the synchronisation
    completes; when the scope had a variable for the handle or the
    message had the field, it leaves the message as one call unsetting
    the handle makes it, and otherwise as it was. *)
Theorem unset_then_sync_unsets_message (w : World) (s : FilterXScope) (msg : address)
    (m : LogMessage) (h0 : NVHandle) :
  scopes w !! scope (eval_context w) = Some s ->
  strictly_ascending (handle <$> variables s) = true ->
  g_array_len (variables s) < TABLE_MAX ->
  msgs (eval_context w) !! 0%nat = Some msg ->
  messages w !! msg = Some m ->
  refs_sound_b s (objects w) = true ->
  forallb (settled (objects w)) (variables s) = true ->
  whiteouts (variables s) = [] ->
  (forall x, x ∈ variables s -> handle x = h0 -> floating x = false) ->
  exists w1 w2,
    _unset h0 w = Ok true w1 /\
    filterx_scope_sync_to_message (scope (eval_context w1)) msg w1 = Ok tt w2 /\
    messages w2 !! msg =
      Some (if bound_in (variables s) h0 || bool_decide (is_Some (nv_values m !! h0))
            then msg_unset m h0 else m).
Proof.
  intros Hs Hsorted%strictly_ascending_sorted Hlt Hmsg Hm Hsound%refs_sound_b_sound
    Hsettled%forallb_settled Hwhite Hfl.
  assert (Hmax : g_array_len (variables s) <= TABLE_MAX) by lia.
  pose proof (refs_sound_all_live w s Hsound) as Hlive.
  set (self := scope (eval_context w)) in *.
  destruct (handle_bound_or_not (variables s) h0) as [(i & x & Hi & <-)|Hnot].
  - pose proof (live_lookup _ _ _ _ Hlive Hi) as Hold.
    pose proof (Hfl x ltac:(by eapply list_elem_of_lookup_2) eq_refl) as Hxfl.
    assert (Hb : bound_in (variables s) (handle x) = true).
    { apply bound_in_true. exists x. split; [by eapply list_elem_of_lookup_2|done]. }
    rewrite Hb. simpl.
    pose proof (unset_bound w s Hs Hsorted Hmax i x Hi Hold) as Hrun.
    rewrite Hxfl in Hrun.
    eexists _, _. split; [exact Hrun|].
    set (objs' := release (value x) (objects w)) in *.
    set (x' := mkVariable (handle x) false true None).
    destruct (settled_others_split _ i _ Hsettled) as [Hpre _].
    destruct (settled_others_split _ (S i) _ Hsettled) as [_ Hpost].
    destruct (whiteouts_nil_split _ i Hwhite) as [Hwpre _].
    destruct (whiteouts_nil_split _ (S i) Hwhite) as [_ Hwpost].
    assert (Hkeep : forall y, y ∈ take i (variables s) ++ drop (S i) (variables s) ->
              settled (objects w) y = true -> settled objs' y = true).
    { intros y Hy Hsy. apply settled_release; [|done].
      intros a o1 Hxa Hya Ho1.
      exact (held_twice s (objects w) i x y a o1 Hsound Hi Hy Hxa Hya Ho1). }
    erewrite (sync_one_pending _ self msg _ m (take i (variables s)) x'
                (drop (S i) (variables s))).
    + split; [reflexivity|]. apply lookup_insert_eq.
    + apply lookup_insert_eq.
    + done.
    + apply table_max_gint. unfold g_array_len in *. simpl. by rewrite length_insert.
    + simpl. apply insert_take_drop. by eapply lookup_lt_Some.
    + apply Forall_forall. intros y Hy. apply Hkeep; [apply elem_of_app; by left|].
      rewrite Forall_forall in Hpre. by apply Hpre.
    + done.
    + apply Forall_forall. intros y Hy. apply Hkeep; [apply elem_of_app; by right|].
      rewrite Forall_forall in Hpost. by apply Hpost.
    + done.
    + reflexivity.
  - assert (Hb : bound_in (variables s) h0 = false).
    { apply not_true_iff_false. intros (x & Hx & Hhx)%bound_in_true. by eapply Hnot. }
    rewrite Hb. simpl.
    destruct (nv_values m !! h0) as [r|] eqn:Ev.
    + rewrite bool_decide_eq_true_2 by eauto.
      destruct (unset_whiteout w s msg m Hs Hsorted Hmax Hmsg Hm h0 Hlt Hnot ltac:(eauto))
        as (i & Hi & Hrun & _).
      eexists _, _. split; [exact Hrun|].
      set (x' := mkVariable h0 false false None).
      destruct (settled_others_split _ i _ Hsettled) as [Hpre Hpost].
      destruct (whiteouts_nil_split _ i Hwhite) as [Hwpre Hwpost].
      erewrite (sync_one_pending _ self msg _ m (take i (variables s)) x'
                  (drop i (variables s))).
      * split; [reflexivity|]. apply lookup_insert_eq.
      * apply lookup_insert_eq.
      * done.
      * apply table_max_gint. unfold g_array_len in *. simpl.
        rewrite g_array_insert_val_length. lia.
      * simpl. unfold g_array_insert_val. by rewrite Nat2Z.id.
      * done.
      * done.
      * done.
      * done.
      * reflexivity.
    + rewrite bool_decide_eq_false_2 by (by intros [? ?]).
      exists w, w. split; [by eapply unset_nothing|]. split; [|done].
      by apply (sync_nothing_pending _ _ msg s m); [| |apply table_max_gint| |].
Qed.

Lemma unset_then_sync_unsets_message_witness :
  exists w1 w2,
    _unset 30 (Sample.world_of Sample.empty_scope) = Ok true w1 /\
    filterx_scope_sync_to_message (scope (eval_context w1)) 1%positive w1 = Ok tt w2 /\
    messages w2 !! 1%positive = Some (msg_unset Sample.message 30).
Proof.
  apply (unset_then_sync_unsets_message (Sample.world_of Sample.empty_scope)
           Sample.empty_scope 1%positive Sample.message 30).
  - reflexivity.
  - reflexivity.
  - reflexivity.
  - reflexivity.
  - reflexivity.
  - reflexivity.
  - reflexivity.
  - reflexivity.
  - intros x Hx. inversion Hx.
Defined.

(** ** Reference counts under copy-on-write *)

(** X24.  Copy-on-write keeps the reference counts in balance.  When
    [filterx_scope_make_writable] clones a write-protected scope, every
    object that existed gains, if it is immutable, as many references as
    variables of the scope hold it, those of the clone, and none if it is
    mutable, the clone holding copies; and if the reference given up was
    the last on the scope, it loses as many as the scope had pointers to
    it.  So an immutable value passes from a scope held once to its clone
    with its count unchanged, but for the weak references dropped. *)
Theorem make_writable_conserves_references (w : World) (p : address) (s : FilterXScope) :
  scopes w !! p = Some s ->
  write_protected s = true ->
  g_array_len (variables s) <= G_MAXINT ->
  refs_sound_b s (objects w) = true ->
  exists p' w',
    filterx_scope_make_writable p w = Ok p' w' /\
    forall a o, objects w !! a = Some o ->
      ref_count (objects w') a =
      obj_ref_cnt o + (if obj_mutable o then 0 else held (variables s) a)
                    - (if ref_cnt s =? 1 then holders a (scope_refs s) else 0).
Proof.
  intros Hs Hwp Hmax Hsound%refs_sound_b_sound.
  pose proof (filterx_scope_make_writable_Ok w p s Hs Hmax Hsound) as Hmw.
  rewrite Hwp in Hmw. eexists _, _. split; [exact Hmw|].
  intros a o Ha.
  assert (Hclone : ref_count (clone_table (variables s) (objects w)).2 a =
            obj_ref_cnt o + (if obj_mutable o then 0 else held (variables s) a)).
  { unfold ref_count. rewrite (clone_table_lookup _ _ _ _ Ha). simpl. unfold held.
    destruct (obj_mutable o); lia. }
  unfold writable_world.
  destruct (Z.eqb_spec (ref_cnt s - 1) 0) as [H1|Hn1].
  - destruct (Z.eqb_spec (ref_cnt s) 1); [|lia]. simpl.
    rewrite release_all_count by by apply refs_sound_clone_table.
    by rewrite Hclone.
  - destruct (Z.eqb_spec (ref_cnt s) 1); [lia|]. simpl. rewrite Hclone. lia.
Qed.

Lemma make_writable_conserves_references_witness :
  exists p' w',
    filterx_scope_make_writable 1%positive (Sample.world_of Sample.shared_scope) = Ok p' w' /\
    ref_count (objects w') 1%positive = 2 /\
    ref_count (objects w') 3%positive = 1.
Proof.
  destruct (make_writable_conserves_references (Sample.world_of Sample.shared_scope)
              1%positive Sample.shared_scope) as (p' & w' & Hmw & Hcount).
  - reflexivity.
  - reflexivity.
  - vm_compute. discriminate.
  - reflexivity.
  - exists p', w'. split; [exact Hmw|]. split.
    + exact (Hcount 1%positive Sample.hello eq_refl).
    + exact (Hcount 3%positive Sample.dict eq_refl).
Defined.

(** ** Values held by more than one variable *)

Lemma sync_table_app_inv l1 l2 objs m vs o mm :
  sync_table_spec (l1 ++ l2) objs m = TableSynced vs o mm ->
  exists vs1 o1 m1 vs2,
    sync_table_spec l1 objs m = TableSynced vs1 o1 m1 /\
    sync_table_spec l2 o1 m1 = TableSynced vs2 o mm /\
    vs = vs1 ++ vs2.
Proof.
  rewrite sync_table_spec_app.
  destruct (sync_table_spec l1 objs m) as [vs1 o1 m1| |]; [|done|done].
  destruct (sync_table_spec l2 o1 m1) as [vs2 o2 m2| |] eqn:E2; [|done|done].
  intros H. inversion H; subst. eauto 10.
Qed.

Lemma sync_table_cons_inv x l objs m vs o mm :
  sync_table_spec (x :: l) objs m = TableSynced vs o mm ->
  exists x' o1 m1 vs',
    sync_variable_spec x objs m = Synced x' o1 m1 /\
    sync_table_spec l o1 m1 = TableSynced vs' o mm /\
    vs = x' :: vs'.
Proof.
  simpl. destruct (sync_variable_spec x objs m) as [x' o1 m1| |]; [|done|done].
  destruct (sync_table_spec l o1 m1) as [vs' o' mm'| |] eqn:E; [|done|done].
  intros H. inversion H; subst. eauto 10.
Qed.

(** A run over variables none of which has the handle [h] makes no call
    for [h]. *)
Lemma sync_table_skips vars objs m vs o mm h :
  sync_table_spec vars objs m = TableSynced vs o mm ->
  h ∉ handle <$> vars ->
  nv_values mm !! h = nv_values m !! h /\
  exists new, nv_calls mm = nv_calls m ++ new /\ forall c, c ∈ new -> call_handle c <> h.
Proof.
  intros Hrun Hh. destruct (sync_table_spec_calls _ _ _ _ _ _ Hrun) as (new & Hcalls & Hin & Hkeep).
  split; [by apply Hkeep|]. exists new. split; [done|].
  intros c Hc Heq. apply Hh. rewrite <- Heq. by apply Hin.
Qed.

(** X25.  A value is written for the first variable holding it only.
    When two variables of a scope that are not floating hold the same
    object, a completed synchronisation never writes the later one to the
    message unless it is assigned: it makes no call for its handle and
    leaves its field as it was, also when the object was modified in
    place, the modified-in-place flag having been cleared, if it was set,
    when the earlier variable was written. *)
Theorem sync_writes_shared_value_once (w : World) (self msg : address) (s : FilterXScope)
    (m : LogMessage) (w1 : World) (pre mid post : list FilterXVariable)
    (x y : FilterXVariable) (a : address) :
  scopes w !! self = Some s ->
  messages w !! msg = Some m ->
  g_array_len (variables s) <= G_MAXINT ->
  strictly_ascending (handle <$> variables s) = true ->
  variables s = pre ++ x :: mid ++ y :: post ->
  floating x = false -> value x = Some a ->
  floating y = false -> assigned y = false -> value y = Some a ->
  filterx_scope_sync_to_message self msg w = Ok tt w1 ->
  exists m1 new,
    messages w1 !! msg = Some m1 /\
    nv_values m1 !! handle y = nv_values m !! handle y /\
    nv_calls m1 = nv_calls m ++ new /\
    forall c, c ∈ new -> call_handle c <> handle y.
Proof.
  intros Hs Hm Hmax Hnd%strictly_ascending_sorted%table_sorted_NoDup Hvars
    Hxfl Hxv Hyfl Hyas Hyv Hrun.
  rewrite (filterx_scope_sync_to_message_refines w self msg s m Hs Hm Hmax) in Hrun.
  destruct (sync_table_spec (variables s) (objects w) m) as [vs o mm| |] eqn:Etable;
    [|done|done].
  inversion Hrun; subst w1. clear Hrun.
  exists mm. rewrite Hvars in Etable, Hnd.
  rewrite fmap_app, fmap_cons, fmap_app, fmap_cons in Hnd.
  apply NoDup_app in Hnd as (_ & Hpre & Hnd).
  apply NoDup_cons in Hnd as (Hx & Hnd).
  apply NoDup_app in Hnd as (_ & Hmid & Hnd).
  apply NoDup_cons in Hnd as (Hpost & _).
  assert (Hypre : handle y ∉ handle <$> pre).
  { intros Hin. apply (Hpre _ Hin). right. apply elem_of_app. right. left. }
  assert (Hyx : handle y <> handle x).
  { intros Heq. apply Hx. rewrite <- Heq. apply elem_of_app. right. left. }
  assert (Hymid : handle y ∉ handle <$> mid).
  { intros Hin. apply (Hmid _ Hin). left. }
  apply sync_table_app_inv in Etable as (vs1 & o1 & m1 & vs2 & Epre & Etable & _).
  apply sync_table_cons_inv in Etable as (x' & o2 & m2 & vs3 & Ex & Etable & _).
  apply sync_table_app_inv in Etable as (vs4 & o3 & m3 & vs5 & Emid & Etable & _).
  apply sync_table_cons_inv in Etable as (y' & o4 & m4 & vs6 & Ey & Epost & _).
  (* once the earlier variable is done its value is not flagged *)
  destruct (sync_variable_frame _ _ _ _ _ _ Ex) as ((_ & Hfl' & Hv' & _) & _ & Hsettled).
  pose proof (sync_table_frame mid o2 m2) as Hframe. rewrite Emid in Hframe.
  destruct Hframe as (_ & Hfc & _).
  pose proof (settled_flags_cleared _ _ _ Hfc Hsettled) as Hsettled3.
  assert (Hy : sync_variable_spec y o3 m3 = Synced y o3 m3).
  { unfold settled in Hsettled3. rewrite Hfl', Hv', Hxfl, Hxv in Hsettled3. simpl in Hsettled3.
    apply andb_true_iff in Hsettled3 as [_ Ha].
    unfold sync_variable_spec. rewrite Hyfl, Hyv, Hyas.
    destruct (o3 !! a) as [oa|]; [|done]. simpl.
    by destruct (modified_in_place oa). }
  rewrite Hy in Ey. inversion Ey; subst y' o4 m4. clear Ey.
  destruct (sync_table_skips _ _ _ _ _ _ _ Epre Hypre) as (Hv1 & new1 & Hc1 & Hn1).
  destruct (sync_variable_spec_calls _ _ _ _ _ _ Ex) as (new2 & Hc2 & Hn2 & Hv2).
  destruct (sync_table_skips _ _ _ _ _ _ _ Emid Hymid) as (Hv3 & new3 & Hc3 & Hn3).
  destruct (sync_table_skips _ _ _ _ _ _ _ Epost Hpost) as (Hv4 & new4 & Hc4 & Hn4).
  exists (new1 ++ new2 ++ new3 ++ new4).
  split; [apply lookup_insert_eq|]. split; [|split].
  - rewrite Hv4, Hv3, (Hv2 _ Hyx). exact Hv1.
  - rewrite Hc4, Hc3, Hc2, Hc1. by rewrite <- !app_assoc.
  - intros c Hc. rewrite !elem_of_app in Hc.
    destruct Hc as [Hc|[Hc|[Hc|Hc]]]; [by apply Hn1| |by apply Hn3|by apply Hn4].
    rewrite (Hn2 c Hc). congruence.
Qed.

Lemma sync_writes_shared_value_once_witness :
  exists w1 m1,
    filterx_scope_sync_to_message 1%positive 1%positive SampleShared.world = Ok tt w1 /\
    messages w1 !! 1%positive = Some m1 /\
    nv_values m1 !! 20 = None /\
    nv_calls m1 = [CallSetValue 10 "{}"%string 1].
Proof.
  destruct (sync_writes_shared_value_once SampleShared.world 1%positive 1%positive
              (mkScope 1 SampleShared.table [] false) Sample.message _
              [] [] [] (mkVariable 10 false false (Some 3%positive))
              (mkVariable 20 false false (Some 3%positive)) 3%positive
              eq_refl eq_refl ltac:(vm_compute; discriminate) eq_refl eq_refl
              eq_refl eq_refl eq_refl eq_refl eq_refl eq_refl)
    as (m1 & new & Hm1 & Hval & _).
  eexists _, m1. split; [reflexivity|]. split; [exact Hm1|].
  split; [exact Hval|]. vm_compute in Hm1. by inversion Hm1.
Defined.

(** ** Floating variables *)

(** X26.  A floating variable never reaches the message.  Whatever its
    value and whether or not it is assigned, a completed synchronisation
    makes no call for the handle of a floating variable, leaves the field
    of the message under that handle as it was, and leaves the variable
    itself untouched, its [assigned] flag included. *)
Theorem sync_skips_floating (w : World) (self msg : address) (s : FilterXScope)
    (m : LogMessage) (w1 : World) (pre post : list FilterXVariable) (x : FilterXVariable) :
  scopes w !! self = Some s ->
  messages w !! msg = Some m ->
  g_array_len (variables s) <= G_MAXINT ->
  strictly_ascending (handle <$> variables s) = true ->
  variables s = pre ++ x :: post ->
  floating x = true ->
  filterx_scope_sync_to_message self msg w = Ok tt w1 ->
  exists s1 m1 new,
    scopes w1 !! self = Some s1 /\
    variables s1 !! length pre = Some x /\
    messages w1 !! msg = Some m1 /\
    nv_values m1 !! handle x = nv_values m !! handle x /\
    nv_calls m1 = nv_calls m ++ new /\
    forall c, c ∈ new -> call_handle c <> handle x.
Proof.
  intros Hs Hm Hmax Hnd%strictly_ascending_sorted%table_sorted_NoDup Hvars Hfl Hrun.
  rewrite (filterx_scope_sync_to_message_refines w self msg s m Hs Hm Hmax) in Hrun.
  destruct (sync_table_spec (variables s) (objects w) m) as [vs o mm| |] eqn:Etable;
    [|done|done].
  inversion Hrun; subst w1. clear Hrun.
  rewrite Hvars in Etable, Hnd.
  rewrite fmap_app, fmap_cons in Hnd.
  apply NoDup_app in Hnd as (_ & Hpre & Hnd).
  apply NoDup_cons in Hnd as (Hpost & _).
  assert (Hxpre : handle x ∉ handle <$> pre).
  { intros Hin. apply (Hpre _ Hin). left. }
  apply sync_table_app_inv in Etable as (vs1 & o1 & m1 & vs2 & Epre & Etable & ->).
  apply sync_table_cons_inv in Etable as (x' & o2 & m2 & vs3 & Ex & Epost & ->).
  unfold sync_variable_spec in Ex. rewrite Hfl in Ex. inversion Ex; subst x' o2 m2. clear Ex.
  pose proof (sync_table_frame pre (objects w) m) as Hframe. rewrite Epre in Hframe.
  destruct Hframe as (Hlen%Forall2_length & _).
  destruct (sync_table_skips _ _ _ _ _ _ _ Epre Hxpre) as (Hv1 & new1 & Hc1 & Hn1).
  destruct (sync_table_skips _ _ _ _ _ _ _ Epost Hpost) as (Hv2 & new2 & Hc2 & Hn2).
  eexists _, mm, (new1 ++ new2).
  split; [apply lookup_insert_eq|]. split; [|split; [apply lookup_insert_eq|split; [|split]]].
  - simpl. rewrite Hlen. rewrite lookup_app_r by lia.
    by replace (length vs1 - length vs1)%nat with 0%nat by lia.
  - by rewrite Hv2.
  - rewrite Hc2, Hc1. by rewrite <- app_assoc.
  - intros c Hc. rewrite elem_of_app in Hc. destruct Hc as [Hc|Hc]; [by apply Hn1|by apply Hn2].
Qed.

Lemma sync_skips_floating_witness :
  exists w1 s1 m1,
    filterx_scope_sync_to_message 1%positive 1%positive (Sample.world_of Sample.busy_scope)
      = Ok tt w1 /\
    scopes w1 !! 1%positive = Some s1 /\
    variables s1 !! 3%nat = Some (mkVariable 40 true true (Some 3%positive)) /\
    messages w1 !! 1%positive = Some m1 /\
    nv_values m1 !! 40 = None.
Proof.
  destruct (sync_skips_floating (Sample.world_of Sample.busy_scope) 1%positive 1%positive
              Sample.busy_scope Sample.message _
              (take 3 Sample.table) [] (mkVariable 40 true true (Some 3%positive))
              eq_refl eq_refl ltac:(vm_compute; discriminate) eq_refl eq_refl eq_refl eq_refl)
    as (s1 & m1 & new & Hs1 & Hx & Hm1 & Hval & _).
  eexists _, s1, m1. split; [reflexivity|]. split; [exact Hs1|].
  split; [exact Hx|]. split; [exact Hm1|exact Hval].
Defined.

(** ** Lookups in a clone *)

(** The search looks at handles only. *)
Lemma lookup_loop_handles vars vars' h0 :
  handle <$> vars' = handle <$> vars ->
  forall fuel l h, lookup_loop fuel vars' h0 l h = lookup_loop fuel vars h0 l h.
Proof.
  intros Hh.
  assert (Hidx : forall i, handle <$> g_array_index vars' i = handle <$> g_array_index vars i).
  { intros i. unfold g_array_index. destruct (0 <=? i); [|done].
    by rewrite <- !list_lookup_fmap, Hh. }
  induction fuel as [|fuel IH]; intros l h; simpl; [done|].
  destruct (l <=? h); [|done]. destruct (gint_add l h) as [sum|]; [|done].
  specialize (Hidx (sum ≫ 1)).
  destruct (g_array_index vars' (sum ≫ 1)) as [e'|], (g_array_index vars (sum ≫ 1)) as [e|];
    simpl in Hidx; try done.
  inversion Hidx as [He]. rewrite He.
  destruct (handle e =? h0); [done|].
  destruct (handle e >? h0).
  - destruct (gint_sub (sum ≫ 1) 1); [apply IH|done].
  - destruct (gint_add (sum ≫ 1) 1); [apply IH|done].
Qed.

Lemma _lookup_variable_handles vars vars' h0 :
  handle <$> vars' = handle <$> vars ->
  _lookup_variable vars' h0 = _lookup_variable vars h0.
Proof.
  intros Hh. unfold _lookup_variable, g_array_len.
  assert (length vars' = length vars) as ->.
  { by rewrite <- (length_fmap handle vars'), Hh, length_fmap. }
  by apply lookup_loop_handles.
Qed.

(** X27.  The clone answers lookups as the original did.  For a
    write-protected scope, whatever the order of its handles, the scope
    [filterx_scope_make_writable] returns finds a variable for a handle
    exactly when the original found one, at the same index, and a variable
    found has the handle sought in both. *)
Theorem clone_looks_up_like_original (w : World) (p : address) (s : FilterXScope)
    (h0 : NVHandle) :
  scopes w !! p = Some s ->
  write_protected s = true ->
  g_array_len (variables s) <= G_MAXINT ->
  refs_sound_b s (objects w) = true ->
  exists p' w' s',
    filterx_scope_make_writable p w = Ok p' w' /\
    scopes w' !! p' = Some s' /\
    _lookup_variable (variables s') h0 = _lookup_variable (variables s) h0 /\
    filterx_scope_lookup_variable p' h0 w' =
    match filterx_scope_lookup_variable p h0 w with
    | Ok (Some v) _ => Ok (Some (p', v.2)) w'
    | Ok None _ => Ok None w'
    | Abort _ => Abort w'
    | Undefined => Undefined
    | OutOfFuel => OutOfFuel
    end.
Proof.
  intros Hs Hwp Hmax Hsound%refs_sound_b_sound.
  pose proof (filterx_scope_make_writable_Ok w p s Hs Hmax Hsound) as Hmw.
  rewrite Hwp in Hmw.
  pose proof (writable_world_clone w p s Hs) as Hs'.
  eexists _, _, _. split; [exact Hmw|]. split; [exact Hs'|].
  assert (Hlookup : _lookup_variable (clone_table (variables s) (objects w)).1 h0 =
            _lookup_variable (variables s) h0)
    by apply _lookup_variable_handles, clone_table_handles.
  split; [exact Hlookup|].
  unfold filterx_scope_lookup_variable.
  rewrite (bind_Ok _ _ _ _ _ (get_scope_Ok _ _ _ Hs')).
  rewrite (bind_Ok _ _ _ _ _ (get_scope_Ok _ _ _ Hs)).
  cbn [variables]. rewrite Hlookup.
  by destruct (_lookup_variable (variables s) h0) as [[|] i| |].
Qed.

Lemma clone_looks_up_like_original_witness :
  exists p' w',
    filterx_scope_make_writable 1%positive (Sample.world_of Sample.shared_scope) = Ok p' w' /\
    filterx_scope_lookup_variable p' 30 w' = Ok (Some (p', 2)) w' /\
    filterx_scope_lookup_variable 1%positive 30 (Sample.world_of Sample.shared_scope) =
      Ok (Some (1%positive, 2)) (Sample.world_of Sample.shared_scope).
Proof.
  destruct (clone_looks_up_like_original (Sample.world_of Sample.shared_scope) 1%positive
              Sample.shared_scope 30) as (p' & w' & s' & Hmw & _ & _ & Hlookup).
  - reflexivity.
  - reflexivity.
  - vm_compute. discriminate.
  - reflexivity.
  - exists p', w'. split; [exact Hmw|]. split; [exact Hlookup|reflexivity].
Defined.

(** ** The state a synchronisation leaves *)

Lemma sync_table_floating vars : forall objs m vs o mm,
  sync_table_spec vars objs m = TableSynced vs o mm ->
  forall (i : nat) x, vars !! i = Some x -> floating x = true -> vs !! i = Some x.
Proof.
  induction vars as [|x0 rest IH]; intros objs m vs o mm Etable i x Hi Hfl; [done|].
  apply sync_table_cons_inv in Etable as (x' & o1 & m1 & vs' & Ex & Erest & ->).
  destruct i as [|i]; simpl in *.
  - inversion Hi; subst x0. unfold sync_variable_spec in Ex. rewrite Hfl in Ex.
    by inversion Ex.
  - by eapply IH.
Qed.

(** X28.  A completed synchronisation settles the scope: afterwards no
    variable that is not floating is assigned, and no value held by such a
    variable is flagged as modified in place; floating variables are as
    they were. *)
Theorem sync_settles_the_scope (w : World) (self msg : address) (s : FilterXScope)
    (m : LogMessage) (w1 : World) :
  scopes w !! self = Some s ->
  messages w !! msg = Some m ->
  g_array_len (variables s) <= G_MAXINT ->
  filterx_scope_sync_to_message self msg w = Ok tt w1 ->
  exists s1,
    scopes w1 !! self = Some s1 /\
    forallb (settled (objects w1)) (variables s1) = true /\
    (forall (i : nat) x, variables s !! i = Some x -> floating x = true ->
       variables s1 !! i = Some x).
Proof.
  intros Hs Hm Hmax Hrun.
  rewrite (filterx_scope_sync_to_message_refines w self msg s m Hs Hm Hmax) in Hrun.
  pose proof (sync_table_frame (variables s) (objects w) m) as Hframe.
  destruct (sync_table_spec (variables s) (objects w) m) as [vs o mm| |] eqn:Etable;
    [|done|done].
  inversion Hrun; subst w1. clear Hrun. destruct Hframe as (Hvs & _ & Hsettled).
  eexists. split; [apply lookup_insert_eq|]. simpl. split.
  - apply forallb_forall. intros y Hy%list_elem_of_In.
    rewrite Forall_forall in Hsettled. by apply Hsettled.
  - intros i x Hi Hfl. by eapply sync_table_floating.
Qed.

Lemma sync_settles_the_scope_witness :
  exists w1 s1,
    filterx_scope_sync_to_message 1%positive 1%positive (Sample.world_of Sample.busy_scope)
      = Ok tt w1 /\
    scopes w1 !! 1%positive = Some s1 /\
    forallb (settled (objects w1)) (variables s1) = true.
Proof.
  destruct (sync_settles_the_scope (Sample.world_of Sample.busy_scope) 1%positive 1%positive
              Sample.busy_scope Sample.message _ eq_refl eq_refl
              ltac:(vm_compute; discriminate) eq_refl) as (s1 & Hs1 & Hsettled & _).
  eexists _, s1. split; [reflexivity|]. split; [exact Hs1|exact Hsettled].
Defined.

(** ** Weak references and the end of a scope *)

Lemma filterx_scope_store_weak_ref_Ok w self s a o :
  scopes w !! self = Some s -> write_protected s = false -> objects w !! a = Some o ->
  filterx_scope_store_weak_ref self (Some a) w =
  Ok tt (mkWorld (acquire (Some a) (objects w))
           (<[self := mkScope (ref_cnt s) (variables s) (weak_refs s ++ [a]) false]> (scopes w))
           (messages w) (eval_context w)).
Proof.
  intros Hs Hwp Ha. unfold filterx_scope_store_weak_ref.
  rewrite (bind_Ok _ _ _ _ _ (get_scope_Ok _ _ _ Hs)). rewrite Hwp. simpl.
  rewrite bind_ret.
  assert (Hlive : live w (Some a)) by (simpl; eauto).
  rewrite (bind_Ok _ _ _ _ _ (filterx_object_ref_Ok _ _ Hlive)).
  assert (Hs' : scopes (with_objects (acquire (Some a)) w) !! self = Some s) by done.
  rewrite (bind_Ok _ _ _ _ _ (get_scope_Ok _ _ _ Hs')).
  rewrite (put_scope_Ok _ _ s _ Hs').
  unfold with_scopes, with_objects. cbn [objects scopes messages eval_context]. by rewrite Hwp.
Qed.

(** X29.  A weak reference is a reference the scope owns and gives back.
    Storing an object as a weak reference of a writable scope held once
    and then releasing the scope frees the scope and leaves every object,
    the one stored included, with the count it had less the pointers the
    scope had to it before: the reference taken for the weak reference is
    released with the scope, and the caller's own on the object stays. *)
Theorem weak_ref_is_released_with_the_scope (w : World) (self : address)
    (s : FilterXScope) (a : address) (o : FilterXObject) :
  scopes w !! self = Some s ->
  write_protected s = false ->
  ref_cnt s = 1 ->
  refs_sound_b s (objects w) = true ->
  objects w !! a = Some o ->
  1 <= obj_ref_cnt o ->
  exists w2,
    (filterx_scope_store_weak_ref self (Some a);; filterx_scope_unref self) w = Ok tt w2 /\
    scopes w2 !! self = None /\
    forall b, ref_count (objects w2) b = ref_count (objects w) b - holders b (scope_refs s).
Proof.
  intros Hs Hwp Hcnt Hsound%refs_sound_b_sound Ha Hown.
  rewrite (bind_Ok _ _ _ _ _ (filterx_scope_store_weak_ref_Ok _ _ _ _ _ Hs Hwp Ha)).
  set (s1 := mkScope (ref_cnt s) (variables s) (weak_refs s ++ [a]) false).
  set (w1 := mkWorld _ _ _ _).
  assert (Hs1 : scopes w1 !! self = Some s1) by apply lookup_insert_eq.
  assert (Hrefs : forall b, holders b (scope_refs s1) =
                            holders b (scope_refs s) + points_to (Some a) b).
  { intros b. unfold scope_refs. simpl. rewrite fmap_app, !holders_app. simpl.
    unfold points_to. lia. }
  assert (Hcount : forall b, ref_count (objects w1) b =
                             ref_count (objects w) b + points_to (Some a) b).
  { intros b. simpl objects. apply (ref_count_acquire (objects w) (Some a) b). simpl. eauto. }
  assert (Hsound1 : refs_sound s1 (objects w1)).
  { intros b Hb.
    assert (H0 : 0 < ref_count (objects w1) b /\
                 holders b (scope_refs s1) <= ref_count (objects w1) b).
    { rewrite Hcount, Hrefs in *. pose proof (holders_nonneg b (scope_refs s)) as Hnn.
      destruct (decide (0 < holders b (scope_refs s))) as [Hpos|Hzero].
      - destruct (Hsound b Hpos) as (ob & Hob & Hle). unfold ref_count. rewrite Hob.
        destruct (points_to_cases (Some a) b) as [->|[-> _]]; lia.
      - destruct (points_to_cases (Some a) b) as [Hp|[Hp Heq]]; [lia|].
        inversion Heq; subst b. unfold ref_count. rewrite Ha. lia. }
    destruct H0 as [Hpos Hle]. destruct (ref_count_live _ _ Hpos) as [ob Hob].
    exists ob. split; [done|]. unfold ref_count in Hle. by rewrite Hob in Hle. }
  rewrite (filterx_scope_unref_Ok w1 self s1 Hs1 Hsound1).
  change (ref_cnt s1) with (ref_cnt s). rewrite Hcnt. simpl.
  eexists. split; [reflexivity|]. split.
  - simpl. apply lookup_delete_eq.
  - intros b. simpl objects. rewrite release_all_count by exact Hsound1.
    change (acquire (Some a) (objects w)) with (objects w1).
    rewrite Hcount, Hrefs. lia.
Qed.

Lemma weak_ref_is_released_with_the_scope_witness :
  exists w2,
    (filterx_scope_store_weak_ref 1%positive (Some 3%positive);;
     filterx_scope_unref 1%positive) (Sample.world_of Sample.busy_scope) = Ok tt w2 /\
    scopes w2 !! 1%positive = None /\
    ref_count (objects w2) 3%positive = 0.
Proof.
  destruct (weak_ref_is_released_with_the_scope (Sample.world_of Sample.busy_scope) 1%positive
              Sample.busy_scope 3%positive Sample.dict) as (w2 & Hrun & Hfreed & Hcount).
  - reflexivity.
  - reflexivity.
  - reflexivity.
  - reflexivity.
  - reflexivity.
  - simpl. lia.
  - exists w2. split; [exact Hrun|]. split; [exact Hfreed|]. exact (Hcount 3%positive).
Defined.
